(** * Bitstream address allocation and clock-graph augmentation of the
      OpenFPGA back end

    Two source files are embedded here.

    - [ClockGraph]: [openfpga/src/annotation/append_clock_rr_graph.cpp],
      which estimates, creates and wires the clock nodes that are appended
      to a routing-resource graph.
    - [Routing]: [vpr7_x2p/vpr/SRC/fpga_x2p/verilog/verilog_routing.c], the
      switch-block part: interconnect classification, configuration-bit
      counting, emission of the multiplexers and the allocation of the
      configuration addresses of every block.
    - [ClockGraphStages]: the stages of the clock graph extender one by
      one, the node stage, the lookup it fills and the edge stage.
    - [SwitchBlockPasses]: the segments in the bit count of a switch block,
      and the pass of the full-array backend over the switch blocks.
    - [Channels]: the modules of the routing channels of the same file.
    - [ConnectionBlocks]: the connection-block part of the same file, and
      the compact flow of [print_verilog_routing_resources].
    - [LegacyConnectionBlocks]: the connection blocks of the full-array
      backend of the same file.

    Functions keep the names of the source.  A call of [exit(1)], a failed
    [assert] and a failed [VTR_ASSERT] all end the run: they are the value
    [None] of the functions below. *)

From Stdlib Require Import ZArith NArith List Lia Bool Sorted FinFun Permutation.
From Stdlib Require String Ascii DecimalString DecimalN.
Import ListNotations.

(** ** Loops and folds shared by both parts *)

Section Folds.
Context {A B C : Type}.

(** A loop nest over [flat_map] is the loop over the inner lists. *)
Lemma fold_left_flat_map (f : A -> C -> A) (g : B -> list C) (l : list B) (a : A) :
  fold_left f (flat_map g l) a = fold_left (fun acc x => fold_left f (g x) acc) l a.
Proof.
  revert a; induction l as [|x l IH]; intro a; simpl; [reflexivity|].
  now rewrite fold_left_app, IH.
Qed.
End Folds.

(** In-place update of one cell of an array. *)
Fixpoint update_nth {A : Type} (f : A -> A) (i : nat) (l : list A) : list A :=
  match l, i with
  | [], _ => []
  | x :: r, O => f x :: r
  | x :: r, S j => x :: update_nth f j r
  end.

Lemma update_nth_last {A : Type} (f : A -> A) (l : list A) (x : A) :
  update_nth f (length l) (l ++ [x]) = l ++ [f x].
Proof. induction l as [|y l IH]; simpl; [reflexivity | now rewrite IH]. Qed.

(* ====================================================================== *)
(** * Part 1: the clock graph extender *)
(* ====================================================================== *)

Module ClockGraph.
Local Open Scope N_scope.

(** ** [size_t] arithmetic

    Every counter of this file is a [size_t]: a 64-bit unsigned integer
    whose sums and differences wrap around. *)

Definition size_t_modulus : N := 2 ^ 64.
Definition size_wrap (n : N) : N := n mod size_t_modulus.
Definition size_add (a b : N) : N := size_wrap (a + b).
Definition size_sub (a b : N) : N := size_wrap (a + size_t_modulus - b).

(** [for (size_t i = lo; i < hi; ++i)]: the values taken by [i]. *)
Definition size_range (lo hi : N) : list N :=
  map (fun k => lo + N.of_nat k) (seq 0 (N.to_nat (hi - lo))).

(** ** Data *)

Inductive t_rr_type := CHANX | CHANY.
Inductive Direction := INC | DEC | BIDIR | NONE.

Definition t_rr_type_eqb (a b : t_rr_type) : bool :=
  match a, b with CHANX, CHANX | CHANY, CHANY => true | _, _ => false end.

Definition ClockTreeId := N.
Definition ClockLevelId := N.
Definition ClockTreePinId := N.
Definition RRNodeId := nat.

(** The clock network is read through its methods only; the class itself is
    not part of the two files, so its methods are the fields of a record. *)
Record ClockNetwork := {
  trees : list ClockTreeId;
  levels : ClockTreeId -> list ClockLevelId;
  num_tracks : ClockTreeId -> ClockLevelId -> t_rr_type -> N;
  pins : ClockTreeId -> ClockLevelId -> t_rr_type -> Direction -> list ClockTreePinId;
  default_segment : N;
  default_switch : N
}.

(** Modelled from the spec: [ClockNetwork::num_trees], absent from the
    sources, is the "number of trees" of the clock topology model, that is
    the size of the range [trees()]. *)
Definition num_trees (clk : ClockNetwork) : N := N.of_nat (length (trees clk)).

(** The device grid and the two channel predicates of the grid API. *)
Record DeviceGrid := {
  width : N;
  height : N;
  is_chanx_exist : N * N -> bool;
  is_chany_exist : N * N -> bool
}.

Record rr_node := {
  node_x : N;
  node_y : N;
  node_type : t_rr_type;
  node_ptc : N;
  node_direction : Direction;
  node_capacity : N;
  node_cost_index : N
}.

(** The graph behind [RRGraphBuilder] and [RRGraphView]: both are handles
    on the storage of the device context. *)
Record RRGraph := {
  nodes : list rr_node;
  edges : list (RRNodeId * RRNodeId * N);
  num_rr_segments : N
}.

Definition clock_key : Type :=
  (N * N * ClockTreeId * ClockLevelId * ClockTreePinId * Direction)%type.
Definition RRClockSpatialLookup := list (clock_key * RRNodeId).

(** ** The graph API

    The classes [RRGraphBuilder], [RRGraphView] and [RRClockSpatialLookup]
    are not part of the two files.  The spec describes the graph API as an
    external collaborator: "node creation returns an opaque node
    identifier; setters for direction, capacity, cost-index; edge creation
    plus an explicit seal/compact edges call; node/edge counts queryable at
    any time", used "purely as an append-only store". *)

(** Modelled from the spec: [RRGraphView::num_nodes], the node count
    "queryable at any time". *)
Definition num_nodes (g : RRGraph) : N := N.of_nat (length (nodes g)).

Definition with_nodes (g : RRGraph) (l : list rr_node) : RRGraph :=
  {| nodes := l; edges := edges g; num_rr_segments := num_rr_segments g |}.

(** Modelled from the spec: [RRGraphBuilder::create_node] appends one node
    with the given tile, type and track index and "returns an opaque node
    identifier", here its position. *)
Definition create_node (g : RRGraph) (x y : N) (type : t_rr_type) (ptc : N)
  : RRGraph * RRNodeId :=
  (with_nodes g (nodes g ++ [ {| node_x := x; node_y := y; node_type := type;
                                 node_ptc := ptc; node_direction := NONE;
                                 node_capacity := 0; node_cost_index := 0 |} ]),
   length (nodes g)).

(** Modelled from the spec: [RRGraphBuilder::set_node_direction], the
    setter for the direction of a node. *)
Definition set_node_direction (g : RRGraph) (id : RRNodeId) (d : Direction) : RRGraph :=
  with_nodes g (update_nth (fun n =>
    {| node_x := node_x n; node_y := node_y n; node_type := node_type n;
       node_ptc := node_ptc n; node_direction := d;
       node_capacity := node_capacity n; node_cost_index := node_cost_index n |})
    id (nodes g)).

(** Modelled from the spec: [RRGraphBuilder::set_node_capacity], the
    setter for the drive capacity of a node. *)
Definition set_node_capacity (g : RRGraph) (id : RRNodeId) (c : N) : RRGraph :=
  with_nodes g (update_nth (fun n =>
    {| node_x := node_x n; node_y := node_y n; node_type := node_type n;
       node_ptc := node_ptc n; node_direction := node_direction n;
       node_capacity := c; node_cost_index := node_cost_index n |})
    id (nodes g)).

(** Modelled from the spec: [RRGraphBuilder::set_node_cost_index], the
    setter for the cost index of a node. *)
Definition set_node_cost_index (g : RRGraph) (id : RRNodeId) (c : N) : RRGraph :=
  with_nodes g (update_nth (fun n =>
    {| node_x := node_x n; node_y := node_y n; node_type := node_type n;
       node_ptc := node_ptc n; node_direction := node_direction n;
       node_capacity := node_capacity n; node_cost_index := c |})
    id (nodes g)).

(** A node lies at tile [(x, y)] and has channel type [type]. *)
Definition at_tile (x y : N) (type : t_rr_type) (n : rr_node) : bool :=
  (node_x n =? x) && (node_y n =? y) && t_rr_type_eqb (node_type n) type.

(** Modelled from the spec: [node_lookup().find_channel_nodes(x, y, type)],
    the ordinary channel nodes of a tile; their number is "the existing
    channel's width". *)
Definition find_channel_nodes (g : RRGraph) (x y : N) (type : t_rr_type) : list rr_node :=
  filter (at_tile x y type) (nodes g).

(** Modelled from the spec: [RRClockSpatialLookup::add_node] registers a
    node under its "(x, y, tree, level, pin, direction)" key. *)
Definition add_node (lk : RRClockSpatialLookup) (node : RRNodeId) (x y : N)
  (tree : ClockTreeId) (lvl : ClockLevelId) (pin : ClockTreePinId) (dir : Direction)
  : RRClockSpatialLookup :=
  ((x, y, tree, lvl, pin, dir), node) :: lk.

Definition Direction_eqb (a b : Direction) : bool :=
  match a, b with
  | INC, INC | DEC, DEC | BIDIR, BIDIR | NONE, NONE => true
  | _, _ => false
  end.

Definition clock_key_eqb (k1 k2 : clock_key) : bool :=
  let '(x1, y1, t1, l1, p1, d1) := k1 in
  let '(x2, y2, t2, l2, p2, d2) := k2 in
  (x1 =? x2) && (y1 =? y2) && (t1 =? t2) && (l1 =? l2) && (p1 =? p2)
  && Direction_eqb d1 d2.

(** Modelled from the spec: [RRClockSpatialLookup::find_node], the lookup
    of a clock node by its key; it finds nothing for a key that was never
    registered. *)
Fixpoint find_node (lk : RRClockSpatialLookup) (k : clock_key) : option RRNodeId :=
  match lk with
  | [] => None
  | (k', n) :: r => if clock_key_eqb k' k then Some n else find_node r k
  end.

(** ** [estimate_clock_rr_graph_num_chan_nodes] *)

Definition estimate_clock_rr_graph_num_chan_nodes (clk_ntwk : ClockNetwork)
  (chan_type : t_rr_type) : N :=
  fold_left (fun num_nodes itree =>
    fold_left (fun num_nodes ilvl =>
      size_add num_nodes (num_tracks clk_ntwk itree ilvl chan_type))
      (levels clk_ntwk itree) num_nodes)
    (trees clk_ntwk) 0.

(** [(false == through_channel) && (false == is_chan_exist(...))] *)
Definition bypass (through_channel exist : bool) : bool :=
  negb through_channel && negb exist.

(** ** [estimate_clock_rr_graph_num_nodes] *)

Definition estimate_clock_rr_graph_num_nodes (grids : DeviceGrid)
  (through_channel : bool) (clk_ntwk : ClockNetwork) : N :=
  (* Check the number of CHANX nodes required *)
  let num_nodes :=
    fold_left (fun num_nodes iy =>
      fold_left (fun num_nodes ix =>
        let chanx_coord := (ix, iy) in
        if bypass through_channel (is_chanx_exist grids chanx_coord) then num_nodes
        else size_add num_nodes (estimate_clock_rr_graph_num_chan_nodes clk_ntwk CHANX))
        (size_range 1 (size_sub (width grids) 1)) num_nodes)
      (size_range 0 (size_sub (height grids) 1)) 0 in
  fold_left (fun num_nodes ix =>
    fold_left (fun num_nodes iy =>
      let chany_coord := (ix, iy) in
      if bypass through_channel (is_chany_exist grids chany_coord) then num_nodes
      else size_add num_nodes (estimate_clock_rr_graph_num_chan_nodes clk_ntwk CHANY))
      (size_range 1 (size_sub (height grids) 1)) num_nodes)
    (size_range 0 (size_sub (width grids) 1)) num_nodes.

(** ** [add_rr_graph_block_clock_nodes] *)

(** The state threaded through the loop nest: the graph under construction,
    the clock lookup and [curr_node_ptc]. *)
Definition block_state : Type := (RRGraph * RRClockSpatialLookup * N)%type.

Section ClockNodes.
(** [CHANX_COST_INDEX_START] comes from a header that is not part of the
    two files: it is a parameter. *)
Variable CHANX_COST_INDEX_START : N.

(** The body of the innermost loop: one clock node is created, its
    attributes are set, it is registered in the lookup and the track index
    moves on. *)
Definition create_clock_node (clk_ntwk : ClockNetwork) (chan_coord : N * N)
  (chan_type : t_rr_type) (cost_index_offset : N) (itree : ClockTreeId)
  (ilvl : ClockLevelId) (node_dir : Direction) (st : block_state)
  (ipin : ClockTreePinId) : block_state :=
  let '(g, lk, curr_node_ptc) := st in
  let '(g, clk_node) :=
    create_node g (fst chan_coord) (snd chan_coord) chan_type curr_node_ptc in
  let g := set_node_direction g clk_node node_dir in
  let g := set_node_capacity g clk_node 1 in
  (* set cost_index using segment id *)
  let g := set_node_cost_index g clk_node
             (size_add cost_index_offset (default_segment clk_ntwk)) in
  (* register the node to a dedicated lookup *)
  let lk := add_node lk clk_node (fst chan_coord) (snd chan_coord)
              itree ilvl ipin node_dir in
  (* Update ptc count and go to next *)
  (g, lk, size_add curr_node_ptc 1).

Definition block_clock_nodes_loop (clk_ntwk : ClockNetwork) (chan_coord : N * N)
  (chan_type : t_rr_type) (cost_index_offset : N) (st : block_state) : block_state :=
  fold_left (fun st itree =>
    fold_left (fun st ilvl =>
      fold_left (fun st node_dir =>
        fold_left (create_clock_node clk_ntwk chan_coord chan_type cost_index_offset
                     itree ilvl node_dir)
          (pins clk_ntwk itree ilvl chan_type node_dir) st)
        [INC; DEC] st)
      (levels clk_ntwk itree) st)
    (trees clk_ntwk) st.

Definition add_rr_graph_block_clock_nodes (rr_graph_builder : RRGraph)
  (clk_rr_lookup : RRClockSpatialLookup) (clk_ntwk : ClockNetwork)
  (chan_coord : N * N) (chan_type : t_rr_type) (cost_index_offset : N)
  : RRGraph * RRClockSpatialLookup :=
  let orig_chan_width :=
    N.of_nat (length (find_channel_nodes rr_graph_builder
                        (fst chan_coord) (snd chan_coord) chan_type)) in
  let curr_node_ptc := orig_chan_width in
  fst (block_clock_nodes_loop clk_ntwk chan_coord chan_type cost_index_offset
         (rr_graph_builder, clk_rr_lookup, curr_node_ptc)).

(** ** [add_rr_graph_clock_nodes] *)

Definition add_rr_graph_clock_nodes (rr_graph_builder : RRGraph)
  (clk_rr_lookup : RRClockSpatialLookup) (grids : DeviceGrid)
  (through_channel : bool) (clk_ntwk : ClockNetwork)
  : RRGraph * RRClockSpatialLookup :=
  (* Add X-direction clock nodes *)
  let st :=
    fold_left (fun st iy =>
      fold_left (fun (st : RRGraph * RRClockSpatialLookup) ix =>
        let chanx_coord := (ix, iy) in
        if bypass through_channel (is_chanx_exist grids chanx_coord) then st
        else add_rr_graph_block_clock_nodes (fst st) (snd st) clk_ntwk
               chanx_coord CHANX CHANX_COST_INDEX_START)
        (size_range 1 (size_sub (width grids) 1)) st)
      (size_range 0 (size_sub (height grids) 1))
      (rr_graph_builder, clk_rr_lookup) in
  (* Add Y-direction clock nodes *)
  fold_left (fun st ix =>
    fold_left (fun (st : RRGraph * RRClockSpatialLookup) iy =>
      let chany_coord := (ix, iy) in
      if bypass through_channel (is_chany_exist grids chany_coord) then st
      else add_rr_graph_block_clock_nodes (fst st) (snd st) clk_ntwk
             chany_coord CHANY
             (size_add CHANX_COST_INDEX_START (num_rr_segments (fst st))))
      (size_range 1 (size_sub (height grids) 1)) st)
    (size_range 0 (size_sub (width grids) 1)) st.

(** ** Edges *)

(** [find_clock_track2track_node] returns the empty vector it declares. *)
Definition find_clock_track2track_node (chan_coord : N * N) (clk_tree : ClockTreeId)
  (clk_lvl : ClockLevelId) (clk_pin : ClockTreePinId) (direction : Direction)
  : list RRNodeId := [].

(** Modelled from the spec: [RRGraphBuilder::create_edge] appends one
    edge; [build_edges] seals the buffered edges without changing them. *)
Definition create_edge (g : RRGraph) (src des : RRNodeId) (sw : N) : RRGraph :=
  {| nodes := nodes g; edges := edges g ++ [(src, des, sw)];
     num_rr_segments := num_rr_segments g |}.

Definition add_rr_graph_block_clock_edges (rr_graph_builder : RRGraph)
  (num_edges_to_create : N) (clk_rr_lookup : RRClockSpatialLookup)
  (clk_ntwk : ClockNetwork) (chan_coord : N * N) (chan_type : t_rr_type)
  : option (RRGraph * N) :=
  let pin_step (itree : ClockTreeId) (ilvl : ClockLevelId) (node_dir : Direction)
        (st : option (RRGraph * N)) (ipin : ClockTreePinId) :=
    match st with
    | None => None
    | Some (g, edge_count) =>
        (* find the driver clock node through lookup; VTR_ASSERT(src_node) *)
        match find_node clk_rr_lookup
                (fst chan_coord, snd chan_coord, itree, ilvl, ipin, node_dir) with
        | None => None
        | Some src_node =>
            Some (fold_left (fun (ge : RRGraph * N) des_node =>
                    (create_edge (fst ge) src_node des_node (default_switch clk_ntwk),
                     size_add (snd ge) 1))
                    (find_clock_track2track_node chan_coord itree ilvl ipin node_dir)
                    (g, edge_count))
        end
    end in
  match
    fold_left (fun st itree =>
      fold_left (fun st ilvl =>
        fold_left (fun st node_dir =>
          fold_left (pin_step itree ilvl node_dir)
            (pins clk_ntwk itree ilvl chan_type node_dir) st)
          [INC; DEC] st)
        (levels clk_ntwk itree) st)
      (trees clk_ntwk) (Some (rr_graph_builder, 0))
  with
  | None => None
  | Some (g, edge_count) => Some (g, size_add num_edges_to_create edge_count)
  end.

Definition add_rr_graph_clock_edges (rr_graph_builder : RRGraph)
  (num_edges_to_create : N) (clk_rr_lookup : RRClockSpatialLookup)
  (grids : DeviceGrid) (through_channel : bool) (clk_ntwk : ClockNetwork)
  : option (RRGraph * N) :=
  let tile (exist : N * N -> bool) (chan_type : t_rr_type) (coord : N * N)
        (st : option (RRGraph * N)) :=
    match st with
    | None => None
    | Some (g, n) =>
        if bypass through_channel (exist coord) then Some (g, n)
        else add_rr_graph_block_clock_edges g n clk_rr_lookup clk_ntwk coord chan_type
    end in
  let st :=
    fold_left (fun st iy =>
      fold_left (fun st ix => tile (is_chanx_exist grids) CHANX (ix, iy) st)
        (size_range 1 (size_sub (width grids) 1)) st)
      (size_range 0 (size_sub (height grids) 1))
      (Some (rr_graph_builder, num_edges_to_create)) in
  fold_left (fun st ix =>
    fold_left (fun st iy => tile (is_chany_exist grids) CHANY (ix, iy) st)
      (size_range 1 (size_sub (height grids) 1)) st)
    (size_range 0 (size_sub (width grids) 1)) st.

(** ** [append_clock_rr_graph] *)

Inductive exit_code := CMD_EXEC_SUCCESS | CMD_EXEC_FATAL_ERROR.

(** The messages the function can log: the two of its early returns, and
    the report of the numbers of clock nodes and edges, which carries the
    quotient [num_clock_nodes / orig_num_nodes]. *)
Inductive log_message :=
| Skip_due_to_0_clock_trees
| Currently_only_support_1_clock_tree
| Appended_clock_nodes_and_edges (num_clock_nodes quotient num_clock_edges : N).

Record DeviceContext := {
  rr_graph : RRGraph;
  grid : DeviceGrid;
  arch_through_channel : bool
}.

Definition with_rr_graph (ctx : DeviceContext) (g : RRGraph) : DeviceContext :=
  {| rr_graph := g; grid := grid ctx; arch_through_channel := arch_through_channel ctx |}.

Record append_result := {
  status : exit_code;
  device_ctx : DeviceContext;
  clock_lookup : RRClockSpatialLookup;
  logged : list log_message
}.

Definition append_clock_rr_graph (vpr_device_ctx : DeviceContext)
  (clk_rr_lookup : RRClockSpatialLookup) (clk_ntwk : ClockNetwork) (verbose : bool)
  : option append_result :=
  (* Skip if there is no clock tree: [if (clk_ntwk.num_trees())] *)
  if negb (num_trees clk_ntwk =? 0) then
    Some {| status := CMD_EXEC_SUCCESS; device_ctx := vpr_device_ctx;
            clock_lookup := clk_rr_lookup; logged := [Skip_due_to_0_clock_trees] |}
  (* Report any clock structure we do not support yet! *)
  else if 1 <? num_trees clk_ntwk then
    Some {| status := CMD_EXEC_FATAL_ERROR; device_ctx := vpr_device_ctx;
            clock_lookup := clk_rr_lookup;
            logged := [Currently_only_support_1_clock_tree] |}
  else
    (* Estimate the number of nodes and pre-allocate *)
    let orig_num_nodes := num_nodes (rr_graph vpr_device_ctx) in
    let num_clock_nodes :=
      estimate_clock_rr_graph_num_nodes (grid vpr_device_ctx)
        (arch_through_channel vpr_device_ctx) clk_ntwk in
    (* Add clock nodes *)
    let '(g, lk) :=
      add_rr_graph_clock_nodes (rr_graph vpr_device_ctx) clk_rr_lookup
        (grid vpr_device_ctx) (arch_through_channel vpr_device_ctx) clk_ntwk in
    (* VTR_ASSERT(num_clock_nodes + orig_num_nodes == rr_graph.num_nodes()) *)
    if negb (size_add num_clock_nodes orig_num_nodes =? num_nodes g) then None
    else
      match add_rr_graph_clock_edges g 0 lk (grid vpr_device_ctx)
              (arch_through_channel vpr_device_ctx) clk_ntwk with
      | None => None
      | Some (g, num_clock_edges) =>
          (* Report number of added clock nodes and edges: the arguments of
             [VTR_LOGV] are computed when [verbose] is set, and the division
             of two [size_t] values by zero ends the run *)
          if verbose then
            if orig_num_nodes =? 0 then None
            else
              Some {| status := CMD_EXEC_SUCCESS;
                      device_ctx := with_rr_graph vpr_device_ctx g;
                      clock_lookup := lk;
                      logged := [Appended_clock_nodes_and_edges num_clock_nodes
                                   (num_clock_nodes / orig_num_nodes) num_clock_edges] |}
          else
            Some {| status := CMD_EXEC_SUCCESS;
                    device_ctx := with_rr_graph vpr_device_ctx g;
                    clock_lookup := lk; logged := [] |}
      end.

End ClockNodes.

(** ** Sums over the loop nests *)

Definition sumN {X : Type} (w : X -> N) (l : list X) : N :=
  fold_right (fun x acc => w x + acc) 0 l.

(** Clock nodes created at one tile for one channel type: one per pin, for
    both directions, every level, every tree. *)
Definition num_block_clock_nodes (clk_ntwk : ClockNetwork) (chan_type : t_rr_type) : N :=
  sumN (fun itree =>
    sumN (fun ilvl =>
      sumN (fun node_dir => N.of_nat (length (pins clk_ntwk itree ilvl chan_type node_dir)))
           [INC; DEC])
      (levels clk_ntwk itree))
    (trees clk_ntwk).

(** The interface condition between the two views of a level that the
    clock network offers: its track count for a channel type is the number
    of its pins in the two directions. *)
Definition tracks_match_pins (clk_ntwk : ClockNetwork) : Prop :=
  forall itree ilvl chan_type,
    In itree (trees clk_ntwk) -> In ilvl (levels clk_ntwk itree) ->
    num_tracks clk_ntwk itree ilvl chan_type
    = N.of_nat (length (pins clk_ntwk itree ilvl chan_type INC))
      + N.of_nat (length (pins clk_ntwk itree ilvl chan_type DEC)).

(** The clock nodes appended to [g] to obtain [g']. *)
Definition created_nodes (g g' : RRGraph) : list rr_node :=
  skipn (length (nodes g)) (nodes g').

(** ** Generic facts on loops *)

Section LoopFacts.
Context {A X : Type}.

Lemma fold_left_inv (P : A -> Prop) (f : A -> X -> A) (l : list X) (a : A) :
  P a -> (forall a x, In x l -> P a -> P (f a x)) -> P (fold_left f l a).
Proof.
  revert a; induction l as [|x l IH]; intros a Ha Hf; simpl; [exact Ha|].
  apply IH.
  - apply Hf; [now left | exact Ha].
  - intros b y Hy; apply Hf; now right.
Qed.

Lemma fold_left_additive (m : A -> N) (w : X -> N) (f : A -> X -> A)
  (l : list X) (a : A) :
  (forall a x, In x l -> m (f a x) = m a + w x) ->
  m (fold_left f l a) = m a + sumN w l.
Proof.
  revert a; induction l as [|x l IH]; intros a Hf; simpl.
  - now rewrite N.add_0_r.
  - rewrite IH by (intros b y Hy; apply Hf; now right).
    rewrite Hf by now left. now rewrite N.add_assoc.
Qed.

Lemma sumN_ext (w1 w2 : X -> N) (l : list X) :
  (forall x, In x l -> w1 x = w2 x) -> sumN w1 l = sumN w2 l.
Proof.
  induction l as [|x l IH]; intro H; simpl; [reflexivity|].
  rewrite H by now left. rewrite IH; [reflexivity|].
  intros y Hy; apply H; now right.
Qed.
End LoopFacts.

Lemma size_wrap_add_r (a b : N) : size_wrap (a + size_wrap b) = size_wrap (a + b).
Proof. unfold size_wrap. now rewrite N.Div0.add_mod_idemp_r. Qed.

Lemma size_wrap_add_l (a b : N) : size_wrap (size_wrap a + b) = size_wrap (a + b).
Proof. unfold size_wrap. now rewrite N.Div0.add_mod_idemp_l. Qed.

Lemma size_wrap_small (a : N) : a < size_t_modulus -> size_wrap a = a.
Proof. intro H. unfold size_wrap. now apply N.mod_small. Qed.

Lemma size_wrap_lt (a : N) : size_wrap a < size_t_modulus.
Proof. unfold size_wrap. apply N.mod_lt. unfold size_t_modulus. now compute. Qed.

(** A [size_t] accumulator follows the true sum modulo [2^64]. *)
Lemma fold_left_size_congr {X : Type} (w : X -> N) (f : N -> X -> N)
  (l : list X) (a : N) :
  (forall a b x, In x l -> size_wrap a = size_wrap b ->
                 size_wrap (f a x) = size_wrap (b + w x)) ->
  forall b, size_wrap a = size_wrap b ->
  size_wrap (fold_left f l a) = size_wrap (b + sumN w l).
Proof.
  revert a; induction l as [|x l IH]; intros a Hf b Hab; simpl.
  - now rewrite N.add_0_r.
  - rewrite (IH (f a x)) with (b := b + w x).
    + now rewrite N.add_assoc.
    + intros a' b' y Hy; apply Hf; now right.
    + apply Hf; [now left | exact Hab].
Qed.

Lemma size_wrap_congr_add (a b c : N) :
  size_wrap a = size_wrap b -> size_wrap (a + c) = size_wrap (b + c).
Proof.
  intro H. rewrite <- (size_wrap_add_l a c), <- (size_wrap_add_l b c). now rewrite H.
Qed.

Lemma size_wrap_idem (a : N) : size_wrap (size_wrap a) = size_wrap a.
Proof. apply size_wrap_small, size_wrap_lt. Qed.

Lemma sumN_ones {X : Type} (l : list X) : sumN (fun _ => 1) l = N.of_nat (length l).
Proof.
  induction l as [|x l IH]; [reflexivity|].
  change (sumN (fun _ : X => 1) (x :: l)) with (1 + sumN (fun _ : X => 1) l).
  rewrite IH. cbn [length]. lia.
Qed.

(** ** What one pass of the innermost loop body does *)

Section BlockFacts.
Variables (clk_ntwk : ClockNetwork) (chan_coord : N * N) (chan_type : t_rr_type)
          (cost_index_offset : N).

Definition new_clock_node (node_dir : Direction) (ptc : N) : rr_node :=
  {| node_x := fst chan_coord; node_y := snd chan_coord; node_type := chan_type;
     node_ptc := ptc; node_direction := node_dir; node_capacity := 1;
     node_cost_index := size_add cost_index_offset (default_segment clk_ntwk) |}.

Lemma create_clock_node_spec itree ilvl node_dir g lk curr ipin :
  exists g' lk',
    create_clock_node clk_ntwk chan_coord chan_type cost_index_offset
      itree ilvl node_dir (g, lk, curr) ipin = (g', lk', size_add curr 1)
    /\ nodes g' = nodes g ++ [new_clock_node node_dir curr].
Proof.
  unfold create_clock_node, create_node, set_node_cost_index, set_node_capacity,
    set_node_direction, with_nodes; simpl.
  eexists; eexists; split; [reflexivity|]. simpl.
  now rewrite !update_nth_last.
Qed.

Definition graph_size (st : block_state) : N := num_nodes (fst (fst st)).

Lemma create_clock_node_size itree ilvl node_dir st ipin :
  graph_size (create_clock_node clk_ntwk chan_coord chan_type cost_index_offset
                itree ilvl node_dir st ipin) = graph_size st + 1.
Proof.
  destruct st as [[g lk] curr].
  destruct (create_clock_node_spec itree ilvl node_dir g lk curr ipin)
    as (g' & lk' & -> & Hn).
  unfold graph_size, num_nodes; simpl. rewrite Hn, length_app; simpl. lia.
Qed.

Lemma block_clock_nodes_loop_size st :
  graph_size (block_clock_nodes_loop clk_ntwk chan_coord chan_type cost_index_offset st)
  = graph_size st + num_block_clock_nodes clk_ntwk chan_type.
Proof.
  unfold block_clock_nodes_loop, num_block_clock_nodes.
  apply fold_left_additive; intros st1 itree _.
  apply fold_left_additive; intros st2 ilvl _.
  apply fold_left_additive; intros st3 node_dir _.
  rewrite <- sumN_ones.
  apply fold_left_additive; intros st4 ipin _.
  apply create_clock_node_size.
Qed.

(** The invariant of the loop nest: the graph is the original one followed
    by the new nodes, whose track indices are the successive values of
    [curr_node_ptc]. *)
Definition next_ptc (c : N) : N := size_add c 1.

Definition block_inv (g0 : RRGraph) (W : N) (st : block_state) : Prop :=
  exists new,
    nodes (fst (fst st)) = nodes g0 ++ new
    /\ map node_ptc new = map (fun i => Nat.iter i next_ptc W) (seq 0 (length new))
    /\ snd st = Nat.iter (length new) next_ptc W
    /\ Forall (fun n => at_tile (fst chan_coord) (snd chan_coord) chan_type n = true) new.

Lemma at_tile_new_clock_node node_dir ptc :
  at_tile (fst chan_coord) (snd chan_coord) chan_type (new_clock_node node_dir ptc) = true.
Proof.
  unfold at_tile, new_clock_node; simpl. rewrite !N.eqb_refl.
  now destruct chan_type.
Qed.

Lemma create_clock_node_inv g0 W itree ilvl node_dir st ipin :
  block_inv g0 W st ->
  block_inv g0 W (create_clock_node clk_ntwk chan_coord chan_type cost_index_offset
                    itree ilvl node_dir st ipin).
Proof.
  destruct st as [[g lk] curr]. intros (new & Hn & Hp & Hc & Ht); simpl in Hn, Hc.
  destruct (create_clock_node_spec itree ilvl node_dir g lk curr ipin)
    as (g' & lk' & -> & Hn').
  exists (new ++ [new_clock_node node_dir curr]); simpl.
  rewrite Hn', Hn, <- app_assoc. split; [reflexivity|].
  rewrite length_app; simpl. rewrite Nat.add_1_r. split; [|split].
  - rewrite map_app, seq_S, map_app, Hp; simpl. now rewrite Hc.
  - simpl. now rewrite Hc.
  - apply Forall_app; split; [exact Ht|].
    constructor; [apply at_tile_new_clock_node | constructor].
Qed.

Lemma block_clock_nodes_loop_inv g0 W st :
  block_inv g0 W st ->
  block_inv g0 W (block_clock_nodes_loop clk_ntwk chan_coord chan_type cost_index_offset st).
Proof.
  intro H. unfold block_clock_nodes_loop.
  apply fold_left_inv; [exact H|]; intros st1 itree _ H1.
  apply fold_left_inv; [exact H1|]; intros st2 ilvl _ H2.
  apply fold_left_inv; [exact H2|]; intros st3 node_dir _ H3.
  apply fold_left_inv; [exact H3|]; intros st4 ipin _ H4.
  now apply create_clock_node_inv.
Qed.

End BlockFacts.

Lemma next_ptc_iter (W : N) (i : nat) :
  W + N.of_nat i < size_t_modulus -> Nat.iter i next_ptc W = W + N.of_nat i.
Proof.
  induction i as [|i IH]; intro H; simpl.
  - now rewrite N.add_0_r.
  - rewrite IH by lia. unfold next_ptc, size_add. rewrite size_wrap_small; lia.
Qed.

Lemma skipn_length_app {A : Type} (l r : list A) : skipn (length l) (l ++ r) = r.
Proof. induction l as [|x l IH]; simpl; [reflexivity | exact IH]. Qed.

Lemma firstn_length_app {A : Type} (l r : list A) : firstn (length l) (l ++ r) = l.
Proof. induction l as [|x l IH]; simpl; [reflexivity | now rewrite IH]. Qed.

Lemma increasing_from (W : N) (k a : nat) :
  StronglySorted N.lt (map (fun i => W + N.of_nat i) (seq a k)).
Proof.
  revert a; induction k as [|k IH]; intro a; simpl; constructor.
  - apply IH.
  - apply Forall_forall. intros p Hp. apply in_map_iff in Hp.
    destruct Hp as (i & <- & Hi). apply in_seq in Hi. lia.
Qed.

Lemma add_rr_graph_block_clock_nodes_size g lk clk_ntwk chan_coord chan_type off :
  num_nodes (fst (add_rr_graph_block_clock_nodes g lk clk_ntwk chan_coord chan_type off))
  = num_nodes g + num_block_clock_nodes clk_ntwk chan_type.
Proof.
  unfold add_rr_graph_block_clock_nodes.
  exact (block_clock_nodes_loop_size clk_ntwk chan_coord chan_type off (g, lk, _)).
Qed.

(** ** The totals of the two grid scans *)

Definition tile_weight (through_channel exist : bool) (k : N) : N :=
  if bypass through_channel exist then 0 else k.

Definition total_clock_nodes (grids : DeviceGrid) (through_channel : bool)
  (clk_ntwk : ClockNetwork) : N :=
  sumN (fun iy =>
    sumN (fun ix => tile_weight through_channel (is_chanx_exist grids (ix, iy))
                      (num_block_clock_nodes clk_ntwk CHANX))
         (size_range 1 (size_sub (width grids) 1)))
    (size_range 0 (size_sub (height grids) 1))
  + sumN (fun ix =>
      sumN (fun iy => tile_weight through_channel (is_chany_exist grids (ix, iy))
                        (num_block_clock_nodes clk_ntwk CHANY))
           (size_range 1 (size_sub (height grids) 1)))
      (size_range 0 (size_sub (width grids) 1)).

Lemma add_rr_graph_clock_nodes_size C g lk grids through_channel clk_ntwk :
  num_nodes (fst (add_rr_graph_clock_nodes C g lk grids through_channel clk_ntwk))
  = num_nodes g + total_clock_nodes grids through_channel clk_ntwk.
Proof.
  unfold add_rr_graph_clock_nodes, total_clock_nodes.
  rewrite N.add_assoc.
  rewrite (fold_left_additive (fun st => num_nodes (fst st))
             (fun ix => sumN (fun iy => tile_weight through_channel
                                (is_chany_exist grids (ix, iy))
                                (num_block_clock_nodes clk_ntwk CHANY))
                             (size_range 1 (size_sub (height grids) 1)))).
  - f_equal.
    apply (fold_left_additive (fun st => num_nodes (fst st))
             (fun iy => sumN (fun ix => tile_weight through_channel
                                (is_chanx_exist grids (ix, iy))
                                (num_block_clock_nodes clk_ntwk CHANX))
                             (size_range 1 (size_sub (width grids) 1)))).
    intros st iy _.
    apply (fold_left_additive (fun st : RRGraph * RRClockSpatialLookup =>
                                 num_nodes (fst st))).
    intros st' ix _.
    unfold tile_weight. destruct (bypass _ _); [now rewrite N.add_0_r|].
    apply add_rr_graph_block_clock_nodes_size.
  - intros st ix _.
    apply (fold_left_additive (fun st : RRGraph * RRClockSpatialLookup =>
                                 num_nodes (fst st))).
    intros st' iy _.
    unfold tile_weight. destruct (bypass _ _); [now rewrite N.add_0_r|].
    apply add_rr_graph_block_clock_nodes_size.
Qed.

Lemma estimate_clock_rr_graph_num_chan_nodes_wrap clk_ntwk chan_type :
  tracks_match_pins clk_ntwk ->
  estimate_clock_rr_graph_num_chan_nodes clk_ntwk chan_type
  = size_wrap (num_block_clock_nodes clk_ntwk chan_type).
Proof.
  intro Hc. unfold estimate_clock_rr_graph_num_chan_nodes.
  set (r := fold_left _ _ _).
  assert (Hlt : r < size_t_modulus).
  { subst r. apply fold_left_inv; [now compute|]. intros a itree _ Ha.
    apply fold_left_inv; [exact Ha|]. intros; apply size_wrap_lt. }
  rewrite <- (size_wrap_small r Hlt). subst r.
  rewrite (fold_left_size_congr
             (fun itree => sumN (fun ilvl => num_tracks clk_ntwk itree ilvl chan_type)
                                (levels clk_ntwk itree))) with (b := 0).
  - rewrite N.add_0_l. f_equal. unfold num_block_clock_nodes.
    apply sumN_ext; intros itree Ht. apply sumN_ext; intros ilvl Hl.
    rewrite (Hc itree ilvl chan_type Ht Hl). simpl. lia.
  - intros a b itree _ Hab.
    apply fold_left_size_congr; [|exact Hab].
    intros a' b' ilvl _ Hab'. unfold size_add. rewrite size_wrap_idem.
    now apply size_wrap_congr_add.
  - reflexivity.
Qed.

Lemma estimate_clock_rr_graph_num_nodes_wrap grids through_channel clk_ntwk :
  tracks_match_pins clk_ntwk ->
  estimate_clock_rr_graph_num_nodes grids through_channel clk_ntwk
  = size_wrap (total_clock_nodes grids through_channel clk_ntwk).
Proof.
  intro Hc. unfold estimate_clock_rr_graph_num_nodes.
  set (r := fold_left _ _ (fold_left _ _ 0)).
  assert (Hstep : forall exist chan_type a b,
             size_wrap a = size_wrap b ->
             size_wrap (if bypass through_channel exist then a
                        else size_add a (estimate_clock_rr_graph_num_chan_nodes
                                           clk_ntwk chan_type))
             = size_wrap (b + tile_weight through_channel exist
                                (num_block_clock_nodes clk_ntwk chan_type))).
  { intros exist chan_type a b Hab. unfold tile_weight.
    destruct (bypass _ _); [now rewrite N.add_0_r|].
    rewrite (estimate_clock_rr_graph_num_chan_nodes_wrap _ _ Hc).
    unfold size_add. rewrite size_wrap_idem, size_wrap_add_r.
    now apply size_wrap_congr_add. }
  assert (Hlt : r < size_t_modulus).
  { subst r. apply fold_left_inv.
    - apply fold_left_inv; [now compute|]. intros a iy _ Ha.
      apply fold_left_inv; [exact Ha|]. intros a' ix _ Ha'.
      destruct (bypass _ _); [exact Ha' | apply size_wrap_lt].
    - intros a ix _ Ha. apply fold_left_inv; [exact Ha|]. intros a' iy _ Ha'.
      destruct (bypass _ _); [exact Ha' | apply size_wrap_lt]. }
  rewrite <- (size_wrap_small r Hlt). subst r. unfold total_clock_nodes.
  apply fold_left_size_congr.
  - intros a b ix _ Hab. apply fold_left_size_congr; [|exact Hab].
    intros a' b' iy _ Hab'. now apply Hstep.
  - rewrite <- (N.add_0_l (sumN _ _)).
    apply fold_left_size_congr; [|reflexivity].
    intros a b iy _ Hab. apply fold_left_size_congr; [|exact Hab].
    intros a' b' ix _ Hab'. now apply Hstep.
Qed.

(** ** Example inputs *)

(** One tree of two levels; every level has one pin per direction, hence
    two tracks, on both channel types. *)
Definition one_tree_clock_network : ClockNetwork :=
  {| trees := [0]; levels := fun _ => [0; 1];
     num_tracks := fun _ _ _ => 2;
     pins := fun _ _ _ _ => [0];
     default_segment := 0; default_switch := 0 |}.

Definition two_tree_clock_network : ClockNetwork :=
  {| trees := [0; 1]; levels := fun _ => [0; 1];
     num_tracks := fun _ _ _ => 2;
     pins := fun _ _ _ _ => [0];
     default_segment := 0; default_switch := 0 |}.

Definition no_clock_network : ClockNetwork :=
  {| trees := []; levels := fun _ => [];
     num_tracks := fun _ _ _ => 0;
     pins := fun _ _ _ _ => [];
     default_segment := 0; default_switch := 0 |}.

Definition grid_3x3 : DeviceGrid :=
  {| width := 3; height := 3;
     is_chanx_exist := fun _ => true; is_chany_exist := fun _ => true |}.

Definition chanx_track (x y ptc : N) : rr_node :=
  {| node_x := x; node_y := y; node_type := CHANX; node_ptc := ptc;
     node_direction := INC; node_capacity := 1; node_cost_index := 4 |}.

(** A graph whose tile (1,0) already has the horizontal tracks 0 and 1. *)
Definition two_track_graph : RRGraph :=
  {| nodes := [chanx_track 1 0 0; chanx_track 1 0 1]; edges := []; num_rr_segments := 1 |}.

Definition device_3x3 : DeviceContext :=
  {| rr_graph := two_track_graph; grid := grid_3x3; arch_through_channel := true |}.

(** ** The return code of [append_clock_rr_graph] *)

Lemma append_clock_rr_graph_nonzero_trees C ctx lk clk_ntwk verbose :
  num_trees clk_ntwk <> 0 ->
  append_clock_rr_graph C ctx lk clk_ntwk verbose
  = Some {| status := CMD_EXEC_SUCCESS; device_ctx := ctx; clock_lookup := lk;
            logged := [Skip_due_to_0_clock_trees] |}.
Proof.
  intro H. unfold append_clock_rr_graph.
  destruct (N.eqb_spec (num_trees clk_ntwk) 0) as [E|E]; [contradiction | reflexivity].
Qed.

(** No clock network makes the function return the fatal code: the test on
    more than one tree is only reached with no tree at all. *)
Lemma append_clock_rr_graph_never_fatal C ctx lk clk_ntwk verbose r :
  append_clock_rr_graph C ctx lk clk_ntwk verbose = Some r -> status r = CMD_EXEC_SUCCESS.
Proof.
  unfold append_clock_rr_graph.
  destruct (N.eqb_spec (num_trees clk_ntwk) 0) as [E|E]; simpl.
  - rewrite E; simpl.
    destruct (add_rr_graph_clock_nodes _ _ _ _ _ _) as [g lk'].
    destruct (negb _); [discriminate|].
    destruct (add_rr_graph_clock_edges _ _ _ _ _ _) as [[g' n]|]; [|discriminate].
    destruct verbose; [destruct (_ =? 0); [discriminate|]|];
      intro H; injection H as <-; reflexivity.
  - intro H; injection H as <-; reflexivity.
Qed.

(** With no tree at all the function goes past both tests, into the
    creation of nodes and edges, which find nothing to create, and to the
    report, which divides by the number of nodes of the graph. *)
Lemma append_clock_rr_graph_zero_trees C ctx lk clk_ntwk verbose :
  trees clk_ntwk = [] ->
  num_nodes (rr_graph ctx) < size_t_modulus ->
  append_clock_rr_graph C ctx lk clk_ntwk verbose
  = if verbose && (num_nodes (rr_graph ctx) =? 0) then None
    else Some {| status := CMD_EXEC_SUCCESS;
                 device_ctx := with_rr_graph ctx (rr_graph ctx);
                 clock_lookup := lk;
                 logged := if verbose
                           then [Appended_clock_nodes_and_edges 0
                                   (0 / num_nodes (rr_graph ctx)) 0]
                           else [] |}.
Proof.
  intros Ht Hfit.
  assert (Hblock : forall g l coord chan_type off,
             add_rr_graph_block_clock_nodes g l clk_ntwk coord chan_type off = (g, l)).
  { intros. unfold add_rr_graph_block_clock_nodes, block_clock_nodes_loop.
    rewrite Ht. reflexivity. }
  assert (Hnodes : add_rr_graph_clock_nodes C (rr_graph ctx) lk (grid ctx)
                     (arch_through_channel ctx) clk_ntwk = (rr_graph ctx, lk)).
  { unfold add_rr_graph_clock_nodes.
    apply (fold_left_inv (fun st => st = (rr_graph ctx, lk))).
    - apply (fold_left_inv (fun st => st = (rr_graph ctx, lk))); [reflexivity|].
      intros st iy _ Hst.
      apply (fold_left_inv (fun st => st = (rr_graph ctx, lk))); [exact Hst|].
      intros st' ix _ ->. destruct (bypass _ _); [reflexivity | apply Hblock].
    - intros st ix _ Hst.
      apply (fold_left_inv (fun st => st = (rr_graph ctx, lk))); [exact Hst|].
      intros st' iy _ ->. destruct (bypass _ _); [reflexivity | apply Hblock]. }
  assert (Hest : estimate_clock_rr_graph_num_nodes (grid ctx)
                   (arch_through_channel ctx) clk_ntwk = 0).
  { unfold estimate_clock_rr_graph_num_nodes, estimate_clock_rr_graph_num_chan_nodes.
    rewrite Ht. simpl.
    apply (fold_left_inv (fun a => a = 0)).
    - apply (fold_left_inv (fun a => a = 0)); [reflexivity|].
      intros a iy _ Ha. apply (fold_left_inv (fun a => a = 0)); [exact Ha|].
      intros a' ix _ ->. destruct (bypass _ _); reflexivity.
    - intros a ix _ Ha. apply (fold_left_inv (fun a => a = 0)); [exact Ha|].
      intros a' iy _ ->. destruct (bypass _ _); reflexivity. }
  assert (Hedges : add_rr_graph_clock_edges (rr_graph ctx) 0 lk (grid ctx)
                     (arch_through_channel ctx) clk_ntwk = Some (rr_graph ctx, 0)).
  { unfold add_rr_graph_clock_edges.
    assert (Htile : forall coord chan_type,
               add_rr_graph_block_clock_edges (rr_graph ctx) 0 lk clk_ntwk coord chan_type
               = Some (rr_graph ctx, 0)).
    { intros. unfold add_rr_graph_block_clock_edges. rewrite Ht. reflexivity. }
    apply (fold_left_inv (fun st => st = Some (rr_graph ctx, 0))).
    - apply (fold_left_inv (fun st => st = Some (rr_graph ctx, 0))); [reflexivity|].
      intros st iy _ Hst.
      apply (fold_left_inv (fun st => st = Some (rr_graph ctx, 0))); [exact Hst|].
      intros st' ix _ ->. destruct (bypass _ _); [reflexivity | apply Htile].
    - intros st ix _ Hst.
      apply (fold_left_inv (fun st => st = Some (rr_graph ctx, 0))); [exact Hst|].
      intros st' iy _ ->. destruct (bypass _ _); [reflexivity | apply Htile]. }
  unfold append_clock_rr_graph, num_trees. rewrite Ht. simpl.
  rewrite Hnodes, Hest. unfold size_add. rewrite N.add_0_l, (size_wrap_small _ Hfit).
  rewrite N.eqb_refl. simpl. rewrite Hedges.
  destruct verbose; [|reflexivity]. simpl.
  destruct (num_nodes (rr_graph ctx) =? 0); reflexivity.
Qed.

(** C4 (evaluation at the failing input). With two clock trees
    [append_clock_rr_graph] takes its first exit: it logs the message of
    the zero-tree case, leaves graph and lookup as they were and returns
    [CMD_EXEC_SUCCESS], not [CMD_EXEC_FATAL_ERROR]; with exactly one tree
    it takes the same exit and appends nothing. *)
Theorem append_clock_rr_graph_two_trees_returns_success :
  forall C ctx lk verbose,
    append_clock_rr_graph C ctx lk two_tree_clock_network verbose
    = Some {| status := CMD_EXEC_SUCCESS; device_ctx := ctx; clock_lookup := lk;
              logged := [Skip_due_to_0_clock_trees] |}
    /\ append_clock_rr_graph C ctx lk one_tree_clock_network verbose
       = Some {| status := CMD_EXEC_SUCCESS; device_ctx := ctx; clock_lookup := lk;
                 logged := [Skip_due_to_0_clock_trees] |}.
Proof.
  intros C ctx lk verbose; split; apply append_clock_rr_graph_nonzero_trees; discriminate.
Qed.

(** ** Node-count conservation *)

(** C5. For every grid, through-channel flag and clock network whose track
    counts are the numbers of its pins in the two directions, and whenever
    the resulting node count is a [size_t] value, the number of clock nodes
    created by [add_rr_graph_clock_nodes] is the value of
    [estimate_clock_rr_graph_num_nodes], so that the node count after the
    creation is the original count plus the estimate, also in [size_t]
    arithmetic as the assertion of [append_clock_rr_graph] computes it. *)
Theorem clock_nodes_created_equal_estimate C g lk grids through_channel clk_ntwk :
  tracks_match_pins clk_ntwk ->
  num_nodes (fst (add_rr_graph_clock_nodes C g lk grids through_channel clk_ntwk))
    < size_t_modulus ->
  N.of_nat (length (created_nodes g
              (fst (add_rr_graph_clock_nodes C g lk grids through_channel clk_ntwk))))
  = estimate_clock_rr_graph_num_nodes grids through_channel clk_ntwk
  /\ num_nodes (fst (add_rr_graph_clock_nodes C g lk grids through_channel clk_ntwk))
     = num_nodes g + estimate_clock_rr_graph_num_nodes grids through_channel clk_ntwk
  /\ size_add (estimate_clock_rr_graph_num_nodes grids through_channel clk_ntwk)
              (num_nodes g)
     = num_nodes (fst (add_rr_graph_clock_nodes C g lk grids through_channel clk_ntwk)).
Proof.
  intros Hc Hfit.
  pose proof (add_rr_graph_clock_nodes_size C g lk grids through_channel clk_ntwk) as Hs.
  rewrite (estimate_clock_rr_graph_num_nodes_wrap _ _ _ Hc).
  set (g' := fst (add_rr_graph_clock_nodes C g lk grids through_channel clk_ntwk)) in *.
  set (T := total_clock_nodes grids through_channel clk_ntwk) in *.
  assert (HT : size_wrap T = T) by (apply size_wrap_small; lia).
  rewrite HT. split; [|split].
  - unfold created_nodes. rewrite length_skipn. unfold num_nodes in Hs. lia.
  - exact Hs.
  - unfold size_add. rewrite size_wrap_small; lia.
Qed.

Lemma clock_nodes_created_equal_estimate_witness :
  N.of_nat (length (created_nodes two_track_graph
              (fst (add_rr_graph_clock_nodes 4 two_track_graph [] grid_3x3 true
                      one_tree_clock_network))))
  = estimate_clock_rr_graph_num_nodes grid_3x3 true one_tree_clock_network
  /\ num_nodes (fst (add_rr_graph_clock_nodes 4 two_track_graph [] grid_3x3 true
                       one_tree_clock_network))
     = num_nodes two_track_graph
       + estimate_clock_rr_graph_num_nodes grid_3x3 true one_tree_clock_network
  /\ size_add (estimate_clock_rr_graph_num_nodes grid_3x3 true one_tree_clock_network)
              (num_nodes two_track_graph)
     = num_nodes (fst (add_rr_graph_clock_nodes 4 two_track_graph [] grid_3x3 true
                         one_tree_clock_network)).
Proof.
  apply (clock_nodes_created_equal_estimate 4 two_track_graph [] grid_3x3 true
           one_tree_clock_network).
  - intros itree ilvl chan_type _ _. reflexivity.
  - vm_compute. reflexivity.
Defined.

(** The figures of the example: sixteen nodes are estimated and created. *)
Example estimate_3x3 :
  estimate_clock_rr_graph_num_nodes grid_3x3 true one_tree_clock_network = 16.
Proof. vm_compute. reflexivity. Qed.

Example created_3x3 :
  num_nodes (fst (add_rr_graph_clock_nodes 4 two_track_graph [] grid_3x3 true
                    one_tree_clock_network)) = 18.
Proof. vm_compute. reflexivity. Qed.

(** The condition on the clock network is needed: a network that counts
    one track per level where it has one pin in each direction is
    estimated at half of what is created. *)
Definition one_track_two_pins : ClockNetwork :=
  {| trees := [0]; levels := fun _ => [0; 1];
     num_tracks := fun _ _ _ => 1;
     pins := fun _ _ _ _ => [0];
     default_segment := 0; default_switch := 0 |}.

Example estimate_differs_without_condition :
  estimate_clock_rr_graph_num_nodes grid_3x3 true one_track_two_pins = 8
  /\ N.of_nat (length (created_nodes two_track_graph
                 (fst (add_rr_graph_clock_nodes 4 two_track_graph [] grid_3x3 true
                         one_track_two_pins)))) = 16.
Proof. split; vm_compute; reflexivity. Qed.

(** ** Track indices of the new clock nodes *)

(** C9. The clock nodes that [add_rr_graph_block_clock_nodes] creates at a
    tile for a channel type are appended to the graph, lie at that tile and
    receive the track indices [W], [W+1], [W+2], ... where [W] is the
    channel width found at the tile before: the indices are strictly
    increasing, and no new node has the index of a channel node that was
    at the tile before, the indices of those being below the width.  The
    node count of the result is a [size_t] value. *)
Theorem clock_track_indices_continue_from_width g lk clk_ntwk chan_coord chan_type off :
  num_nodes (fst (add_rr_graph_block_clock_nodes g lk clk_ntwk chan_coord chan_type off))
    < size_t_modulus ->
  (forall n, In n (find_channel_nodes g (fst chan_coord) (snd chan_coord) chan_type) ->
             node_ptc n
             < N.of_nat (length (find_channel_nodes g (fst chan_coord) (snd chan_coord)
                                   chan_type))) ->
  let g' := fst (add_rr_graph_block_clock_nodes g lk clk_ntwk chan_coord chan_type off) in
  let W := N.of_nat (length (find_channel_nodes g (fst chan_coord) (snd chan_coord)
                               chan_type)) in
  let new := created_nodes g g' in
  nodes g' = nodes g ++ new
  /\ Forall (fun n => at_tile (fst chan_coord) (snd chan_coord) chan_type n = true) new
  /\ map node_ptc new = map (fun i => W + N.of_nat i) (seq 0 (length new))
  /\ StronglySorted N.lt (map node_ptc new)
  /\ NoDup (map node_ptc new)
  /\ (forall n m,
        In n (find_channel_nodes g (fst chan_coord) (snd chan_coord) chan_type) ->
        In m new -> node_ptc n <> node_ptc m).
Proof.
  intros Hfit Hold g' W new.
  assert (Hinv : block_inv chan_coord chan_type g W
                   (block_clock_nodes_loop clk_ntwk chan_coord chan_type off (g, lk, W))).
  { apply block_clock_nodes_loop_inv. exists []; simpl.
    rewrite app_nil_r. repeat split; constructor. }
  destruct Hinv as (l & Hn & Hp & _ & Ht).
  change (fst (block_clock_nodes_loop clk_ntwk chan_coord chan_type off (g, lk, W)))
    with (add_rr_graph_block_clock_nodes g lk clk_ntwk chan_coord chan_type off) in Hn.
  fold g' in Hn.
  assert (Hnew : new = l).
  { unfold new, created_nodes. rewrite Hn. apply skipn_length_app. }
  rewrite Hnew.
  assert (HW : W + N.of_nat (length l) < size_t_modulus).
  { unfold num_nodes in Hfit. fold g' in Hfit. rewrite Hn, length_app in Hfit.
    pose proof (filter_length_le (at_tile (fst chan_coord) (snd chan_coord) chan_type)
                  (nodes g)) as Hle.
    unfold W, find_channel_nodes. lia. }
  assert (Hptc : map node_ptc l = map (fun i => W + N.of_nat i) (seq 0 (length l))).
  { rewrite Hp. apply map_ext_in. intros i Hi. apply in_seq in Hi.
    apply next_ptc_iter. lia. }
  split; [exact Hn|]. split; [exact Ht|]. split; [exact Hptc|].
  split; [rewrite Hptc; apply increasing_from|]. split.
  - rewrite Hptc. apply Injective_map_NoDup; [|apply seq_NoDup].
    intros i j Hij. lia.
  - intros n m Hn_old Hm Heq.
    specialize (Hold n Hn_old). fold W in Hold.
    assert (Hin : In (node_ptc m) (map node_ptc l)) by now apply in_map.
    rewrite Hptc in Hin. apply in_map_iff in Hin. destruct Hin as (i & Hi & _). lia.
Qed.

Lemma clock_track_indices_continue_from_width_witness :
  let g' := fst (add_rr_graph_block_clock_nodes two_track_graph [] one_tree_clock_network
                   (1, 0) CHANX 4) in
  let W := N.of_nat (length (find_channel_nodes two_track_graph 1 0 CHANX)) in
  let new := created_nodes two_track_graph g' in
  nodes g' = nodes two_track_graph ++ new
  /\ Forall (fun n => at_tile 1 0 CHANX n = true) new
  /\ map node_ptc new = map (fun i => W + N.of_nat i) (seq 0 (length new))
  /\ StronglySorted N.lt (map node_ptc new)
  /\ NoDup (map node_ptc new)
  /\ (forall n m, In n (find_channel_nodes two_track_graph 1 0 CHANX) ->
                  In m new -> node_ptc n <> node_ptc m).
Proof.
  apply (clock_track_indices_continue_from_width two_track_graph []
           one_tree_clock_network (1, 0) CHANX 4).
  - vm_compute. reflexivity.
  - intros n Hn. vm_compute in Hn.
    destruct Hn as [<- | [<- | []]]; vm_compute; reflexivity.
Defined.

(** The new indices of the example: tracks 0 and 1 were there, the four
    clock nodes take 2, 3, 4 and 5. *)
Example new_track_indices :
  map node_ptc (created_nodes two_track_graph
    (fst (add_rr_graph_block_clock_nodes two_track_graph [] one_tree_clock_network
            (1, 0) CHANX 4))) = [2; 3; 4; 5].
Proof. vm_compute. reflexivity. Qed.

End ClockGraph.

(* ====================================================================== *)
(** * Part 2: switch blocks, multiplexers and configuration addresses *)
(* ====================================================================== *)

Module Routing.
Local Open Scope Z_scope.

(** The counters and bit counts of this file are C [int]s, or [size_t]
    values that are assigned to [int]s.  They are integers of [Z] here:
    an [int] that overflows is undefined in the source, and the numbers at
    hand are bit counts of one device. *)

(** ** Runs that can stop

    [exit(1)] and a failed assertion stop the generator.  A function that
    can stop returns an [option]; loops that can stop are [foldM]. *)

Definition bind {A B : Type} (m : option A) (f : A -> option B) : option B :=
  match m with Some a => f a | None => None end.

Notation "x <- m ;; k" := (bind m (fun x => k))
  (at level 61, m at next level, right associativity).

Definition exit {A : Type} : option A := None.
Definition assert (b : bool) : option unit := if b then Some tt else None.

Fixpoint foldM {A X : Type} (f : A -> X -> option A) (l : list X) (a : A) : option A :=
  match l with
  | [] => Some a
  | x :: r => a' <- f a x ;; foldM f r a'
  end.

(** [for (i = 0; i < n; i++) ... array[i]]: the cells with their index. *)
Definition indexed {A : Type} (l : list A) : list (nat * A) :=
  combine (seq 0 (length l)) l.

(** Weighted sums over the cells of a loop. *)
Definition sumZ {X : Type} (w : X -> Z) (l : list X) : Z :=
  fold_right (fun x acc => w x + acc) 0 l.

(** ** Enumerations *)

Inductive PORTS := IN_PORT | OUT_PORT | INOUT_PORT.
Inductive t_rr_type := SOURCE | SINK | IPIN | OPIN | CHANX | CHANY | INTRA_CLUSTER_EDGE.

(** Of the circuit-model kinds only [SPICE_MODEL_MUX] is named in the file;
    the other enumerators of the absent header are one constructor. *)
Inductive e_spice_model_type := SPICE_MODEL_MUX | SPICE_MODEL_not_a_mux.

(** The two design technologies, and any other value of the C enumeration
    (the [default:] branches). *)
Inductive e_spice_model_design_tech :=
| SPICE_MODEL_DESIGN_CMOS
| SPICE_MODEL_DESIGN_RRAM
| SPICE_MODEL_DESIGN_invalid.

Inductive e_sram_orgz :=
| SPICE_SRAM_STANDALONE
| SPICE_SRAM_SCAN_CHAIN
| SPICE_SRAM_MEMORY_BANK.

Definition is_chan (t : t_rr_type) : bool :=
  match t with CHANX | CHANY => true | _ => false end.

Definition rr_type_eqb (a b : t_rr_type) : bool :=
  match a, b with
  | SOURCE, SOURCE | SINK, SINK | IPIN, IPIN | OPIN, OPIN
  | CHANX, CHANX | CHANY, CHANY | INTRA_CLUSTER_EDGE, INTRA_CLUSTER_EDGE => true
  | _, _ => false
  end.

(** Of the kinds of port of a circuit model, the three that the file looks
    up, and any other. *)
Inductive e_spice_model_port_type :=
| SPICE_MODEL_PORT_INPUT
| SPICE_MODEL_PORT_OUTPUT
| SPICE_MODEL_PORT_SRAM
| SPICE_MODEL_PORT_other.

(** ** Circuit models, switches and routing nodes *)

(** The two bit-cost functions of the multiplexer decoder,
    [count_num_conf_bits_one_spice_model(model, orgz_type, fan_in)] and its
    reserved-bit sibling, are defined in a file that is not embedded: they
    are fields of the model they take as first argument.  They count bits,
    hence the type [N].  So is [find_spice_model_ports(model, port_type,
    &num_port, TRUE)]: what is kept of the array it returns is its length
    [num_port]. *)
Record t_spice_model := {
  spice_model_type : e_spice_model_type;
  design_tech : e_spice_model_design_tech;
  count_num_conf_bits_one_spice_model : e_sram_orgz -> Z -> N;
  count_num_reserved_conf_bits_one_spice_model : e_sram_orgz -> Z -> N;
  find_spice_model_ports : e_spice_model_port_type -> nat
}.

Record t_switch_inf := { spice_model : t_spice_model }.

(** The classes [ModuleManager], [CircuitLibrary] and [MuxLibrary] are not
    part of the file.  Of the circuit model
    [rr_switches[switch_index].circuit_model] of a multiplexer, the writer
    that goes through the module manager asks them whether the module of
    the multiplexer of a given input size is registered
    ([module_manager.valid_module_id] of what [find_module] returns), how
    many ports of a type the model has ([circuit_lib.model_ports_by_type])
    and what its design technology is ([circuit_lib.design_tech_type]):
    the answers are fields of the model. *)
Record circuit_model := {
  valid_mux_module : nat -> bool;
  model_ports_by_type : e_spice_model_port_type -> nat;
  design_tech_type : e_spice_model_design_tech
}.

(** The fields of a node of the global array [rr_node] that the file
    reads.  [rr_node_index] is the position of the node in the array: two
    pointers to nodes are equal when the positions are.  The drivers
    [drive_rr_nodes[i]] are nodes of the array; [num_drive_rr_nodes] is a
    field of its own, which the file reads without looking at the
    array of drivers. *)
#[warnings="-register-all"]
Inductive t_rr_node := Build_t_rr_node {
  rr_node_index : Z;
  rr_node_type : t_rr_type;
  xlow : Z;
  ylow : Z;
  ptc_num : Z;
  num_drive_rr_nodes : Z;
  drive_rr_nodes : list t_rr_node;
  drive_switches : list Z
}.

(** [drive_rr_node == cur_rr_node] *)
Definition same_node (a b : t_rr_node) : bool := rr_node_index a =? rr_node_index b.

(** Modelled from the spec: the macro [DEFAULT_SWITCH_ID] is defined in an
    absent header; a multiplexer has one switch model, the one of its first
    driver, which the counting functions read as [drive_switches[0]]. *)
Definition DEFAULT_SWITCH_ID : nat := 0.

(** ** The configuration counter *)

Record t_sram_orgz_info := {
  sram_orgz_type : e_sram_orgz;
  num_mem_bit : Z;
  num_bl : Z;
  num_wl : Z
}.

(** The accessors of the counter are defined in a file that is not
    embedded.  The spec describes the counter as "total configuration bits
    allocated so far, total bit-line count, total word-line count", which
    "may be snapshotted and later restored bit-for-bit". *)

(** Modelled from the spec: [get_sram_orgz_info_num_mem_bit] reads the
    "total configuration bits allocated so far". *)
Definition get_sram_orgz_info_num_mem_bit (info : t_sram_orgz_info) : Z :=
  num_mem_bit info.

(** Modelled from the spec: [update_sram_orgz_info_num_mem_bit] sets the
    total of configuration bits. *)
Definition update_sram_orgz_info_num_mem_bit (info : t_sram_orgz_info) (n : Z)
  : t_sram_orgz_info :=
  {| sram_orgz_type := sram_orgz_type info; num_mem_bit := n;
     num_bl := num_bl info; num_wl := num_wl info |}.

(** Modelled from the spec: [get_sram_orgz_info_num_blwl] reads the
    "total bit-line count" and the "total word-line count". *)
Definition get_sram_orgz_info_num_blwl (info : t_sram_orgz_info) : Z * Z :=
  (num_bl info, num_wl info).

(** Modelled from the spec: [update_sram_orgz_info_num_blwl] sets the two
    line counts. *)
Definition update_sram_orgz_info_num_blwl (info : t_sram_orgz_info) (bl wl : Z)
  : t_sram_orgz_info :=
  {| sram_orgz_type := sram_orgz_type info; num_mem_bit := num_mem_bit info;
     num_bl := bl; num_wl := wl |}.

(** Modelled from the spec: [snapshot_sram_orgz_info] takes the snapshot
    of the counter, a copy of its value. *)
Definition snapshot_sram_orgz_info (info : t_sram_orgz_info) : t_sram_orgz_info := info.

(** Modelled from the spec: [copy_sram_orgz_info(des, src)] restores the
    counter [des] "bit-for-bit" from [src]. *)
Definition copy_sram_orgz_info (des src : t_sram_orgz_info) : t_sram_orgz_info := src.

(** ** Blocks *)

(** The switch block of the full-array backend. *)
Record sb_track := {
  chan_rr_node : option t_rr_node;
  chan_rr_node_direction : PORTS
}.

(** An output pin of a grid next to a switch block, and the side of the
    grid it is on. *)
Record sb_pin := {
  opin_rr_node : t_rr_node;
  opin_rr_node_grid_side : Z
}.

#[warnings="-register-all"]
Inductive t_sb := Build_t_sb {
  sb_x : Z;
  sb_y : Z;
  (** [chan_rr_node[side][itrack]] with [chan_rr_node_direction[side][itrack]];
      [num_sides] and [chan_width[side]] are the lengths. *)
  sb_chan : list (list sb_track);
  (** [opin_rr_node[side][inode]] with [opin_rr_node_grid_side[side][inode]];
      [num_opin_rr_nodes[side]] is the length. *)
  sb_opin : list (list sb_pin);
  mirror : option t_sb;
  num_reserved_conf_bits : Z;
  conf_bits_lsb : Z;
  conf_bits_msb : Z
}.

(** The switch block of the reduced-duplication backend.  The class [RRGSB]
    is not part of the file: its two wire tests and its lookups are fields
    of the block they are called on.  A side is its index; the value
    [NUM_SIDES] of a side that is not found, and the index -1 of a node
    that is not found, are the [None] of a lookup. *)
Record gsb_track := {
  chan_node : option t_rr_node;
  chan_node_direction : PORTS;
  chan_node_segment : N
}.

Record RRChan := {
  chan_tracks : list gsb_track;
  get_segment_ids : list N
}.

Record RRGSB := {
  get_sb_x : N;
  get_sb_y : N;
  get_chan : list RRChan;
  is_sb_node_exist_opposite_side : t_rr_node -> nat -> bool;
  is_sb_node_passing_wire : nat -> nat -> bool;
  (** [get_node_index(node, node_side, node_direction)] *)
  get_node_index : t_rr_node -> nat -> PORTS -> option nat;
  (** [get_node_side_and_index(node, node_direction, &side, &index)] *)
  get_node_side_and_index : t_rr_node -> PORTS -> option (nat * nat);
  (** [get_opin_node(side, inode)] with [get_opin_node_grid_side(side, inode)],
      for [inode < get_num_opin_nodes(side)] *)
  get_opin_nodes : nat -> list sb_pin;
  (** [get_opin_node_grid_side(opin_node)] *)
  get_opin_node_grid_side : t_rr_node -> Z
}.

(** A block type of the grid: [num_pins] and [pinloc[height][side][pin]]. *)
Record t_type := {
  num_pins : Z;
  pinloc : Z -> Z -> Z -> Z
}.

(** What [dump_verilog_grid_side_pin_with_given_index] prints. *)
Inductive pin_text :=
| port_type_output                  (* "output " *)
| port_type_input                   (* "input " *)
| explicit_name (x y height side pin_index : Z)   (* ".name(" *)
| pin_name (x y height side pin_index : Z)
| close_parenthesis
| comma_newline.

(** What is written to the netlist of a block for one sink node. *)
Inductive netlist_item :=
| self_loop_short
| driver_short
| mux_instance (mux_size : Z).

Definition is_mux_instance (i : netlist_item) : bool :=
  match i with mux_instance _ => true | _ => false end.

(** The block under emission: the live counter and the netlist written so
    far. *)
Record emit_state := {
  counter : t_sram_orgz_info;
  netlist : list netlist_item
}.

Definition write_item (st : emit_state) (i : netlist_item) : emit_state :=
  {| counter := counter st; netlist := netlist st ++ [i] |}.

Definition with_counter (st : emit_state) (info : t_sram_orgz_info) : emit_state :=
  {| counter := info; netlist := netlist st |}.

(** The per-coordinate record of a block in the device-wide store. *)
Record sb_conf_bits := {
  sb_num_reserved_conf_bits : Z;
  sb_conf_bits_lsb : Z;
  sb_conf_bits_msb : Z
}.

(** [device_rr_gsb]: the blocks of the device, column by column, the unique
    switch-block shapes, and the configuration records in the order in
    which they were written. *)
Record DeviceRRGSB := {
  rr_gsb : list (list RRGSB);
  sb_unique_module : list RRGSB;
  cb_unique_module : t_rr_type -> list RRGSB;
  sb_conf : list (N * N * sb_conf_bits)
}.

(** Modelled from the spec: the three setters [set_sb_num_reserved_conf_bits],
    [set_sb_conf_bits_lsb] and [set_sb_conf_bits_msb] of the absent class
    store, at the coordinate they are given, the "configuration-bit range
    [lsb, msb] and a reserved-bit count" of a block instance. *)
Definition set_sb_conf_bits (dev : DeviceRRGSB) (coordinator : N * N)
  (reserved lsb msb : Z) : DeviceRRGSB :=
  {| rr_gsb := rr_gsb dev; sb_unique_module := sb_unique_module dev;
     cb_unique_module := cb_unique_module dev;
     sb_conf := sb_conf dev ++
                [(coordinator, {| sb_num_reserved_conf_bits := reserved;
                                  sb_conf_bits_lsb := lsb;
                                  sb_conf_bits_msb := msb |})] |}.

Definition empty_chan : RRChan := {| chan_tracks := []; get_segment_ids := [] |}.

(** [rr_sb.get_chan(side)] *)
Definition chan_at (rr_sb : RRGSB) (side : nat) : RRChan :=
  nth side (get_chan rr_sb) empty_chan.

Section SwitchBlocks.

#[local] Set Default Proof Using "Type".

(** The global switch table, the grid size and the grid. *)
Variable switch_inf : Z -> t_switch_inf.
Variables nx ny : Z.
(** [grid[x][y].type], [None] for [NULL]. *)
Variable grid_type : Z -> Z -> option t_type.
Variable get_grid_pin_height : Z -> Z -> Z -> Z.
(** [Side(side).get_opposite()], of a class that is not part of the file. *)
Variable get_opposite : nat -> option nat.

(** The helpers of the full-array backend, which are defined in files that
    are not embedded: the two wire tests, the lookups of a node among the
    tracks and pins of a block, the type of the channel of a side (of
    [get_chan_rr_node_coordinate_in_sb_info] the coordinates are only
    printed), the test that a node drives another through a block, and the
    opposite of a side.  A side or an index of -1, which the lookups
    return for a node that is not found, is [None]. *)
Variable is_rr_node_exist_opposite_side_in_sb_info : t_sb -> t_rr_node -> nat -> Z.
Variable check_drive_rr_node_imply_short : t_sb -> t_rr_node -> nat -> bool.
Variable get_rr_node_index_in_sb_info : t_rr_node -> t_sb -> nat -> PORTS -> option nat.
Variable get_chan_rr_node_coordinate_in_sb_info : t_sb -> nat -> t_rr_type.
Variable rr_node_drive_switch_box : t_rr_node -> t_rr_node -> Z -> Z -> nat -> Z.
Variable get_rr_node_side_and_index_in_sb_info :
  t_rr_node -> t_sb -> PORTS -> option (nat * nat).
Variable get_opposite_side : nat -> option nat.

(** A proof that is about the data alone starts by forgetting the
    parameters of the section, so that no decision procedure picks them
    up. *)
Ltac forget_parameters :=
  repeat match goal with
         | x : Z -> t_switch_inf |- _ => clear x
         | x : Z -> Z -> option t_type |- _ => clear x
         | x : Z -> Z -> Z -> Z |- _ => clear x
         | x : nat -> option nat |- _ => clear x
         | x : t_sb -> t_rr_node -> nat -> Z |- _ => clear x
         | x : t_sb -> t_rr_node -> nat -> bool |- _ => clear x
         | x : t_rr_node -> t_sb -> nat -> PORTS -> option nat |- _ => clear x
         | x : t_sb -> nat -> t_rr_type |- _ => clear x
         | x : t_rr_node -> t_rr_node -> Z -> Z -> nat -> Z |- _ => clear x
         | x : t_rr_node -> t_sb -> PORTS -> option (nat * nat) |- _ => clear x
         | x : Z -> circuit_model |- _ => clear x
         | x : t_sram_orgz_info -> bool |- _ => clear x
         | x : t_sram_orgz_info -> RRGSB -> t_rr_type -> option t_sram_orgz_info |- _ =>
             clear x
         | x : Z |- _ => clear x
         end.

(** ** Bits of one interconnect

    The four counting functions of the file share one body; they differ in
    the wire test and in the bit-cost function.  [inside_channel_wire] is
    the outcome of "Determine if the interc lies inside a channel wire". *)
Definition count_interc_bits (cost : t_spice_model -> e_sram_orgz -> Z -> N)
  (cur_sram_orgz_info : t_sram_orgz_info) (inside_channel_wire : t_rr_node -> bool)
  (cur_rr_node : option t_rr_node) : option Z :=
  match cur_rr_node with
  | None => exit (* NULL cur_rr_node! *)
  | Some cur_rr_node =>
      let num_drive_rr_nodes :=
        if inside_channel_wire cur_rr_node then 0
        else num_drive_rr_nodes cur_rr_node in
      (* fan_in >= 2 implies a MUX and requires configuration bits *)
      if 2 >? num_drive_rr_nodes then Some 0
      else
        (* drive_switches[0]; a read past the end of the array ends the run *)
        switch_idx <- nth_error (drive_switches cur_rr_node) 0 ;;
        _ <- assert (-1 <? switch_idx) ;;
        _ <- assert (match spice_model_type (spice_model (switch_inf switch_idx)) with
                     | SPICE_MODEL_MUX => true
                     | _ => false
                     end) ;;
        Some (Z.of_N (cost (spice_model (switch_inf switch_idx))
                           (sram_orgz_type cur_sram_orgz_info) num_drive_rr_nodes))
  end.

(** The overloads on [t_sb] carry the suffix [_t_sb]. *)
Definition count_verilog_switch_box_interc_conf_bits_t_sb
  (cur_sram_orgz_info : t_sram_orgz_info) (cur_sb_info : t_sb) (chan_side : nat)
  (cur_rr_node : option t_rr_node) : option Z :=
  count_interc_bits count_num_conf_bits_one_spice_model cur_sram_orgz_info
    (fun n => is_rr_node_exist_opposite_side_in_sb_info cur_sb_info n chan_side =? 1)
    cur_rr_node.

Definition count_verilog_switch_box_interc_conf_bits
  (cur_sram_orgz_info : t_sram_orgz_info) (rr_sb : RRGSB) (chan_side : nat)
  (cur_rr_node : option t_rr_node) : option Z :=
  count_interc_bits count_num_conf_bits_one_spice_model cur_sram_orgz_info
    (fun n => is_sb_node_exist_opposite_side rr_sb n chan_side) cur_rr_node.

Definition count_verilog_switch_box_interc_reserved_conf_bits_t_sb
  (cur_sram_orgz_info : t_sram_orgz_info) (cur_sb_info : t_sb) (chan_side : nat)
  (cur_rr_node : option t_rr_node) : option Z :=
  count_interc_bits count_num_reserved_conf_bits_one_spice_model cur_sram_orgz_info
    (fun n => is_rr_node_exist_opposite_side_in_sb_info cur_sb_info n chan_side =? 1)
    cur_rr_node.

Definition count_verilog_switch_box_interc_reserved_conf_bits
  (cur_sram_orgz_info : t_sram_orgz_info) (rr_sb : RRGSB) (chan_side : nat)
  (cur_rr_node : option t_rr_node) : option Z :=
  count_interc_bits count_num_reserved_conf_bits_one_spice_model cur_sram_orgz_info
    (fun n => is_sb_node_exist_opposite_side rr_sb n chan_side) cur_rr_node.

(** ** Bits of a block *)

Definition count_verilog_switch_box_reserved_conf_bits_t_sb
  (cur_sram_orgz_info : t_sram_orgz_info) (cur_sb_info : t_sb) : option Z :=
  foldM (fun num_reserved_conf_bits '(side, tracks) =>
    foldM (fun num_reserved_conf_bits track =>
      match chan_rr_node_direction track with
      | OUT_PORT =>
          temp_num_reserved_conf_bits <-
            count_verilog_switch_box_interc_reserved_conf_bits_t_sb
              cur_sram_orgz_info cur_sb_info side (chan_rr_node track) ;;
          (* Always select the largest number of reserved conf_bits *)
          Some (if temp_num_reserved_conf_bits >? num_reserved_conf_bits
                then temp_num_reserved_conf_bits else num_reserved_conf_bits)
      | IN_PORT => Some num_reserved_conf_bits
      | _ => exit
      end) tracks num_reserved_conf_bits)
    (indexed (sb_chan cur_sb_info)) 0.

Definition count_verilog_switch_box_side_reserved_conf_bits
  (cur_sram_orgz_info : t_sram_orgz_info) (rr_sb : RRGSB) (side : nat) (seg_id : N)
  : option Z :=
  foldM (fun num_reserved_conf_bits track =>
    (* Bypass unwanted segments *)
    if negb (N.eqb seg_id (chan_node_segment track)) then Some num_reserved_conf_bits
    else
      match chan_node_direction track with
      | OUT_PORT =>
          temp_num_reserved_conf_bits <-
            count_verilog_switch_box_interc_reserved_conf_bits
              cur_sram_orgz_info rr_sb side (chan_node track) ;;
          (* Always select the largest number of reserved conf_bits *)
          Some (Z.max num_reserved_conf_bits temp_num_reserved_conf_bits)
      | IN_PORT => Some num_reserved_conf_bits
      | _ => exit
      end) (chan_tracks (chan_at rr_sb side)) 0.

Definition count_verilog_switch_box_reserved_conf_bits
  (cur_sram_orgz_info : t_sram_orgz_info) (rr_sb : RRGSB) : option Z :=
  foldM (fun num_reserved_conf_bits side =>
    (* get segment ids *)
    let seg_ids := get_segment_ids (chan_at rr_sb side) in
    foldM (fun num_reserved_conf_bits seg_id =>
      temp_num_reserved_conf_bits <-
        count_verilog_switch_box_side_reserved_conf_bits
          cur_sram_orgz_info rr_sb side seg_id ;;
      (* Always select the largest number of reserved conf_bits *)
      Some (Z.max num_reserved_conf_bits temp_num_reserved_conf_bits))
      seg_ids num_reserved_conf_bits)
    (seq 0 (length (get_chan rr_sb))) 0.

Definition count_verilog_switch_box_conf_bits_t_sb
  (cur_sram_orgz_info : t_sram_orgz_info) (cur_sb_info : t_sb) : option Z :=
  foldM (fun num_conf_bits '(side, tracks) =>
    foldM (fun num_conf_bits track =>
      match chan_rr_node_direction track with
      | OUT_PORT =>
          n <- count_verilog_switch_box_interc_conf_bits_t_sb
                 cur_sram_orgz_info cur_sb_info side (chan_rr_node track) ;;
          Some (num_conf_bits + n)
      | IN_PORT => Some num_conf_bits
      | _ => exit
      end) tracks num_conf_bits)
    (indexed (sb_chan cur_sb_info)) 0.

Definition count_verilog_switch_box_side_conf_bits
  (cur_sram_orgz_info : t_sram_orgz_info) (rr_sb : RRGSB) (side : nat) (seg_id : N)
  : option Z :=
  foldM (fun num_conf_bits track =>
    (* Bypass unwanted segments *)
    if negb (N.eqb seg_id (chan_node_segment track)) then Some num_conf_bits
    else
      match chan_node_direction track with
      | OUT_PORT =>
          n <- count_verilog_switch_box_interc_conf_bits
                 cur_sram_orgz_info rr_sb side (chan_node track) ;;
          Some (num_conf_bits + n)
      | IN_PORT => Some num_conf_bits
      | _ => exit
      end) (chan_tracks (chan_at rr_sb side)) 0.

Definition count_verilog_switch_box_conf_bits
  (cur_sram_orgz_info : t_sram_orgz_info) (rr_sb : RRGSB) : option Z :=
  foldM (fun num_conf_bits side =>
    (* get segment ids *)
    let seg_ids := get_segment_ids (chan_at rr_sb side) in
    foldM (fun num_conf_bits seg_id =>
      n <- count_verilog_switch_box_side_conf_bits cur_sram_orgz_info rr_sb side seg_id ;;
      Some (num_conf_bits + n))
      seg_ids num_conf_bits)
    (seq 0 (length (get_chan rr_sb))) 0.

(** ** [update_routing_switch_box_conf_bits] *)

Definition update_routing_switch_box_conf_bits (cur_sram_orgz_info : t_sram_orgz_info)
  (device_rr_gsb : DeviceRRGSB) (rr_sb : RRGSB)
  : option (t_sram_orgz_info * DeviceRRGSB) :=
  let '(cur_num_bl, cur_num_wl) := get_sram_orgz_info_num_blwl cur_sram_orgz_info in
  let sb_coordinator := (get_sb_x rr_sb, get_sb_y rr_sb) in
  (* Count the number of configuration bits to be consumed by this Switch block *)
  num_conf_bits <- count_verilog_switch_box_conf_bits cur_sram_orgz_info rr_sb ;;
  (* Count the number of reserved configuration bits *)
  num_reserved_conf_bits <-
    count_verilog_switch_box_reserved_conf_bits cur_sram_orgz_info rr_sb ;;
  (* Estimate the sram_verilog_model->cnt *)
  let cur_num_sram := get_sram_orgz_info_num_mem_bit cur_sram_orgz_info in
  let device_rr_gsb :=
    set_sb_conf_bits device_rr_gsb sb_coordinator num_reserved_conf_bits
      cur_num_sram (cur_num_sram + num_conf_bits - 1) in
  (* Update the counter *)
  let cur_sram_orgz_info :=
    update_sram_orgz_info_num_mem_bit cur_sram_orgz_info (cur_num_sram + num_conf_bits) in
  let cur_sram_orgz_info :=
    update_sram_orgz_info_num_blwl cur_sram_orgz_info
      (cur_num_bl + num_conf_bits) (cur_num_wl + num_conf_bits) in
  Some (cur_sram_orgz_info, device_rr_gsb).

(** ** [dump_verilog_grid_side_pin_with_given_index] *)

Definition dump_verilog_grid_side_pin_with_given_index (pin_type : t_rr_type)
  (pin_index side x y : Z) (dump_port_type is_explicit_mapping : bool)
  : option (list pin_text) :=
  (* Check *)
  _ <- assert (negb (0 >? x) && negb (x >? nx + 1)) ;;
  _ <- assert (negb (0 >? y) && negb (y >? ny + 1)) ;;
  type <- grid_type x y ;;
  _ <- assert (negb (0 >? pin_index) && (pin_index <? num_pins type)) ;;
  _ <- assert (negb (0 >? side) && negb (side >? 3)) ;;
  (* Assign the type of PIN *)
  verilog_port_type <-
    match pin_type with
    | IPIN => Some port_type_output
    | OPIN => Some port_type_input
    | _ => exit (* Invalid pin_type! *)
    end ;;
  (* Output the pins on the side *)
  let height := get_grid_pin_height x y pin_index in
  if 1 =? pinloc type height side pin_index then
    let text := if dump_port_type then [verilog_port_type] else [] in
    (* Both cannot be true at the same time *)
    let is_explicit_mapping := if dump_port_type then false else is_explicit_mapping in
    let text :=
      if is_explicit_mapping then text ++ [explicit_name x y height side pin_index]
      else text in
    let text := text ++ [pin_name x y height side pin_index] in
    let text := if is_explicit_mapping then text ++ [close_parenthesis] else text in
    let text := if dump_port_type then text ++ [comma_newline] else text in
    Some text
  else exit (* Fail to print a grid pin *).

(** ** Emission of one interconnect

    The functions below print text.  What is kept of the text of an
    interconnect is the kind of construct that is written for the sink
    node, once the function that writes it has returned.  The functions of
    other files that are called to print buses, configuration ports and
    memory modules write text, and are not modelled. *)

(** [assert] of the full-array functions on the coordinates of the block. *)
Definition sb_in_device (cur_sb_info : t_sb) : bool :=
  negb (0 >? sb_x cur_sb_info) && negb (sb_x cur_sb_info >? nx + 1)
  && negb (0 >? sb_y cur_sb_info) && negb (sb_y cur_sb_info >? ny + 1).

(** [cur_sb_info->chan_rr_node_direction[side][index]] and
    [cur_sb_info->opin_rr_node_grid_side[side][index]]; a read outside the
    arrays ends the run. *)
Definition sb_track_at (cur_sb_info : t_sb) (side index : nat) : option sb_track :=
  nth_error (nth side (sb_chan cur_sb_info) []) index.

Definition sb_pin_at (cur_sb_info : t_sb) (side index : nat) : option sb_pin :=
  nth_error (nth side (sb_opin cur_sb_info) []) index.

Definition dump_verilog_switch_box_chan_port (cur_sb_info : t_sb) (chan_side : nat)
  (cur_rr_node : t_rr_node) (cur_rr_node_direction : PORTS) : option unit :=
  (* Get the index in sb_info of cur_rr_node;
     make sure this node is included in this sb_info *)
  index <- get_rr_node_index_in_sb_info cur_rr_node cur_sb_info chan_side
             cur_rr_node_direction ;;
  let chan_rr_node_type := get_chan_rr_node_coordinate_in_sb_info cur_sb_info chan_side in
  _ <- assert (rr_type_eqb (rr_node_type cur_rr_node) chan_rr_node_type) ;;
  (* the direction of the track is printed *)
  _ <- sb_track_at cur_sb_info chan_side index ;;
  Some tt.

Definition dump_verilog_unique_switch_box_chan_port (rr_sb : RRGSB) (chan_side : nat)
  (cur_rr_node : t_rr_node) (cur_rr_node_direction : PORTS) : option unit :=
  (* Get the index in sb_info of cur_rr_node;
     make sure this node is included in this sb_info *)
  _ <- get_node_index rr_sb cur_rr_node chan_side cur_rr_node_direction ;;
  Some tt.

Definition dump_verilog_unique_switch_box_short_interc (st : emit_state) (rr_sb : RRGSB)
  (chan_side : nat) (cur_rr_node : t_rr_node) (actual_fan_in : Z)
  (drive_rr_node : t_rr_node) : option emit_state :=
  (* Check *)
  _ <- assert ((0 =? actual_fan_in) || (1 =? actual_fan_in)) ;;
  (* Output port *)
  _ <- dump_verilog_unique_switch_box_chan_port rr_sb chan_side cur_rr_node OUT_PORT ;;
  (* Check the driver *)
  _ <- (if 0 =? actual_fan_in then assert (same_node drive_rr_node cur_rr_node)
        else assert (1 =? actual_fan_in)) ;;
  _ <- match rr_node_type drive_rr_node with
       | OPIN =>
           (* Print a grid pin *)
           _ <- dump_verilog_grid_side_pin_with_given_index IPIN
                  (ptc_num drive_rr_node) (get_opin_node_grid_side rr_sb drive_rr_node)
                  (xlow drive_rr_node) (ylow drive_rr_node) false false ;;
           Some tt
       | CHANX | CHANY =>
           (* Should an input *)
           side <- (if same_node cur_rr_node drive_rr_node then
                      (* To be strict, the input should locate on the opposite side *)
                      get_opposite chan_side
                    else
                      si <- get_node_side_and_index rr_sb drive_rr_node IN_PORT ;;
                      Some (fst si)) ;;
           (* We need to be sure that drive_rr_node is part of the SB *)
           dump_verilog_unique_switch_box_chan_port rr_sb side drive_rr_node IN_PORT
       | _ => exit (* Invalid rr_node type! Should be [OPIN|CHANX|CHANY] *)
       end ;;
  Some (write_item st (if 0 =? actual_fan_in then self_loop_short else driver_short)).

Definition dump_verilog_switch_box_short_interc (st : emit_state) (cur_sb_info : t_sb)
  (chan_side : nat) (cur_rr_node : t_rr_node) (actual_fan_in : Z)
  (drive_rr_node : t_rr_node) (is_explicit_mapping : bool) : option emit_state :=
  (* Check *)
  _ <- assert (sb_in_device cur_sb_info) ;;
  _ <- assert ((0 =? actual_fan_in) || (1 =? actual_fan_in)) ;;
  (* Output port *)
  _ <- dump_verilog_switch_box_chan_port cur_sb_info chan_side cur_rr_node OUT_PORT ;;
  (* Check the driver *)
  _ <- (if 0 =? actual_fan_in then assert (same_node drive_rr_node cur_rr_node)
        else assert (1 =? rr_node_drive_switch_box drive_rr_node cur_rr_node
                            (sb_x cur_sb_info) (sb_y cur_sb_info) chan_side)) ;;
  _ <- match rr_node_type drive_rr_node with
       | OPIN =>
           (* Search all the sides of a SB, see this drive_rr_node is an
              INPUT of this SB; we need to be sure that drive_rr_node is
              part of the SB *)
           si <- get_rr_node_side_and_index_in_sb_info drive_rr_node cur_sb_info IN_PORT ;;
           pin <- sb_pin_at cur_sb_info (fst si) (snd si) ;;
           (* Print a grid pin *)
           _ <- dump_verilog_grid_side_pin_with_given_index IPIN
                  (ptc_num drive_rr_node) (opin_rr_node_grid_side pin)
                  (xlow drive_rr_node) (ylow drive_rr_node) false is_explicit_mapping ;;
           Some tt
       | CHANX | CHANY =>
           (* Should an input *)
           si <- (if same_node cur_rr_node drive_rr_node then
                    (* To be strict, the input should locate on the opposite side *)
                    side <- get_opposite_side chan_side ;;
                    index <- get_rr_node_index_in_sb_info drive_rr_node cur_sb_info
                               side IN_PORT ;;
                    Some (side, index)
                  else
                    get_rr_node_side_and_index_in_sb_info drive_rr_node cur_sb_info
                      IN_PORT) ;;
           (* We need to be sure that drive_rr_node is part of the SB *)
           dump_verilog_switch_box_chan_port cur_sb_info (fst si) drive_rr_node IN_PORT
       | _ => exit (* Invalid rr_node type! Should be [OPIN|CHANX|CHANY] *)
       end ;;
  Some (write_item st (if 0 =? actual_fan_in then self_loop_short else driver_short)).

(** The counter after a multiplexer of [mux_size] inputs: it moves by the
    bit cost of the multiplexer, as the design technology of the model
    says; any other technology ends the run. *)
Definition update_counter_for_mux (st : emit_state) (verilog_model : t_spice_model)
  (mux_size : Z) : option emit_state :=
  let cur_num_sram := get_sram_orgz_info_num_mem_bit (counter st) in
  let '(cur_bl, cur_wl) := get_sram_orgz_info_num_blwl (counter st) in
  (* Get the number of configuration bits required by this MUX *)
  let num_mux_conf_bits :=
    Z.of_N (count_num_conf_bits_one_spice_model verilog_model
              (sram_orgz_type (counter st)) mux_size) in
  let st := write_item st (mux_instance mux_size) in
  (* Depend on both technology and structure of this MUX *)
  match design_tech verilog_model with
  | SPICE_MODEL_DESIGN_CMOS =>
      (* update the number of memory bits *)
      Some (with_counter st
              (update_sram_orgz_info_num_mem_bit (counter st)
                 (cur_num_sram + num_mux_conf_bits)))
  | SPICE_MODEL_DESIGN_RRAM =>
      Some (with_counter st
              (update_sram_orgz_info_num_blwl
                 (update_sram_orgz_info_num_mem_bit (counter st)
                    (cur_num_sram + num_mux_conf_bits))
                 (cur_bl + num_mux_conf_bits) (cur_wl + num_mux_conf_bits)))
  | SPICE_MODEL_DESIGN_invalid => exit
  end.

(** The multiplexer of a sink node: its inputs are looked up and printed,
    the instance is written and the counter moves by the bit cost of the
    multiplexer. *)
Definition dump_verilog_unique_switch_box_mux (st : emit_state) (rr_sb : RRGSB)
  (chan_side : nat) (cur_rr_node : t_rr_node) (mux_size : Z)
  (drive_rr_nodes : list t_rr_node) (switch_index : Z) (is_explicit_mapping : bool)
  : option emit_state :=
  (* Check current rr_node is CHANX or CHANY *)
  _ <- assert (is_chan (rr_node_type cur_rr_node)) ;;
  _ <- assert ((2 =? mux_size) || (2 <? mux_size)) ;;
  (* Get verilog model *)
  let verilog_model := spice_model (switch_inf switch_index) in
  (* Input ports: connect input ports to bus.  [drive_rr_nodes[inode]]
     for [inode < mux_size]: a read past the end of the array ends the run *)
  input_cnt <-
    foldM (fun input_cnt inode =>
      drive_rr_node <- nth_error drive_rr_nodes inode ;;
      match rr_node_type drive_rr_node with
      | OPIN =>
          (* Print a grid pin *)
          _ <- dump_verilog_grid_side_pin_with_given_index IPIN
                 (ptc_num drive_rr_node) (get_opin_node_grid_side rr_sb drive_rr_node)
                 (xlow drive_rr_node) (ylow drive_rr_node) false false ;;
          Some (input_cnt + 1)
      | CHANX | CHANY =>
          (* Should be an input!  We need to be sure that drive_rr_node is
             part of the SB *)
          si <- get_node_side_and_index rr_sb drive_rr_node IN_PORT ;;
          _ <- dump_verilog_unique_switch_box_chan_port rr_sb (fst si) drive_rr_node
                 IN_PORT ;;
          Some (input_cnt + 1)
      | _ => exit (* Invalid rr_node type! Should be [OPIN|CHANX|CHANY] *)
      end) (seq 0 (Z.to_nat mux_size)) 0 ;;
  _ <- assert (input_cnt =? mux_size) ;;
  (* [input_port[0]] and [output_port[0]] of the model are read for their
     names when the ports are mapped explicitly *)
  _ <- (if is_explicit_mapping then
          assert (Nat.ltb 0 (find_spice_model_ports verilog_model SPICE_MODEL_PORT_INPUT)
                  && Nat.ltb 0 (find_spice_model_ports verilog_model
                                  SPICE_MODEL_PORT_OUTPUT))
        else Some tt) ;;
  (* Output port *)
  _ <- dump_verilog_unique_switch_box_chan_port rr_sb chan_side cur_rr_node OUT_PORT ;;
  update_counter_for_mux st verilog_model mux_size.

Definition dump_verilog_switch_box_mux (st : emit_state) (cur_sb_info : t_sb)
  (chan_side : nat) (cur_rr_node : t_rr_node) (mux_size : Z)
  (drive_rr_nodes : list t_rr_node) (switch_index : Z) (is_explicit_mapping : bool)
  : option emit_state :=
  (* Check *)
  _ <- assert (sb_in_device cur_sb_info) ;;
  (* Check current rr_node is CHANX or CHANY *)
  _ <- assert (is_chan (rr_node_type cur_rr_node)) ;;
  _ <- assert ((2 =? mux_size) || (2 <? mux_size)) ;;
  (* Get verilog model *)
  let verilog_model := spice_model (switch_inf switch_index) in
  (* Input ports: connect input ports to bus.  [drive_rr_nodes[inode]]
     for [inode < mux_size]: a read past the end of the array ends the run *)
  input_cnt <-
    foldM (fun input_cnt inode =>
      drive_rr_node <- nth_error drive_rr_nodes inode ;;
      match rr_node_type drive_rr_node with
      | OPIN =>
          (* Search all the sides of a SB, see this drive_rr_node is an
             INPUT of this SB; we need to be sure that drive_rr_node is
             part of the SB *)
          si <- get_rr_node_side_and_index_in_sb_info drive_rr_node cur_sb_info IN_PORT ;;
          pin <- sb_pin_at cur_sb_info (fst si) (snd si) ;;
          (* Print a grid pin *)
          _ <- dump_verilog_grid_side_pin_with_given_index IPIN
                 (ptc_num drive_rr_node) (opin_rr_node_grid_side pin)
                 (xlow drive_rr_node) (ylow drive_rr_node) false is_explicit_mapping ;;
          Some (input_cnt + 1)
      | CHANX | CHANY =>
          (* Should be an input!  We need to be sure that drive_rr_node is
             part of the SB *)
          si <- get_rr_node_side_and_index_in_sb_info drive_rr_node cur_sb_info IN_PORT ;;
          _ <- dump_verilog_switch_box_chan_port cur_sb_info (fst si) drive_rr_node
                 IN_PORT ;;
          Some (input_cnt + 1)
      | _ => exit (* Invalid rr_node type! Should be [OPIN|CHANX|CHANY] *)
      end) (seq 0 (Z.to_nat mux_size)) 0 ;;
  _ <- assert (input_cnt =? mux_size) ;;
  (* Output port *)
  _ <- dump_verilog_switch_box_chan_port cur_sb_info chan_side cur_rr_node OUT_PORT ;;
  update_counter_for_mux st verilog_model mux_size.

Definition dump_verilog_switch_box_interc (st : emit_state) (cur_sb_info : t_sb)
  (chan_side : nat) (cur_rr_node : option t_rr_node) (is_explicit_mapping : bool)
  : option emit_state :=
  (* Check *)
  _ <- assert (sb_in_device cur_sb_info) ;;
  cur_rr_node <- cur_rr_node ;;
  (* Determine if the interc lies inside a channel wire *)
  num_drive_rr_nodes <-
    (if check_drive_rr_node_imply_short cur_sb_info cur_rr_node chan_side then
       (* Double check if the interc lies inside a channel wire *)
       _ <- assert (is_rr_node_exist_opposite_side_in_sb_info
                      cur_sb_info cur_rr_node chan_side =? 1) ;;
       Some 0
     else Some (num_drive_rr_nodes cur_rr_node)) ;;
  if 0 =? num_drive_rr_nodes then
    (* Print a special direct connection *)
    dump_verilog_switch_box_short_interc st cur_sb_info chan_side cur_rr_node
      num_drive_rr_nodes cur_rr_node is_explicit_mapping
  else if 1 =? num_drive_rr_nodes then
    (* Print a direct connection *)
    drive_rr_node <- nth_error (drive_rr_nodes cur_rr_node) DEFAULT_SWITCH_ID ;;
    dump_verilog_switch_box_short_interc st cur_sb_info chan_side cur_rr_node
      num_drive_rr_nodes drive_rr_node is_explicit_mapping
  else if 1 <? num_drive_rr_nodes then
    (* Print the multiplexer, fan_in >= 2 *)
    switch_index <- nth_error (drive_switches cur_rr_node) DEFAULT_SWITCH_ID ;;
    dump_verilog_switch_box_mux st cur_sb_info chan_side cur_rr_node num_drive_rr_nodes
      (drive_rr_nodes cur_rr_node) switch_index is_explicit_mapping
  else Some st (* Nothing should be done else *).

Definition no_track : gsb_track :=
  {| chan_node := None; chan_node_direction := IN_PORT; chan_node_segment := 0 |}.

(** The node of track [id] on side [side]: [rr_sb.get_chan_node(side, id)]. *)
Definition get_chan_node (rr_sb : RRGSB) (side id : nat) : option t_rr_node :=
  chan_node (nth id (chan_tracks (chan_at rr_sb side)) no_track).

Definition dump_verilog_unique_switch_box_interc (st : emit_state) (rr_sb : RRGSB)
  (chan_side : nat) (chan_node_id : nat) (is_explicit_mapping : bool)
  : option emit_state :=
  (* Get the node *)
  cur_rr_node <- get_chan_node rr_sb chan_side chan_node_id ;;
  let skip_or_fan_in :=
    if is_sb_node_passing_wire rr_sb chan_side chan_node_id then Some 0
    else
      (* Special: if there are zero-driver nodes. We skip here *)
      if 0 =? num_drive_rr_nodes cur_rr_node then None
      else Some (num_drive_rr_nodes cur_rr_node) in
  match skip_or_fan_in with
  | None => Some st (* return *)
  | Some num_drive_rr_nodes =>
      if 0 =? num_drive_rr_nodes then
        (* Print a special direct connection *)
        dump_verilog_unique_switch_box_short_interc st rr_sb chan_side cur_rr_node
          num_drive_rr_nodes cur_rr_node
      else if 1 =? num_drive_rr_nodes then
        (* Print a direct connection *)
        drive_rr_node <- nth_error (drive_rr_nodes cur_rr_node) DEFAULT_SWITCH_ID ;;
        dump_verilog_unique_switch_box_short_interc st rr_sb chan_side cur_rr_node
          num_drive_rr_nodes drive_rr_node
      else if 1 <? num_drive_rr_nodes then
        (* Print the multiplexer, fan_in >= 2 *)
        switch_index <- nth_error (drive_switches cur_rr_node) DEFAULT_SWITCH_ID ;;
        dump_verilog_unique_switch_box_mux st rr_sb chan_side cur_rr_node
          num_drive_rr_nodes (drive_rr_nodes cur_rr_node) switch_index
          is_explicit_mapping
      else Some st (* Nothing should be done else *)
  end.

(** ** Emission of a block *)

(** The loop that prints the ports of the tracks: a direction other than
    input or output stops the run. *)
Definition direction_is_valid (d : PORTS) : bool :=
  match d with OUT_PORT | IN_PORT => true | INOUT_PORT => false end.

(** The first loop of [dump_verilog_routing_switch_box_unique_subckt]: the
    ports of the tracks of every side, then the output pins of the grids
    next to it, which are inputs of the block. *)
Definition unique_switch_box_ports (rr_gsb : RRGSB) (is_explicit_mapping : bool)
  : option unit :=
  foldM (fun (u : unit) side =>
    _ <- foldM (fun (u : unit) track =>
           assert (direction_is_valid (chan_node_direction track)))
           (chan_tracks (chan_at rr_gsb side)) u ;;
    (* Dump OPINs of adjacent CLBs *)
    foldM (fun (u : unit) pin =>
      _ <- dump_verilog_grid_side_pin_with_given_index OPIN
             (ptc_num (opin_rr_node pin)) (opin_rr_node_grid_side pin)
             (xlow (opin_rr_node pin)) (ylow (opin_rr_node pin))
             true is_explicit_mapping ;;
      Some tt) (get_opin_nodes rr_gsb side) u)
    (seq 0 (length (get_chan rr_gsb))) tt.

(** Its second loop: "Put down all the multiplexers". *)
Definition unique_switch_box_multiplexers (cur_sram_orgz_info : t_sram_orgz_info)
  (rr_sb : RRGSB) (is_explicit_mapping : bool) : option emit_state :=
  foldM (fun st side =>
    foldM (fun st '(itrack, track) =>
      node <- chan_node track ;;
      _ <- assert (is_chan (rr_node_type node)) ;;
      (* We care INC_DIRECTION tracks at this side *)
      match chan_node_direction track with
      | OUT_PORT =>
          dump_verilog_unique_switch_box_interc st rr_sb side itrack is_explicit_mapping
      | _ => Some st
      end) (indexed (chan_tracks (chan_at rr_sb side))) st)
    (seq 0 (length (get_chan rr_sb)))
    {| counter := cur_sram_orgz_info; netlist := [] |}.

Definition dump_verilog_routing_switch_box_unique_subckt
  (cur_sram_orgz_info : t_sram_orgz_info) (rr_sb : RRGSB) (is_explicit_mapping : bool)
  : option (t_sram_orgz_info * list netlist_item) :=
  (* Count the number of configuration bits to be consumed by this Switch block *)
  num_conf_bits <- count_verilog_switch_box_conf_bits cur_sram_orgz_info rr_sb ;;
  (* Count the number of reserved configuration bits *)
  num_reserved_conf_bits <-
    count_verilog_switch_box_reserved_conf_bits cur_sram_orgz_info rr_sb ;;
  (* Estimate the sram_verilog_model->cnt *)
  let cur_num_sram := get_sram_orgz_info_num_mem_bit cur_sram_orgz_info in
  let esti_sram_cnt := cur_num_sram + num_conf_bits in
  (* Print ports *)
  _ <- unique_switch_box_ports rr_sb is_explicit_mapping ;;
  (* Put down all the multiplexers *)
  st <- unique_switch_box_multiplexers cur_sram_orgz_info rr_sb is_explicit_mapping ;;
  (* Check *)
  _ <- assert (esti_sram_cnt =? get_sram_orgz_info_num_mem_bit (counter st)) ;;
  Some (counter st, netlist st).

(** The record fields of a [t_sb] are assigned in place. *)
Definition record_conf_bits (cur_sb_info : t_sb) (reserved lsb msb : Z) : t_sb :=
  {| sb_x := sb_x cur_sb_info; sb_y := sb_y cur_sb_info;
     sb_chan := sb_chan cur_sb_info; sb_opin := sb_opin cur_sb_info;
     mirror := mirror cur_sb_info;
     num_reserved_conf_bits := reserved; conf_bits_lsb := lsb; conf_bits_msb := msb |}.

(** The two loops of [dump_verilog_routing_switch_box_subckt]. *)
Definition switch_box_ports (cur_sb_info : t_sb) (is_explicit_mapping : bool)
  : option unit :=
  foldM (fun (u : unit) '(side, tracks) =>
    _ <- foldM (fun (u : unit) track =>
           assert (direction_is_valid (chan_rr_node_direction track))) tracks u ;;
    (* Dump OPINs of adjacent CLBs *)
    foldM (fun (u : unit) pin =>
      _ <- dump_verilog_grid_side_pin_with_given_index OPIN
             (ptc_num (opin_rr_node pin)) (opin_rr_node_grid_side pin)
             (xlow (opin_rr_node pin)) (ylow (opin_rr_node pin))
             true is_explicit_mapping ;;
      Some tt) (nth side (sb_opin cur_sb_info) []) u)
    (indexed (sb_chan cur_sb_info)) tt.

Definition switch_box_multiplexers (cur_sram_orgz_info : t_sram_orgz_info)
  (cur_sb_info : t_sb) (is_explicit_mapping : bool) : option emit_state :=
  foldM (fun st '(side, tracks) =>
    foldM (fun st track =>
      node <- chan_rr_node track ;;
      _ <- assert (is_chan (rr_node_type node)) ;;
      (* We care INC_DIRECTION tracks at this side *)
      match chan_rr_node_direction track with
      | OUT_PORT =>
          dump_verilog_switch_box_interc st cur_sb_info side (chan_rr_node track)
            is_explicit_mapping
      | _ => Some st
      end) tracks st)
    (indexed (sb_chan cur_sb_info))
    {| counter := cur_sram_orgz_info; netlist := [] |}.

Definition dump_verilog_routing_switch_box_subckt
  (cur_sram_orgz_info : t_sram_orgz_info) (cur_sb_info : t_sb)
  (compact_routing_hierarchy is_explicit_mapping : bool)
  : option (t_sram_orgz_info * t_sb * list netlist_item) :=
  (* Check *)
  _ <- assert (sb_in_device cur_sb_info) ;;
  (* Count the number of configuration bits to be consumed by this Switch block *)
  num_conf_bits <- count_verilog_switch_box_conf_bits_t_sb cur_sram_orgz_info cur_sb_info ;;
  (* Count the number of reserved configuration bits *)
  num_reserved_conf_bits <-
    count_verilog_switch_box_reserved_conf_bits_t_sb cur_sram_orgz_info cur_sb_info ;;
  (* Estimate the sram_verilog_model->cnt *)
  let cur_num_sram := get_sram_orgz_info_num_mem_bit cur_sram_orgz_info in
  let esti_sram_cnt := cur_num_sram + num_conf_bits in
  (* Record the index *)
  let cur_sb_info :=
    record_conf_bits cur_sb_info num_reserved_conf_bits cur_num_sram
      (cur_num_sram + num_conf_bits) in
  (* Handle mirror switch blocks: for mirrors, no need to output a file,
     just update the counter *)
  match (if compact_routing_hierarchy then mirror cur_sb_info else None) with
  | Some the_mirror =>
      (* Again ensure the conf_bits should match !!! *)
      mirror_num_conf_bits <-
        count_verilog_switch_box_conf_bits_t_sb cur_sram_orgz_info the_mirror ;;
      _ <- assert (mirror_num_conf_bits =? num_conf_bits) ;;
      (* update memory bits return directly *)
      Some (update_sram_orgz_info_num_mem_bit cur_sram_orgz_info
              (conf_bits_msb cur_sb_info),
            cur_sb_info, [])
  | None =>
      (* Print ports *)
      _ <- switch_box_ports cur_sb_info is_explicit_mapping ;;
      (* Put down all the multiplexers *)
      st <- switch_box_multiplexers cur_sram_orgz_info cur_sb_info is_explicit_mapping ;;
      (* Check *)
      _ <- assert (esti_sram_cnt =? get_sram_orgz_info_num_mem_bit (counter st)) ;;
      Some (counter st, cur_sb_info, netlist st)
  end.

(** ** The switch-block and connection-block parts of
       [print_verilog_routing_resources] *)

(** *** The writer that goes through the module manager

    [print_verilog_routing_switch_box_unique_module] writes the block of a
    unique shape a second time.  It reads the counter, to count the bits of
    the block and for its organisation type, and does not write it: its
    updates of the counter are commented out in the source.  What it
    registers in the module manager and what it prints is text; its result
    is that it returns. *)

(** The circuit models of the switches, and whether the circuit library
    knows the memory model of the counter
    ([CircuitModelId::INVALID() != circuit_lib.model(mem_model->name)]). *)
Variable rr_switches : Z -> circuit_model.
Variable sram_model_is_valid : t_sram_orgz_info -> bool.

Definition generate_verilog_unique_switch_box_chan_port (rr_sb : RRGSB) (chan_side : nat)
  (cur_rr_node : t_rr_node) (cur_rr_node_direction : PORTS) : option unit :=
  (* Get the index in sb_info of cur_rr_node;
     make sure this node is included in this sb_info *)
  index <- get_node_index rr_sb cur_rr_node chan_side cur_rr_node_direction ;;
  (* the type of [rr_sb.get_chan_node(chan_side, index)] is read for the name *)
  _ <- get_chan_node rr_sb chan_side index ;;
  Some tt.

(** [input_side] is the side of a track among the sides of the block,
    [None] for [NUM_SIDES]; the side of a pin on its grid is printed
    only. *)
Definition generate_switch_block_input_port (rr_sb : RRGSB) (input_side : option nat)
  (input_rr_node : t_rr_node) : option unit :=
  match rr_node_type input_rr_node with
  | OPIN => Some tt
  | CHANX | CHANY =>
      input_side <- input_side ;;
      generate_verilog_unique_switch_box_chan_port rr_sb input_side input_rr_node IN_PORT
  | _ => exit (* Invalid rr_node type! Should be [OPIN|CHANX|CHANY] *)
  end.

Definition generate_switch_block_input_ports (rr_sb : RRGSB)
  (input_rr_nodes : list t_rr_node) : option unit :=
  foldM (fun (u : unit) input_rr_node =>
    input_pin_side <-
      match rr_node_type input_rr_node with
      | OPIN => Some None (* rr_sb.get_opin_node_grid_side(input_rr_node) *)
      | CHANX | CHANY =>
          (* The input could be at any side of the switch block, find it *)
          si <- get_node_side_and_index rr_sb input_rr_node IN_PORT ;;
          Some (Some (fst si))
      | _ => exit (* Invalid rr_node type! Should be [OPIN|CHANX|CHANY] *)
      end ;;
    generate_switch_block_input_port rr_sb input_pin_side input_rr_node)
    input_rr_nodes tt.

Definition print_verilog_unique_switch_box_short_interc (rr_sb : RRGSB) (chan_side : nat)
  (cur_rr_node drive_rr_node : t_rr_node) : option unit :=
  (* Find the name of output port *)
  _ <- generate_verilog_unique_switch_box_chan_port rr_sb chan_side cur_rr_node OUT_PORT ;;
  (* Generate the input port object *)
  input_pin_side <-
    match rr_node_type drive_rr_node with
    | OPIN => Some None (* rr_sb.get_opin_node_grid_side(drive_rr_node) *)
    | CHANX | CHANY =>
        (* This should be an input in the data structure of RRGSB *)
        if same_node cur_rr_node drive_rr_node then
          (* To be strict, the input should locate on the opposite side *)
          Some (get_opposite chan_side)
        else
          (* The input could be at any side of the switch block, find it *)
          Some (option_map fst (get_node_side_and_index rr_sb drive_rr_node IN_PORT))
    | _ => exit (* Invalid rr_node type! Should be [OPIN|CHANX|CHANY] *)
    end ;;
  (* Find the name of input port *)
  generate_switch_block_input_port rr_sb input_pin_side drive_rr_node.

Definition print_verilog_unique_switch_box_mux (rr_sb : RRGSB) (chan_side : nat)
  (cur_rr_node : t_rr_node) (drive_rr_nodes : list t_rr_node) (switch_index : Z)
  : option unit :=
  (* Check current rr_node is CHANX or CHANY *)
  _ <- assert (is_chan (rr_node_type cur_rr_node)) ;;
  (* Get the circuit model id of the routing multiplexer *)
  let mux_model := rr_switches switch_index in
  (* Find the input size of the implementation of a routing multiplexer *)
  let datapath_mux_size := length drive_rr_nodes in
  (* Find the module name of the multiplexer and try to find it in the
     module manager *)
  _ <- assert (valid_mux_module mux_model datapath_mux_size) ;;
  (* Generate input ports that are wired to the input bus of the routing
     multiplexer *)
  _ <- generate_switch_block_input_ports rr_sb drive_rr_nodes ;;
  (* Link input bus port to Switch Block inputs *)
  _ <- assert (Nat.eqb 1 (model_ports_by_type mux_model SPICE_MODEL_PORT_INPUT)) ;;
  (* Link output port to Switch Block outputs *)
  _ <- assert (Nat.eqb 1 (model_ports_by_type mux_model SPICE_MODEL_PORT_OUTPUT)) ;;
  _ <- generate_verilog_unique_switch_box_chan_port rr_sb chan_side cur_rr_node OUT_PORT ;;
  (* Link SRAM port to different configuraton port for the routing
     multiplexer *)
  _ <- assert (Nat.eqb 1 (model_ports_by_type mux_model SPICE_MODEL_PORT_SRAM)) ;;
  (* Instanciate memory modules: the calls are commented out *)
  match design_tech_type mux_model with
  | SPICE_MODEL_DESIGN_CMOS | SPICE_MODEL_DESIGN_RRAM => Some tt
  | SPICE_MODEL_DESIGN_invalid => exit (* Invalid design technology *)
  end.

Definition print_verilog_unique_switch_box_interc (rr_sb : RRGSB) (chan_side : nat)
  (chan_node_id : nat) : option unit :=
  (* Get the node *)
  cur_rr_node <- get_chan_node rr_sb chan_side chan_node_id ;;
  (* Determine if the interc lies inside a channel wire *)
  drive_rr_nodes <-
    (if is_sb_node_passing_wire rr_sb chan_side chan_node_id then Some (Some [])
     else
       (* [drive_rr_nodes[i]] for [i < num_drive_rr_nodes]: a read past the
          end of the array ends the run *)
       l <- foldM (fun l i =>
              n <- nth_error (drive_rr_nodes cur_rr_node) i ;;
              Some (l ++ [n]))
              (seq 0 (Z.to_nat (num_drive_rr_nodes cur_rr_node))) [] ;;
       (* Special: if there are zero-driver nodes. We skip here *)
       match l with
       | [] => Some None
       | _ => Some (Some l)
       end) ;;
  match drive_rr_nodes with
  | None => Some tt (* return *)
  | Some [] =>
      (* Print a special direct connection *)
      print_verilog_unique_switch_box_short_interc rr_sb chan_side cur_rr_node cur_rr_node
  | Some [drive_rr_node] =>
      (* Print a direct connection *)
      print_verilog_unique_switch_box_short_interc rr_sb chan_side cur_rr_node
        drive_rr_node
  | Some drive_rr_nodes =>
      (* Print the multiplexer, fan_in >= 2 *)
      switch_index <- nth_error (drive_switches cur_rr_node) DEFAULT_SWITCH_ID ;;
      print_verilog_unique_switch_box_mux rr_sb chan_side cur_rr_node drive_rr_nodes
        switch_index
  end.

Definition print_verilog_routing_switch_box_unique_module
  (cur_sram_orgz_info : t_sram_orgz_info) (rr_sb : RRGSB) : option unit :=
  (* Count the number of configuration bits to be consumed by this Switch block *)
  num_conf_bits <- count_verilog_switch_box_conf_bits cur_sram_orgz_info rr_sb ;;
  (* Count the number of reserved configuration bits *)
  num_reserved_conf_bits <-
    count_verilog_switch_box_reserved_conf_bits cur_sram_orgz_info rr_sb ;;
  (* Add routing channel ports at each side of the GSB; the ports of the
     OPINs of adjacent CLBs are names *)
  _ <- foldM (fun (u : unit) side =>
         foldM (fun (u : unit) track =>
           (* the type of the node is read for the name of the port *)
           _ <- chan_node track ;;
           assert (direction_is_valid (chan_node_direction track)))
           (chan_tracks (chan_at rr_sb side)) u)
         (seq 0 (length (get_chan rr_sb))) tt ;;
  (* Reserved sram ports.
     Check: this SRAM organization type must be memory-bank ! *)
  _ <- (if 0 <? num_reserved_conf_bits then
          assert (match sram_orgz_type cur_sram_orgz_info with
                  | SPICE_SRAM_MEMORY_BANK => true
                  | _ => false
                  end)
        else Some tt) ;;
  _ <- assert (sram_model_is_valid cur_sram_orgz_info) ;;
  (* Print routing multiplexers *)
  foldM (fun (u : unit) side =>
    foldM (fun (u : unit) '(itrack, track) =>
      (* We care INC_DIRECTION tracks at this side *)
      match chan_node_direction track with
      | OUT_PORT => print_verilog_unique_switch_box_interc rr_sb side itrack
      | _ => Some u
      end) (indexed (chan_tracks (chan_at rr_sb side))) u)
    (seq 0 (length (get_chan rr_sb))) tt.

(** The netlists of the unique switch-block shapes are written between the
    snapshot of the counter and its restoration.  The result is the counter
    with which the per-instance pass starts, and the netlists. *)
Definition unique_switch_box_netlists (cur_sram_orgz_info : t_sram_orgz_info)
  (device_rr_gsb : DeviceRRGSB) (explicit_port_mapping : bool)
  : option (t_sram_orgz_info * list (list netlist_item)) :=
  (* Create a snapshot on sram_orgz_info *)
  let stamped_sram_orgz_info := snapshot_sram_orgz_info cur_sram_orgz_info in
  (* Output unique modules *)
  r <- foldM (fun '(cur_sram_orgz_info, files) unique_mirror =>
         r <- dump_verilog_routing_switch_box_unique_subckt
                cur_sram_orgz_info unique_mirror explicit_port_mapping ;;
         _ <- print_verilog_routing_switch_box_unique_module (fst r) unique_mirror ;;
         Some (fst r, files ++ [snd r]))
         (sb_unique_module device_rr_gsb) (cur_sram_orgz_info, []) ;;
  (* Restore sram_orgz_info to the base *)
  Some (copy_sram_orgz_info (fst r) stamped_sram_orgz_info, snd r).

(** The per-instance pass: every block of the device, column by column. *)
Definition update_all_switch_box_conf_bits (cur_sram_orgz_info : t_sram_orgz_info)
  (device_rr_gsb : DeviceRRGSB) : option (t_sram_orgz_info * DeviceRRGSB) :=
  foldM (fun st column =>
    foldM (fun '(cur_sram_orgz_info, device_rr_gsb) rr_sb =>
      update_routing_switch_box_conf_bits cur_sram_orgz_info device_rr_gsb rr_sb)
      column st)
    (rr_gsb device_rr_gsb) (cur_sram_orgz_info, device_rr_gsb).

(** The switch boxes, [TRUE == compact_routing_hierarchy]. *)
Definition print_switch_boxes_compact (cur_sram_orgz_info : t_sram_orgz_info)
  (device_rr_gsb : DeviceRRGSB) (explicit_port_mapping : bool)
  : option (t_sram_orgz_info * DeviceRRGSB * list (list netlist_item)) :=
  r <- unique_switch_box_netlists cur_sram_orgz_info device_rr_gsb explicit_port_mapping ;;
  a <- update_all_switch_box_conf_bits (fst r) device_rr_gsb ;;
  Some (fst a, snd a, snd r).

(** The switch boxes of the full array: [sb_info[ix][iy]] column by column;
    every block is rewritten in place. *)
Definition print_switch_boxes_full_array (cur_sram_orgz_info : t_sram_orgz_info)
  (sb_info : list (list t_sb)) (compact_routing_hierarchy explicit_port_mapping : bool)
  : option (t_sram_orgz_info * list t_sb * list (list netlist_item)) :=
  foldM (fun st column =>
    foldM (fun '(cur_sram_orgz_info, done, files) cur_sb_info =>
      r <- dump_verilog_routing_switch_box_subckt cur_sram_orgz_info cur_sb_info
             compact_routing_hierarchy explicit_port_mapping ;;
      Some (fst (fst r), done ++ [snd (fst r)], files ++ [snd r]))
      column st)
    sb_info (cur_sram_orgz_info, [], []).

Definition print_verilog_routing_resources_switch_boxes
  (compact_routing_hierarchy explicit_port_mapping : bool)
  (cur_sram_orgz_info : t_sram_orgz_info)
  (device_rr_gsb : DeviceRRGSB) (sb_info : list (list t_sb))
  : option t_sram_orgz_info :=
  if compact_routing_hierarchy then
    r <- print_switch_boxes_compact cur_sram_orgz_info device_rr_gsb
           explicit_port_mapping ;;
    Some (fst (fst r))
  else
    r <- print_switch_boxes_full_array cur_sram_orgz_info sb_info
           compact_routing_hierarchy explicit_port_mapping ;;
    Some (fst (fst r)).

(** The netlists of the unique connection-block shapes, between snapshot
    and restoration.  What the emission of a connection block does to the
    counter does not matter to what follows: it is any function. *)
Variable dump_verilog_routing_connection_box_unique_module :
  t_sram_orgz_info -> RRGSB -> t_rr_type -> option t_sram_orgz_info.

Definition unique_connection_box_netlists (cur_sram_orgz_info : t_sram_orgz_info)
  (device_rr_gsb : DeviceRRGSB) : option t_sram_orgz_info :=
  (* Create a snapshot on sram_orgz_info *)
  let stamped_sram_orgz_info := snapshot_sram_orgz_info cur_sram_orgz_info in
  (* X - channels *)
  info <- foldM (fun info unique_mirror =>
            dump_verilog_routing_connection_box_unique_module info unique_mirror CHANX)
            (cb_unique_module device_rr_gsb CHANX) cur_sram_orgz_info ;;
  (* Y - channels *)
  info <- foldM (fun info unique_mirror =>
            dump_verilog_routing_connection_box_unique_module info unique_mirror CHANY)
            (cb_unique_module device_rr_gsb CHANY) info ;;
  (* Restore sram_orgz_info to the base *)
  Some (copy_sram_orgz_info info stamped_sram_orgz_info).

(** ** Address ranges *)

(** The addresses of a record: [lsb <= a <= msb]. *)
Definition in_range (c : sb_conf_bits) (a : Z) : Prop :=
  sb_conf_bits_lsb c <= a <= sb_conf_bits_msb c.

(** A list of records that starts at address [T], in which every record
    starts where the one before ends, and that ends before [E]. *)
Fixpoint chained (T : Z) (l : list sb_conf_bits) (E : Z) : Prop :=
  match l with
  | [] => T = E
  | c :: r =>
      sb_conf_bits_lsb c = T /\ T <= sb_conf_bits_msb c + 1
      /\ chained (sb_conf_bits_msb c + 1) r E
  end.

(** The blocks of the device in the order of the per-instance pass. *)
Definition blocks_in_scan_order (device_rr_gsb : DeviceRRGSB) : list RRGSB :=
  concat (rr_gsb device_rr_gsb).

(** ** Facts on loops that can stop *)

Lemma bind_Some {A B : Type} (m : option A) (f : A -> option B) (b : B) :
  bind m f = Some b <-> exists a, m = Some a /\ f a = Some b.
Proof.
  destruct m as [a|]; simpl; split.
  - intro H; now exists a.
  - now intros (a' & [= ->] & H).
  - discriminate.
  - now intros (a' & H & _).
Qed.

Lemma assert_Some (b : bool) (u : unit) : assert b = Some u <-> b = true.
Proof. destruct b, u; simpl; split; congruence. Qed.

Section FoldM.
Context {A X : Type}.

Lemma foldM_app (f : A -> X -> option A) (l1 l2 : list X) (a : A) :
  foldM f (l1 ++ l2) a = (a' <- foldM f l1 a ;; foldM f l2 a').
Proof.
  revert a; induction l1 as [|x l1 IH]; intro a; simpl; [reflexivity|].
  destruct (f a x) as [a1|]; simpl; [apply IH | reflexivity].
Qed.


(** A loop whose passes all succeed, keep an invariant and move a measure
    by the weight of the cell, succeeds, keeps the invariant and moves the
    measure by the sum of the weights. *)
Lemma foldM_measure (I : A -> Prop) (m : A -> Z) (w : X -> Z)
  (f : A -> X -> option A) (l : list X) (a : A) :
  I a ->
  (forall a x, In x l -> I a ->
     exists a', f a x = Some a' /\ I a' /\ m a' = m a + w x) ->
  exists a', foldM f l a = Some a' /\ I a' /\ m a' = m a + sumZ w l.
Proof.
  revert a; induction l as [|x l IH]; intros a Ha Hf; simpl.
  - exists a. repeat split; [exact Ha | lia].
  - destruct (Hf a x (or_introl eq_refl) Ha) as (a1 & -> & Ha1 & Hm1); simpl.
    destruct (IH a1 Ha1) as (a2 & -> & Ha2 & Hm2).
    + intros b y Hy; apply Hf; now right.
    + exists a2. repeat split; [exact Ha2 | lia].
Qed.

(** When the loop has returned: every pass that returned kept the
    invariant and moved the measure by the weight of the cell, so the loop
    kept the invariant and moved the measure by the sum of the weights. *)
Lemma foldM_measure_on_return (I : A -> Prop) (m : A -> Z) (w : X -> Z)
  (f : A -> X -> option A) (l : list X) (a a' : A) :
  I a ->
  (forall a x a', In x l -> I a -> f a x = Some a' -> I a' /\ m a' = m a + w x) ->
  foldM f l a = Some a' -> I a' /\ m a' = m a + sumZ w l.
Proof.
  revert a; induction l as [|x l IH]; intros a Ha Hf; simpl.
  - intros [= <-]. split; [exact Ha | lia].
  - destruct (f a x) as [a1|] eqn:E; simpl; [|discriminate]. intro H.
    destruct (Hf a x a1 (or_introl eq_refl) Ha E) as (Ha1 & Hm1).
    destruct (IH a1 Ha1) as (Ha2 & Hm2); [|exact H|].
    + intros b y b' Hy; apply Hf; now right.
    + split; [exact Ha2 | lia].
Qed.

(** What holds before a loop and is kept by every successful pass holds
    after the loop, if it ends. *)
Lemma foldM_invariant (I : A -> Prop) (f : A -> X -> option A) (l : list X) (a a' : A) :
  I a ->
  (forall a x a', In x l -> I a -> f a x = Some a' -> I a') ->
  foldM f l a = Some a' -> I a'.
Proof.
  revert a; induction l as [|x l IH]; intros a Ha Hf; simpl.
  - now intros [= <-].
  - destruct (f a x) as [a1|] eqn:E; simpl; [|discriminate].
    apply IH; [eapply Hf; eauto; now left|].
    intros b y b' Hy; apply Hf; now right.
Qed.
End FoldM.

Lemma sumZ_app {X : Type} (w : X -> Z) (l1 l2 : list X) :
  sumZ w (l1 ++ l2) = sumZ w l1 + sumZ w l2.
Proof. induction l1 as [|x l1 IH]; simpl; [reflexivity | rewrite IH; lia]. Qed.

Lemma sumZ_ext {X : Type} (w1 w2 : X -> Z) (l : list X) :
  (forall x, In x l -> w1 x = w2 x) -> sumZ w1 l = sumZ w2 l.
Proof.
  induction l as [|x l IH]; intro H; simpl; [reflexivity|].
  rewrite H by now left. rewrite IH; [reflexivity|]. intros y Hy; apply H; now right.
Qed.

Lemma sumZ_nonneg {X : Type} (w : X -> Z) (l : list X) :
  (forall x, In x l -> 0 <= w x) -> 0 <= sumZ w l.
Proof.
  induction l as [|x l IH]; intro H; simpl; [lia|].
  assert (0 <= w x) by (apply H; now left).
  assert (0 <= sumZ w l) by (apply IH; intros y Hy; apply H; now right). lia.
Qed.


Lemma sumZ_concat {X : Type} (w : X -> Z) (ll : list (list X)) :
  sumZ w (concat ll) = sumZ (sumZ w) ll.
Proof. induction ll as [|l ll IH]; simpl; [reflexivity|]. now rewrite sumZ_app, IH. Qed.

(** ** Facts on chained ranges *)


Lemma chained_le T l E : chained T l E -> T <= E.
Proof.
  revert T; induction l as [|c l IH]; intros T H; simpl in H; [lia|].
  destruct H as (_ & H' & H''). apply IH in H''. lia.
Qed.

Lemma chained_within T l E c a :
  chained T l E -> In c l -> in_range c a -> T <= a < E.
Proof.
  revert T; induction l as [|d l IH]; intros T H Hin Ha; [destruct Hin|].
  simpl in H. destruct H as (Hl & Hm & Hr). destruct Hin as [<- | Hin].
  - unfold in_range in Ha. apply chained_le in Hr. lia.
  - specialize (IH _ Hr Hin Ha). lia.
Qed.

Lemma chained_starts_after T l E d :
  chained T l E -> In d l -> T <= sb_conf_bits_lsb d.
Proof.
  revert T; induction l as [|c l IH]; intros T H Hd; [destruct Hd|].
  simpl in H. destruct H as (Hl & Hm & Hr). destruct Hd as [<- | Hd]; [lia|].
  specialize (IH _ Hr Hd). lia.
Qed.

(** Ranges that are chained do not overlap: a record ends before every
    later record starts. *)
Lemma chained_disjoint T l E :
  chained T l E ->
  ForallOrdPairs (fun c d => sb_conf_bits_msb c < sb_conf_bits_lsb d) l.
Proof.
  revert T; induction l as [|c l IH]; intros T H; [constructor|].
  simpl in H. destruct H as (Hl & Hm & Hr). constructor; [|eapply IH; eauto].
  apply Forall_forall. intros d Hd.
  pose proof (chained_starts_after _ _ _ _ Hr Hd). lia.
Qed.

(** Their union is the whole interval. *)
Lemma chained_union T l E a :
  chained T l E -> ((exists c, In c l /\ in_range c a) <-> T <= a < E).
Proof.
  intro H; split.
  - intros (c & Hc & Ha). eapply chained_within; eauto.
  - revert T H; induction l as [|c l IH]; intros T H Ha; simpl in H; [lia|].
    destruct H as (Hl & Hm & Hr).
    destruct (Z_le_gt_dec a (sb_conf_bits_msb c)) as [Hle | Hgt].
    + exists c. split; [now left | unfold in_range; lia].
    + destruct (IH _ Hr) as (d & Hd & Hda); [lia|].
      exists d. split; [now right | exact Hda].
Qed.

(** ** The counting functions read the counter for its type only, and
       count non-negative numbers *)

Ltac inv_bind H :=
  let a := fresh "a" in
  let E := fresh "E" in
  apply bind_Some in H; destruct H as (a & E & H).

Lemma foldM_concat {A X : Type} (f : A -> X -> option A) (ll : list (list X)) (a : A) :
  foldM (fun a l => foldM f l a) ll a = foldM f (concat ll) a.
Proof.
  revert a; induction ll as [|l ll IH]; intro a; simpl; [reflexivity|].
  rewrite foldM_app. destruct (foldM f l a) as [a1|]; simpl; [apply IH | reflexivity].
Qed.

Lemma count_interc_bits_nonneg cost info test node n :
  count_interc_bits cost info test node = Some n -> 0 <= n.
Proof.
  unfold count_interc_bits. destruct node as [nd|]; [|discriminate].
  destruct (2 >? _); [intros [= <-]; lia|].
  intro H. inv_bind H. inv_bind H. inv_bind H. injection H as <-. lia.
Qed.

Lemma count_verilog_switch_box_side_conf_bits_nonneg info rr_sb side seg_id n :
  count_verilog_switch_box_side_conf_bits info rr_sb side seg_id = Some n -> 0 <= n.
Proof.
  unfold count_verilog_switch_box_side_conf_bits.
  apply (foldM_invariant (fun n => 0 <= n)); [lia|].
  intros a t a' _ Ha. destruct (negb _); [intros [= <-]; exact Ha|].
  destruct (chan_node_direction t); [intros [= <-]; exact Ha| |discriminate].
  intro H. inv_bind H. injection H as <-.
  apply count_interc_bits_nonneg in E. lia.
Qed.

Lemma count_verilog_switch_box_conf_bits_nonneg info rr_sb n :
  count_verilog_switch_box_conf_bits info rr_sb = Some n -> 0 <= n.
Proof.
  unfold count_verilog_switch_box_conf_bits.
  apply (foldM_invariant (fun n => 0 <= n)); [lia|].
  intros a side a' _ Ha.
  apply (foldM_invariant (fun n => 0 <= n)); [exact Ha|].
  intros b seg b' _ Hb H. inv_bind H. injection H as <-.
  apply count_verilog_switch_box_side_conf_bits_nonneg in E. lia.
Qed.

Lemma count_verilog_switch_box_conf_bits_type i1 i2 rr_sb :
  sram_orgz_type i1 = sram_orgz_type i2 ->
  count_verilog_switch_box_conf_bits i1 rr_sb = count_verilog_switch_box_conf_bits i2 rr_sb.
Proof.
  intro H.
  unfold count_verilog_switch_box_conf_bits, count_verilog_switch_box_side_conf_bits,
    count_verilog_switch_box_interc_conf_bits, count_interc_bits.
  now rewrite H.
Qed.

Lemma count_verilog_switch_box_reserved_conf_bits_type i1 i2 rr_sb :
  sram_orgz_type i1 = sram_orgz_type i2 ->
  count_verilog_switch_box_reserved_conf_bits i1 rr_sb
  = count_verilog_switch_box_reserved_conf_bits i2 rr_sb.
Proof.
  intro H.
  unfold count_verilog_switch_box_reserved_conf_bits,
    count_verilog_switch_box_side_reserved_conf_bits,
    count_verilog_switch_box_interc_reserved_conf_bits, count_interc_bits.
  now rewrite H.
Qed.

(** ** One allocation, and the pass over the device *)

Definition allocated (info : t_sram_orgz_info) (n : Z) : t_sram_orgz_info :=
  {| sram_orgz_type := sram_orgz_type info; num_mem_bit := num_mem_bit info + n;
     num_bl := num_bl info + n; num_wl := num_wl info + n |}.

Definition coordinator (rr_sb : RRGSB) : N * N := (get_sb_x rr_sb, get_sb_y rr_sb).

Lemma update_routing_switch_box_conf_bits_spec info dev rr_sb n r :
  count_verilog_switch_box_conf_bits info rr_sb = Some n ->
  count_verilog_switch_box_reserved_conf_bits info rr_sb = Some r ->
  update_routing_switch_box_conf_bits info dev rr_sb
  = Some (allocated info n,
          set_sb_conf_bits dev (coordinator rr_sb) r
            (num_mem_bit info) (num_mem_bit info + n - 1)).
Proof.
  intros Hn Hr. unfold update_routing_switch_box_conf_bits; simpl.
  rewrite Hn; simpl. rewrite Hr; simpl. reflexivity.
Qed.

Definition countable (info : t_sram_orgz_info) (rr_sb : RRGSB) : Prop :=
  count_verilog_switch_box_conf_bits info rr_sb <> None
  /\ count_verilog_switch_box_reserved_conf_bits info rr_sb <> None.

Lemma update_blocks_in_order blocks : forall info dev,
  (forall rr_sb, In rr_sb blocks -> countable info rr_sb) ->
  exists info' dev' new,
    foldM (fun '(i, d) rr_sb => update_routing_switch_box_conf_bits i d rr_sb)
      blocks (info, dev) = Some (info', dev')
    /\ sb_conf dev' = sb_conf dev ++ new
    /\ map fst new = map coordinator blocks
    /\ chained (num_mem_bit info) (map snd new) (num_mem_bit info')
    /\ sram_orgz_type info' = sram_orgz_type info.
Proof.
  induction blocks as [|b bs IH]; intros info dev Hc.
  - exists info, dev, []. simpl. rewrite app_nil_r. repeat split.
  - destruct (Hc b (or_introl eq_refl)) as (Hn & Hr).
    destruct (count_verilog_switch_box_conf_bits info b) as [n|] eqn:En; [|congruence].
    destruct (count_verilog_switch_box_reserved_conf_bits info b) as [r|] eqn:Er;
      [|congruence].
    pose proof (count_verilog_switch_box_conf_bits_nonneg _ _ _ En) as Hpos.
    destruct (IH (allocated info n)
                 (set_sb_conf_bits dev (coordinator b) r
                    (num_mem_bit info) (num_mem_bit info + n - 1)))
      as (info' & dev' & new & Hf & Hs & Hm & Hch & Ht).
    { intros b' Hb'. destruct (Hc b' (or_intror Hb')) as (H1 & H2). split.
      - now rewrite (count_verilog_switch_box_conf_bits_type _ info).
      - now rewrite (count_verilog_switch_box_reserved_conf_bits_type _ info). }
    exists info', dev'.
    exists ((coordinator b,
             {| sb_num_reserved_conf_bits := r; sb_conf_bits_lsb := num_mem_bit info;
                sb_conf_bits_msb := num_mem_bit info + n - 1 |}) :: new).
    simpl. rewrite (update_routing_switch_box_conf_bits_spec _ _ _ _ _ En Er); simpl.
    split; [exact Hf|]. split; [rewrite Hs; simpl; now rewrite <- app_assoc|].
    split; [now rewrite Hm|]. split; [|exact Ht].
    split; [reflexivity|]. split; [lia|].
    simpl in Hch. now replace (num_mem_bit info + n - 1 + 1) with (num_mem_bit info + n) by lia.
Qed.

(** ** What the full-array function records *)

Lemma dump_verilog_routing_switch_box_subckt_records
  info sb compact explicit info' sb' nl :
  dump_verilog_routing_switch_box_subckt info sb compact explicit = Some (info', sb', nl) ->
  exists n r,
    count_verilog_switch_box_conf_bits_t_sb info sb = Some n
    /\ count_verilog_switch_box_reserved_conf_bits_t_sb info sb = Some r
    /\ sb' = record_conf_bits sb r (num_mem_bit info) (num_mem_bit info + n)
    /\ num_mem_bit info' = num_mem_bit info + n.
Proof.
  unfold dump_verilog_routing_switch_box_subckt. intro H.
  inv_bind H. inv_bind H. inv_bind H. rename a0 into n, a1 into r.
  exists n, r. split; [exact E0|]. split; [exact E1|].
  unfold get_sram_orgz_info_num_mem_bit in H. cbn [mirror record_conf_bits] in H.
  destruct (if compact then mirror sb else None) as [m|].
  - inv_bind H. inv_bind H. injection H as <- <- <-. split; reflexivity.
  - inv_bind H. inv_bind H. inv_bind H. injection H as <- <- <-.
    apply assert_Some in E4. apply Z.eqb_eq in E4. split; [reflexivity | lia].
Qed.

(** ** C1 *)

(** C1 (amended).  An allocation by [update_routing_switch_box_conf_bits]
    with the counter at [T] for a block that counts [N] bits and [R]
    reserved bits records the range [[T, T+N-1]] and [R] at the coordinate
    of the block and leaves the counter at [T+N] (bit lines and word lines
    advanced by [N] too).  When every block of the device can be counted,
    the per-instance pass succeeds and records one range per block in scan
    order; the ranges are chained, hence pairwise disjoint, and their
    union is the interval from the counter value at the start of the pass,
    included, to its value at the end, excluded.  The full-array function
    [dump_verilog_routing_switch_box_subckt] records [lsb = T] and
    [msb = T+N] and leaves the counter at [T+N]. *)
Theorem switch_box_allocation_ranges info dev :
  (forall rr_sb, In rr_sb (blocks_in_scan_order dev) -> countable info rr_sb) ->
  (forall i d rr_sb n r,
      count_verilog_switch_box_conf_bits i rr_sb = Some n ->
      count_verilog_switch_box_reserved_conf_bits i rr_sb = Some r ->
      update_routing_switch_box_conf_bits i d rr_sb
      = Some ({| sram_orgz_type := sram_orgz_type i; num_mem_bit := num_mem_bit i + n;
                 num_bl := num_bl i + n; num_wl := num_wl i + n |},
              set_sb_conf_bits d (get_sb_x rr_sb, get_sb_y rr_sb) r
                (num_mem_bit i) (num_mem_bit i + n - 1)))
  /\ (exists info' dev' new,
        update_all_switch_box_conf_bits info dev = Some (info', dev')
        /\ sb_conf dev' = sb_conf dev ++ new
        /\ map fst new
           = map (fun b => (get_sb_x b, get_sb_y b)) (blocks_in_scan_order dev)
        /\ chained (num_mem_bit info) (map snd new) (num_mem_bit info')
        /\ ForallOrdPairs (fun c d => sb_conf_bits_msb c < sb_conf_bits_lsb d)
             (map snd new)
        /\ (forall a, (exists c, In c (map snd new) /\ in_range c a)
                      <-> num_mem_bit info <= a < num_mem_bit info'))
  /\ (forall i sb compact explicit i' sb' nl,
        dump_verilog_routing_switch_box_subckt i sb compact explicit = Some (i', sb', nl) ->
        exists n,
          count_verilog_switch_box_conf_bits_t_sb i sb = Some n
          /\ conf_bits_lsb sb' = num_mem_bit i
          /\ conf_bits_msb sb' = num_mem_bit i + n
          /\ num_mem_bit i' = num_mem_bit i + n).
Proof.
  intro Hc. split; [|split].
  - intros i d rr_sb n r Hn Hr.
    exact (update_routing_switch_box_conf_bits_spec i d rr_sb n r Hn Hr).
  - destruct (update_blocks_in_order (blocks_in_scan_order dev) info dev Hc)
      as (info' & dev' & new & Hf & Hs & Hm & Hch & _).
    exists info', dev', new.
    split; [|split; [exact Hs|split; [exact Hm|split; [exact Hch|split]]]].
    + unfold update_all_switch_box_conf_bits.
      rewrite <- Hf. unfold blocks_in_scan_order. rewrite <- foldM_concat.
      reflexivity.
    + eapply chained_disjoint; eauto.
    + intro a. eapply chained_union; eauto.
  - intros i sb compact explicit i' sb' nl H.
    destruct (dump_verilog_routing_switch_box_subckt_records _ _ _ _ _ _ _ H)
      as (n & r & Hn & _ & -> & Hi).
    exists n. repeat split; [exact Hn | exact Hi].
Qed.

(** ** C8 *)


(** ** The bits of one node, as a number *)

(** The fan-in after the wire test. *)
Definition effective_fan_in (inside_channel_wire : bool) (n : t_rr_node) : Z :=
  if inside_channel_wire then 0 else num_drive_rr_nodes n.

(** The bits that a counting function returns for a node when it returns. *)
Definition interc_cost (cost : t_spice_model -> e_sram_orgz -> Z -> N)
  (info : t_sram_orgz_info) (inside_channel_wire : bool) (n : t_rr_node) : Z :=
  let k := effective_fan_in inside_channel_wire n in
  if 2 >? k then 0
  else Z.of_N (cost (spice_model (switch_inf (nth 0 (drive_switches n) 0)))
                    (sram_orgz_type info) k).

(** The two assertions of the counting functions on the switch of a
    multiplexer. *)
Definition mux_switch_ok (n : t_rr_node) : bool :=
  match nth_error (drive_switches n) 0 with
  | Some switch_idx =>
      (-1 <? switch_idx)
      && match spice_model_type (spice_model (switch_inf switch_idx)) with
         | SPICE_MODEL_MUX => true
         | _ => false
         end
  | None => false
  end.

Lemma count_interc_bits_value cost info test n :
  (2 <= effective_fan_in (test n) n -> mux_switch_ok n = true) ->
  count_interc_bits cost info test (Some n) = Some (interc_cost cost info (test n) n).
Proof.
  unfold count_interc_bits, interc_cost, effective_fan_in, mux_switch_ok.
  intro H. destruct (2 >? _) eqn:E; [reflexivity|].
  assert (H2 : 2 <= (if test n then 0 else num_drive_rr_nodes n)) by lia.
  specialize (H H2).
  destruct (drive_switches n) as [|idx rest]; simpl in *; [discriminate|].
  apply andb_prop in H. destruct H as (Hi & Hm). rewrite Hi, Hm. reflexivity.
Qed.

Lemma interc_cost_nonneg cost info inside n : 0 <= interc_cost cost info inside n.
Proof. unfold interc_cost. destruct (2 >? _); lia. Qed.

(** ** Maxima *)

Definition max_over {X : Type} (w : X -> Z) (l : list X) : Z :=
  fold_right (fun x acc => Z.max (w x) acc) 0 l.

Lemma max_over_nonneg {X : Type} (w : X -> Z) (l : list X) : 0 <= max_over w l.
Proof. induction l as [|x l IH]; simpl; lia. Qed.

Lemma max_over_upper {X : Type} (w : X -> Z) (l : list X) (x : X) :
  In x l -> w x <= max_over w l.
Proof.
  induction l as [|y l IH]; intro H; [destruct H|]. simpl.
  destruct H as [<- | H]; [lia|]. specialize (IH H). lia.
Qed.

Lemma max_over_attained {X : Type} (w : X -> Z) (l : list X) :
  max_over w l = 0 \/ exists x, In x l /\ w x = max_over w l.
Proof.
  induction l as [|y l IH]; simpl; [now left|].
  destruct (Z.max_spec (w y) (max_over w l)) as [(Hlt & ->) | (Hle & ->)].
  - destruct IH as [IH | (x & Hx & Hw)]; [now left|].
    right. exists x. split; [now right | exact Hw].
  - right. exists y. split; [now left | reflexivity].
Qed.

(** The maximum is the one non-negative bound that is 0 or attained. *)
Lemma max_over_unique {X : Type} (w : X -> Z) (l : list X) (r : Z) :
  0 <= r -> (forall x, In x l -> w x <= r) ->
  (r = 0 \/ exists x, In x l /\ w x = r) -> r = max_over w l.
Proof.
  intros H0 Hub Hat. pose proof (max_over_nonneg w l) as Hm.
  assert (max_over w l <= r).
  { destruct (max_over_attained w l) as [-> | (x & Hx & <-)]; [exact H0 | now apply Hub]. }
  assert (r <= max_over w l).
  { destruct Hat as [-> | (x & Hx & <-)]; [exact Hm | now apply max_over_upper]. }
  lia.
Qed.

(** A loop that keeps the largest value seen. *)
Lemma foldM_max {X : Type} (w : X -> Z) (f : Z -> X -> option Z) (l : list X) (a : Z) :
  0 <= a ->
  (forall a x, In x l -> 0 <= a -> f a x = Some (Z.max a (w x))) ->
  foldM f l a = Some (Z.max a (max_over w l)).
Proof.
  revert a; induction l as [|x l IH]; intros a Ha Hf; simpl.
  - f_equal. lia.
  - rewrite Hf by (try lia; now left). simpl. rewrite IH.
    + f_equal. lia.
    + lia.
    + intros b y Hy; apply Hf; now right.
Qed.

(** ** Reserved bits of a block *)

Definition is_out (d : PORTS) : bool :=
  match d with OUT_PORT => true | _ => false end.

(** The output-direction channel nodes of a block, with their side. *)
Definition output_tracks (rr_sb : RRGSB) : list (nat * gsb_track) :=
  flat_map (fun side =>
    map (pair side)
        (filter (fun t => is_out (chan_node_direction t))
                (chan_tracks (chan_at rr_sb side))))
    (seq 0 (length (get_chan rr_sb))).

(** The reserved-bit requirement of the node of a track. *)
Definition node_reserved_bits (info : t_sram_orgz_info) (rr_sb : RRGSB)
  (side : nat) (t : gsb_track) : Z :=
  match chan_node t with
  | Some n =>
      interc_cost count_num_reserved_conf_bits_one_spice_model info
        (is_sb_node_exist_opposite_side rr_sb n side) n
  | None => 0
  end.

(** A track on which the counting functions do not stop. *)
Definition track_countable (rr_sb : RRGSB) (side : nat) (t : gsb_track) : bool :=
  match chan_node_direction t with
  | IN_PORT => true
  | INOUT_PORT => false
  | OUT_PORT =>
      match chan_node t with
      | None => false
      | Some n =>
          if 2 <=? effective_fan_in (is_sb_node_exist_opposite_side rr_sb n side) n
          then mux_switch_ok n else true
      end
  end.

Definition gsb_countable (rr_sb : RRGSB) : bool :=
  forallb (fun side => forallb (track_countable rr_sb side)
                               (chan_tracks (chan_at rr_sb side)))
          (seq 0 (length (get_chan rr_sb))).

(** Every track of a side has its segment among the segment ids of the
    side. *)
Definition segments_listed (rr_sb : RRGSB) : bool :=
  forallb (fun side =>
    forallb (fun t => existsb (N.eqb (chan_node_segment t))
                              (get_segment_ids (chan_at rr_sb side)))
            (chan_tracks (chan_at rr_sb side)))
    (seq 0 (length (get_chan rr_sb))).

Definition track_weight (w : gsb_track -> Z) (seg_id : N) (t : gsb_track) : Z :=
  if N.eqb seg_id (chan_node_segment t) then
    if is_out (chan_node_direction t) then w t else 0
  else 0.

Lemma count_verilog_switch_box_side_reserved_conf_bits_value info rr_sb side seg_id :
  forallb (track_countable rr_sb side) (chan_tracks (chan_at rr_sb side)) = true ->
  count_verilog_switch_box_side_reserved_conf_bits info rr_sb side seg_id
  = Some (max_over (track_weight (node_reserved_bits info rr_sb side) seg_id)
            (chan_tracks (chan_at rr_sb side))).
Proof.
  intro Hc. unfold count_verilog_switch_box_side_reserved_conf_bits.
  rewrite (foldM_max (track_weight (node_reserved_bits info rr_sb side) seg_id)).
  - f_equal. pose proof (max_over_nonneg
      (track_weight (node_reserved_bits info rr_sb side) seg_id)
      (chan_tracks (chan_at rr_sb side))). lia.
  - lia.
  - intros a t Ht Ha. unfold track_weight.
    rewrite forallb_forall in Hc. specialize (Hc t Ht).
    unfold track_countable in Hc.
    destruct (N.eqb seg_id (chan_node_segment t)); simpl; [|f_equal; lia].
    destruct (chan_node_direction t); simpl; [f_equal; lia | | discriminate].
    destruct (chan_node t) as [n|] eqn:En; [|discriminate].
    unfold count_verilog_switch_box_interc_reserved_conf_bits.
    rewrite count_interc_bits_value.
    + simpl. unfold node_reserved_bits. now rewrite En.
    + intro H2. destruct (2 <=? _) eqn:E2; [exact Hc | lia].
Qed.

Lemma count_verilog_switch_box_reserved_conf_bits_value info rr_sb :
  gsb_countable rr_sb = true ->
  count_verilog_switch_box_reserved_conf_bits info rr_sb
  = Some (max_over (fun side =>
            max_over (fun seg_id =>
              max_over (track_weight (node_reserved_bits info rr_sb side) seg_id)
                (chan_tracks (chan_at rr_sb side)))
              (get_segment_ids (chan_at rr_sb side)))
            (seq 0 (length (get_chan rr_sb)))).
Proof.
  intro Hc. unfold count_verilog_switch_box_reserved_conf_bits.
  unfold gsb_countable in Hc. rewrite forallb_forall in Hc.
  rewrite (foldM_max (fun side =>
            max_over (fun seg_id =>
              max_over (track_weight (node_reserved_bits info rr_sb side) seg_id)
                (chan_tracks (chan_at rr_sb side)))
              (get_segment_ids (chan_at rr_sb side)))).
  - f_equal. match goal with |- Z.max 0 ?m = _ => assert (0 <= m) end;
      [apply max_over_nonneg | lia].
  - lia.
  - intros a side Hs Ha.
    apply (foldM_max (fun seg_id =>
              max_over (track_weight (node_reserved_bits info rr_sb side) seg_id)
                (chan_tracks (chan_at rr_sb side)))); [exact Ha|].
    intros b seg _ _.
    now rewrite (count_verilog_switch_box_side_reserved_conf_bits_value _ _ _ _ (Hc _ Hs)).
Qed.

Lemma in_output_tracks rr_sb side t :
  In (side, t) (output_tracks rr_sb)
  <-> In side (seq 0 (length (get_chan rr_sb)))
      /\ In t (chan_tracks (chan_at rr_sb side))
      /\ is_out (chan_node_direction t) = true.
Proof.
  unfold output_tracks. rewrite in_flat_map. split.
  - intros (s & Hs & Hin). apply in_map_iff in Hin.
    destruct Hin as (t' & [= <- <-] & Ht). apply filter_In in Ht.
    destruct Ht as (Ht & Ho). repeat split; assumption.
  - intros (Hs & Ht & Ho). exists side. split; [exact Hs|].
    apply in_map. apply filter_In. split; assumption.
Qed.

(** ** C6 *)

(** C6.  For a switch block on which the counting does not stop and whose
    sides list the segment of each of their tracks, the reserved-bit count
    is the maximum, over the output-direction channel nodes of the block,
    of the reserved-bit requirement of the node (0 when there is none). *)
Theorem reserved_bits_are_the_maximum_over_output_nodes info rr_sb :
  gsb_countable rr_sb = true ->
  segments_listed rr_sb = true ->
  count_verilog_switch_box_reserved_conf_bits info rr_sb
  = Some (max_over (fun st => node_reserved_bits info rr_sb (fst st) (snd st))
            (output_tracks rr_sb)).
Proof.
  intros Hc Hs.
  rewrite (count_verilog_switch_box_reserved_conf_bits_value _ _ Hc). f_equal.
  apply max_over_unique.
  - apply max_over_nonneg.
  - intros [side t] Hin. simpl. apply in_output_tracks in Hin.
    destruct Hin as (Hside & Ht & Ho).
    unfold segments_listed in Hs. rewrite forallb_forall in Hs.
    specialize (Hs side Hside). rewrite forallb_forall in Hs. specialize (Hs t Ht).
    apply existsb_exists in Hs. destruct Hs as (seg & Hseg & Heq).
    apply N.eqb_eq in Heq.
    etransitivity; [|apply (max_over_upper _ _ side Hside)].
    etransitivity; [|apply (max_over_upper _ _ seg Hseg)].
    etransitivity; [|apply (max_over_upper _ _ t Ht)].
    unfold track_weight. rewrite <- Heq, N.eqb_refl, Ho. lia.
  - destruct (max_over_attained
                (fun side => max_over (fun seg_id =>
                   max_over (track_weight (node_reserved_bits info rr_sb side) seg_id)
                     (chan_tracks (chan_at rr_sb side)))
                   (get_segment_ids (chan_at rr_sb side)))
                (seq 0 (length (get_chan rr_sb)))) as [H0 | (side & Hside & H1)];
      [now left|].
    destruct (max_over_attained
                (fun seg_id =>
                   max_over (track_weight (node_reserved_bits info rr_sb side) seg_id)
                     (chan_tracks (chan_at rr_sb side)))
                (get_segment_ids (chan_at rr_sb side))) as [H0 | (seg & Hseg & H2)];
      [left; rewrite <- H1; exact H0|].
    destruct (max_over_attained
                (track_weight (node_reserved_bits info rr_sb side) seg)
                (chan_tracks (chan_at rr_sb side))) as [H0 | (t & Ht & H3)];
      [left; rewrite <- H1, <- H2; exact H0|].
    assert (Hw : track_weight (node_reserved_bits info rr_sb side) seg t = 0
                 \/ (is_out (chan_node_direction t) = true
                     /\ track_weight (node_reserved_bits info rr_sb side) seg t
                        = node_reserved_bits info rr_sb side t)).
    { unfold track_weight. destruct (N.eqb seg (chan_node_segment t)); [|now left].
      destruct (is_out (chan_node_direction t)); [now right | now left]. }
    destruct Hw as [Hw | (Ho & Hw)].
    + left. rewrite <- H1, <- H2, <- H3. exact Hw.
    + right. exists (side, t).
      split; [apply in_output_tracks; repeat split; assumption|].
      simpl. rewrite <- Hw, H3, H2, H1. reflexivity.
Qed.

(** ** What is written for one sink node *)

Local Arguments Z.eqb : simpl never.
Local Arguments Z.ltb : simpl never.
Local Arguments Z.gtb : simpl never.
Local Arguments Z.leb : simpl never.
Local Arguments Z.add : simpl never.
Local Arguments Z.of_N : simpl never.

(** The construct of the reduced-duplication backend for a node, given the
    outcome of the passing-wire test. *)
Definition unique_interc_items (passing_wire : bool) (n : t_rr_node) : list netlist_item :=
  if passing_wire then [self_loop_short]
  else if 0 =? num_drive_rr_nodes n then []
  else if 1 =? num_drive_rr_nodes n then [driver_short]
  else if 1 <? num_drive_rr_nodes n then [mux_instance (num_drive_rr_nodes n)]
  else [].

(** The construct of the full-array backend, given the outcome of the test
    on the driver list. *)
Definition full_array_interc_items (imply_short : bool) (n : t_rr_node)
  : list netlist_item :=
  if imply_short then [self_loop_short]
  else if 0 =? num_drive_rr_nodes n then [self_loop_short]
  else if 1 =? num_drive_rr_nodes n then [driver_short]
  else if 1 <? num_drive_rr_nodes n then [mux_instance (num_drive_rr_nodes n)]
  else [].

(** The state after an emission that wrote [items] and consumed [bits]. *)
Definition emitted (st st' : emit_state) (items : list netlist_item) (bits : Z) : Prop :=
  netlist st' = netlist st ++ items
  /\ num_mem_bit (counter st') = num_mem_bit (counter st) + bits
  /\ sram_orgz_type (counter st') = sram_orgz_type (counter st).

Lemma emitted_nothing st : emitted st st [] 0.
Proof. unfold emitted. rewrite app_nil_r. repeat split. lia. Qed.

Lemma emitted_item st i : emitted st (write_item st i) [i] 0.
Proof. unfold emitted; simpl. repeat split. lia. Qed.

(** *** The printers, when they return *)

Lemma dump_verilog_unique_switch_box_short_interc_on_return
  st rr_sb side cur k drv st' :
  dump_verilog_unique_switch_box_short_interc st rr_sb side cur k drv = Some st' ->
  (k = 0 \/ k = 1)
  /\ st' = write_item st (if 0 =? k then self_loop_short else driver_short).
Proof.
  unfold dump_verilog_unique_switch_box_short_interc. intro H.
  inv_bind H. apply assert_Some in E. inv_bind H. inv_bind H. inv_bind H.
  injection H as <-. split; [lia | reflexivity].
Qed.

Lemma dump_verilog_switch_box_short_interc_on_return
  st sb side cur k drv explicit st' :
  dump_verilog_switch_box_short_interc st sb side cur k drv explicit = Some st' ->
  (k = 0 \/ k = 1)
  /\ st' = write_item st (if 0 =? k then self_loop_short else driver_short).
Proof.
  unfold dump_verilog_switch_box_short_interc. intro H.
  inv_bind H. inv_bind H. apply assert_Some in E0. inv_bind H. inv_bind H. inv_bind H.
  injection H as <-. split; [lia | reflexivity].
Qed.

Lemma update_counter_for_mux_on_return st model k st' :
  update_counter_for_mux st model k = Some st' ->
  emitted st st' [mux_instance k]
    (Z.of_N (count_num_conf_bits_one_spice_model model (sram_orgz_type (counter st)) k)).
Proof.
  unfold update_counter_for_mux, get_sram_orgz_info_num_blwl, emitted.
  destruct (design_tech model); [intros [= <-] | intros [= <-] | discriminate];
    cbn; repeat split.
Qed.

Lemma dump_verilog_unique_switch_box_mux_on_return
  st rr_sb side cur k drvs sw explicit st' :
  dump_verilog_unique_switch_box_mux st rr_sb side cur k drvs sw explicit = Some st' ->
  2 <= k
  /\ emitted st st' [mux_instance k]
       (Z.of_N (count_num_conf_bits_one_spice_model (spice_model (switch_inf sw))
                  (sram_orgz_type (counter st)) k)).
Proof.
  unfold dump_verilog_unique_switch_box_mux. intro H.
  inv_bind H. inv_bind H. apply assert_Some in E0.
  inv_bind H. inv_bind H. inv_bind H. inv_bind H.
  split; [lia | now apply update_counter_for_mux_on_return].
Qed.

Lemma dump_verilog_switch_box_mux_on_return
  st sb side cur k drvs sw explicit st' :
  dump_verilog_switch_box_mux st sb side cur k drvs sw explicit = Some st' ->
  2 <= k
  /\ emitted st st' [mux_instance k]
       (Z.of_N (count_num_conf_bits_one_spice_model (spice_model (switch_inf sw))
                  (sram_orgz_type (counter st)) k)).
Proof.
  unfold dump_verilog_switch_box_mux. intro H.
  inv_bind H. inv_bind H. inv_bind H. apply assert_Some in E1.
  inv_bind H. inv_bind H. inv_bind H.
  split; [lia | now apply update_counter_for_mux_on_return].
Qed.

Lemma first_switch (l : list Z) (sw : Z) :
  nth_error l DEFAULT_SWITCH_ID = Some sw -> nth 0 l 0 = sw.
Proof. destruct l; [discriminate | now intros [= ->]]. Qed.

(** The interconnect of a node of the reduced-duplication backend, when it
    returns: it wrote the construct that the passing-wire test and the
    driver count select, and consumed the bits of that construct. *)
Lemma dump_verilog_unique_switch_box_interc_on_return st rr_sb side id explicit n st' :
  get_chan_node rr_sb side id = Some n ->
  dump_verilog_unique_switch_box_interc st rr_sb side id explicit = Some st' ->
  emitted st st'
    (unique_interc_items (is_sb_node_passing_wire rr_sb side id) n)
    (interc_cost count_num_conf_bits_one_spice_model (counter st)
       (is_sb_node_passing_wire rr_sb side id) n).
Proof.
  intro Hn. unfold dump_verilog_unique_switch_box_interc. rewrite Hn; cbn [bind].
  unfold unique_interc_items, interc_cost, effective_fan_in.
  destruct (is_sb_node_passing_wire rr_sb side id).
  - change (0 =? 0) with true. change (2 >? 0) with true. cbv iota zeta. intro H.
    apply dump_verilog_unique_switch_box_short_interc_on_return in H.
    destruct H as (_ & ->). apply emitted_item.
  - destruct (0 =? num_drive_rr_nodes n) eqn:E0.
    + intros [= <-]. replace (2 >? num_drive_rr_nodes n) with true by lia.
      apply emitted_nothing.
    + cbv iota zeta. rewrite E0. destruct (1 =? num_drive_rr_nodes n) eqn:E1.
      * intro H. inv_bind H.
        apply dump_verilog_unique_switch_box_short_interc_on_return in H.
        destruct H as (_ & ->). rewrite E0.
        replace (2 >? num_drive_rr_nodes n) with true by lia. apply emitted_item.
      * destruct (1 <? num_drive_rr_nodes n) eqn:E2.
        -- intro H. inv_bind H.
           apply dump_verilog_unique_switch_box_mux_on_return in H.
           destruct H as (_ & H).
           replace (2 >? num_drive_rr_nodes n) with false by lia.
           now rewrite (first_switch _ _ E).
        -- intros [= <-]. replace (2 >? num_drive_rr_nodes n) with true by lia.
           apply emitted_nothing.
Qed.

(** The interconnect of a node of the full-array backend, when it returns;
    when its test on the driver list held, the assertion on the opposite
    side held too. *)
Lemma dump_verilog_switch_box_interc_on_return st sb side n explicit st' :
  dump_verilog_switch_box_interc st sb side (Some n) explicit = Some st' ->
  emitted st st'
    (full_array_interc_items (check_drive_rr_node_imply_short sb n side) n)
    (interc_cost count_num_conf_bits_one_spice_model (counter st)
       (check_drive_rr_node_imply_short sb n side) n)
  /\ (check_drive_rr_node_imply_short sb n side = true ->
      is_rr_node_exist_opposite_side_in_sb_info sb n side = 1).
Proof.
  unfold dump_verilog_switch_box_interc. intro H. inv_bind H. cbn [bind] in H.
  unfold full_array_interc_items, interc_cost, effective_fan_in.
  destruct (check_drive_rr_node_imply_short sb n side).
  - inv_bind H. inv_bind E0. apply assert_Some in E1. injection E0 as <-.
    change (0 =? 0) with true in H. cbv iota in H.
    apply dump_verilog_switch_box_short_interc_on_return in H.
    destruct H as (_ & ->). change (2 >? 0) with true.
    split; [apply emitted_item | intros _; lia].
  - cbn [bind] in H. split; [|discriminate].
    destruct (0 =? num_drive_rr_nodes n) eqn:E0.
    + apply dump_verilog_switch_box_short_interc_on_return in H.
      destruct H as (_ & ->). rewrite E0.
      replace (2 >? num_drive_rr_nodes n) with true by lia. apply emitted_item.
    + destruct (1 =? num_drive_rr_nodes n) eqn:E1.
      * inv_bind H. apply dump_verilog_switch_box_short_interc_on_return in H.
        destruct H as (_ & ->). rewrite E0.
        replace (2 >? num_drive_rr_nodes n) with true by lia. apply emitted_item.
      * destruct (1 <? num_drive_rr_nodes n) eqn:E2.
        -- inv_bind H. apply dump_verilog_switch_box_mux_on_return in H.
           destruct H as (_ & H).
           replace (2 >? num_drive_rr_nodes n) with false by lia.
           now rewrite (first_switch _ _ E3).
        -- injection H as <-. replace (2 >? num_drive_rr_nodes n) with true by lia.
           apply emitted_nothing.
Qed.

(** The skip of the reduced-duplication backend: a node that is not a
    passing wire and has no driver is left without any check. *)
Lemma dump_verilog_unique_switch_box_interc_skips st rr_sb side id explicit n :
  get_chan_node rr_sb side id = Some n ->
  is_sb_node_passing_wire rr_sb side id = false ->
  num_drive_rr_nodes n = 0 ->
  dump_verilog_unique_switch_box_interc st rr_sb side id explicit = Some st.
Proof.
  intros Hn Hp H0. unfold dump_verilog_unique_switch_box_interc.
  rewrite Hn; cbn [bind]. rewrite Hp, H0. reflexivity.
Qed.

Lemma unique_interc_items_mux passing n :
  existsb is_mux_instance (unique_interc_items passing n) = true
  <-> passing = false /\ 2 <= num_drive_rr_nodes n.
Proof.
  forget_parameters.
  unfold unique_interc_items. destruct passing; simpl; [intuition congruence|].
  destruct (0 =? _) eqn:E0; simpl; [intuition (try congruence; lia)|].
  destruct (1 =? _) eqn:E1; simpl; [intuition (try congruence; lia)|].
  destruct (1 <? _) eqn:E2; simpl; intuition (try congruence; lia).
Qed.

Lemma full_array_interc_items_mux imply n :
  existsb is_mux_instance (full_array_interc_items imply n) = true
  <-> imply = false /\ 2 <= num_drive_rr_nodes n.
Proof.
  forget_parameters.
  unfold full_array_interc_items. destruct imply; simpl; [intuition congruence|].
  destruct (0 =? _) eqn:E0; simpl; [intuition (try congruence; lia)|].
  destruct (1 =? _) eqn:E1; simpl; [intuition (try congruence; lia)|].
  destruct (1 <? _) eqn:E2; simpl; intuition (try congruence; lia).
Qed.

Lemma unique_interc_items_length passing n :
  (length (unique_interc_items passing n) <= 1)%nat
  /\ (length (unique_interc_items passing n) = 1%nat
      <-> passing = true \/ 1 <= num_drive_rr_nodes n).
Proof.
  forget_parameters.
  unfold unique_interc_items. destruct passing; simpl; [intuition lia|].
  destruct (0 =? _) eqn:E0; simpl; [intuition (try congruence; lia)|].
  destruct (1 =? _) eqn:E1; simpl; [intuition (try congruence; lia)|].
  destruct (1 <? _) eqn:E2; simpl; intuition (try congruence; lia).
Qed.

Lemma full_array_interc_items_length imply n :
  (length (full_array_interc_items imply n) <= 1)%nat
  /\ (length (full_array_interc_items imply n) = 1%nat
      <-> imply = true \/ 0 <= num_drive_rr_nodes n).
Proof.
  forget_parameters.
  unfold full_array_interc_items. destruct imply; simpl; [intuition lia|].
  destruct (0 =? _) eqn:E0; simpl; [intuition (try congruence; lia)|].
  destruct (1 =? _) eqn:E1; simpl; [intuition (try congruence; lia)|].
  destruct (1 <? _) eqn:E2; simpl; intuition (try congruence; lia).
Qed.



Lemma count_interc_bits_on_return cost info test n c :
  count_interc_bits cost info test (Some n) = Some c ->
  c = interc_cost cost info (test n) n.
Proof.
  unfold count_interc_bits, interc_cost, effective_fan_in.
  destruct (2 >? _); [now intros [= <-]|].
  intro H. inv_bind H. inv_bind H. inv_bind H. injection H as <-.
  now rewrite (first_switch _ _ E).
Qed.

(** ** C3 *)

(** C3 (amended).  For an output-direction sink node, whenever the
    emission of a backend returns it has written at most one construct,
    the one that the wire test of the backend and the driver count select,
    and that construct is a multiplexer if and only if the wire test fails
    and the node has at least two drivers.  The construct of the
    full-array backend is one whenever its wire test holds or the driver
    count is not negative (a self-loop short when the test holds or there
    is no driver, a short for one driver).  The construct of the
    reduced-duplication backend is one when the node is a passing wire or
    has at least one driver; for a node that is not a passing wire and has
    no driver that backend returns at once and writes nothing. *)
Theorem one_construct_per_sink_node st rr_sb side id sb n explicit :
  get_chan_node rr_sb side id = Some n ->
  let passing := is_sb_node_passing_wire rr_sb side id in
  let imply := check_drive_rr_node_imply_short sb n side in
  (forall st_u,
      dump_verilog_unique_switch_box_interc st rr_sb side id explicit = Some st_u ->
      netlist st_u = netlist st ++ unique_interc_items passing n)
  /\ (forall st_f,
        dump_verilog_switch_box_interc st sb side (Some n) explicit = Some st_f ->
        netlist st_f = netlist st ++ full_array_interc_items imply n)
  /\ (length (unique_interc_items passing n) <= 1)%nat
  /\ (length (full_array_interc_items imply n) <= 1)%nat
  /\ (length (unique_interc_items passing n) = 1%nat
      <-> passing = true \/ 1 <= num_drive_rr_nodes n)
  /\ (length (full_array_interc_items imply n) = 1%nat
      <-> imply = true \/ 0 <= num_drive_rr_nodes n)
  /\ (existsb is_mux_instance (unique_interc_items passing n) = true
      <-> passing = false /\ 2 <= num_drive_rr_nodes n)
  /\ (existsb is_mux_instance (full_array_interc_items imply n) = true
      <-> imply = false /\ 2 <= num_drive_rr_nodes n)
  /\ (passing = false -> num_drive_rr_nodes n = 0 ->
      dump_verilog_unique_switch_box_interc st rr_sb side id explicit = Some st).
Proof.
  intros Hn passing imply.
  split.
  { intros st_u Hu.
    now destruct (dump_verilog_unique_switch_box_interc_on_return _ _ _ _ _ _ _ Hn Hu). }
  split.
  { intros st_f Hf.
    now destruct (dump_verilog_switch_box_interc_on_return _ _ _ _ _ _ Hf) as ((H & _) & _). }
  split; [apply unique_interc_items_length|].
  split; [apply full_array_interc_items_length|].
  split; [apply unique_interc_items_length|].
  split; [apply full_array_interc_items_length|].
  split; [apply unique_interc_items_mux|].
  split; [apply full_array_interc_items_mux|].
  intros Hp H0. now apply dump_verilog_unique_switch_box_interc_skips with (n := n).
Qed.

(** ** C7 *)


(** ** Sums over the tracks of a side *)

Lemma foldM_sum {X : Type} (w : X -> Z) (f : Z -> X -> option Z) (l : list X) (a : Z) :
  (forall a x, In x l -> f a x = Some (a + w x)) ->
  foldM f l a = Some (a + sumZ w l).
Proof.
  intro Hf.
  destruct (foldM_measure (fun _ => True) (fun a => a) w f l a I) as (a' & -> & _ & ->);
    [|reflexivity].
  intros b x Hx _. exists (b + w x). now rewrite Hf.
Qed.

Lemma sumZ_add {X : Type} (w1 w2 : X -> Z) (l : list X) :
  sumZ (fun x => w1 x + w2 x) l = sumZ w1 l + sumZ w2 l.
Proof. induction l as [|x l IH]; simpl; [reflexivity | rewrite IH; lia]. Qed.

Lemma sumZ_zero {X : Type} (l : list X) : sumZ (fun _ => 0) l = 0.
Proof. induction l as [|x l IH]; simpl; [reflexivity | now rewrite IH]. Qed.

Fixpoint nodupb (l : list N) : bool :=
  match l with
  | [] => true
  | x :: r => negb (existsb (N.eqb x) r) && nodupb r
  end.

(** Among segment ids without repetition, a listed segment is met once. *)
Lemma sumZ_indicator (segs : list N) (s : N) (v : Z) :
  nodupb segs = true -> existsb (N.eqb s) segs = true ->
  sumZ (fun seg => if N.eqb seg s then v else 0) segs = v.
Proof.
  induction segs as [|x segs IH]; simpl; [discriminate|].
  intros Hnd Hex. apply andb_prop in Hnd. destruct Hnd as (Hx & Hnd).
  destruct (N.eqb_spec x s) as [-> | Hne].
  - rewrite (sumZ_ext _ (fun _ => 0)), sumZ_zero; [lia|].
    intros y Hy. destruct (N.eqb_spec y s) as [-> | _]; [|reflexivity].
    apply negb_true_iff in Hx. 
    assert (existsb (N.eqb s) segs = true)
      by (apply existsb_exists; exists s; split; [exact Hy | apply N.eqb_refl]).
    congruence.
  - rewrite IH; [lia | exact Hnd |].
    destruct (N.eqb_spec s x) as [-> | _]; [contradiction | exact Hex].
Qed.

(** Summing side by side over the segment ids is summing over the tracks. *)
Lemma sumZ_by_segments (w : gsb_track -> Z) (segs : list N) (tracks : list gsb_track) :
  nodupb segs = true ->
  forallb (fun t => existsb (N.eqb (chan_node_segment t)) segs) tracks = true ->
  sumZ (fun seg => sumZ (track_weight w seg) tracks) segs
  = sumZ (fun t => if is_out (chan_node_direction t) then w t else 0) tracks.
Proof.
  intros Hnd. induction tracks as [|t tracks IH]; simpl; intro Hl.
  - apply sumZ_zero.
  - apply andb_prop in Hl. destruct Hl as (Ht & Hl).
    rewrite sumZ_add, IH by exact Hl. f_equal.
    unfold track_weight. now apply sumZ_indicator.
Qed.




(** ** The bits of a block of the reduced-duplication backend *)

(** The bits of the node of a track, as the counting function sees it. *)
Definition node_bits (info : t_sram_orgz_info) (rr_sb : RRGSB)
  (side : nat) (t : gsb_track) : Z :=
  match chan_node t with
  | Some n =>
      interc_cost count_num_conf_bits_one_spice_model info
        (is_sb_node_exist_opposite_side rr_sb n side) n
  | None => 0
  end.

Definition out_bits (info : t_sram_orgz_info) (rr_sb : RRGSB)
  (side : nat) (t : gsb_track) : Z :=
  if is_out (chan_node_direction t) then node_bits info rr_sb side t else 0.

(** The sides list every segment of their tracks, and list it once. *)
Definition segments_listed_once (rr_sb : RRGSB) : bool :=
  segments_listed rr_sb
  && forallb (fun side => nodupb (get_segment_ids (chan_at rr_sb side)))
             (seq 0 (length (get_chan rr_sb))).

Lemma count_verilog_switch_box_side_conf_bits_value info rr_sb side seg_id :
  forallb (track_countable rr_sb side) (chan_tracks (chan_at rr_sb side)) = true ->
  count_verilog_switch_box_side_conf_bits info rr_sb side seg_id
  = Some (sumZ (track_weight (node_bits info rr_sb side) seg_id)
            (chan_tracks (chan_at rr_sb side))).
Proof.
  intro Hc. unfold count_verilog_switch_box_side_conf_bits.
  rewrite (foldM_sum (track_weight (node_bits info rr_sb side) seg_id));
    [reflexivity|].
  intros a t Ht. unfold track_weight.
  rewrite forallb_forall in Hc. specialize (Hc t Ht).
  unfold track_countable in Hc.
  destruct (N.eqb seg_id (chan_node_segment t)); simpl; [|f_equal; lia].
  destruct (chan_node_direction t); simpl; [f_equal; lia | | discriminate].
  destruct (chan_node t) as [n|] eqn:En; [|discriminate].
  unfold count_verilog_switch_box_interc_conf_bits.
  rewrite count_interc_bits_value.
  - simpl. unfold node_bits. now rewrite En.
  - intro H2. destruct (2 <=? _) eqn:E2; [exact Hc | lia].
Qed.

Lemma count_verilog_switch_box_conf_bits_value info rr_sb :
  gsb_countable rr_sb = true ->
  segments_listed_once rr_sb = true ->
  count_verilog_switch_box_conf_bits info rr_sb
  = Some (sumZ (fun side => sumZ (out_bits info rr_sb side)
                              (chan_tracks (chan_at rr_sb side)))
            (seq 0 (length (get_chan rr_sb)))).
Proof.
  intros Hc Hs. unfold count_verilog_switch_box_conf_bits.
  unfold gsb_countable in Hc. rewrite forallb_forall in Hc.
  unfold segments_listed_once, segments_listed in Hs.
  apply andb_prop in Hs. destruct Hs as (Hl & Hnd).
  rewrite forallb_forall in Hl, Hnd.
  rewrite (foldM_sum (fun side => sumZ (out_bits info rr_sb side)
                                    (chan_tracks (chan_at rr_sb side))));
    [reflexivity|].
  intros a side Hside.
  rewrite (foldM_sum (fun seg_id =>
             sumZ (track_weight (node_bits info rr_sb side) seg_id)
               (chan_tracks (chan_at rr_sb side)))).
  - f_equal. f_equal. apply sumZ_by_segments; [now apply Hnd | now apply Hl].
  - intros b seg _.
    now rewrite (count_verilog_switch_box_side_conf_bits_value _ _ _ _ (Hc _ Hside)).
Qed.




Lemma interc_cost_type cost i1 i2 inside n :
  sram_orgz_type i1 = sram_orgz_type i2 ->
  interc_cost cost i1 inside n = interc_cost cost i2 inside n.
Proof. intro H. unfold interc_cost. now rewrite H. Qed.

(** ** The multiplexers of a block of the reduced-duplication backend *)






(** ** The bits of a block of the full-array backend *)

Definition sb_out_bits (info : t_sram_orgz_info) (sb : t_sb) (side : nat) (t : sb_track)
  : Z :=
  if is_out (chan_rr_node_direction t) then
    match chan_rr_node t with
    | Some n =>
        interc_cost count_num_conf_bits_one_spice_model info
          (is_rr_node_exist_opposite_side_in_sb_info sb n side =? 1) n
    | None => 0
    end
  else 0.



(** The bits that the emission consumes for the node of a track, as its
    test on the driver list sees it. *)
Definition imply_bits (info : t_sram_orgz_info) (sb : t_sb) (side : nat) (t : sb_track)
  : Z :=
  if is_out (chan_rr_node_direction t) then
    match chan_rr_node t with
    | Some n =>
        interc_cost count_num_conf_bits_one_spice_model info
          (check_drive_rr_node_imply_short sb n side) n
    | None => 0
    end
  else 0.

Lemma count_verilog_switch_box_conf_bits_t_sb_on_return info sb c :
  count_verilog_switch_box_conf_bits_t_sb info sb = Some c ->
  c = sumZ (fun st => sumZ (sb_out_bits info sb (fst st)) (snd st))
        (indexed (sb_chan sb)).
Proof.
  unfold count_verilog_switch_box_conf_bits_t_sb. intro H.
  apply (foldM_measure_on_return (fun _ => True) (fun a => a)
           (fun st => sumZ (sb_out_bits info sb (fst st)) (snd st))) in H;
    [destruct H as (_ & H); lia | exact I |].
  intros a [side tracks] a' _ _ Ha. split; [exact I|]. cbn [fst snd].
  apply (foldM_measure_on_return (fun _ => True) (fun a => a)
           (sb_out_bits info sb side)) in Ha; [now destruct Ha | exact I |].
  intros b t b' _ _ Hb. split; [exact I|]. unfold sb_out_bits.
  destruct (chan_rr_node_direction t); cbn [is_out];
    [injection Hb as <-; lia | | discriminate].
  inv_bind Hb. injection Hb as <-.
  unfold count_verilog_switch_box_interc_conf_bits_t_sb in E.
  destruct (chan_rr_node t) as [n|]; [|discriminate].
  apply count_interc_bits_on_return in E. now subst.
Qed.

Lemma count_verilog_switch_box_conf_bits_t_sb_nonneg info sb c :
  count_verilog_switch_box_conf_bits_t_sb info sb = Some c -> 0 <= c.
Proof.
  intro H. rewrite (count_verilog_switch_box_conf_bits_t_sb_on_return _ _ _ H).
  apply sumZ_nonneg. intros st _. apply sumZ_nonneg. intros t _.
  unfold sb_out_bits. destruct (is_out (chan_rr_node_direction t)); [|lia].
  destruct (chan_rr_node t); [|lia]. apply interc_cost_nonneg.
Qed.

Lemma count_verilog_switch_box_conf_bits_t_sb_type i1 i2 sb :
  sram_orgz_type i1 = sram_orgz_type i2 ->
  count_verilog_switch_box_conf_bits_t_sb i1 sb
  = count_verilog_switch_box_conf_bits_t_sb i2 sb.
Proof.
  intro H.
  unfold count_verilog_switch_box_conf_bits_t_sb,
    count_verilog_switch_box_interc_conf_bits_t_sb, count_interc_bits.
  now rewrite H.
Qed.

Lemma switch_box_multiplexers_on_return info sb explicit st :
  switch_box_multiplexers info sb explicit = Some st ->
  sram_orgz_type (counter st) = sram_orgz_type info
  /\ num_mem_bit (counter st)
     = num_mem_bit info
       + sumZ (fun st => sumZ (imply_bits info sb (fst st)) (snd st))
           (indexed (sb_chan sb)).
Proof.
  unfold switch_box_multiplexers.
  apply (foldM_measure_on_return
           (fun st => sram_orgz_type (counter st) = sram_orgz_type info)
           (fun st => num_mem_bit (counter st))
           (fun st => sumZ (imply_bits info sb (fst st)) (snd st))); [reflexivity|].
  intros st0 [side tracks] st1 _ Hty. cbn [fst snd].
  apply (foldM_measure_on_return
           (fun st => sram_orgz_type (counter st) = sram_orgz_type info)
           (fun st => num_mem_bit (counter st))); [exact Hty|].
  intros st2 t st3 _ Hty2 H. unfold imply_bits.
  inv_bind H. inv_bind H. rewrite E in *.
  destruct (chan_rr_node_direction t); cbn [is_out];
    try (injection H as <-; split; [exact Hty2 | lia]).
  apply dump_verilog_switch_box_interc_on_return in H.
  destruct H as ((_ & Hb & Ht) & _). split; [congruence|].
  rewrite Hb. f_equal. now apply interc_cost_type.
Qed.


(** The organisation type of the counter is not changed by the function. *)
Lemma dump_verilog_routing_switch_box_subckt_type
  info sb compact explicit info' sb' nl :
  dump_verilog_routing_switch_box_subckt info sb compact explicit = Some (info', sb', nl) ->
  sram_orgz_type info' = sram_orgz_type info.
Proof.
  unfold dump_verilog_routing_switch_box_subckt. intro H.
  inv_bind H. inv_bind H. inv_bind H.
  destruct (if compact then _ else None) as [mm|].
  - inv_bind H. inv_bind H. injection H as <- _ _. reflexivity.
  - inv_bind H. inv_bind H. inv_bind H. injection H as <- _ _.
    now apply switch_box_multiplexers_on_return in E3.
Qed.

(** ** C10 *)


(** ** C2 *)








End SwitchBlocks.

(** ** Example blocks *)

(** A one-level multiplexer model: as many configuration bits as inputs,
    and as many reserved bits in a memory bank; one input port and one
    output port. *)
Definition mux_model : t_spice_model :=
  {| spice_model_type := SPICE_MODEL_MUX;
     design_tech := SPICE_MODEL_DESIGN_CMOS;
     count_num_conf_bits_one_spice_model := fun _ fan_in => Z.to_N fan_in;
     count_num_reserved_conf_bits_one_spice_model :=
       fun orgz fan_in =>
         match orgz with SPICE_SRAM_MEMORY_BANK => Z.to_N fan_in | _ => 0%N end;
     find_spice_model_ports := fun _ => 1%nat |}.

Definition switches : Z -> t_switch_inf := fun _ => {| spice_model := mux_model |}.

(** A grid of logic blocks of four pins; pin 2 is on side 1. *)
Definition logic_block : t_type :=
  {| num_pins := 4;
     pinloc := fun height side pin => if (side =? 1) && (pin =? 2) then 1 else 0 |}.

Definition grid_of_logic_blocks : Z -> Z -> option t_type := fun _ _ => Some logic_block.

Definition ground_level : Z -> Z -> Z -> Z := fun _ _ _ => 0.

Definition opposite_side : nat -> option nat := fun side => Some ((side + 2) mod 4)%nat.

(** The drivers of the examples: the output pin of a logic block and the
    tracks of the vertical channel that enter the block. *)
Definition output_pin : t_rr_node :=
  {| rr_node_index := 9; rr_node_type := OPIN; xlow := 0; ylow := 0; ptc_num := 2;
     num_drive_rr_nodes := 0; drive_rr_nodes := []; drive_switches := [] |}.

Definition input_node (i : Z) : t_rr_node :=
  {| rr_node_index := i; rr_node_type := CHANY; xlow := 0; ylow := 0; ptc_num := i;
     num_drive_rr_nodes := 0; drive_rr_nodes := []; drive_switches := [] |}.

Definition drivers : list t_rr_node :=
  [output_pin; input_node 5; input_node 6; input_node 7].

(** A horizontal track with [k] drivers, the first [k] of the list; its
    index is its driver count. *)
Definition track_node (k : Z) : t_rr_node :=
  {| rr_node_index := k; rr_node_type := CHANX; xlow := 0; ylow := 0; ptc_num := k;
     num_drive_rr_nodes := k; drive_rr_nodes := firstn (Z.to_nat k) drivers;
     drive_switches := [0] |}.

(** The wire tests of the examples: the node of index 4 runs through the
    block, no other node does. *)
Definition opposite_test : t_sb -> t_rr_node -> nat -> Z :=
  fun _ n _ => if rr_node_index n =? 4 then 1 else 0.
Definition short_test : t_sb -> t_rr_node -> nat -> bool :=
  fun _ n _ => rr_node_index n =? 4.

Definition out_track (k : Z) (seg : N) : gsb_track :=
  {| chan_node := Some (track_node k); chan_node_direction := OUT_PORT;
     chan_node_segment := seg |}.

Definition in_track (k : Z) (seg : N) : gsb_track :=
  {| chan_node := Some (track_node k); chan_node_direction := IN_PORT;
     chan_node_segment := seg |}.

(** The lookups of the examples search the tracks and the pins of the
    block for the node, in order. *)
Definition ports_eqb (a b : PORTS) : bool :=
  match a, b with
  | IN_PORT, IN_PORT | OUT_PORT, OUT_PORT | INOUT_PORT, INOUT_PORT => true
  | _, _ => false
  end.

Fixpoint position {A : Type} (p : A -> bool) (l : list A) (i : nat) : option nat :=
  match l with
  | [] => None
  | x :: r => if p x then Some i else position p r (S i)
  end.

Fixpoint side_and_position {A : Type} (p : A -> bool) (sides : list (list A)) (side : nat)
  : option (nat * nat) :=
  match sides with
  | [] => None
  | l :: r =>
      match position p l 0 with
      | Some i => Some (side, i)
      | None => side_and_position p r (S side)
      end
  end.

Definition is_track (n : t_rr_node) (d : PORTS) (t : gsb_track) : bool :=
  match chan_node t with
  | Some m => same_node m n && ports_eqb (chan_node_direction t) d
  | None => false
  end.

Definition is_sb_track (n : t_rr_node) (d : PORTS) (t : sb_track) : bool :=
  match chan_rr_node t with
  | Some m => same_node m n && ports_eqb (chan_rr_node_direction t) d
  | None => false
  end.

Definition index_in_sb : t_rr_node -> t_sb -> nat -> PORTS -> option nat :=
  fun n sb side d => position (is_sb_track n d) (nth side (sb_chan sb) []) 0.

Definition side_and_index_in_sb : t_rr_node -> t_sb -> PORTS -> option (nat * nat) :=
  fun n sb d =>
    match rr_node_type n with
    | OPIN => side_and_position (fun p => same_node (opin_rr_node p) n) (sb_opin sb) 0
    | _ => side_and_position (is_sb_track n d) (sb_chan sb) 0
    end.

(** Sides 0 and 2 are on the horizontal channel, sides 1 and 3 on the
    vertical one. *)
Definition chan_type_of_side : t_sb -> nat -> t_rr_type :=
  fun _ side => if Nat.even side then CHANX else CHANY.

Definition drives_through : t_rr_node -> t_rr_node -> Z -> Z -> nat -> Z :=
  fun _ _ _ _ _ => 1.

(** A module manager in which the modules of the multiplexers are
    registered, and a circuit library that knows the memory model and whose
    multiplexers have one port of each type. *)
Definition circuit_models : Z -> circuit_model :=
  fun _ => {| valid_mux_module := fun _ => true;
              model_ports_by_type := fun _ => 1%nat;
              design_tech_type := SPICE_MODEL_DESIGN_CMOS |}.

Definition memory_model_is_known : t_sram_orgz_info -> bool := fun _ => true.

(** A module manager in which no module of a multiplexer is registered. *)
Definition no_mux_module : Z -> circuit_model :=
  fun _ => {| valid_mux_module := fun _ => false;
              model_ports_by_type := fun _ => 1%nat;
              design_tech_type := SPICE_MODEL_DESIGN_CMOS |}.

(** The reduced-duplication backend and the full-array backend on the
    grid of the examples. *)
Abbreviation on_grid f :=
  (f switches 1 1 grid_of_logic_blocks ground_level) (only parsing).
Abbreviation unique_backend f :=
  (f switches 1 1 grid_of_logic_blocks ground_level opposite_side) (only parsing).
Abbreviation full_array_backend f :=
  (f switches 1 1 grid_of_logic_blocks ground_level opposite_test short_test
     index_in_sb chan_type_of_side drives_through side_and_index_in_sb opposite_side)
  (only parsing).

(** The pin of the logic block next to side 1. *)
Definition pin_on_side_1 : sb_pin :=
  {| opin_rr_node := output_pin; opin_rr_node_grid_side := 1 |}.

(** A block of four sides.  Side 0 carries the given tracks; the drivers
    enter through side 1, next to which the logic block is; the passing
    wire of index 4 enters through side 2; side 3 is empty. *)
Definition four_sides (tracks : list gsb_track) (segs : list N) : list RRChan :=
  [ {| chan_tracks := tracks; get_segment_ids := segs |};
    {| chan_tracks :=
         map (fun i => {| chan_node := Some (input_node i);
                          chan_node_direction := IN_PORT; chan_node_segment := 0 |})
             [5; 6; 7];
       get_segment_ids := [0%N] |};
    {| chan_tracks := [in_track 4 0]; get_segment_ids := [0%N] |};
    {| chan_tracks := []; get_segment_ids := [] |} ].

Definition gsb_of (x y : N) (tracks : list gsb_track) (segs : list N)
  (opposite : t_rr_node -> nat -> bool) (passing : nat -> nat -> bool) : RRGSB :=
  {| get_sb_x := x; get_sb_y := y;
     get_chan := four_sides tracks segs;
     is_sb_node_exist_opposite_side := opposite;
     is_sb_node_passing_wire := passing;
     get_node_index :=
       fun n side d =>
         position (is_track n d)
           (chan_tracks (nth side (four_sides tracks segs) empty_chan)) 0;
     get_node_side_and_index :=
       fun n d =>
         side_and_position (is_track n d) (map chan_tracks (four_sides tracks segs)) 0;
     get_opin_nodes := fun side => if Nat.eqb side 1 then [pin_on_side_1] else [];
     get_opin_node_grid_side := fun _ => 1 |}.

(** Side 0: multiplexers of 2 and of 3 inputs, an input track, a track
    with one driver and a passing wire with four drivers on record. *)
Definition gsb_at (x y : N) : RRGSB :=
  gsb_of x y [out_track 2 0; out_track 3 1; in_track 1 0; out_track 1 1; out_track 4 0]
    [0%N; 1%N]
    (fun n _ => rr_node_index n =? 4) (fun side id => Nat.eqb side 0 && Nat.eqb id 4).

Definition sb_of (x y : Z) (tracks : list sb_track) (m : option t_sb) : t_sb :=
  {| sb_x := x; sb_y := y;
     sb_chan := [ tracks;
                  map (fun i => {| chan_rr_node := Some (input_node i);
                                   chan_rr_node_direction := IN_PORT |}) [5; 6; 7];
                  [ {| chan_rr_node := Some (track_node 4);
                       chan_rr_node_direction := IN_PORT |} ];
                  [] ];
     sb_opin := [ []; [pin_on_side_1]; []; [] ];
     mirror := m;
     num_reserved_conf_bits := 0; conf_bits_lsb := 0; conf_bits_msb := 0 |}.

Definition sb_track_of (d : PORTS) (k : Z) : sb_track :=
  {| chan_rr_node := Some (track_node k); chan_rr_node_direction := d |}.

Definition sb_example : t_sb :=
  sb_of 0 0 [sb_track_of OUT_PORT 2; sb_track_of OUT_PORT 3; sb_track_of IN_PORT 1;
             sb_track_of OUT_PORT 1; sb_track_of OUT_PORT 4] None.


Definition info0 : t_sram_orgz_info :=
  {| sram_orgz_type := SPICE_SRAM_MEMORY_BANK; num_mem_bit := 0; num_bl := 0; num_wl := 0 |}.

Definition device_2x2 : DeviceRRGSB :=
  {| rr_gsb := [[gsb_at 0 0; gsb_at 0 1]; [gsb_at 1 0; gsb_at 1 1]];
     sb_unique_module := [gsb_at 0 0];
     cb_unique_module := fun _ => [gsb_at 0 0];
     sb_conf := [] |}.

Definition st0 : emit_state := {| counter := info0; netlist := [] |}.


Example example_counts :
  count_verilog_switch_box_conf_bits switches info0 (gsb_at 0 0) = Some 5
  /\ count_verilog_switch_box_reserved_conf_bits switches info0 (gsb_at 0 0) = Some 3
  /\ count_verilog_switch_box_conf_bits_t_sb switches opposite_test info0 sb_example
     = Some 5.
Proof. repeat split; vm_compute; reflexivity. Qed.

Example example_allocation :
  option_map (fun r => (num_mem_bit (fst r),
                        map (fun e => (fst e, sb_conf_bits_lsb (snd e),
                                       sb_conf_bits_msb (snd e)))
                            (sb_conf (snd r))))
    (update_all_switch_box_conf_bits switches info0 device_2x2)
  = Some (20, [((0%N, 0%N), 0, 4); ((0%N, 1%N), 5, 9); ((1%N, 0%N), 10, 14);
               ((1%N, 1%N), 15, 19)]).
Proof. vm_compute. reflexivity. Qed.

(** What the two backends write for the example block: the ports of its
    tracks and of the pin next to it, then two multiplexers, the short of
    the track that the pin drives and the short of the passing wire. *)
Example example_netlists :
  option_map snd
    (unique_backend dump_verilog_routing_switch_box_unique_subckt info0 (gsb_at 0 0) false)
  = Some [mux_instance 2; mux_instance 3; driver_short; self_loop_short]
  /\ option_map snd
       (full_array_backend dump_verilog_routing_switch_box_subckt
          info0 sb_example false false)
     = Some [mux_instance 2; mux_instance 3; driver_short; self_loop_short]
  /\ option_map snd
       (unique_backend dump_verilog_routing_switch_box_unique_subckt info0 (gsb_at 0 0) true)
     = Some [mux_instance 2; mux_instance 3; driver_short; self_loop_short].
Proof. repeat split; vm_compute; reflexivity. Qed.

(** The checks of the printers stop the run: a driver that is an input
    pin, a driver that is not among the inputs of the block, a pin that is
    not on the side on record, a multiplexer with fewer drivers in the
    array than on record. *)
Definition with_drivers (k : Z) (l : list t_rr_node) : t_rr_node :=
  {| rr_node_index := k; rr_node_type := CHANX; xlow := 0; ylow := 0; ptc_num := k;
     num_drive_rr_nodes := k; drive_rr_nodes := l; drive_switches := [0] |}.

Definition input_pin : t_rr_node :=
  {| rr_node_index := 10; rr_node_type := IPIN; xlow := 0; ylow := 0; ptc_num := 2;
     num_drive_rr_nodes := 0; drive_rr_nodes := []; drive_switches := [] |}.

Definition pin_on_another_side : t_rr_node :=
  {| rr_node_index := 9; rr_node_type := OPIN; xlow := 0; ylow := 0; ptc_num := 3;
     num_drive_rr_nodes := 0; drive_rr_nodes := []; drive_switches := [] |}.

Definition gsb_with_node (n : t_rr_node) : RRGSB :=
  gsb_of 0 0 [ {| chan_node := Some n; chan_node_direction := OUT_PORT;
                  chan_node_segment := 0 |} ] [0%N]
    (fun _ _ => false) (fun _ _ => false).

Definition sb_with_node (n : t_rr_node) : t_sb :=
  sb_of 0 0 [ {| chan_rr_node := Some n; chan_rr_node_direction := OUT_PORT |} ] None.

Example printers_stop_on_a_driver_they_do_not_find :
  (* the drivers of the examples are found *)
  unique_backend dump_verilog_unique_switch_box_interc st0
    (gsb_with_node (with_drivers 1 [output_pin])) 0 0 false
  = Some (write_item st0 driver_short)
  /\ full_array_backend dump_verilog_switch_box_interc st0
       (sb_with_node (with_drivers 1 [output_pin])) 0
       (Some (with_drivers 1 [output_pin])) false
     = Some (write_item st0 driver_short)
  (* an input pin as driver *)
  /\ unique_backend dump_verilog_unique_switch_box_interc st0
       (gsb_with_node (with_drivers 1 [input_pin])) 0 0 false = None
  /\ full_array_backend dump_verilog_switch_box_interc st0
       (sb_with_node (with_drivers 1 [input_pin])) 0
       (Some (with_drivers 1 [input_pin])) false = None
  (* a track that does not enter the block *)
  /\ unique_backend dump_verilog_unique_switch_box_interc st0
       (gsb_with_node (with_drivers 1 [input_node 8])) 0 0 false = None
  /\ full_array_backend dump_verilog_switch_box_interc st0
       (sb_with_node (with_drivers 1 [input_node 8])) 0
       (Some (with_drivers 1 [input_node 8])) false = None
  (* a pin that is not on the side on record *)
  /\ unique_backend dump_verilog_unique_switch_box_interc st0
       (gsb_with_node (with_drivers 1 [pin_on_another_side])) 0 0 false = None
  /\ full_array_backend dump_verilog_switch_box_interc st0
       (sb_with_node (with_drivers 1 [pin_on_another_side])) 0
       (Some (with_drivers 1 [pin_on_another_side])) false = None
  (* two drivers on record, one in the array *)
  /\ unique_backend dump_verilog_unique_switch_box_interc st0
       (gsb_with_node (with_drivers 2 [output_pin])) 0 0 false = None
  /\ full_array_backend dump_verilog_switch_box_interc st0
       (sb_with_node (with_drivers 2 [output_pin])) 0
       (Some (with_drivers 2 [output_pin])) false = None.
Proof. repeat split; vm_compute; reflexivity. Qed.

(** ** Witnesses and counterexamples *)

Lemma device_2x2_countable :
  forall rr_sb, In rr_sb (blocks_in_scan_order device_2x2) -> countable switches info0 rr_sb.
Proof.
  intros rr_sb H. unfold blocks_in_scan_order, device_2x2 in H. cbn [rr_gsb concat app] in H.
  destruct H as [<- | [<- | [<- | [<- | []]]]]; split; vm_compute; discriminate.
Qed.

Lemma switch_box_allocation_ranges_witness :
  (forall rr_sb, In rr_sb (blocks_in_scan_order device_2x2) ->
                 countable switches info0 rr_sb)
  /\ exists info' dev' new,
       update_all_switch_box_conf_bits switches info0 device_2x2 = Some (info', dev')
       /\ sb_conf dev' = sb_conf device_2x2 ++ new
       /\ chained (num_mem_bit info0) (map snd new) (num_mem_bit info').
Proof.
  split; [exact device_2x2_countable|].
  destruct (full_array_backend switch_box_allocation_ranges
              info0 device_2x2 device_2x2_countable)
    as (_ & (info' & dev' & new & H1 & H2 & _ & H4 & _) & _).
  exists info', dev', new. split; [exact H1|]. split; [exact H2 | exact H4].
Defined.

(** C1 (counterexample).  The full-array function, with the counter at 0,
    on a block that counts 5 bits, records [lsb = 0] and [msb = 5], not
    [msb = 0 + 5 - 1]; the records of two such blocks in a row, read as
    [[lsb, msb]], share the address 5. *)
Lemma full_array_function_records_msb_past_the_range :
  count_verilog_switch_box_conf_bits_t_sb switches opposite_test info0 sb_example = Some 5
  /\ option_map (fun r => (conf_bits_lsb (snd (fst r)), conf_bits_msb (snd (fst r))))
       (full_array_backend dump_verilog_routing_switch_box_subckt
          info0 sb_example false false)
     = Some (0, 5)
  /\ 5 <> 0 + 5 - 1
  /\ option_map (fun r => map (fun sb => (conf_bits_lsb sb, conf_bits_msb sb))
                              (snd (fst r)))
       (full_array_backend print_switch_boxes_full_array
          info0 [[sb_example; sb_example]] false false)
     = Some [(0, 5); (5, 10)].
Proof. repeat split; try (vm_compute; reflexivity). discriminate. Qed.



(** A block whose mirror counts other bits than it does: the function
    called with [compact_routing_hierarchy] set stops; called without, as
    [print_verilog_routing_resources] calls it, it does not look at the
    mirror. *)
Definition sb_of_another_mirror : t_sb :=
  sb_of 1 0 [sb_track_of OUT_PORT 2] (Some sb_example).

Example mirror_of_another_count :
  count_verilog_switch_box_conf_bits_t_sb switches opposite_test info0 sb_of_another_mirror
  = Some 2
  /\ count_verilog_switch_box_conf_bits_t_sb switches opposite_test info0 sb_example
     = Some 5
  /\ full_array_backend dump_verilog_routing_switch_box_subckt
       info0 sb_of_another_mirror true false = None
  /\ option_map (fun r => (num_mem_bit (fst (fst r)), snd r))
       (full_array_backend dump_verilog_routing_switch_box_subckt
          info0 sb_of_another_mirror false false)
     = Some (2, [mux_instance 2]).
Proof. repeat split; vm_compute; reflexivity. Qed.


(** The writer that goes through the module manager returns on the example
    block, and stops when the module of a multiplexer is not registered. *)
Example unique_module_of_the_example_block :
  print_verilog_routing_switch_box_unique_module switches opposite_side circuit_models
    memory_model_is_known info0 (gsb_at 0 0) = Some tt
  /\ print_verilog_routing_switch_box_unique_module switches opposite_side no_mux_module
       memory_model_is_known info0 (gsb_at 0 0) = None
  /\ unique_backend unique_switch_box_netlists no_mux_module memory_model_is_known
       info0 device_2x2 false = None.
Proof. repeat split; vm_compute; reflexivity. Qed.

(** The counter does move while the unique shapes are written: the shape
    of the example takes it from 0 to 5. *)
Example unique_shape_moves_the_counter :
  option_map (fun r => num_mem_bit (fst r))
    (unique_backend dump_verilog_routing_switch_box_unique_subckt info0 (gsb_at 0 0) false)
  = Some 5.
Proof. vm_compute. reflexivity. Qed.

Lemma reserved_bits_are_the_maximum_over_output_nodes_witness :
  count_verilog_switch_box_reserved_conf_bits switches info0 (gsb_at 0 0)
  = Some (max_over (fun st => node_reserved_bits switches info0 (gsb_at 0 0)
                                (fst st) (snd st))
            (output_tracks (gsb_at 0 0))).
Proof.
  apply (reserved_bits_are_the_maximum_over_output_nodes switches info0 (gsb_at 0 0));
    vm_compute; reflexivity.
Defined.

(** The reserved bits of the example are 3, the largest requirement, where
    the requirements of its nodes add up to 5. *)
Example reserved_bits_are_not_added :
  count_verilog_switch_box_reserved_conf_bits switches info0 (gsb_at 0 0) = Some 3
  /\ sumZ (fun st => node_reserved_bits switches info0 (gsb_at 0 0) (fst st) (snd st))
       (output_tracks (gsb_at 0 0)) = 5.
Proof. split; vm_compute; reflexivity. Qed.

Lemma one_construct_per_sink_node_witness :
  get_chan_node (gsb_at 0 0) 0 1 = Some (track_node 3)
  /\ exists st_u st_f,
       unique_backend dump_verilog_unique_switch_box_interc st0 (gsb_at 0 0) 0 1 false
       = Some st_u
       /\ netlist st_u = [mux_instance 3]
       /\ full_array_backend dump_verilog_switch_box_interc
            st0 sb_example 0 (Some (track_node 3)) false = Some st_f
       /\ netlist st_f = [mux_instance 3].
Proof.
  split; [reflexivity|].
  destruct (unique_backend dump_verilog_unique_switch_box_interc st0 (gsb_at 0 0) 0 1 false)
    as [st_u|] eqn:Eu; [|vm_compute in Eu; discriminate].
  destruct (full_array_backend dump_verilog_switch_box_interc
              st0 sb_example 0 (Some (track_node 3)) false)
    as [st_f|] eqn:Ef; [|vm_compute in Ef; discriminate].
  destruct (one_construct_per_sink_node
              switches 1 1 grid_of_logic_blocks ground_level opposite_side
              opposite_test short_test index_in_sb chan_type_of_side drives_through
              side_and_index_in_sb opposite_side
              st0 (gsb_at 0 0) 0%nat 1%nat sb_example (track_node 3) false eq_refl)
    as (H1 & H2 & _).
  exists st_u, st_f.
  split; [reflexivity|]. split; [exact (H1 st_u Eu)|].
  split; [reflexivity | exact (H2 st_f Ef)].
Defined.

(** A block whose one output track has no driver and is not a passing
    wire. *)
Definition gsb_no_driver : RRGSB := gsb_with_node (track_node 0).


(** C3 (counterexample).  For an output-direction node that has no driver
    and is not a passing wire the reduced-duplication backend returns and
    has written nothing: none of the three constructs. *)
Lemma no_construct_for_a_node_without_driver :
  get_chan_node gsb_no_driver 0 0 = Some (track_node 0)
  /\ chan_node_direction (nth 0 (chan_tracks (chan_at gsb_no_driver 0)) no_track) = OUT_PORT
  /\ num_drive_rr_nodes (track_node 0) = 0
  /\ is_sb_node_passing_wire gsb_no_driver 0 0 = false
  /\ unique_backend dump_verilog_unique_switch_box_interc st0 gsb_no_driver 0 0 false
     = Some st0
  /\ netlist st0 = []
  /\ option_map snd
       (unique_backend dump_verilog_routing_switch_box_unique_subckt
          info0 gsb_no_driver false)
     = Some [].
Proof. repeat split. Qed.






(** The same in the full-array backend, with an opposite-side test that
    holds for a node with two drivers and a test on the driver list that
    does not. *)
Example full_array_assertion_fails_when_the_tests_disagree :
  count_verilog_switch_box_conf_bits_t_sb switches (fun _ _ _ => 1) info0
    (sb_with_node (track_node 2)) = Some 0
  /\ option_map (fun st => (num_mem_bit (counter st), netlist st))
       (switch_box_multiplexers switches 1 1 grid_of_logic_blocks ground_level
          (fun _ _ _ => 1) (fun _ _ _ => false) index_in_sb chan_type_of_side
          drives_through side_and_index_in_sb opposite_side
          info0 (sb_with_node (track_node 2)) false)
     = Some (2, [mux_instance 2])
  /\ dump_verilog_routing_switch_box_subckt switches 1 1 grid_of_logic_blocks ground_level
       (fun _ _ _ => 1) (fun _ _ _ => false) index_in_sb chan_type_of_side
       drives_through side_and_index_in_sb opposite_side
       info0 (sb_with_node (track_node 2)) false false = None.
Proof. repeat split; vm_compute; reflexivity. Qed.

End Routing.

(* ====================================================================== *)
(** * Part 3: the stages of the clock graph extender *)
(* ====================================================================== *)

Module ClockGraphStages.
Import ClockGraph.
Local Open Scope N_scope.

(** ** Loops that collect and loops that register *)

Section Collect.
Context {A X Y : Type}.

(** A loop whose passes append to a list appends the outputs of all its
    passes, in order. *)
Lemma fold_left_collect (m : A -> list Y) (out : X -> list Y) (f : A -> X -> A)
  (l : list X) (a : A) :
  (forall a x, In x l -> m (f a x) = m a ++ out x) ->
  m (fold_left f l a) = m a ++ flat_map out l.
Proof.
  revert a; induction l as [|x l IH]; intros a Hf; simpl.
  - now rewrite app_nil_r.
  - rewrite IH by (intros b y Hy; apply Hf; now right).
    rewrite Hf by now left. now rewrite app_assoc.
Qed.
End Collect.

Section Establish.
Context {A X : Type}.

(** What every pass keeps and the pass of a cell establishes for this cell
    holds after the loop for every cell. *)
Lemma fold_left_establish (P : X -> A -> Prop) (f : A -> X -> A) (l : list X) :
  (forall a x y, P y a -> P y (f a x)) ->
  (forall a x, In x l -> P x (f a x)) ->
  forall a x, In x l -> P x (fold_left f l a).
Proof.
  intro Hkeep. induction l as [|y l IH]; intros Hest a x Hx; [destruct Hx|].
  simpl. destruct Hx as [<- | Hx].
  - apply fold_left_inv; [apply Hest; now left|].
    intros b z _ Hb. now apply Hkeep.
  - apply IH; [|exact Hx]. intros b z Hz. apply Hest. now right.
Qed.

(** A loop on a state that can be lost: once lost, the state stays lost,
    so a loop that ends with a state has passed every cell with one. *)
Lemma fold_left_option_all {S : Type} (Q : X -> Prop) (f : option S -> X -> option S)
  (l : list X) (a : option S) :
  (forall x, f None x = None) ->
  (forall s x, In x l -> f (Some s) x <> None -> Q x) ->
  fold_left f l a <> None -> a <> None /\ forall x, In x l -> Q x.
Proof.
  intro Hnone. revert a; induction l as [|y l IH]; intros a HQ H; simpl in H.
  - split; [exact H | intros x []].
  - destruct (IH (f a y)) as (Hy & Hl); [|exact H|].
    { intros s x Hx. apply HQ. now right. }
    destruct a as [s|]; [|now rewrite Hnone in Hy].
    split; [discriminate|]. intros x [<- | Hx]; [|now apply Hl].
    apply (HQ s); [now left | exact Hy].
Qed.

Lemma fold_left_lost {S : Type} (f : option S -> X -> option S) (l : list X) :
  (forall x, f None x = None) -> fold_left f l None = None.
Proof.
  intro Hnone. induction l as [|y l IH]; simpl; [reflexivity|]. now rewrite Hnone.
Qed.
End Establish.

(** ** Keys of the clock lookup *)

(** A key is registered when the lookup finds a node for it. *)
Definition has_key (lk : RRClockSpatialLookup) (k : clock_key) : Prop :=
  find_node lk k <> None.

Lemma Direction_eqb_eq a b : Direction_eqb a b = true <-> a = b.
Proof. destruct a, b; simpl; split; congruence. Qed.

Lemma clock_key_eqb_eq k1 k2 : clock_key_eqb k1 k2 = true <-> k1 = k2.
Proof.
  destruct k1 as [[[[[x1 y1] t1] l1] p1] d1], k2 as [[[[[x2 y2] t2] l2] p2] d2].
  unfold clock_key_eqb. rewrite !andb_true_iff, !N.eqb_eq, Direction_eqb_eq.
  split.
  - intros (((((-> & ->) & ->) & ->) & ->) & ->). reflexivity.
  - intros [= -> -> -> -> -> ->]. repeat split.
Qed.

Lemma clock_key_eqb_refl k : clock_key_eqb k k = true.
Proof. now apply clock_key_eqb_eq. Qed.

Lemma has_key_add_node lk node x y tree lvl pin dir :
  has_key (add_node lk node x y tree lvl pin dir) (x, y, tree, lvl, pin, dir).
Proof.
  unfold has_key, add_node. cbn [find_node]. rewrite clock_key_eqb_refl. discriminate.
Qed.

Lemma has_key_kept lk node x y tree lvl pin dir k :
  has_key lk k -> has_key (add_node lk node x y tree lvl pin dir) k.
Proof.
  unfold has_key, add_node. cbn [find_node].
  destruct (clock_key_eqb _ k); [discriminate | trivial].
Qed.

(** The pins of a tile, for a channel type, are all registered. *)
Definition pins_registered (lk : RRClockSpatialLookup) (clk_ntwk : ClockNetwork)
  (chan_coord : N * N) (chan_type : t_rr_type) : Prop :=
  forall itree ilvl node_dir ipin,
    In itree (trees clk_ntwk) -> In ilvl (levels clk_ntwk itree) ->
    In node_dir [INC; DEC] -> In ipin (pins clk_ntwk itree ilvl chan_type node_dir) ->
    has_key lk (fst chan_coord, snd chan_coord, itree, ilvl, ipin, node_dir).

(** ** The node stage registers every pin *)

Definition lookup_of (st : block_state) : RRClockSpatialLookup := snd (fst st).

Lemma create_clock_node_lookup clk_ntwk chan_coord chan_type off itree ilvl node_dir st ipin :
  lookup_of (create_clock_node clk_ntwk chan_coord chan_type off itree ilvl node_dir st ipin)
  = add_node (lookup_of st) (length (nodes (fst (fst st))))
      (fst chan_coord) (snd chan_coord) itree ilvl ipin node_dir.
Proof. destruct st as [[g lk] curr]. reflexivity. Qed.

Lemma block_clock_nodes_loop_keeps clk_ntwk chan_coord chan_type off st k :
  has_key (lookup_of st) k ->
  has_key (lookup_of (block_clock_nodes_loop clk_ntwk chan_coord chan_type off st)) k.
Proof.
  intro H. unfold block_clock_nodes_loop.
  apply (fold_left_inv (fun st => has_key (lookup_of st) k)); [exact H|]; intros s1 itree _ H1.
  apply (fold_left_inv (fun st => has_key (lookup_of st) k)); [exact H1|]; intros s2 ilvl _ H2.
  apply (fold_left_inv (fun st => has_key (lookup_of st) k)); [exact H2|]; intros s3 dir _ H3.
  apply (fold_left_inv (fun st => has_key (lookup_of st) k)); [exact H3|]; intros s4 ipin _ H4.
  rewrite create_clock_node_lookup. now apply has_key_kept.
Qed.

Lemma block_clock_nodes_loop_registers clk_ntwk chan_coord chan_type off st :
  pins_registered (lookup_of (block_clock_nodes_loop clk_ntwk chan_coord chan_type off st))
    clk_ntwk chan_coord chan_type.
Proof.
  intros itree ilvl node_dir ipin Ht Hl Hd Hp.
  unfold block_clock_nodes_loop.
  pose (K := fun k (s : block_state) => has_key (lookup_of s) k).
  assert (Hstep : forall t l d s p k, K k s ->
             K k (create_clock_node clk_ntwk chan_coord chan_type off t l d s p)).
  { intros; unfold K. rewrite create_clock_node_lookup. now apply has_key_kept. }
  assert (Hpins : forall t l d s k, K k s ->
             K k (fold_left (create_clock_node clk_ntwk chan_coord chan_type off t l d)
                    (pins clk_ntwk t l chan_type d) s)).
  { intros t l d s k Hk. apply (fold_left_inv (K k)); [exact Hk|].
    intros; now apply Hstep. }
  assert (Hdirs : forall t l s k, K k s ->
             K k (fold_left (fun s d =>
                    fold_left (create_clock_node clk_ntwk chan_coord chan_type off t l d)
                      (pins clk_ntwk t l chan_type d) s) [INC; DEC] s)).
  { intros t l s k Hk. apply (fold_left_inv (K k)); [exact Hk|].
    intros; now apply Hpins. }
  assert (Hlvls : forall t s k, K k s ->
             K k (fold_left (fun s l => fold_left (fun s d =>
                    fold_left (create_clock_node clk_ntwk chan_coord chan_type off t l d)
                      (pins clk_ntwk t l chan_type d) s) [INC; DEC] s)
                    (levels clk_ntwk t) s)).
  { intros t s k Hk. apply (fold_left_inv (K k)); [exact Hk|].
    intros; now apply Hdirs. }
  revert ilvl node_dir ipin Hl Hd Hp.
  apply (fold_left_establish
           (fun t s => forall l d p, In l (levels clk_ntwk t) -> In d [INC; DEC] ->
                         In p (pins clk_ntwk t l chan_type d) ->
                         K (fst chan_coord, snd chan_coord, t, l, p, d) s));
    [| |exact Ht].
  - intros s t t' H l d p Hl Hd Hp. apply Hlvls. now apply H.
  - intros s t _ l d p Hl Hd Hp. revert d p Hd Hp.
    apply (fold_left_establish
             (fun l s => forall d p, In d [INC; DEC] ->
                           In p (pins clk_ntwk t l chan_type d) ->
                           K (fst chan_coord, snd chan_coord, t, l, p, d) s));
      [| |exact Hl].
    + intros s' l1 l2 H d p Hd Hp. apply Hdirs. now apply H.
    + intros s' l1 _ d p Hd Hp. revert p Hp.
      apply (fold_left_establish
               (fun d s => forall p, In p (pins clk_ntwk t l1 chan_type d) ->
                             K (fst chan_coord, snd chan_coord, t, l1, p, d) s));
        [| |exact Hd].
      * intros s'' d1 d2 H p Hp. apply Hpins. now apply H.
      * intros s'' d1 _ p Hp.
        apply (fold_left_establish
                 (fun p s => K (fst chan_coord, snd chan_coord, t, l1, p, d1) s));
          [| |exact Hp].
        -- intros; now apply Hstep.
        -- intros s3 p' _. unfold K. rewrite create_clock_node_lookup.
           apply has_key_add_node.
Qed.

Lemma add_rr_graph_block_clock_nodes_keeps g lk clk_ntwk chan_coord chan_type off k :
  has_key lk k ->
  has_key (snd (add_rr_graph_block_clock_nodes g lk clk_ntwk chan_coord chan_type off)) k.
Proof.
  intro H. unfold add_rr_graph_block_clock_nodes.
  now apply (block_clock_nodes_loop_keeps clk_ntwk chan_coord chan_type off (g, lk, _)).
Qed.

Lemma add_rr_graph_block_clock_nodes_registers g lk clk_ntwk chan_coord chan_type off :
  pins_registered
    (snd (add_rr_graph_block_clock_nodes g lk clk_ntwk chan_coord chan_type off))
    clk_ntwk chan_coord chan_type.
Proof.
  unfold add_rr_graph_block_clock_nodes.
  exact (block_clock_nodes_loop_registers clk_ntwk chan_coord chan_type off (g, lk, _)).
Qed.


(** The tiles of the two grid scans. *)
Definition chanx_tile (grids : DeviceGrid) (through_channel : bool) (c : N * N) : Prop :=
  In (snd c) (size_range 0 (size_sub (height grids) 1))
  /\ In (fst c) (size_range 1 (size_sub (width grids) 1))
  /\ bypass through_channel (is_chanx_exist grids c) = false.

Definition chany_tile (grids : DeviceGrid) (through_channel : bool) (c : N * N) : Prop :=
  In (fst c) (size_range 0 (size_sub (width grids) 1))
  /\ In (snd c) (size_range 1 (size_sub (height grids) 1))
  /\ bypass through_channel (is_chany_exist grids c) = false.

Lemma pins_registered_kept (lk lk' : RRClockSpatialLookup) clk_ntwk c t :
  (forall k, has_key lk k -> has_key lk' k) ->
  pins_registered lk clk_ntwk c t -> pins_registered lk' clk_ntwk c t.
Proof. intros H R itree ilvl d p Ht Hl Hd Hp. apply H. now apply R. Qed.

Lemma add_rr_graph_clock_nodes_registers C g lk grids through_channel clk_ntwk :
  let lk' := snd (add_rr_graph_clock_nodes C g lk grids through_channel clk_ntwk) in
  (forall c, chanx_tile grids through_channel c -> pins_registered lk' clk_ntwk c CHANX)
  /\ (forall c, chany_tile grids through_channel c -> pins_registered lk' clk_ntwk c CHANY).
Proof.
  unfold add_rr_graph_clock_nodes.
  pose (K := fun k (s : RRGraph * RRClockSpatialLookup) => has_key (snd s) k).
  assert (Hx : forall iy ix s k, K k s ->
            K k (if bypass through_channel (is_chanx_exist grids (ix, iy)) then s
                 else add_rr_graph_block_clock_nodes (fst s) (snd s) clk_ntwk (ix, iy)
                        CHANX C)).
  { intros iy ix s k Hk. destruct (bypass _ _); [exact Hk|].
    now apply add_rr_graph_block_clock_nodes_keeps. }
  assert (Hy : forall ix iy s k, K k s ->
            K k (if bypass through_channel (is_chany_exist grids (ix, iy)) then s
                 else add_rr_graph_block_clock_nodes (fst s) (snd s) clk_ntwk (ix, iy)
                        CHANY (size_add C (num_rr_segments (fst s))))).
  { intros ix iy s k Hk. destruct (bypass _ _); [exact Hk|].
    now apply add_rr_graph_block_clock_nodes_keeps. }
  set (sx := fold_left _ (size_range 0 (size_sub (height grids) 1)) (g, lk)).
  assert (Hrow : forall iy s k, K k s ->
            K k (fold_left (fun st ix =>
                   if bypass through_channel (is_chanx_exist grids (ix, iy)) then st
                   else add_rr_graph_block_clock_nodes (fst st) (snd st) clk_ntwk (ix, iy)
                          CHANX C)
                   (size_range 1 (size_sub (width grids) 1)) s)).
  { intros iy s k Hk. apply (fold_left_inv (K k)); [exact Hk|]. intros; now apply Hx. }
  assert (Hcol : forall ix s k, K k s ->
            K k (fold_left (fun st iy =>
                   if bypass through_channel (is_chany_exist grids (ix, iy)) then st
                   else add_rr_graph_block_clock_nodes (fst st) (snd st) clk_ntwk (ix, iy)
                          CHANY (size_add C (num_rr_segments (fst st))))
                   (size_range 1 (size_sub (height grids) 1)) s)).
  { intros ix s k Hk. apply (fold_left_inv (K k)); [exact Hk|]. intros; now apply Hy. }
  assert (HX : forall c, chanx_tile grids through_channel c ->
                 pins_registered (snd sx) clk_ntwk c CHANX).
  { intros [ix iy] (Hiy & Hix & Hb). simpl in Hiy, Hix. revert ix Hix Hb. subst sx.
    apply (fold_left_establish
             (fun iy s => forall ix, In ix (size_range 1 (size_sub (width grids) 1)) ->
                bypass through_channel (is_chanx_exist grids (ix, iy)) = false ->
                pins_registered (snd s) clk_ntwk (ix, iy) CHANX)); [| |exact Hiy].
    - intros s y1 y2 H ix Hix Hb.
      eapply pins_registered_kept; [|apply H; assumption].
      intros k Hk. now apply (Hrow y1 s k).
    - intros s y1 _ ix Hix Hb. revert Hb.
      apply (fold_left_establish
               (fun ix s => bypass through_channel (is_chanx_exist grids (ix, y1)) = false ->
                  pins_registered (snd s) clk_ntwk (ix, y1) CHANX)); [| |exact Hix].
      + intros s' x1 x2 H Hb.
        eapply pins_registered_kept; [|apply H; assumption].
        intros k Hk. now apply (Hx y1 x1 s' k).
      + intros s' x1 _ Hb. rewrite Hb.
        apply add_rr_graph_block_clock_nodes_registers. }
  split.
  - intros c Hc. eapply pins_registered_kept; [|apply HX; exact Hc].
    intros k Hk. apply (fold_left_inv (K k)); [exact Hk|].
    intros s ix _ Hs. now apply Hcol.
  - intros [ix iy] (Hix & Hiy & Hb). simpl in Hiy, Hix. revert iy Hiy Hb.
    apply (fold_left_establish
             (fun ix s => forall iy, In iy (size_range 1 (size_sub (height grids) 1)) ->
                bypass through_channel (is_chany_exist grids (ix, iy)) = false ->
                pins_registered (snd s) clk_ntwk (ix, iy) CHANY)); [| |exact Hix].
    + intros s x1 x2 H iy Hiy Hb.
      eapply pins_registered_kept; [|apply H; assumption].
      intros k Hk. now apply (Hcol x1 s k).
    + intros s x1 _ iy Hiy Hb. revert Hb.
      apply (fold_left_establish
               (fun iy s => bypass through_channel (is_chany_exist grids (x1, iy)) = false ->
                  pins_registered (snd s) clk_ntwk (x1, iy) CHANY)); [| |exact Hiy].
      * intros s' y1 y2 H Hb.
        eapply pins_registered_kept; [|apply H; assumption].
        intros k Hk. now apply (Hy x1 y1 s' k).
      * intros s' y1 _ Hb. rewrite Hb.
        apply add_rr_graph_block_clock_nodes_registers.
Qed.

(** ** The edge stage *)

Lemma add_rr_graph_block_clock_edges_value g n lk clk_ntwk chan_coord chan_type :
  pins_registered lk clk_ntwk chan_coord chan_type ->
  add_rr_graph_block_clock_edges g n lk clk_ntwk chan_coord chan_type
  = Some (g, size_add n 0).
Proof.
  intro R. unfold add_rr_graph_block_clock_edges.
  match goal with
  | |- match ?F with _ => _ end = _ => assert (HF : F = Some (g, 0))
  end; [|now rewrite HF].
  apply (fold_left_inv (fun st => st = Some (g, 0))); [reflexivity|]; intros s1 itree Ht H1.
  apply (fold_left_inv (fun st => st = Some (g, 0))); [exact H1|]; intros s2 ilvl Hl H2.
  apply (fold_left_inv (fun st => st = Some (g, 0))); [exact H2|]; intros s3 dir Hd H3.
  apply (fold_left_inv (fun st => st = Some (g, 0))); [exact H3|]; intros s4 ipin Hp ->.
  specialize (R itree ilvl dir ipin Ht Hl Hd Hp). unfold has_key in R.
  destruct (find_node lk _) as [src|]; [reflexivity | contradiction].
Qed.

Lemma add_rr_graph_block_clock_edges_returns g n lk clk_ntwk chan_coord chan_type :
  add_rr_graph_block_clock_edges g n lk clk_ntwk chan_coord chan_type <> None ->
  pins_registered lk clk_ntwk chan_coord chan_type.
Proof.
  unfold add_rr_graph_block_clock_edges. intro H.
  match type of H with
  | match ?F with _ => _ end <> None => assert (HF : F <> None)
  end.
  { intro E. rewrite E in H. now apply H. }
  clear H. intros itree ilvl dir ipin Ht Hl Hd Hp.
  set (pin_step := fun (itree ilvl : N) (node_dir : Direction) (st : option (RRGraph * N))
                       (ipin : N) =>
         match st with
         | None => None
         | Some (g, edge_count) =>
             match find_node lk (fst chan_coord, snd chan_coord, itree, ilvl, ipin, node_dir)
             with
             | None => None
             | Some src_node =>
                 Some (fold_left (fun (ge : RRGraph * N) des_node =>
                         (create_edge (fst ge) src_node des_node (default_switch clk_ntwk),
                          size_add (snd ge) 1))
                         (find_clock_track2track_node chan_coord itree ilvl ipin node_dir)
                         (g, edge_count))
             end
         end) in *.
  assert (L4 : forall t l d, fold_left (pin_step t l d) (pins clk_ntwk t l chan_type d) None
                             = None).
  { intros; apply fold_left_lost; reflexivity. }
  assert (L3 : forall t l, fold_left (fun st d => fold_left (pin_step t l d)
                              (pins clk_ntwk t l chan_type d) st) [INC; DEC] None = None).
  { intros; apply fold_left_lost; intro; apply L4. }
  assert (L2 : forall t, fold_left (fun st l => fold_left (fun st d =>
                            fold_left (pin_step t l d) (pins clk_ntwk t l chan_type d) st)
                            [INC; DEC] st) (levels clk_ntwk t) None = None).
  { intros; apply fold_left_lost; intro; apply L3. }
  revert ilvl dir ipin Hl Hd Hp.
  refine (proj2 (fold_left_option_all
            (fun t => forall l d p, In l (levels clk_ntwk t) -> In d [INC; DEC] ->
                        In p (pins clk_ntwk t l chan_type d) ->
                        has_key lk (fst chan_coord, snd chan_coord, t, l, p, d))
            _ _ _ L2 _ HF) itree Ht).
  intros s t _ H1 l d p Hl Hd Hp. revert d p Hd Hp.
  refine (proj2 (fold_left_option_all
            (fun l => forall d p, In d [INC; DEC] ->
                        In p (pins clk_ntwk t l chan_type d) ->
                        has_key lk (fst chan_coord, snd chan_coord, t, l, p, d))
            _ _ _ (L3 t) _ H1) l Hl).
  intros s' l1 _ H2 d p Hd Hp. revert p Hp.
  refine (proj2 (fold_left_option_all
            (fun d => forall p, In p (pins clk_ntwk t l1 chan_type d) ->
                        has_key lk (fst chan_coord, snd chan_coord, t, l1, p, d))
            _ _ _ (L4 t l1) _ H2) d Hd).
  intros s'' d1 _ H3 p Hp.
  refine (proj2 (fold_left_option_all
            (fun p => has_key lk (fst chan_coord, snd chan_coord, t, l1, p, d1))
            _ _ _ _ _ H3) p Hp).
  - reflexivity.
  - intros [g' e] p' _ H4. unfold pin_step in H4. unfold has_key.
    destruct (find_node lk _); [discriminate | now elim H4].
Qed.


Lemma add_rr_graph_clock_edges_after_nodes g lk grids through_channel clk_ntwk :
  (forall c, chanx_tile grids through_channel c -> pins_registered lk clk_ntwk c CHANX) ->
  (forall c, chany_tile grids through_channel c -> pins_registered lk clk_ntwk c CHANY) ->
  add_rr_graph_clock_edges g 0 lk grids through_channel clk_ntwk = Some (g, 0).
Proof.
  intros HX HY. unfold add_rr_graph_clock_edges.
  apply (fold_left_inv (fun st => st = Some (g, 0))).
  - apply (fold_left_inv (fun st => st = Some (g, 0))); [reflexivity|].
    intros s iy Hiy Hs.
    apply (fold_left_inv (fun st => st = Some (g, 0))); [exact Hs|].
    intros s' ix Hix ->.
    destruct (bypass _ _) eqn:Hb; [reflexivity|].
    now rewrite add_rr_graph_block_clock_edges_value by (apply HX; repeat split; assumption).
  - intros s ix Hix Hs.
    apply (fold_left_inv (fun st => st = Some (g, 0))); [exact Hs|].
    intros s' iy Hiy ->.
    destruct (bypass _ _) eqn:Hb; [reflexivity|].
    now rewrite add_rr_graph_block_clock_edges_value by (apply HY; repeat split; assumption).
Qed.

(** ** The loop nest of a tile as one loop *)

Lemma fold_left_ext {A X : Type} (f g : A -> X -> A) (l : list X) (a : A) :
  (forall a x, f a x = g a x) -> fold_left f l a = fold_left g l a.
Proof.
  intro H. revert a; induction l as [|x l IH]; intro a; simpl; [reflexivity|].
  now rewrite H, IH.
Qed.

Lemma fold_left_over_map {A X Y : Type} (f : A -> Y -> A) (h : X -> Y) (l : list X) (a : A) :
  fold_left f (map h l) a = fold_left (fun a x => f a (h x)) l a.
Proof. revert a; induction l as [|x l IH]; intro a; simpl; [reflexivity | apply IH]. Qed.

(** The passes of the loop nest of a tile, in order: tree, level,
    direction and pin. *)
Definition block_pins (clk_ntwk : ClockNetwork) (chan_type : t_rr_type)
  : list (ClockTreeId * ClockLevelId * Direction * ClockTreePinId) :=
  flat_map (fun itree =>
    flat_map (fun ilvl =>
      flat_map (fun node_dir =>
        map (fun ipin => (itree, ilvl, node_dir, ipin))
            (pins clk_ntwk itree ilvl chan_type node_dir))
        [INC; DEC])
      (levels clk_ntwk itree))
    (trees clk_ntwk).

Section OneLoop.
Variables (clk_ntwk : ClockNetwork) (chan_coord : N * N) (chan_type : t_rr_type)
          (cost_index_offset : N).

Definition pass (st : block_state)
  (i : ClockTreeId * ClockLevelId * Direction * ClockTreePinId) : block_state :=
  let '(itree, ilvl, node_dir, ipin) := i in
  create_clock_node clk_ntwk chan_coord chan_type cost_index_offset itree ilvl node_dir
    st ipin.

Lemma block_clock_nodes_loop_flat st :
  block_clock_nodes_loop clk_ntwk chan_coord chan_type cost_index_offset st
  = fold_left pass (block_pins clk_ntwk chan_type) st.
Proof.
  unfold block_clock_nodes_loop, block_pins.
  rewrite fold_left_flat_map. apply fold_left_ext; intros s1 itree.
  rewrite fold_left_flat_map. apply fold_left_ext; intros s2 ilvl.
  rewrite fold_left_flat_map. apply fold_left_ext; intros s3 dir.
  now rewrite fold_left_over_map.
Qed.

(** The key under which a pass registers its node. *)
Definition key_of (i : ClockTreeId * ClockLevelId * Direction * ClockTreePinId)
  : clock_key :=
  let '(itree, ilvl, node_dir, ipin) := i in
  (fst chan_coord, snd chan_coord, itree, ilvl, ipin, node_dir).

Definition direction_of (i : ClockTreeId * ClockLevelId * Direction * ClockTreePinId)
  : Direction := snd (fst i).

(** The nodes and the lookup entries that a run of passes creates, from
    track index [curr] and node identifier [id] on. *)
Fixpoint new_nodes (l : list (ClockTreeId * ClockLevelId * Direction * ClockTreePinId))
  (curr : N) : list rr_node :=
  match l with
  | [] => []
  | i :: r =>
      new_clock_node clk_ntwk chan_coord chan_type cost_index_offset (direction_of i) curr
      :: new_nodes r (size_add curr 1)
  end.

Fixpoint new_entries (l : list (ClockTreeId * ClockLevelId * Direction * ClockTreePinId))
  (id : nat) : list (clock_key * RRNodeId) :=
  match l with
  | [] => []
  | i :: r => (key_of i, id) :: new_entries r (S id)
  end.

Lemma passes_spec l : forall g lk curr,
  let st := fold_left pass l (g, lk, curr) in
  nodes (fst (fst st)) = nodes g ++ new_nodes l curr
  /\ edges (fst (fst st)) = edges g
  /\ num_rr_segments (fst (fst st)) = num_rr_segments g
  /\ snd (fst st) = rev (new_entries l (length (nodes g))) ++ lk.
Proof.
  induction l as [|[[[itree ilvl] dir] ipin] l IH]; intros g lk curr.
  - simpl. rewrite app_nil_r. repeat split.
  - cbn [fold_left pass].
    destruct (create_clock_node_spec clk_ntwk chan_coord chan_type cost_index_offset
                itree ilvl dir g lk curr ipin) as (g1 & lk1 & E & Hn).
    pose proof (create_clock_node_lookup clk_ntwk chan_coord chan_type cost_index_offset
                  itree ilvl dir (g, lk, curr) ipin) as Hl.
    assert (He : edges g1 = edges g /\ num_rr_segments g1 = num_rr_segments g).
    { pose proof (f_equal (fun s : block_state => fst (fst s)) E) as Eg. simpl in Eg.
      rewrite <- Eg. split; reflexivity. }
    rewrite E in Hl |- *. unfold lookup_of in Hl. simpl in Hl.
    destruct (IH g1 lk1 (size_add curr 1)) as (H1 & H2 & H3 & H4).
    destruct He as (He1 & He2).
    split; [|split; [|split]].
    + rewrite H1, Hn, <- app_assoc. reflexivity.
    + now rewrite H2.
    + now rewrite H3.
    + rewrite H4, Hn, length_app, Hl. simpl. rewrite Nat.add_1_r, <- app_assoc.
      reflexivity.
Qed.

Lemma new_nodes_length l : forall curr, length (new_nodes l curr) = length l.
Proof. induction l as [|i l IH]; intro curr; simpl; [reflexivity | now rewrite IH]. Qed.

Lemma new_nodes_nth l : forall curr i p,
  nth_error l i = Some p ->
  exists ptc, nth_error (new_nodes l curr) i
              = Some (new_clock_node clk_ntwk chan_coord chan_type cost_index_offset
                        (direction_of p) ptc).
Proof.
  induction l as [|q l IH]; intros curr [|i] p H; simpl in H; try discriminate.
  - injection H as ->. now exists curr.
  - simpl. now apply IH.
Qed.

Lemma new_entries_keys l : forall id, map fst (new_entries l id) = map key_of l.
Proof. induction l as [|i l IH]; intro id; simpl; [reflexivity | now rewrite IH]. Qed.

Lemma new_entries_nth l : forall id i p,
  nth_error l i = Some p -> In (key_of p, (id + i)%nat) (new_entries l id).
Proof.
  induction l as [|q l IH]; intros id [|i] p H; simpl in H; try discriminate.
  - injection H as ->. left. now rewrite Nat.add_0_r.
  - right. rewrite <- Nat.add_succ_comm. now apply IH.
Qed.

End OneLoop.

Lemma find_node_unique (l : RRClockSpatialLookup) (k : clock_key) (v : RRNodeId) :
  NoDup (map fst l) -> In (k, v) l -> find_node l k = Some v.
Proof.
  induction l as [|[k' v'] l IH]; intros Hnd Hin; [destruct Hin|].
  simpl in Hnd. inversion Hnd as [|? ? Hk' Hnd']; subst. cbn [find_node].
  destruct Hin as [[= -> ->] | Hin].
  - now rewrite clock_key_eqb_refl.
  - destruct (clock_key_eqb k' k) eqn:E; [|now apply IH].
    apply clock_key_eqb_eq in E; subst k'.
    exfalso. apply Hk'. now apply (in_map fst) in Hin.
Qed.

Lemma find_node_app (l r : RRClockSpatialLookup) (k : clock_key) (v : RRNodeId) :
  find_node l k = Some v -> find_node (l ++ r) k = Some v.
Proof.
  induction l as [|[k' v'] l IH]; [discriminate|]. cbn [find_node app].
  destruct (clock_key_eqb k' k); [trivial | exact IH].
Qed.

(** ** Sizes of the grid scans *)

Lemma in_size_range (lo hi i : N) : In i (size_range lo hi) <-> lo <= i < hi.
Proof.
  unfold size_range. rewrite in_map_iff. split.
  - intros (k & <- & Hk). apply in_seq in Hk. lia.
  - intros H. exists (N.to_nat (i - lo)). split; [lia|]. apply in_seq. lia.
Qed.

Lemma size_range_length (lo hi : N) : N.of_nat (length (size_range lo hi)) = hi - lo.
Proof. unfold size_range. rewrite length_map, length_seq. lia. Qed.

Lemma sumN_const {X : Type} (c : N) (l : list X) :
  sumN (fun _ => c) l = N.of_nat (length l) * c.
Proof.
  induction l as [|x l IH]; [reflexivity|].
  change (sumN (fun _ : X => c) (x :: l)) with (c + sumN (fun _ : X => c) l).
  rewrite IH. cbn [length]. lia.
Qed.

(** The tracks that a clock network asks for at one tile. *)
Definition tracks_per_tile (clk_ntwk : ClockNetwork) (chan_type : t_rr_type) : N :=
  sumN (fun itree =>
    sumN (fun ilvl => num_tracks clk_ntwk itree ilvl chan_type) (levels clk_ntwk itree))
    (trees clk_ntwk).

Lemma estimate_clock_rr_graph_num_chan_nodes_value clk_ntwk chan_type :
  estimate_clock_rr_graph_num_chan_nodes clk_ntwk chan_type
  = size_wrap (tracks_per_tile clk_ntwk chan_type).
Proof.
  unfold estimate_clock_rr_graph_num_chan_nodes.
  set (r := fold_left _ _ _).
  assert (Hlt : r < size_t_modulus).
  { subst r. apply fold_left_inv; [now compute|]. intros a itree _ Ha.
    apply fold_left_inv; [exact Ha|]. intros; apply size_wrap_lt. }
  rewrite <- (size_wrap_small r Hlt). subst r. unfold tracks_per_tile.
  rewrite <- (N.add_0_l (sumN _ _)).
  apply fold_left_size_congr; [|reflexivity].
  intros a b itree _ Hab.
  apply fold_left_size_congr; [|exact Hab].
  intros a' b' ilvl _ Hab'. unfold size_add. rewrite size_wrap_idem.
  now apply size_wrap_congr_add.
Qed.


Lemma size_sub_small (a b : N) : b <= a < size_t_modulus -> size_sub a b = a - b.
Proof.
  intro H. unfold size_sub, size_wrap.
  replace (a + size_t_modulus - b) with ((a - b) + 1 * size_t_modulus) by lia.
  rewrite N.Div0.mod_add. apply N.mod_small. lia.
Qed.

Lemma new_nodes_at_tile clk_ntwk chan_coord chan_type off l : forall curr,
  Forall (fun n => node_x n = fst chan_coord /\ node_y n = snd chan_coord
                   /\ node_type n = chan_type)
         (new_nodes clk_ntwk chan_coord chan_type off l curr).
Proof.
  induction l as [|i l IH]; intro curr; simpl; constructor; [|apply IH].
  repeat split.
Qed.

Lemma add_rr_graph_block_clock_nodes_spec g lk clk_ntwk chan_coord chan_type off :
  let r := add_rr_graph_block_clock_nodes g lk clk_ntwk chan_coord chan_type off in
  let W := N.of_nat (length (find_channel_nodes g (fst chan_coord) (snd chan_coord)
                               chan_type)) in
  nodes (fst r)
  = nodes g ++ new_nodes clk_ntwk chan_coord chan_type off (block_pins clk_ntwk chan_type) W
  /\ edges (fst r) = edges g
  /\ num_rr_segments (fst r) = num_rr_segments g
  /\ snd r = rev (new_entries chan_coord (block_pins clk_ntwk chan_type) (length (nodes g)))
             ++ lk.
Proof.
  unfold add_rr_graph_block_clock_nodes. rewrite block_clock_nodes_loop_flat.
  apply passes_spec.
Qed.

(** The attributes of a node, its track index apart. *)
Definition attributes (n : rr_node) : N * N * t_rr_type * Direction * N * N :=
  (node_x n, node_y n, node_type n, node_direction n, node_capacity n, node_cost_index n).

Lemma new_nodes_attributes clk_ntwk chan_coord chan_type off l : forall curr,
  map attributes (new_nodes clk_ntwk chan_coord chan_type off l curr)
  = map (fun i => (fst chan_coord, snd chan_coord, chan_type, direction_of i, 1,
                   size_add off (default_segment clk_ntwk))) l.
Proof.
  induction l as [|i l IH]; intro curr; simpl; [reflexivity|]. now rewrite IH.
Qed.

(** A node that the grid scans may create: a horizontal one in a row
    below the last and a column strictly inside the grid, a vertical one
    in a column before the last and a row strictly inside, and in both
    cases where the channel exists unless through channels are allowed. *)
Definition at_scanned_tile (grids : DeviceGrid) (through_channel : bool) (n : rr_node)
  : Prop :=
  match node_type n with
  | CHANX =>
      node_y n < size_sub (height grids) 1
      /\ 1 <= node_x n < size_sub (width grids) 1
      /\ (through_channel = true \/ is_chanx_exist grids (node_x n, node_y n) = true)
  | CHANY =>
      node_x n < size_sub (width grids) 1
      /\ 1 <= node_y n < size_sub (height grids) 1
      /\ (through_channel = true \/ is_chany_exist grids (node_x n, node_y n) = true)
  end.

Lemma bypass_false through_channel exist :
  bypass through_channel exist = false -> through_channel = true \/ exist = true.
Proof. unfold bypass. destruct through_channel, exist; simpl; auto. Qed.

(** ** The properties *)

(** X1.  A clock network with one tree or more makes
    [append_clock_rr_graph] take its first exit.  With no tree the node and
    edge stages find nothing to create, and the function reaches its
    report: when [verbose] is set and the graph has no node, the report
    divides by zero and the run ends there.  In every other case the
    function returns [CMD_EXEC_SUCCESS] and hands back the routing-resource
    graph, the grid and the clock lookup it was given. *)
Theorem append_clock_rr_graph_returns_the_graph_it_was_given
  C ctx lk clk_ntwk verbose :
  num_nodes (rr_graph ctx) < size_t_modulus ->
  (trees clk_ntwk = [] -> verbose = true -> num_nodes (rr_graph ctx) = 0 ->
   append_clock_rr_graph C ctx lk clk_ntwk verbose = None)
  /\ ((trees clk_ntwk = [] -> verbose = true -> num_nodes (rr_graph ctx) <> 0) ->
      exists r,
        append_clock_rr_graph C ctx lk clk_ntwk verbose = Some r
        /\ status r = CMD_EXEC_SUCCESS
        /\ rr_graph (device_ctx r) = rr_graph ctx
        /\ grid (device_ctx r) = grid ctx
        /\ clock_lookup r = lk).
Proof.
  intro Hfit. split.
  - intros E -> H0.
    rewrite (append_clock_rr_graph_zero_trees C ctx lk clk_ntwk true E Hfit).
    now rewrite H0.
  - intro Hv. destruct (trees clk_ntwk) as [|t ts] eqn:E.
    + rewrite (append_clock_rr_graph_zero_trees C ctx lk clk_ntwk verbose E Hfit).
      destruct verbose; simpl.
      * destruct (N.eqb_spec (num_nodes (rr_graph ctx)) 0) as [H0|H0];
          [now elim (Hv eq_refl eq_refl)|].
        eexists. split; [reflexivity|]. repeat split.
      * eexists. split; [reflexivity|]. repeat split.
    + rewrite append_clock_rr_graph_nonzero_trees.
      * eexists. split; [reflexivity|]. repeat split.
      * unfold num_trees. rewrite E. simpl. lia.
Qed.

Lemma append_clock_rr_graph_returns_the_graph_it_was_given_witness :
  num_nodes (rr_graph device_3x3) < size_t_modulus
  /\ exists r,
       append_clock_rr_graph 4 device_3x3 [] no_clock_network true = Some r
       /\ status r = CMD_EXEC_SUCCESS
       /\ rr_graph (device_ctx r) = rr_graph device_3x3
       /\ grid (device_ctx r) = grid device_3x3
       /\ clock_lookup r = [].
Proof.
  assert (H : num_nodes (rr_graph device_3x3) < size_t_modulus) by (vm_compute; reflexivity).
  split; [exact H|].
  apply (append_clock_rr_graph_returns_the_graph_it_was_given 4 device_3x3 []
           no_clock_network true H).
  intros _ _. vm_compute. discriminate.
Defined.

(** A device without any routing-resource node, and the report of a run
    without clock tree on it. *)
Definition device_without_nodes : DeviceContext :=
  {| rr_graph := {| nodes := []; edges := []; num_rr_segments := 1 |};
     grid := grid_3x3; arch_through_channel := true |}.

Example report_divides_by_the_number_of_nodes :
  append_clock_rr_graph 4 device_without_nodes [] no_clock_network true = None
  /\ option_map logged
       (append_clock_rr_graph 4 device_without_nodes [] no_clock_network false)
     = Some []
  /\ option_map logged (append_clock_rr_graph 4 device_3x3 [] no_clock_network true)
     = Some [Appended_clock_nodes_and_edges 0 0 0].
Proof. repeat split. Qed.

(** X2.  The edge stage of one tile, [add_rr_graph_block_clock_edges],
    returns exactly when the lookup finds a node for every pin of the
    tile; it then leaves the graph as it was and adds nothing to the
    number of edges, the list of fan-out nodes being empty. *)
Theorem clock_block_edges_check_the_lookup_and_add_nothing
  g n lk clk_ntwk chan_coord chan_type :
  (pins_registered lk clk_ntwk chan_coord chan_type ->
   add_rr_graph_block_clock_edges g n lk clk_ntwk chan_coord chan_type
   = Some (g, size_wrap n))
  /\ (forall r,
        add_rr_graph_block_clock_edges g n lk clk_ntwk chan_coord chan_type = Some r ->
        pins_registered lk clk_ntwk chan_coord chan_type /\ r = (g, size_wrap n)).
Proof.
  assert (H0 : size_add n 0 = size_wrap n) by (unfold size_add; now rewrite N.add_0_r).
  split.
  - intro R. now rewrite add_rr_graph_block_clock_edges_value, H0.
  - intros r Hr.
    assert (R : pins_registered lk clk_ntwk chan_coord chan_type).
    { apply (add_rr_graph_block_clock_edges_returns g n). rewrite Hr. discriminate. }
    split; [exact R|].
    rewrite add_rr_graph_block_clock_edges_value, H0 in Hr by exact R. congruence.
Qed.

Lemma clock_block_edges_check_the_lookup_and_add_nothing_witness :
  let lk := snd (add_rr_graph_block_clock_nodes two_track_graph [] one_tree_clock_network
                   (1, 0) CHANX 4) in
  pins_registered lk one_tree_clock_network (1, 0) CHANX
  /\ add_rr_graph_block_clock_edges two_track_graph 7 lk one_tree_clock_network
       (1, 0) CHANX = Some (two_track_graph, size_wrap 7).
Proof.
  intro lk.
  assert (R : pins_registered lk one_tree_clock_network (1, 0) CHANX).
  { intros itree ilvl d p Ht Hl Hd Hp. simpl in Ht, Hl, Hd, Hp.
    destruct Ht as [<- | []]. destruct Hp as [<- | []].
    destruct Hl as [<- | [<- | []]]; destruct Hd as [<- | [<- | []]];
      vm_compute; discriminate. }
  split; [exact R|].
  exact (proj1 (clock_block_edges_check_the_lookup_and_add_nothing two_track_graph 7 lk
                  one_tree_clock_network (1, 0) CHANX) R).
Defined.

(** X3.  The edge stage that follows the node stage returns: every pin it
    looks up was registered by [add_rr_graph_clock_nodes], whatever the
    lookup held before.  It returns the graph of the node stage and counts
    no edge. *)
Theorem clock_edge_stage_returns_after_the_node_stage
  C g lk grids through_channel clk_ntwk :
  add_rr_graph_clock_edges
    (fst (add_rr_graph_clock_nodes C g lk grids through_channel clk_ntwk)) 0
    (snd (add_rr_graph_clock_nodes C g lk grids through_channel clk_ntwk))
    grids through_channel clk_ntwk
  = Some (fst (add_rr_graph_clock_nodes C g lk grids through_channel clk_ntwk), 0).
Proof.
  destruct (add_rr_graph_clock_nodes_registers C g lk grids through_channel clk_ntwk)
    as (HX & HY).
  now apply add_rr_graph_clock_edges_after_nodes.
Qed.

(** X4.  At a tile [add_rr_graph_block_clock_nodes] leaves the nodes, the
    edges and the segment count of the graph as they were and appends one
    node per pin, in the order of the loop nest (tree, level, the
    increasing direction before the decreasing one, pin); each new node
    lies at the tile, has the channel type, the direction of its pin,
    capacity 1 and the cost index [cost_index_offset + default_segment]. *)
Theorem clock_nodes_are_created_one_per_pin_in_loop_order
  g lk clk_ntwk chan_coord chan_type off :
  let g' := fst (add_rr_graph_block_clock_nodes g lk clk_ntwk chan_coord chan_type off) in
  nodes g' = nodes g ++ created_nodes g g'
  /\ edges g' = edges g
  /\ num_rr_segments g' = num_rr_segments g
  /\ map attributes (created_nodes g g')
     = map (fun i => (fst chan_coord, snd chan_coord, chan_type, snd (fst i), 1,
                      size_add off (default_segment clk_ntwk)))
           (block_pins clk_ntwk chan_type).
Proof.
  intro g'.
  destruct (add_rr_graph_block_clock_nodes_spec g lk clk_ntwk chan_coord chan_type off)
    as (Hn & He & Hs & _).
  fold g' in Hn, He, Hs.
  assert (Hc : created_nodes g g'
               = new_nodes clk_ntwk chan_coord chan_type off (block_pins clk_ntwk chan_type)
                   (N.of_nat (length (find_channel_nodes g (fst chan_coord)
                                        (snd chan_coord) chan_type)))).
  { unfold created_nodes. rewrite Hn. apply skipn_length_app. }
  split; [now rewrite Hc|]. split; [exact He|]. split; [exact Hs|].
  rewrite Hc. apply new_nodes_attributes.
Qed.

(** X5.  When the keys of the pins of a tile are pairwise different, the
    lookup that [add_rr_graph_block_clock_nodes] returns finds, for the
    pin of the [i]-th pass of the loop nest, the [i]-th node appended to
    the graph, and this node has the direction of the pin. *)
Theorem clock_lookup_finds_the_node_of_each_pin
  g lk clk_ntwk chan_coord chan_type off i itree ilvl node_dir ipin :
  NoDup (map (key_of chan_coord) (block_pins clk_ntwk chan_type)) ->
  nth_error (block_pins clk_ntwk chan_type) i = Some (itree, ilvl, node_dir, ipin) ->
  let r := add_rr_graph_block_clock_nodes g lk clk_ntwk chan_coord chan_type off in
  find_node (snd r) (fst chan_coord, snd chan_coord, itree, ilvl, ipin, node_dir)
  = Some (length (nodes g) + i)%nat
  /\ exists n,
       nth_error (nodes (fst r)) (length (nodes g) + i) = Some n
       /\ node_direction n = node_dir
       /\ at_tile (fst chan_coord) (snd chan_coord) chan_type n = true.
Proof.
  intros Hnd Hi r.
  destruct (add_rr_graph_block_clock_nodes_spec g lk clk_ntwk chan_coord chan_type off)
    as (Hn & _ & _ & Hl).
  fold r in Hn, Hl. split.
  - rewrite Hl. apply find_node_app. apply find_node_unique.
    + rewrite map_rev, new_entries_keys. now apply NoDup_rev.
    + apply in_rev. rewrite rev_involutive.
      exact (new_entries_nth chan_coord _ (length (nodes g)) i _ Hi).
  - destruct (new_nodes_nth clk_ntwk chan_coord chan_type off _
                (N.of_nat (length (find_channel_nodes g (fst chan_coord)
                                     (snd chan_coord) chan_type))) i _ Hi)
      as (ptc & Hp).
    eexists. split; [|split].
    + rewrite Hn, nth_error_app2 by lia.
      replace (length (nodes g) + i - length (nodes g))%nat with i by lia. exact Hp.
    + reflexivity.
    + apply at_tile_new_clock_node.
Qed.

Lemma clock_lookup_finds_the_node_of_each_pin_witness :
  NoDup (map (key_of (1, 0)) (block_pins one_tree_clock_network CHANX))
  /\ nth_error (block_pins one_tree_clock_network CHANX) 1 = Some (0, 0, DEC, 0)
  /\ find_node (snd (add_rr_graph_block_clock_nodes two_track_graph []
                       one_tree_clock_network (1, 0) CHANX 4)) (1, 0, 0, 0, 0, DEC)
     = Some 3%nat.
Proof.
  assert (Hnd : NoDup (map (key_of (1, 0)) (block_pins one_tree_clock_network CHANX))).
  { vm_compute.
    repeat (constructor;
            [simpl; intro H; repeat (destruct H as [H|H]; [discriminate|]); exact H|]).
    constructor. }
  assert (Hi : nth_error (block_pins one_tree_clock_network CHANX) 1 = Some (0, 0, DEC, 0))
    by reflexivity.
  split; [exact Hnd|]. split; [exact Hi|].
  exact (proj1 (clock_lookup_finds_the_node_of_each_pin two_track_graph []
                  one_tree_clock_network (1, 0) CHANX 4 1 0 0 DEC 0 Hnd Hi)).
Defined.

(** X6.  [add_rr_graph_clock_nodes] keeps the nodes that were in the graph
    and creates nodes at scanned tiles only: no horizontal clock node in
    the last row or in the first and last columns, no vertical one in the
    last column or in the first and last rows, and none where the channel
    does not exist unless through channels are allowed. *)
Theorem clock_nodes_are_created_at_scanned_tiles_only
  C g lk grids through_channel clk_ntwk :
  let g' := fst (add_rr_graph_clock_nodes C g lk grids through_channel clk_ntwk) in
  nodes g' = nodes g ++ created_nodes g g'
  /\ Forall (at_scanned_tile grids through_channel) (created_nodes g g').
Proof.
  intro g'.
  pose (I := fun st : RRGraph * RRClockSpatialLookup =>
               exists new, nodes (fst st) = nodes g ++ new
                           /\ Forall (at_scanned_tile grids through_channel) new).
  assert (Hblock : forall st c t off,
             I st ->
             (forall n, node_x n = fst c /\ node_y n = snd c /\ node_type n = t ->
                        at_scanned_tile grids through_channel n) ->
             I (add_rr_graph_block_clock_nodes (fst st) (snd st) clk_ntwk c t off)).
  { intros st c t off (new & Hn & Hf) Hc.
    destruct (add_rr_graph_block_clock_nodes_spec (fst st) (snd st) clk_ntwk c t off)
      as (Hn' & _).
    eexists. split; [rewrite Hn', Hn, <- app_assoc; reflexivity|].
    apply Forall_app. split; [exact Hf|].
    eapply Forall_impl; [|apply new_nodes_at_tile]. exact Hc. }
  assert (HI : I (add_rr_graph_clock_nodes C g lk grids through_channel clk_ntwk)).
  { unfold add_rr_graph_clock_nodes. apply (fold_left_inv I).
    - apply (fold_left_inv I).
      + exists []. split; [now rewrite app_nil_r | constructor].
      + intros st iy Hiy Hst. apply (fold_left_inv I); [exact Hst|].
        intros st' ix Hix Hst'. destruct (bypass _ _) eqn:Hb; [exact Hst'|].
        apply Hblock; [exact Hst'|]. intros n (Hx & Hy & Ht). simpl in Hx, Hy.
        unfold at_scanned_tile. rewrite Ht, Hx, Hy.
        apply in_size_range in Hiy, Hix. apply bypass_false in Hb.
        repeat split; try lia; exact Hb.
    - intros st ix Hix Hst. apply (fold_left_inv I); [exact Hst|].
      intros st' iy Hiy Hst'. destruct (bypass _ _) eqn:Hb; [exact Hst'|].
      apply Hblock; [exact Hst'|]. intros n (Hx & Hy & Ht). simpl in Hx, Hy.
      unfold at_scanned_tile. rewrite Ht, Hx, Hy.
      apply in_size_range in Hiy, Hix. apply bypass_false in Hb.
      repeat split; try lia; exact Hb. }
  destruct HI as (new & Hn & Hf). fold g' in Hn.
  assert (Hc : created_nodes g g' = new).
  { unfold created_nodes. rewrite Hn. apply skipn_length_app. }
  rewrite Hc. split; assumption.
Qed.

(** X7.  With through channels allowed, the estimate for a grid of width
    [w] and height [h] (at least 1, and [size_t] values) is, in [size_t]
    arithmetic, [(h-1)(w-2)] times the tracks that the network asks for at
    a horizontal tile plus [(w-1)(h-2)] times those at a vertical tile,
    the differences being 0 where they would be negative. *)
Theorem clock_node_estimate_with_through_channels grids clk_ntwk :
  1 <= width grids < size_t_modulus ->
  1 <= height grids < size_t_modulus ->
  estimate_clock_rr_graph_num_nodes grids true clk_ntwk
  = size_wrap ((height grids - 1) * (width grids - 2) * tracks_per_tile clk_ntwk CHANX
               + (width grids - 1) * (height grids - 2) * tracks_per_tile clk_ntwk CHANY).
Proof.
  intros Hw Hh. unfold estimate_clock_rr_graph_num_nodes.
  rewrite !size_sub_small by lia. cbn [bypass negb andb].
  set (r := fold_left _ _ (fold_left _ _ 0)).
  assert (Hlt : r < size_t_modulus).
  { subst r. apply fold_left_inv.
    - apply fold_left_inv; [now compute|]. intros a iy _ Ha.
      apply fold_left_inv; [exact Ha|]. intros; apply size_wrap_lt.
    - intros a ix _ Ha. apply fold_left_inv; [exact Ha|]. intros; apply size_wrap_lt. }
  rewrite <- (size_wrap_small r Hlt). subst r.
  assert (Hstep : forall t a b,
             size_wrap a = size_wrap b ->
             size_wrap (size_add a (estimate_clock_rr_graph_num_chan_nodes clk_ntwk t))
             = size_wrap (b + tracks_per_tile clk_ntwk t)).
  { intros t a b Hab. rewrite estimate_clock_rr_graph_num_chan_nodes_value.
    unfold size_add. rewrite size_wrap_idem, size_wrap_add_r.
    now apply size_wrap_congr_add. }
  rewrite (fold_left_size_congr
             (fun _ => sumN (fun _ => tracks_per_tile clk_ntwk CHANY)
                         (size_range 1 (height grids - 1))))
    with (b := sumN (fun _ => sumN (fun _ => tracks_per_tile clk_ntwk CHANX)
                                (size_range 1 (width grids - 1)))
                    (size_range 0 (height grids - 1))).
  - f_equal. rewrite !sumN_const, !size_range_length. lia.
  - intros a b ix _ Hab. apply fold_left_size_congr; [|exact Hab].
    intros a' b' iy _ Hab'. now apply Hstep.
  - rewrite <- (N.add_0_l (sumN _ _)).
    apply fold_left_size_congr; [|reflexivity].
    intros a b iy _ Hab. apply fold_left_size_congr; [|exact Hab].
    intros a' b' ix _ Hab'. now apply Hstep.
Qed.

Lemma clock_node_estimate_with_through_channels_witness :
  (1 <= width grid_3x3 < size_t_modulus)
  /\ (1 <= height grid_3x3 < size_t_modulus)
  /\ estimate_clock_rr_graph_num_nodes grid_3x3 true one_tree_clock_network
     = size_wrap ((height grid_3x3 - 1) * (width grid_3x3 - 2)
                    * tracks_per_tile one_tree_clock_network CHANX
                  + (width grid_3x3 - 1) * (height grid_3x3 - 2)
                    * tracks_per_tile one_tree_clock_network CHANY).
Proof.
  assert (Hw : 1 <= width grid_3x3 < size_t_modulus) by (vm_compute; split; congruence).
  assert (Hh : 1 <= height grid_3x3 < size_t_modulus) by (vm_compute; split; congruence).
  split; [exact Hw|]. split; [exact Hh|].
  exact (clock_node_estimate_with_through_channels grid_3x3 one_tree_clock_network Hw Hh).
Defined.

(** A grid of one column has no horizontal tile and no vertical tile
    inside: nothing is estimated, whatever the network. *)
Example estimate_of_a_single_column :
  estimate_clock_rr_graph_num_nodes
    {| width := 1; height := 5;
       is_chanx_exist := fun _ => true; is_chany_exist := fun _ => true |}
    true one_tree_clock_network = 0.
Proof. vm_compute. reflexivity. Qed.

End ClockGraphStages.

(* ====================================================================== *)
(** * Part 4: the switch blocks of a whole device *)
(* ====================================================================== *)

Module SwitchBlockPasses.
Import Routing.
Local Open Scope Z_scope.

Ltac inv_bind H :=
  let a := fresh "a" in
  let E := fresh "E" in
  apply bind_Some in H; destruct H as (a & E & H).

(** The records of a list of blocks of the full-array backend, each
    starting at the [msb] of the one before. *)
Fixpoint half_open_chained (T : Z) (l : list t_sb) (E : Z) : Prop :=
  match l with
  | [] => T = E
  | sb :: r =>
      conf_bits_lsb sb = T /\ T <= conf_bits_msb sb
      /\ half_open_chained (conf_bits_msb sb) r E
  end.

Lemma half_open_chained_app T l1 M l2 E :
  half_open_chained T l1 M -> half_open_chained M l2 E ->
  half_open_chained T (l1 ++ l2) E.
Proof.
  revert T; induction l1 as [|c l1 IH]; intros T H1 H2; simpl in *.
  - now subst.
  - destruct H1 as (H & H' & H''). repeat split; [exact H | exact H' |].
    now apply IH.
Qed.

Section Passes.

#[local] Set Default Proof Using "Type".

Variable switch_inf : Z -> t_switch_inf.
Variables nx ny : Z.
Variable grid_type : Z -> Z -> option t_type.
Variable get_grid_pin_height : Z -> Z -> Z -> Z.
Variable is_rr_node_exist_opposite_side_in_sb_info : t_sb -> t_rr_node -> nat -> Z.
Variable check_drive_rr_node_imply_short : t_sb -> t_rr_node -> nat -> bool.
Variable get_rr_node_index_in_sb_info : t_rr_node -> t_sb -> nat -> PORTS -> option nat.
Variable get_chan_rr_node_coordinate_in_sb_info : t_sb -> nat -> t_rr_type.
Variable rr_node_drive_switch_box : t_rr_node -> t_rr_node -> Z -> Z -> nat -> Z.
Variable get_rr_node_side_and_index_in_sb_info :
  t_rr_node -> t_sb -> PORTS -> option (nat * nat).
Variable get_opposite_side : nat -> option nat.

(** The functions of the full-array backend on these parameters. *)
Local Abbreviation full_array f :=
  (f switch_inf nx ny grid_type get_grid_pin_height
     is_rr_node_exist_opposite_side_in_sb_info check_drive_rr_node_imply_short
     get_rr_node_index_in_sb_info get_chan_rr_node_coordinate_in_sb_info
     rr_node_drive_switch_box get_rr_node_side_and_index_in_sb_info get_opposite_side)
  (only parsing).

(** ** Segments and the bits of a block *)

Lemma sumZ_occurrences (segs : list N) (s : N) (v : Z) :
  sumZ (fun seg => if N.eqb seg s then v else 0) segs
  = Z.of_nat (count_occ N.eq_dec segs s) * v.
Proof.
  induction segs as [|x segs IH]; [reflexivity|].
  cbn [sumZ fold_right count_occ]. fold (sumZ (fun seg => if N.eqb seg s then v else 0) segs).
  rewrite IH. destruct (N.eq_dec x s) as [-> | Hne].
  - rewrite N.eqb_refl. lia.
  - destruct (N.eqb_spec x s); [contradiction | lia].
Qed.

Lemma sumZ_by_occurrences (w : gsb_track -> Z) (segs : list N) (tracks : list gsb_track) :
  sumZ (fun seg => sumZ (track_weight w seg) tracks) segs
  = sumZ (fun t => Z.of_nat (count_occ N.eq_dec segs (chan_node_segment t))
                   * (if is_out (chan_node_direction t) then w t else 0)) tracks.
Proof.
  induction tracks as [|t tracks IH].
  - cbn [sumZ fold_right]. apply sumZ_zero.
  - cbn [sumZ fold_right].
    fold (sumZ (fun t => Z.of_nat (count_occ N.eq_dec segs (chan_node_segment t))
                         * (if is_out (chan_node_direction t) then w t else 0)) tracks).
    rewrite <- IH.
    rewrite <- (sumZ_occurrences segs (chan_node_segment t)).
    rewrite <- sumZ_add. apply sumZ_ext. intros seg _.
    cbn [sumZ fold_right]. unfold track_weight at 1. reflexivity.
Qed.

(** X8.  On a switch block of the reduced-duplication backend on which
    the counting does not stop, the bits of the block are the sum, over the
    sides and over the output tracks of a side, of the bits of the node of
    the track, taken as many times as the segment of the track occurs among
    the segment ids of the side: a track whose segment is not listed is not
    counted, one whose segment is listed twice is counted twice.  When
    every side lists the segments of its tracks once, the bits of the block
    are the sum of the bits of its output tracks. *)
Theorem switch_box_bits_count_a_track_once_per_listed_segment info rr_sb :
  gsb_countable switch_inf rr_sb = true ->
  count_verilog_switch_box_conf_bits switch_inf info rr_sb
  = Some (sumZ (fun side =>
            sumZ (fun t =>
                    Z.of_nat (count_occ N.eq_dec (get_segment_ids (chan_at rr_sb side))
                                (chan_node_segment t))
                    * out_bits switch_inf info rr_sb side t)
              (chan_tracks (chan_at rr_sb side)))
            (seq 0 (length (get_chan rr_sb))))
  /\ (segments_listed_once rr_sb = true ->
      count_verilog_switch_box_conf_bits switch_inf info rr_sb
      = Some (sumZ (fun side => sumZ (out_bits switch_inf info rr_sb side)
                                  (chan_tracks (chan_at rr_sb side)))
                (seq 0 (length (get_chan rr_sb))))).
Proof.
  intro Hc. split; [|now apply count_verilog_switch_box_conf_bits_value].
  unfold count_verilog_switch_box_conf_bits.
  unfold gsb_countable in Hc. rewrite forallb_forall in Hc.
  rewrite (foldM_sum (fun side =>
             sumZ (fun t =>
                     Z.of_nat (count_occ N.eq_dec (get_segment_ids (chan_at rr_sb side))
                                 (chan_node_segment t))
                     * out_bits switch_inf info rr_sb side t)
               (chan_tracks (chan_at rr_sb side))));
    [reflexivity|].
  intros a side Hside.
  rewrite (foldM_sum (fun seg_id =>
             sumZ (track_weight (node_bits switch_inf info rr_sb side) seg_id)
               (chan_tracks (chan_at rr_sb side)))).
  - f_equal. f_equal. apply sumZ_by_occurrences.
  - intros b seg _.
    now rewrite (count_verilog_switch_box_side_conf_bits_value _ _ _ _ _ (Hc _ Hside)).
Qed.

(** ** The pass of the full-array backend *)

(** The bits of a block of the full-array backend. *)
Definition sb_bits (info : t_sram_orgz_info) (sb : t_sb) : Z :=
  sumZ (fun st => sumZ (sb_out_bits switch_inf is_rr_node_exist_opposite_side_in_sb_info
                          info sb (fst st)) (snd st))
    (indexed (sb_chan sb)).

Lemma sb_bits_type i1 i2 sb :
  sram_orgz_type i1 = sram_orgz_type i2 -> sb_bits i1 sb = sb_bits i2 sb.
Proof.
  intro H. unfold sb_bits. apply sumZ_ext. intros st _. apply sumZ_ext. intros t _.
  unfold sb_out_bits. destruct (is_out (chan_rr_node_direction t)); [|reflexivity].
  destruct (chan_rr_node t); [|reflexivity]. now apply interc_cost_type.
Qed.

Lemma sb_bits_nonneg info sb : 0 <= sb_bits info sb.
Proof.
  unfold sb_bits. apply sumZ_nonneg. intros st _. apply sumZ_nonneg. intros t _.
  unfold sb_out_bits. destruct (is_out (chan_rr_node_direction t)); [|lia].
  destruct (chan_rr_node t); [|lia]. apply interc_cost_nonneg.
Qed.

(** A block after the function has run on it: the same block, with a
    record that ends at its start plus the bits of the block, which are
    the bits that the counting function returns for it. *)
Definition rewritten (info : t_sram_orgz_info) (sb' sb : t_sb) : Prop :=
  sb_x sb' = sb_x sb /\ sb_y sb' = sb_y sb /\ sb_chan sb' = sb_chan sb
  /\ mirror sb' = mirror sb
  /\ conf_bits_msb sb' = conf_bits_lsb sb' + sb_bits info sb
  /\ count_verilog_switch_box_conf_bits_t_sb switch_inf
       is_rr_node_exist_opposite_side_in_sb_info info sb
     = Some (sb_bits info sb).

Lemma rewritten_type i1 i2 sb' sb :
  sram_orgz_type i1 = sram_orgz_type i2 -> rewritten i1 sb' sb -> rewritten i2 sb' sb.
Proof.
  intros H (H1 & H2 & H3 & H4 & H5 & H6). repeat split; try assumption.
  - now rewrite <- (sb_bits_type i1 i2).
  - rewrite <- (sb_bits_type i1 i2) by exact H. rewrite <- H6.
    symmetry. now apply count_verilog_switch_box_conf_bits_t_sb_type.
Qed.

(** One call of the function, when it returns. *)
Lemma dump_verilog_routing_switch_box_subckt_step info sb compact explicit info' sb' nl :
  full_array dump_verilog_routing_switch_box_subckt info sb compact explicit
  = Some (info', sb', nl) ->
  num_mem_bit info' = num_mem_bit info + sb_bits info sb
  /\ sram_orgz_type info' = sram_orgz_type info
  /\ conf_bits_lsb sb' = num_mem_bit info
  /\ rewritten info sb' sb.
Proof.
  intro Hd.
  pose proof (dump_verilog_routing_switch_box_subckt_type _ _ _ _ _ _ _ _ _ _ _ _
                _ _ _ _ _ _ _ Hd) as Ht.
  destruct (dump_verilog_routing_switch_box_subckt_records _ _ _ _ _ _ _ _ _ _ _ _
              _ _ _ _ _ _ _ Hd) as (n & r & Hn & _ & -> & Hm).
  pose proof (count_verilog_switch_box_conf_bits_t_sb_on_return _ _ _ _ _ Hn) as Hb.
  fold (sb_bits info sb) in Hb. subst n.
  split; [exact Hm|]. split; [exact Ht|]. split; [reflexivity|].
  repeat split; try reflexivity. exact Hn.
Qed.

Lemma full_array_blocks_in_order (blocks : list t_sb) compact explicit :
  forall info done files info' done' files',
  foldM (fun '(cur_sram_orgz_info, done, files) cur_sb_info =>
           r <- full_array dump_verilog_routing_switch_box_subckt
                  cur_sram_orgz_info cur_sb_info compact explicit ;;
           Some (fst (fst r), done ++ [snd (fst r)], files ++ [snd r]))
    blocks (info, done, files)
  = Some (info', done', files') ->
  exists new new_files,
    done' = done ++ new /\ files' = files ++ new_files
    /\ Forall2 (rewritten info) new blocks
    /\ half_open_chained (num_mem_bit info) new (num_mem_bit info')
    /\ num_mem_bit info' = num_mem_bit info + sumZ (sb_bits info) blocks
    /\ sram_orgz_type info' = sram_orgz_type info
    /\ length new_files = length blocks.
Proof.
  induction blocks as [|sb blocks IH]; intros info done files info' done' files' H.
  - cbn [foldM] in H. injection H as <- <- <-. exists [], [].
    rewrite !app_nil_r. cbn [sumZ fold_right half_open_chained length].
    repeat split; [constructor | lia].
  - cbn [foldM] in H. inv_bind H. inv_bind E. destruct a0 as [[info1 sb'] nl].
    injection E as <-. cbn [fst snd] in H.
    destruct (dump_verilog_routing_switch_box_subckt_step _ _ _ _ _ _ _ E0)
      as (Hm & Ht & Hl & Hrw).
    destruct (IH _ _ _ _ _ _ H)
      as (new & new_files & -> & -> & Hrec & Hch & Hs & Ht' & Hlen).
    exists (sb' :: new), (nl :: new_files).
    rewrite <- !app_assoc. split; [reflexivity|]. split; [reflexivity|].
    split.
    { constructor; [exact Hrw|]. eapply Forall2_impl; [|exact Hrec].
      intros a b. now apply rewritten_type. }
    pose proof (sb_bits_nonneg info sb) as Hpos.
    destruct Hrw as (_ & _ & _ & _ & Hmsb & _).
    split.
    { cbn [half_open_chained]. split; [exact Hl|]. split; [lia|].
      replace (conf_bits_msb sb') with (num_mem_bit info1) by lia. exact Hch. }
    split.
    { rewrite Hs, Hm. cbn [sumZ fold_right]. fold (sumZ (sb_bits info) blocks).
      rewrite (sumZ_ext (sb_bits info1) (sb_bits info))
        by (intros; now apply sb_bits_type). lia. }
    split; [congruence|]. cbn [length]. now rewrite Hlen.
Qed.

(** X9.  Whenever the pass of the full-array backend over the switch
    blocks returns, it has rewritten the blocks in scan order; the record
    of a block starts at the counter value on entry and its [msb] is that
    value plus the bits of the block, which is where the record of the next
    block starts: consecutive records, read as closed ranges, share an
    address.  The counter has advanced by the sum of the bits of the
    blocks, and one netlist was written per block. *)
Theorem full_array_pass_records_half_open_ranges
  info sb_info compact explicit info' done files :
  full_array print_switch_boxes_full_array info sb_info compact explicit
  = Some (info', done, files) ->
  Forall2 (fun sb' sb =>
             sb_x sb' = sb_x sb /\ sb_y sb' = sb_y sb /\ sb_chan sb' = sb_chan sb
             /\ count_verilog_switch_box_conf_bits_t_sb switch_inf
                  is_rr_node_exist_opposite_side_in_sb_info info sb
                = Some (conf_bits_msb sb' - conf_bits_lsb sb'))
    done (concat sb_info)
  /\ half_open_chained (num_mem_bit info) done (num_mem_bit info')
  /\ num_mem_bit info' = num_mem_bit info + sumZ (sb_bits info) (concat sb_info)
  /\ length files = length (concat sb_info).
Proof.
  unfold print_switch_boxes_full_array. rewrite foldM_concat. intro H.
  destruct (full_array_blocks_in_order _ _ _ _ _ _ _ _ _ H)
    as (new & new_files & -> & -> & Hrec & Hch & Hs & _ & Hlen).
  cbn [app]. split; [|repeat split; assumption].
  eapply Forall2_impl; [|exact Hrec].
  intros sb' sb (H1 & H2 & H3 & _ & H5 & H6).
  split; [exact H1|]. split; [exact H2|]. split; [exact H3|].
  rewrite H6. f_equal. lia.
Qed.

End Passes.

(** ** Examples *)

(** A side that lists its one segment twice: the multiplexer of two inputs
    on it is counted twice, and written once. *)
Definition gsb_segment_listed_twice : RRGSB :=
  gsb_of 0 0 [out_track 2 0] [0%N; 0%N] (fun _ _ => false) (fun _ _ => false).

(** A side that does not list the segment of its track. *)
Definition gsb_segment_not_listed : RRGSB :=
  gsb_of 0 0 [out_track 2 1] [0%N] (fun _ _ => false) (fun _ _ => false).

Example segment_listed_twice_is_counted_twice :
  count_verilog_switch_box_conf_bits switches info0 gsb_segment_listed_twice = Some 4
  /\ option_map (fun st => num_mem_bit (counter st))
       (unique_backend unique_switch_box_multiplexers info0 gsb_segment_listed_twice false)
     = Some 2
  /\ unique_backend dump_verilog_routing_switch_box_unique_subckt
       info0 gsb_segment_listed_twice false = None.
Proof. repeat split; vm_compute; reflexivity. Qed.

Example segment_not_listed_is_not_counted :
  count_verilog_switch_box_conf_bits switches info0 gsb_segment_not_listed = Some 0
  /\ option_map (fun st => num_mem_bit (counter st))
       (unique_backend unique_switch_box_multiplexers info0 gsb_segment_not_listed false)
     = Some 2
  /\ unique_backend dump_verilog_routing_switch_box_unique_subckt
       info0 gsb_segment_not_listed false = None.
Proof. repeat split; vm_compute; reflexivity. Qed.

Lemma switch_box_bits_count_a_track_once_per_listed_segment_witness :
  gsb_countable switches gsb_segment_listed_twice = true
  /\ count_verilog_switch_box_conf_bits switches info0 gsb_segment_listed_twice
     = Some (sumZ (fun side =>
               sumZ (fun t =>
                       Z.of_nat (count_occ N.eq_dec
                                   (get_segment_ids (chan_at gsb_segment_listed_twice side))
                                   (chan_node_segment t))
                       * out_bits switches info0 gsb_segment_listed_twice side t)
                 (chan_tracks (chan_at gsb_segment_listed_twice side)))
               (seq 0 (length (get_chan gsb_segment_listed_twice)))).
Proof.
  assert (H : gsb_countable switches gsb_segment_listed_twice = true)
    by (vm_compute; reflexivity).
  split; [exact H|].
  exact (proj1 (switch_box_bits_count_a_track_once_per_listed_segment switches info0
                  gsb_segment_listed_twice H)).
Defined.

Lemma full_array_pass_records_half_open_ranges_witness :
  exists info' done files,
    full_array_backend print_switch_boxes_full_array info0
      [[sb_example; sb_example]; [sb_example]] false false = Some (info', done, files)
    /\ half_open_chained (num_mem_bit info0) done (num_mem_bit info')
    /\ num_mem_bit info' = 15.
Proof.
  destruct (full_array_backend print_switch_boxes_full_array info0
              [[sb_example; sb_example]; [sb_example]] false false)
    as [[[info' done] files]|] eqn:E; [|vm_compute in E; discriminate].
  exists info', done, files. split; [reflexivity|].
  destruct (full_array_pass_records_half_open_ranges
              switches 1 1 grid_of_logic_blocks ground_level opposite_test short_test
              index_in_sb chan_type_of_side drives_through side_and_index_in_sb
              opposite_side info0 [[sb_example; sb_example]; [sb_example]]
              false false info' done files E)
    as (_ & H2 & H3 & _).
  split; [exact H2|]. rewrite H3. vm_compute. reflexivity.
Defined.

Example full_array_pass_on_three_blocks :
  option_map (fun r => (num_mem_bit (fst (fst r)),
                        map (fun sb => (conf_bits_lsb sb, conf_bits_msb sb))
                          (snd (fst r))))
    (full_array_backend print_switch_boxes_full_array info0
       [[sb_example; sb_example]; [sb_example]] false false)
  = Some (15, [(0, 5); (5, 10); (10, 15)]).
Proof. vm_compute. reflexivity. Qed.

(** A block with a driver that does not enter it stops the pass. *)
Example full_array_pass_stops_on_a_driver_outside_the_block :
  full_array_backend print_switch_boxes_full_array info0
    [[sb_example; sb_with_node (with_drivers 1 [input_node 8])]] false false = None.
Proof. vm_compute. reflexivity. Qed.

End SwitchBlockPasses.

(* ====================================================================== *)
(** * Part 5: the modules of the routing channels *)
(* ====================================================================== *)

Module Channels.
Import Routing.
Import String.
Local Open Scope Z_scope.

(** ** Names

    [std::to_string] of a [size_t], and [%lu] and [%d] of a number that is
    not negative: the decimal digits. *)
Definition to_string (n : N) : string :=
  DecimalString.NilEmpty.string_of_uint (N.to_uint n).

(** ** Data *)

Inductive e_direction := INC_DIRECTION | DEC_DIRECTION | BI_DIRECTION.

(** The fields of the node of a track that the channel functions read. *)
Record chan_rr_node := {
  direction : e_direction;
  cost_index : Z
}.

(** [RRChan] as the channel functions use it: [get_type()], and
    [get_node(itrack)] for [itrack < get_chan_width()]. *)
Record RRChan := {
  get_type : t_rr_type;
  get_node : list chan_rr_node
}.

Record BasicPort := {
  get_name : string;
  get_width : N
}.

Inductive e_module_port_type :=
| MODULE_GLOBAL_PORT
| MODULE_INPUT_PORT
| MODULE_OUTPUT_PORT.

(** The name of the module of a channel is the result of
    [generate_routing_channel_module_name], which is not part of the file:
    a name is kept as the call that makes it, on a channel type and the
    index of a unique channel, or on a channel type and a coordinate. *)
Inductive routing_channel_module_name :=
| unique_channel_module_name (chan_type : t_rr_type) (rr_chan_subckt_id : N)
| channel_module_name (chan_type : t_rr_type) (chan_coordinate : N * N).

(** What a channel function hands to the module manager and to the
    writer: the name of the call of [add_module], the ports of the calls of
    [add_port], in order, and the pairs (driven port, driving port) of the
    calls of [print_verilog_wire_connection], in order. *)
Record chan_module := {
  module_name : routing_channel_module_name;
  module_ports : list (BasicPort * e_module_port_type);
  wire_connections : list (BasicPort * BasicPort)
}.

Definition input_port (itrack : nat) : BasicPort :=
  {| get_name := "in" ++ to_string (N.of_nat itrack); get_width := 1 |}.
Definition output_port (itrack : nat) : BasicPort :=
  {| get_name := "out" ++ to_string (N.of_nat itrack); get_width := 1 |}.
Definition mid_output_port (itrack : nat) : BasicPort :=
  {| get_name := "mid_out" ++ to_string (N.of_nat itrack); get_width := 1 |}.

(** ** [print_verilog_routing_unique_chan_subckt] *)

Definition print_verilog_routing_unique_chan_subckt (rr_chan_subckt_id : N)
  (rr_chan : RRChan) : option chan_module :=
  (* Find the prefix for the Verilog file name *)
  _ <- match get_type rr_chan with
       | CHANX | CHANY => Some tt
       | _ => exit (* Invalid Channel type! *)
       end ;;
  (* Create a Verilog Module, and add to module manager *)
  let module_id := unique_channel_module_name (get_type rr_chan) rr_chan_subckt_id in
  (* [rr_chan.get_node(itrack)] for [itrack < rr_chan.get_chan_width()] *)
  let tracks := indexed (get_node rr_chan) in
  (* Add ports at LEFT/BOTTOM side of the module *)
  ports <- foldM (fun ports '(itrack, node) =>
             match direction node with
             | INC_DIRECTION => Some (ports ++ [(input_port itrack, MODULE_INPUT_PORT)])
             | DEC_DIRECTION => Some (ports ++ [(output_port itrack, MODULE_OUTPUT_PORT)])
             | BI_DIRECTION => exit
             end) tracks [] ;;
  (* Add ports at RIGHT/TOP side of the module *)
  ports <- foldM (fun ports '(itrack, node) =>
             match direction node with
             | INC_DIRECTION => Some (ports ++ [(output_port itrack, MODULE_OUTPUT_PORT)])
             | DEC_DIRECTION => Some (ports ++ [(input_port itrack, MODULE_INPUT_PORT)])
             | BI_DIRECTION => exit
             end) tracks ports ;;
  (* Add middle-point output for connection box inputs *)
  let ports :=
    fold_left (fun ports (t : nat * chan_rr_node) =>
      ports ++ [(mid_output_port (fst t), MODULE_OUTPUT_PORT)]) tracks ports in
  (* Print short-wire connection: in[i] -> out[i] and in[i] -> mid_out[i] *)
  let wires :=
    fold_left (fun wires (t : nat * chan_rr_node) =>
      wires ++ [(output_port (fst t), input_port (fst t));
                (mid_output_port (fst t), input_port (fst t))]) tracks [] in
  Some {| module_name := module_id; module_ports := ports; wire_connections := wires |}.

(** ** [print_verilog_routing_chan_subckt]

    The channel is given by its type and its coordinate, which make the
    name of the module; the nodes of its tracks are collected from the
    global node array by [get_chan_rr_nodes], a function of another file:
    it is a parameter, and the list it returns is the array
    [chan_rr_nodes] with its length [chan_width]. *)
Definition print_verilog_routing_chan_subckt
  (get_chan_rr_nodes : t_rr_type -> N -> N -> list chan_rr_node)
  (chan_coordinate : N * N) (chan_type : t_rr_type) : option chan_module :=
  (* Find the prefix for the Verilog file name *)
  _ <- match chan_type with
       | CHANX | CHANY => Some tt
       | _ => exit (* Invalid Channel type! *)
       end ;;
  (* Create a Verilog Module, and add to module manager *)
  let module_id := channel_module_name chan_type chan_coordinate in
  (* Collect rr_nodes for Tracks for chanx[ix][iy] *)
  let chan_rr_nodes :=
    get_chan_rr_nodes chan_type (fst chan_coordinate) (snd chan_coordinate) in
  let tracks := indexed chan_rr_nodes in
  (* Add ports at LEFT/BOTTOM side of the module *)
  ports <- foldM (fun ports '(itrack, node) =>
             match direction node with
             | INC_DIRECTION => Some (ports ++ [(input_port itrack, MODULE_INPUT_PORT)])
             | DEC_DIRECTION => Some (ports ++ [(output_port itrack, MODULE_OUTPUT_PORT)])
             | BI_DIRECTION => exit
             end) tracks [] ;;
  (* Add ports at RIGHT/TOP side of the module *)
  ports <- foldM (fun ports '(itrack, node) =>
             match direction node with
             | INC_DIRECTION => Some (ports ++ [(output_port itrack, MODULE_OUTPUT_PORT)])
             | DEC_DIRECTION => Some (ports ++ [(input_port itrack, MODULE_INPUT_PORT)])
             | BI_DIRECTION => exit
             end) tracks ports ;;
  (* Add middle-point output for connection box inputs *)
  let ports :=
    fold_left (fun ports (t : nat * chan_rr_node) =>
      ports ++ [(mid_output_port (fst t), MODULE_OUTPUT_PORT)]) tracks ports in
  (* Print short-wire connection: in[i] -> out[i] and in[i] -> mid_out[i] *)
  let wires :=
    fold_left (fun wires (t : nat * chan_rr_node) =>
      wires ++ [(output_port (fst t), input_port (fst t));
                (mid_output_port (fst t), input_port (fst t))]) tracks [] in
  Some {| module_name := module_id; module_ports := ports; wire_connections := wires |}.

(** ** [dump_verilog_routing_chan_subckt], on a unique channel

    The function prints the module as text.  Of a line that declares a
    port, the keyword, the name and the comma are kept; of an [assign]
    line, the two names. *)
Inductive verilog_port_keyword := input | output.

Inductive verilog_line :=
| port_declaration (keyword : verilog_port_keyword) (name : string) (comma : bool)
| assign (lhs rhs : string).

Definition print_line (lines : list verilog_line) (l : verilog_line) : list verilog_line :=
  lines ++ [l].

Definition dump_verilog_routing_chan_subckt (rr_chan_subckt_id : N) (rr_chan : RRChan)
  : option (list verilog_line) :=
  (* Initial chan_prefix *)
  _ <- match get_type rr_chan with
       | CHANX | CHANY => Some tt
       | _ => exit (* Invalid Channel type! *)
       end ;;
  let tracks := indexed (get_node rr_chan) in
  let get_chan_width := List.length (get_node rr_chan) in
  (* print left-hand ports(in) first, then right-hand ports(out) *)
  lines <- foldM (fun lines '(itrack, node) =>
             match direction node with
             | INC_DIRECTION =>
                 Some (print_line lines
                         (port_declaration input ("in" ++ to_string (N.of_nat itrack)) true))
             | DEC_DIRECTION =>
                 Some (print_line lines
                         (port_declaration output ("out" ++ to_string (N.of_nat itrack)) true))
             | BI_DIRECTION => exit
             end) tracks [] ;;
  lines <- foldM (fun lines '(itrack, node) =>
             match direction node with
             | INC_DIRECTION =>
                 Some (print_line lines
                         (port_declaration output ("out" ++ to_string (N.of_nat itrack)) true))
             | DEC_DIRECTION =>
                 Some (print_line lines
                         (port_declaration input ("in" ++ to_string (N.of_nat itrack)) true))
             | BI_DIRECTION => exit
             end) tracks lines ;;
  (* Middle point output for connection box inputs *)
  let lines :=
    fold_left (fun lines (t : nat * chan_rr_node) =>
      print_line lines
        (port_declaration output ("mid_out" ++ to_string (N.of_nat (fst t)))
           (* if (itrack < (rr_chan.get_chan_width() - 1)) fprintf(fp, ",") *)
           (Nat.ltb (fst t) (get_chan_width - 1))))
      tracks lines in
  (* Print segments models *)
  let lines :=
    fold_left (fun lines (t : nat * chan_rr_node) =>
      print_line
        (print_line lines
           (assign ("out" ++ to_string (N.of_nat (fst t)))
                   ("in" ++ to_string (N.of_nat (fst t)))))
        (assign ("mid_out" ++ to_string (N.of_nat (fst t)))
                ("in" ++ to_string (N.of_nat (fst t)))))
      tracks lines in
  Some lines.


(** ** Loops that append *)

Section Appending.
Context {A X : Type}.

Lemma foldM_collect (h : X -> A) (f : list A -> X -> option (list A))
  (l : list X) (acc : list A) :
  (forall acc x, In x l -> f acc x = Some (acc ++ [h x])) ->
  foldM f l acc = Some (acc ++ map h l).
Proof.
  revert acc; induction l as [|x l IH]; intros acc Hf; simpl.
  - now rewrite app_nil_r.
  - rewrite Hf by now left. simpl. rewrite IH by (intros b y Hy; apply Hf; now right).
    now rewrite <- app_assoc.
Qed.

Lemma foldM_stops {B : Type} (f : B -> X -> option B) (l : list X) (a : B) (x : X) :
  In x l -> (forall a, f a x = None) -> foldM f l a = None.
Proof.
  revert a; induction l as [|y l IH]; intros a Hx Hf; [destruct Hx|]. simpl.
  destruct Hx as [-> | Hx]; [now rewrite Hf|].
  destruct (f a y) as [a'|]; simpl; [now apply IH | reflexivity].
Qed.

Lemma fold_left_append (g : X -> list A) (l : list X) (acc : list A) :
  fold_left (fun acc x => acc ++ g x) l acc = acc ++ flat_map g l.
Proof.
  revert acc; induction l as [|x l IH]; intro acc; simpl.
  - now rewrite app_nil_r.
  - now rewrite IH, app_assoc.
Qed.

Lemma perm_three (f g h : X -> A) (l : list X) :
  Permutation (map f l ++ map g l ++ map h l) (flat_map (fun x => [f x; g x; h x]) l).
Proof.
  induction l as [|x l IH]; simpl; [constructor|].
  constructor.
  apply Permutation_sym, Permutation_cons_app.
  rewrite app_assoc.
  apply Permutation_cons_app. rewrite <- app_assoc. now apply Permutation_sym.
Qed.

Lemma flat_map_perm (F G : X -> list A) (l : list X) :
  (forall x, In x l -> Permutation (F x) (G x)) ->
  Permutation (flat_map F l) (flat_map G l).
Proof.
  induction l as [|x l IH]; intro H; simpl; [constructor|].
  apply Permutation_app; [apply H; now left | apply IH; intros y Hy; apply H; now right].
Qed.

Lemma flat_map_fst {Y : Type} (G : X -> list A) (l : list (X * Y)) :
  flat_map (fun t => G (fst t)) l = flat_map G (map fst l).
Proof. induction l as [|t l IH]; simpl; [reflexivity | now rewrite IH]. Qed.
End Appending.

Lemma map_fst_indexed {A : Type} (l : list A) : map fst (indexed l) = seq 0 (List.length l).
Proof.
  unfold indexed. generalize 0%nat.
  induction l as [|x l IH]; intro k; simpl; [reflexivity | now rewrite IH].
Qed.

(** ** The decimal name of a track *)

Lemma to_string_inj (a b : N) : to_string a = to_string b -> a = b.
Proof.
  unfold to_string. intro H.
  apply (f_equal DecimalString.NilEmpty.uint_of_string) in H.
  rewrite !DecimalString.NilEmpty.usu in H. injection H as H.
  apply (f_equal N.of_uint) in H. now rewrite !DecimalN.Unsigned.of_to in H.
Qed.

Lemma input_port_inj i j : get_name (input_port i) = get_name (input_port j) -> i = j.
Proof. simpl. intros [= H]. apply to_string_inj in H. lia. Qed.

Lemma output_port_inj i j : get_name (output_port i) = get_name (output_port j) -> i = j.
Proof. simpl. intros [= H]. apply to_string_inj in H. lia. Qed.

Lemma mid_output_port_inj i j :
  get_name (mid_output_port i) = get_name (mid_output_port j) -> i = j.
Proof. simpl. intros [= H]. apply to_string_inj in H. lia. Qed.

(** The three ports of a track. *)
Definition track_ports (itrack : nat) : list (BasicPort * e_module_port_type) :=
  [(input_port itrack, MODULE_INPUT_PORT);
   (output_port itrack, MODULE_OUTPUT_PORT);
   (mid_output_port itrack, MODULE_OUTPUT_PORT)].

Definition track_wires (itrack : nat) : list (BasicPort * BasicPort) :=
  [(output_port itrack, input_port itrack); (mid_output_port itrack, input_port itrack)].

Definition port_name (p : BasicPort * e_module_port_type) : string := get_name (fst p).

Lemma track_port_names_NoDup (l : list nat) :
  NoDup l -> NoDup (map port_name (flat_map track_ports l)).
Proof.
  intro Hl.
  assert (P : Permutation
                (map (fun i => get_name (input_port i)) l
                 ++ map (fun i => get_name (output_port i)) l
                 ++ map (fun i => get_name (mid_output_port i)) l)
                (map port_name (flat_map track_ports l))).
  { assert (E : flat_map (fun i => [get_name (input_port i); get_name (output_port i);
                                    get_name (mid_output_port i)]) l
                = map port_name (flat_map track_ports l)).
    { clear Hl. induction l as [|i l IH]; [reflexivity|].
      cbn [flat_map track_ports app map]. now rewrite IH. }
    rewrite <- E.
    exact (perm_three (fun i => get_name (input_port i)) (fun i => get_name (output_port i))
             (fun i => get_name (mid_output_port i)) l). }
  apply (Permutation_NoDup P).
  apply NoDup_app; [|apply NoDup_app|].
  - apply Injective_map_NoDup; [|exact Hl]. intros i j. apply input_port_inj.
  - apply Injective_map_NoDup; [|exact Hl]. intros i j. apply output_port_inj.
  - apply Injective_map_NoDup; [|exact Hl]. intros i j. apply mid_output_port_inj.
  - intros a Ha Hb. apply in_map_iff in Ha, Hb.
    destruct Ha as (i & <- & _), Hb as (j & Hj & _). simpl in Hj. discriminate.
  - intros a Ha Hb. apply in_map_iff in Ha. destruct Ha as (i & <- & _).
    apply in_app_or in Hb. destruct Hb as [Hb | Hb]; apply in_map_iff in Hb;
      destruct Hb as (j & Hj & _); simpl in Hj; discriminate.
Qed.

(** ** What the port loops and the wire loop produce *)

Definition left_port (t : nat * chan_rr_node) : BasicPort * e_module_port_type :=
  match direction (snd t) with
  | DEC_DIRECTION => (output_port (fst t), MODULE_OUTPUT_PORT)
  | _ => (input_port (fst t), MODULE_INPUT_PORT)
  end.

Definition right_port (t : nat * chan_rr_node) : BasicPort * e_module_port_type :=
  match direction (snd t) with
  | DEC_DIRECTION => (input_port (fst t), MODULE_INPUT_PORT)
  | _ => (output_port (fst t), MODULE_OUTPUT_PORT)
  end.

Definition mid_port (t : nat * chan_rr_node) : BasicPort * e_module_port_type :=
  (mid_output_port (fst t), MODULE_OUTPUT_PORT).

Definition unidirectional (n : chan_rr_node) : bool :=
  match direction n with BI_DIRECTION => false | _ => true end.

(** The module of a channel with the nodes [nodes] under the name [name]. *)
Definition module_of_tracks (name : routing_channel_module_name) (nodes : list chan_rr_node)
  : chan_module :=
  {| module_name := name;
     module_ports := map left_port (indexed nodes) ++ map right_port (indexed nodes)
                     ++ map mid_port (indexed nodes);
     wire_connections := flat_map (fun t => track_wires (fst t)) (indexed nodes) |}.

Lemma unidirectional_indexed nodes :
  forallb unidirectional nodes = true ->
  forall t, In t (indexed nodes) -> unidirectional (snd t) = true.
Proof.
  intro H. rewrite forallb_forall in H.
  intros [i n] Hin. apply H. unfold indexed in Hin. now apply in_combine_r in Hin.
Qed.

Lemma bidirectional_indexed nodes :
  forallb unidirectional nodes = false ->
  exists t, In t (indexed nodes) /\ direction (snd t) = BI_DIRECTION.
Proof.
  intro H. unfold indexed. generalize 0%nat.
  induction nodes as [|n nodes IH]; intro k; simpl in H; [discriminate|].
  apply andb_false_iff in H. destruct H as [H | H].
  - exists (k, n). split; [now left|]. unfold unidirectional in H. simpl.
    destruct (direction n); [discriminate | discriminate | reflexivity].
  - destruct (IH H (S k)) as (t & Ht & Hd). exists t. split; [now right | exact Hd].
Qed.

Lemma mid_ports_map nodes :
  flat_map (fun t => [mid_port t]) (indexed nodes) = map mid_port (indexed nodes).
Proof.
  induction (indexed nodes) as [|t l IH]; [reflexivity|].
  cbn [flat_map map app]. now rewrite IH.
Qed.

(** The three port loops and the wire loop, once the directions are known
    to be valid. *)
Ltac run_port_loops Hi :=
  rewrite (foldM_collect left_port);
  [|let Hin := fresh in
    intros ? [? ?] Hin; specialize (Hi _ Hin); unfold left_port, unidirectional in *;
    simpl in *;
    match goal with
    | |- context [direction ?n] =>
        destruct (direction n); [reflexivity | reflexivity | discriminate]
    end];
  cbn [bind app];
  rewrite (foldM_collect right_port);
  [|let Hin := fresh in
    intros ? [? ?] Hin; specialize (Hi _ Hin); unfold right_port, unidirectional in *;
    simpl in *;
    match goal with
    | |- context [direction ?n] =>
        destruct (direction n); [reflexivity | reflexivity | discriminate]
    end];
  cbn [bind];
  rewrite (fold_left_append (fun t => [mid_port t]));
  rewrite (fold_left_append
             (fun t : nat * chan_rr_node =>
                [(output_port (fst t), input_port (fst t));
                 (mid_output_port (fst t), input_port (fst t))]));
  rewrite mid_ports_map, <- app_assoc; reflexivity.

Lemma print_verilog_routing_unique_chan_subckt_returns id rr_chan :
  is_chan (get_type rr_chan) = true ->
  forallb unidirectional (get_node rr_chan) = true ->
  print_verilog_routing_unique_chan_subckt id rr_chan
  = Some (module_of_tracks (unique_channel_module_name (get_type rr_chan) id)
            (get_node rr_chan)).
Proof.
  intros Ht H. pose proof (unidirectional_indexed _ H) as Hi.
  unfold print_verilog_routing_unique_chan_subckt, module_of_tracks.
  replace (match get_type rr_chan with CHANX | CHANY => Some tt | _ => exit end)
    with (Some tt) by (destruct (get_type rr_chan); try discriminate; reflexivity).
  cbn [bind]. run_port_loops Hi.
Qed.

Lemma print_verilog_routing_unique_chan_subckt_stops id rr_chan :
  forallb unidirectional (get_node rr_chan) = false ->
  print_verilog_routing_unique_chan_subckt id rr_chan = None.
Proof.
  intro H. destruct (bidirectional_indexed _ H) as ([i n] & Hin & Hd). simpl in Hd.
  unfold print_verilog_routing_unique_chan_subckt.
  destruct (match get_type rr_chan with CHANX | CHANY => Some tt | _ => exit end);
    [|reflexivity].
  cbn [bind].
  rewrite (foldM_stops _ _ _ (i, n) Hin); [reflexivity|].
  intro a. now rewrite Hd.
Qed.

Lemma print_verilog_routing_chan_subckt_returns get_chan_rr_nodes coord chan_type :
  is_chan chan_type = true ->
  forallb unidirectional (get_chan_rr_nodes chan_type (fst coord) (snd coord)) = true ->
  print_verilog_routing_chan_subckt get_chan_rr_nodes coord chan_type
  = Some (module_of_tracks (channel_module_name chan_type coord)
            (get_chan_rr_nodes chan_type (fst coord) (snd coord))).
Proof.
  intros Ht H. pose proof (unidirectional_indexed _ H) as Hi.
  unfold print_verilog_routing_chan_subckt, module_of_tracks.
  replace (match chan_type with CHANX | CHANY => Some tt | _ => exit end)
    with (Some tt) by (destruct chan_type; try discriminate; reflexivity).
  cbn [bind]. run_port_loops Hi.
Qed.

Lemma print_verilog_routing_chan_subckt_stops get_chan_rr_nodes coord chan_type :
  forallb unidirectional (get_chan_rr_nodes chan_type (fst coord) (snd coord)) = false ->
  print_verilog_routing_chan_subckt get_chan_rr_nodes coord chan_type = None.
Proof.
  intro H. destruct (bidirectional_indexed _ H) as ([i n] & Hin & Hd). simpl in Hd.
  unfold print_verilog_routing_chan_subckt.
  destruct (match chan_type with CHANX | CHANY => Some tt | _ => exit end);
    [|reflexivity].
  cbn [bind].
  rewrite (foldM_stops _ _ _ (i, n) Hin); [reflexivity|].
  intro a. now rewrite Hd.
Qed.

Lemma module_ports_permutation nodes :
  Permutation (map left_port (indexed nodes) ++ map right_port (indexed nodes)
               ++ map mid_port (indexed nodes))
              (flat_map track_ports (seq 0 (List.length nodes))).
Proof.
  etransitivity; [apply perm_three|].
  rewrite <- map_fst_indexed, <- flat_map_fst.
  apply flat_map_perm. intros [i n] _. unfold left_port, right_port, mid_port, track_ports.
  simpl. destruct (direction n); try apply Permutation_refl. apply perm_swap.
Qed.


Lemma indexed_length {A : Type} (l : list A) : List.length (indexed l) = List.length l.
Proof. unfold indexed. rewrite length_combine, length_seq. apply Nat.min_id. Qed.

Lemma in_indexed_lt {A : Type} (l : list A) (t : nat * A) :
  In t (indexed l) -> (fst t < List.length l)%nat.
Proof.
  destruct t as [i x]. unfold indexed. intro H. apply in_combine_l in H.
  apply in_seq in H. simpl. lia.
Qed.

(** A map over the cells of [l1 ++ l2] with their positions. *)
Lemma map_combine_shift {A B : Type} (F : nat -> A -> B) (d : nat) (l : list A) :
  forall a,
    map (fun t => F (fst t) (snd t)) (combine (seq (d + a) (List.length l)) l)
    = map (fun t => F (d + fst t)%nat (snd t)) (combine (seq a (List.length l)) l).
Proof.
  induction l as [|x l IH]; intro a; [reflexivity|].
  cbn [List.length seq combine map fst snd]. f_equal.
  rewrite <- Nat.add_succ_r. apply IH.
Qed.

Lemma map_indexed_app {A B : Type} (F : nat -> A -> B) (l1 l2 : list A) :
  map (fun t => F (fst t) (snd t)) (indexed (l1 ++ l2))
  = map (fun t => F (fst t) (snd t)) (indexed l1)
    ++ map (fun t => F (List.length l1 + fst t)%nat (snd t)) (indexed l2).
Proof.
  unfold indexed.
  assert (G : forall k,
             map (fun t => F (fst t) (snd t))
                 (combine (seq k (List.length (l1 ++ l2))) (l1 ++ l2))
             = map (fun t => F (fst t) (snd t)) (combine (seq k (List.length l1)) l1)
               ++ map (fun t => F (fst t) (snd t))
                      (combine (seq (List.length l1 + k) (List.length l2)) l2)).
  { induction l1 as [|x l1 IH]; intro k; [reflexivity|].
    cbn [app List.length seq combine map fst snd]. rewrite IH.
    now rewrite Nat.add_succ_r. }
  rewrite (G 0%nat). f_equal. apply map_combine_shift.
Qed.

Lemma map_indexed_map {A B C : Type} (F : nat -> B -> C) (g : nat * A -> B) (l : list A) :
  map (fun t => F (fst t) (snd t)) (indexed (map g (indexed l)))
  = map (fun t => F (fst t) (g t)) (indexed l).
Proof.
  unfold indexed. rewrite length_map, length_combine, length_seq, Nat.min_id.
  generalize 0%nat. induction l as [|x l IH]; intro k; [reflexivity|].
  cbn [List.length seq combine map fst snd]. now rewrite IH.
Qed.


Lemma fold_left_appends {A X : Type} (g : X -> list A) (f : list A -> X -> list A)
  (l : list X) (acc : list A) :
  (forall acc x, f acc x = acc ++ g x) -> fold_left f l acc = acc ++ flat_map g l.
Proof.
  intro H. revert acc; induction l as [|x l IH]; intro acc; simpl.
  - now rewrite app_nil_r.
  - now rewrite IH, H, app_assoc.
Qed.

Lemma map_over_flat_map {A B X : Type} (f : A -> B) (g : X -> list A) (l : list X) :
  map f (flat_map g l) = flat_map (fun x => map f (g x)) l.
Proof. induction l as [|x l IH]; simpl; [reflexivity | now rewrite map_app, IH]. Qed.

(** ** The text of a module *)

Definition keyword_of (t : e_module_port_type) : verilog_port_keyword :=
  match t with MODULE_OUTPUT_PORT => output | _ => input end.

(** The lines that declare the ports of a module, every declaration but
    the last followed by a comma, and the lines of its wire connections. *)
Definition text_of (m : chan_module) : list verilog_line :=
  map (fun kp => port_declaration (keyword_of (snd (snd kp))) (get_name (fst (snd kp)))
                   (Nat.ltb (S (fst kp)) (List.length (module_ports m))))
      (indexed (module_ports m))
  ++ map (fun w => assign (get_name (fst w)) (get_name (snd w))) (wire_connections m).

Definition left_line (t : nat * chan_rr_node) : verilog_line :=
  match direction (snd t) with
  | DEC_DIRECTION => port_declaration output ("out" ++ to_string (N.of_nat (fst t))) true
  | _ => port_declaration input ("in" ++ to_string (N.of_nat (fst t))) true
  end.

Definition right_line (t : nat * chan_rr_node) : verilog_line :=
  match direction (snd t) with
  | DEC_DIRECTION => port_declaration input ("in" ++ to_string (N.of_nat (fst t))) true
  | _ => port_declaration output ("out" ++ to_string (N.of_nat (fst t))) true
  end.

Definition mid_line (width : nat) (t : nat * chan_rr_node) : verilog_line :=
  port_declaration output ("mid_out" ++ to_string (N.of_nat (fst t)))
    (Nat.ltb (fst t) (width - 1)).

Definition assign_lines (t : nat * chan_rr_node) : list verilog_line :=
  [assign ("out" ++ to_string (N.of_nat (fst t))) ("in" ++ to_string (N.of_nat (fst t)));
   assign ("mid_out" ++ to_string (N.of_nat (fst t))) ("in" ++ to_string (N.of_nat (fst t)))].

Lemma dump_verilog_routing_chan_subckt_value id rr_chan :
  is_chan (get_type rr_chan) = true ->
  forallb unidirectional (get_node rr_chan) = true ->
  dump_verilog_routing_chan_subckt id rr_chan
  = Some (map left_line (indexed (get_node rr_chan))
          ++ map right_line (indexed (get_node rr_chan))
          ++ map (mid_line (List.length (get_node rr_chan))) (indexed (get_node rr_chan))
          ++ flat_map assign_lines (indexed (get_node rr_chan))).
Proof.
  intros Ht H. rewrite forallb_forall in H.
  assert (Hi : forall t, In t (indexed (get_node rr_chan)) ->
                         unidirectional (snd t) = true).
  { intros [i n] Hin. apply H. unfold indexed in Hin. now apply in_combine_r in Hin. }
  unfold dump_verilog_routing_chan_subckt.
  replace (match get_type rr_chan with CHANX | CHANY => Some tt | _ => exit end)
    with (Some tt) by (destruct (get_type rr_chan); try discriminate; reflexivity).
  cbn [bind].
  rewrite (foldM_collect left_line).
  2:{ intros acc [i n] Hin. specialize (Hi _ Hin). unfold left_line, unidirectional in *.
      simpl in *. destruct (direction n); [reflexivity | reflexivity | discriminate]. }
  cbn [bind app].
  rewrite (foldM_collect right_line).
  2:{ intros acc [i n] Hin. specialize (Hi _ Hin). unfold right_line, unidirectional in *.
      simpl in *. destruct (direction n); [reflexivity | reflexivity | discriminate]. }
  cbn [bind].
  rewrite (fold_left_appends assign_lines).
  2:{ intros acc t. unfold print_line, assign_lines. now rewrite <- app_assoc. }
  rewrite (fold_left_appends (fun t => [mid_line (List.length (get_node rr_chan)) t])).
  2:{ intros acc t. reflexivity. }
  assert (E : flat_map (fun t => [mid_line (List.length (get_node rr_chan)) t])
                (indexed (get_node rr_chan))
              = map (mid_line (List.length (get_node rr_chan))) (indexed (get_node rr_chan))).
  { clear. induction (indexed (get_node rr_chan)) as [|t l IH]; [reflexivity|].
    cbn [flat_map map app]. now rewrite IH. }
  rewrite E, <- !app_assoc. reflexivity.
Qed.

Lemma dump_verilog_routing_chan_subckt_stops id rr_chan :
  forallb unidirectional (get_node rr_chan) = false ->
  dump_verilog_routing_chan_subckt id rr_chan = None.
Proof.
  intro H.
  assert (E : exists t, In t (indexed (get_node rr_chan))
                        /\ direction (snd t) = BI_DIRECTION).
  { unfold indexed. generalize 0%nat.
    induction (get_node rr_chan) as [|n nodes IH]; intro k; simpl in H; [discriminate|].
    apply andb_false_iff in H. destruct H as [H | H].
    - exists (k, n). split; [now left|]. unfold unidirectional in H. simpl.
      destruct (direction n); [discriminate | discriminate | reflexivity].
    - destruct (IH H (S k)) as (t & Ht & Hd). exists t. split; [now right | exact Hd]. }
  destruct E as ([i n] & Hin & Hd). simpl in Hd.
  unfold dump_verilog_routing_chan_subckt.
  destruct (match get_type rr_chan with CHANX | CHANY => Some tt | _ => exit end);
    [|reflexivity].
  cbn [bind].
  rewrite (foldM_stops _ _ _ (i, n) Hin); [reflexivity|].
  intro a. now rewrite Hd.
Qed.

Lemma text_of_chan_module name nodes :
  forallb unidirectional nodes = true ->
  text_of (module_of_tracks name nodes)
  = map left_line (indexed nodes) ++ map right_line (indexed nodes)
    ++ map (mid_line (List.length nodes)) (indexed nodes)
    ++ flat_map assign_lines (indexed nodes).
Proof.
  intro H. unfold text_of, module_of_tracks. cbn [module_ports wire_connections].
  rewrite !length_app, !length_map, !indexed_length.
  set (w := List.length nodes).
  set (F := fun (k : nat) (p : BasicPort * e_module_port_type) =>
              port_declaration (keyword_of (snd p)) (get_name (fst p))
                (Nat.ltb (S k) (w + (w + w)))).
  change (map (fun kp => port_declaration (keyword_of (snd (snd kp)))
                           (get_name (fst (snd kp)))
                           (Nat.ltb (S (fst kp)) (w + (w + w)))))
    with (map (fun t : nat * (BasicPort * e_module_port_type) => F (fst t) (snd t))).
  rewrite map_indexed_app,
    (map_indexed_app (fun k => F (List.length (map left_port (indexed nodes)) + k)%nat)).
  rewrite !length_map, !indexed_length. fold w.
  rewrite (map_indexed_map F left_port),
    (map_indexed_map (fun k => F (w + k)%nat) right_port),
    (map_indexed_map (fun k => F (w + (w + k))%nat) mid_port).
  rewrite <- !app_assoc. f_equal; [|f_equal; [|f_equal]].
  - apply map_ext_in. intros [i n] Hin. apply in_indexed_lt in Hin. simpl in Hin. fold w in Hin.
    unfold F, left_port, left_line. simpl.
    replace (Nat.ltb (S i) (w + (w + w))) with true by (symmetry; apply Nat.ltb_lt; lia).
    destruct (direction n); reflexivity.
  - apply map_ext_in. intros [i n] Hin. apply in_indexed_lt in Hin. simpl in Hin. fold w in Hin.
    unfold F, right_port, right_line. simpl.
    replace (Nat.ltb (S (w + i)) (w + (w + w))) with true
      by (symmetry; apply Nat.ltb_lt; lia).
    destruct (direction n); reflexivity.
  - apply map_ext_in. intros [i n] Hin. apply in_indexed_lt in Hin. simpl in Hin. fold w in Hin.
    unfold F, mid_port, mid_line. simpl. f_equal.
    destruct (Nat.ltb_spec i (w - 1)); [apply Nat.ltb_lt | apply Nat.ltb_ge]; lia.
  - rewrite map_over_flat_map. reflexivity.
Qed.


(** ** Example channels *)

Definition track (d : e_direction) : chan_rr_node := {| direction := d; cost_index := 0 |}.

(** Three tracks: two in the increasing direction around one in the
    decreasing direction. *)
Definition chanx_3 : RRChan :=
  {| get_type := CHANX;
     get_node := [track INC_DIRECTION; track DEC_DIRECTION; track INC_DIRECTION] |}.

Definition chanx_bidirectional : RRChan :=
  {| get_type := CHANX; get_node := [track INC_DIRECTION; track BI_DIRECTION] |}.

Lemma print_verilog_routing_unique_chan_subckt_value id rr_chan m :
  print_verilog_routing_unique_chan_subckt id rr_chan = Some m ->
  is_chan (get_type rr_chan) = true
  /\ forallb unidirectional (get_node rr_chan) = true
  /\ m = module_of_tracks (unique_channel_module_name (get_type rr_chan) id)
           (get_node rr_chan).
Proof.
  intro H.
  assert (Ht : is_chan (get_type rr_chan) = true).
  { unfold print_verilog_routing_unique_chan_subckt in H.
    destruct (get_type rr_chan); try discriminate; reflexivity. }
  destruct (forallb unidirectional (get_node rr_chan)) eqn:Hu.
  - rewrite (print_verilog_routing_unique_chan_subckt_returns _ _ Ht Hu) in H.
    injection H as <-. repeat split; reflexivity || assumption.
  - now rewrite (print_verilog_routing_unique_chan_subckt_stops _ _ Hu) in H.
Qed.

Lemma in_track_ports (l : list nat) (p : BasicPort) (t : e_module_port_type) :
  In (p, t) (flat_map track_ports l)
  <-> exists i, In i l
        /\ ((p = input_port i /\ t = MODULE_INPUT_PORT)
            \/ (p = output_port i /\ t = MODULE_OUTPUT_PORT)
            \/ (p = mid_output_port i /\ t = MODULE_OUTPUT_PORT)).
Proof.
  rewrite in_flat_map. split.
  - intros (i & Hi & Hp). exists i. split; [exact Hi|]. unfold track_ports in Hp.
    simpl in Hp. destruct Hp as [[= <- <-] | [[= <- <-] | [[= <- <-] | []]]]; auto.
  - intros (i & Hi & Hp). exists i. split; [exact Hi|]. unfold track_ports. simpl.
    destruct Hp as [(-> & ->) | [(-> & ->) | (-> & ->)]]; auto.
Qed.

Lemma in_track_wires (l : list nat) (w : BasicPort * BasicPort) :
  In w (flat_map track_wires l)
  <-> exists i, In i l
        /\ (w = (output_port i, input_port i) \/ w = (mid_output_port i, input_port i)).
Proof.
  rewrite in_flat_map. split.
  - intros (i & Hi & Hw). exists i. split; [exact Hi|]. simpl in Hw.
    destruct Hw as [<- | [<- | []]]; auto.
  - intros (i & Hi & Hw). exists i. split; [exact Hi|]. simpl.
    destruct Hw as [-> | ->]; auto.
Qed.

Lemma driven_names_NoDup (l : list nat) :
  NoDup l -> NoDup (map (fun w => get_name (fst w)) (flat_map track_wires l)).
Proof.
  induction l as [|i l IH]; intro Hl; [constructor|].
  inversion Hl as [|? ? Hi Hl']; subst.
  cbn [flat_map track_wires app map fst].
  assert (Hrest : forall a, In a (map (fun w => get_name (fst w)) (flat_map track_wires l)) ->
                    exists j, In j l /\ (a = get_name (output_port j)
                                         \/ a = get_name (mid_output_port j))).
  { intros a Ha. apply in_map_iff in Ha. destruct Ha as (w & <- & Hw).
    apply in_track_wires in Hw. destruct Hw as (j & Hj & [-> | ->]); exists j; auto. }
  constructor; [|constructor; [|now apply IH]].
  - intros [H | H].
    + simpl in H. discriminate.
    + destruct (Hrest _ H) as (j & Hj & [E | E]).
      * apply output_port_inj in E. now subst.
      * simpl in E. discriminate.
  - intro H. destruct (Hrest _ H) as (j & Hj & [E | E]).
    + simpl in E. discriminate.
    + apply mid_output_port_inj in E. now subst.
Qed.

(** ** The properties *)

(** X10.  [print_verilog_routing_unique_chan_subckt] returns exactly for a
    channel of type CHANX or CHANY none of whose tracks is bidirectional.
    The module it builds has three ports of width 1 per track, the input
    [in<i>] and the outputs [out<i>] and [mid_out<i>], and no two ports of
    the module have the same name.  For a channel at a coordinate, of the
    same type and whose nodes [get_chan_rr_nodes] collects as the nodes of
    the unique channel, [print_verilog_routing_chan_subckt] stops when
    the other function stops and builds a module with the same ports and
    the same wire connections; the modules differ in their names, which
    are made from the coordinate and from the index of the unique
    channel. *)
Theorem channel_module_has_three_ports_per_track id rr_chan :
  (print_verilog_routing_unique_chan_subckt id rr_chan <> None
   <-> is_chan (get_type rr_chan) = true
       /\ forallb unidirectional (get_node rr_chan) = true)
  /\ (forall m,
        print_verilog_routing_unique_chan_subckt id rr_chan = Some m ->
        Permutation (module_ports m)
          (flat_map track_ports (seq 0 (List.length (get_node rr_chan))))
        /\ NoDup (map port_name (module_ports m))
        /\ module_name m = unique_channel_module_name (get_type rr_chan) id)
  /\ (forall get_chan_rr_nodes coord,
        get_chan_rr_nodes (get_type rr_chan) (fst coord) (snd coord) = get_node rr_chan ->
        option_map (fun m => (module_ports m, wire_connections m))
          (print_verilog_routing_chan_subckt get_chan_rr_nodes coord (get_type rr_chan))
        = option_map (fun m => (module_ports m, wire_connections m))
            (print_verilog_routing_unique_chan_subckt id rr_chan)
        /\ (forall m,
              print_verilog_routing_chan_subckt get_chan_rr_nodes coord (get_type rr_chan)
              = Some m ->
              module_name m = channel_module_name (get_type rr_chan) coord)).
Proof.
  split; [|split].
  - split.
    + intro H. destruct (print_verilog_routing_unique_chan_subckt id rr_chan) as [m|] eqn:E;
        [|now elim H].
      destruct (print_verilog_routing_unique_chan_subckt_value _ _ _ E) as (Ht & Hu & _).
      now split.
    + intros (Ht & Hu).
      rewrite (print_verilog_routing_unique_chan_subckt_returns _ _ Ht Hu). discriminate.
  - intros m E.
    destruct (print_verilog_routing_unique_chan_subckt_value _ _ _ E) as (_ & _ & ->).
    cbn [module_ports module_name module_of_tracks].
    pose proof (module_ports_permutation (get_node rr_chan)) as P.
    split; [exact P|]. split; [|reflexivity].
    apply (Permutation_NoDup (Permutation_sym (Permutation_map port_name P))).
    apply track_port_names_NoDup, seq_NoDup.
  - intros get_chan_rr_nodes coord Hnodes.
    destruct (is_chan (get_type rr_chan)) eqn:Ht.
    + destruct (forallb unidirectional (get_node rr_chan)) eqn:Hu.
      * rewrite (print_verilog_routing_unique_chan_subckt_returns _ _ Ht Hu).
        rewrite print_verilog_routing_chan_subckt_returns by (rewrite ?Hnodes; assumption).
        rewrite Hnodes. split; [reflexivity|]. now intros m [= <-].
      * rewrite (print_verilog_routing_unique_chan_subckt_stops _ _ Hu).
        rewrite print_verilog_routing_chan_subckt_stops by (rewrite Hnodes; assumption).
        split; [reflexivity | discriminate].
    + unfold print_verilog_routing_chan_subckt, print_verilog_routing_unique_chan_subckt.
      destruct (get_type rr_chan); try discriminate; (split; [reflexivity | discriminate]).
Qed.

Lemma channel_module_has_three_ports_per_track_witness :
  exists m,
    print_verilog_routing_unique_chan_subckt 0 chanx_3 = Some m
    /\ Permutation (module_ports m) (flat_map track_ports (seq 0 3))
    /\ NoDup (map port_name (module_ports m))
    /\ module_name m = unique_channel_module_name CHANX 0.
Proof.
  destruct (channel_module_has_three_ports_per_track 0 chanx_3) as (_ & H & _).
  eexists. split; [reflexivity|]. apply H. reflexivity.
Defined.

(** The two functions on the tracks of the example: the same ports under
    two names. *)
Example channel_at_a_coordinate :
  option_map module_name
    (print_verilog_routing_chan_subckt (fun _ _ _ => get_node chanx_3) (1, 0)%N CHANX)
  = Some (channel_module_name CHANX (1, 0)%N)
  /\ option_map module_name (print_verilog_routing_unique_chan_subckt 0 chanx_3)
     = Some (unique_channel_module_name CHANX 0)
  /\ option_map module_ports
       (print_verilog_routing_chan_subckt (fun _ _ _ => get_node chanx_3) (1, 0)%N CHANX)
     = option_map module_ports (print_verilog_routing_unique_chan_subckt 0 chanx_3).
Proof. repeat split. Qed.

(** X11.  In the module of a channel every output port is driven by
    exactly one wire connection and every wire connection is driven by an
    input port of the module: for each track, [out<i>] and [mid_out<i>]
    are connected to [in<i>], and to nothing else. *)
Theorem channel_module_drives_every_output_from_its_input id rr_chan m :
  print_verilog_routing_unique_chan_subckt id rr_chan = Some m ->
  wire_connections m = flat_map track_wires (seq 0 (List.length (get_node rr_chan)))
  /\ NoDup (map (fun w => get_name (fst w)) (wire_connections m))
  /\ (forall p, In (p, MODULE_OUTPUT_PORT) (module_ports m)
                <-> In p (map fst (wire_connections m)))
  /\ Forall (fun w => In (snd w, MODULE_INPUT_PORT) (module_ports m)) (wire_connections m).
Proof.
  intro E.
  destruct (print_verilog_routing_unique_chan_subckt_value _ _ _ E) as (_ & _ & ->).
  cbn [module_ports wire_connections module_of_tracks].
  pose proof (module_ports_permutation (get_node rr_chan)) as P.
  set (idx := seq 0 (List.length (get_node rr_chan))) in *.
  assert (Hw : flat_map (fun t : nat * chan_rr_node => track_wires (fst t))
                 (indexed (get_node rr_chan)) = flat_map track_wires idx).
  { rewrite flat_map_fst, map_fst_indexed. reflexivity. }
  rewrite Hw. split; [reflexivity|]. split; [apply driven_names_NoDup, seq_NoDup|]. split.
  - intro p. split.
    + intro H. apply (Permutation_in _ P) in H. apply in_track_ports in H.
      destruct H as (i & Hi & [(_ & [=]) | [(-> & _) | (-> & _)]]).
      * apply in_map_iff. exists (output_port i, input_port i). split; [reflexivity|].
        apply in_track_wires. exists i. auto.
      * apply in_map_iff. exists (mid_output_port i, input_port i). split; [reflexivity|].
        apply in_track_wires. exists i. auto.
    + intro H. apply in_map_iff in H. destruct H as (w & <- & H).
      apply in_track_wires in H. destruct H as (i & Hi & [-> | ->]);
        apply (Permutation_in _ (Permutation_sym P)); apply in_track_ports; exists i;
        simpl; auto.
  - apply Forall_forall. intros w H. apply in_track_wires in H.
    destruct H as (i & Hi & [-> | ->]);
      apply (Permutation_in _ (Permutation_sym P)); apply in_track_ports; exists i;
      simpl; auto.
Qed.

Lemma channel_module_drives_every_output_from_its_input_witness :
  exists m,
    print_verilog_routing_unique_chan_subckt 0 chanx_3 = Some m
    /\ wire_connections m = flat_map track_wires (seq 0 3)
    /\ NoDup (map (fun w => get_name (fst w)) (wire_connections m)).
Proof.
  eexists. split; [reflexivity|].
  destruct (channel_module_drives_every_output_from_its_input 0 chanx_3 _ eq_refl)
    as (H1 & H2 & _).
  split; [exact H1 | exact H2].
Defined.

(** X12.  The text that [dump_verilog_routing_chan_subckt] prints for a
    unique channel is the text of the module that
    [print_verilog_routing_unique_chan_subckt] builds for it: the same
    port declarations in the same order, every declaration but the last
    followed by a comma, then the same connections; and the one function
    stops exactly when the other does. *)
Theorem channel_text_is_the_text_of_the_channel_module id rr_chan :
  dump_verilog_routing_chan_subckt id rr_chan
  = option_map text_of (print_verilog_routing_unique_chan_subckt id rr_chan).
Proof.
  destruct (is_chan (get_type rr_chan)) eqn:Ht.
  - destruct (forallb unidirectional (get_node rr_chan)) eqn:Hu.
    + rewrite (dump_verilog_routing_chan_subckt_value _ _ Ht Hu).
      rewrite (print_verilog_routing_unique_chan_subckt_returns _ _ Ht Hu).
      cbn [option_map]. now rewrite (text_of_chan_module _ _ Hu).
    + rewrite (dump_verilog_routing_chan_subckt_stops _ _ Hu).
      now rewrite (print_verilog_routing_unique_chan_subckt_stops _ _ Hu).
  - unfold dump_verilog_routing_chan_subckt, print_verilog_routing_unique_chan_subckt.
    destruct (get_type rr_chan); try discriminate; reflexivity.
Qed.

(** The text of the example: eight declarations with a comma, the last
    without, and six connections. *)
Example text_of_chanx_3 :
  option_map (map (fun l => match l with
                            | port_declaration _ _ c => Some c
                            | assign _ _ => None
                            end)) (dump_verilog_routing_chan_subckt 0 chanx_3)
  = Some (repeat (Some true) 8 ++ [Some false] ++ repeat None 6).
Proof. vm_compute. reflexivity. Qed.

Example bidirectional_track_stops :
  print_verilog_routing_unique_chan_subckt 0 chanx_bidirectional = None
  /\ dump_verilog_routing_chan_subckt 0 chanx_bidirectional = None.
Proof. split; reflexivity. Qed.

End Channels.

(* ====================================================================== *)
(** * Part 6: connection blocks *)
(* ====================================================================== *)

Module ConnectionBlocks.
Import Routing.
Local Open Scope Z_scope.

(** ** Data *)

(** A pin as the connection-block functions read it: of the node
    [cb_node] they read the type, [num_drive_rr_nodes] and
    [drive_switches]; next to it are kept [fan_in], which the switch-block
    functions do not read, and what they read of the drivers
    [drive_rr_nodes[i]] (their type), of [ptc_num], [xlow] and [ylow]. *)
Record cb_rr_node := {
  cb_node : t_rr_node;
  fan_in : Z;
  drive_rr_nodes : list t_rr_node;
  ptc_num : Z;
  xlow : Z;
  ylow : Z
}.

(** The per-coordinate, per-channel-type records of the connection blocks
    in the device-wide store, in the order in which they were written.
    The three numbers of a record are those of a switch block. *)
Definition cb_conf_store : Type := list (N * N * t_rr_type * sb_conf_bits).

(** Modelled from the spec: the three setters
    [set_cb_num_reserved_conf_bits], [set_cb_conf_bits_lsb] and
    [set_cb_conf_bits_msb] of the absent class store, at the coordinate and
    for the channel type they are given, the "configuration-bit range
    [lsb, msb] and a reserved-bit count" of a block instance. *)
Definition set_cb_conf_bits (store : cb_conf_store) (coordinator : N * N)
  (cb_type : t_rr_type) (reserved lsb msb : Z) : cb_conf_store :=
  store ++ [(coordinator, cb_type,
             {| sb_num_reserved_conf_bits := reserved;
                sb_conf_bits_lsb := lsb; sb_conf_bits_msb := msb |})].

Ltac inv_bind H :=
  let a := fresh "a" in
  let E := fresh "E" in
  apply bind_Some in H; destruct H as (a & E & H).

Section ConnectionBoxes.

#[local] Set Default Proof Using "Type".

(** The global switch table, the grid size and the grid, and the methods
    of the class [RRGSB] and the helpers on the global node array that are
    defined in files that are not embedded. *)
Variable switch_inf : Z -> t_switch_inf.
Variables nx ny : Z.
(** [grid[x][y].type], [None] for [NULL]. *)
Variable grid_type : Z -> Z -> option t_type.
Variable get_grid_pin_height : Z -> Z -> Z -> Z.
(** [rr_gsb.get_cb_ipin_sides(cb_type)] *)
Variable get_cb_ipin_sides : RRGSB -> t_rr_type -> list nat.
(** [rr_gsb.get_ipin_node(side, inode)] for [inode < get_num_ipin_nodes(side)] *)
Variable get_ipin_nodes : RRGSB -> nat -> list cb_rr_node.
Variable get_ipin_node_grid_side : RRGSB -> nat -> nat -> Z.
(** [rr_gsb.get_node_side_and_index(node, OUT_PORT, &side, &index)]:
    [None] when no side or no index is found. *)
Variable get_node_side_and_index : RRGSB -> cb_rr_node -> option (nat * nat).
(** [rr_gsb.get_cb_chan_node_index(cb_type, drive_rr_node)], -1 when the
    driver is not a track of the block. *)
Variable get_cb_chan_node_index : RRGSB -> t_rr_type -> t_rr_node -> Z.
(** The number of edges of a driver that lead, in the global node array,
    to the pin: the value of [check_flag] after the loop on
    [drive_rr_node->edges]. *)
Variable num_edges_to : t_rr_node -> cb_rr_node -> Z.

(** The opposite of a side, the circuit models of the switches and the
    validity of the memory model, parameters of the switch-block
    functions. *)
Variable get_opposite : nat -> option nat.
Variable rr_switches : Z -> circuit_model.
Variable sram_model_is_valid : t_sram_orgz_info -> bool.

(** [dump_verilog_grid_side_pin_with_given_index] on this grid. *)
Local Abbreviation dump_verilog_grid_side_pin_with_given_index :=
  (Routing.dump_verilog_grid_side_pin_with_given_index
     nx ny grid_type get_grid_pin_height).

(** ** Bits of one pin *)

(** The node is read before it is tested for [NULL]: the two functions
    are defined on a node. *)
Definition count_verilog_connection_box_interc_conf_bits
  (cur_sram_orgz_info : t_sram_orgz_info) (cur_rr_node : cb_rr_node) : option Z :=
  let num_drive_rr_nodes := num_drive_rr_nodes (cb_node cur_rr_node) in
  (* fan_in >= 2 implies a MUX and requires configuration bits *)
  if 2 >? num_drive_rr_nodes then Some 0
  else
    switch_idx <- nth_error (drive_switches (cb_node cur_rr_node)) 0 ;;
    _ <- assert (-1 <? switch_idx) ;;
    _ <- assert (match spice_model_type (spice_model (switch_inf switch_idx)) with
                 | SPICE_MODEL_MUX => true
                 | _ => false
                 end) ;;
    Some (Z.of_N (count_num_conf_bits_one_spice_model
                    (spice_model (switch_inf switch_idx))
                    (sram_orgz_type cur_sram_orgz_info) num_drive_rr_nodes)).

Definition count_verilog_connection_box_interc_reserved_conf_bits
  (cur_sram_orgz_info : t_sram_orgz_info) (cur_rr_node : cb_rr_node) : option Z :=
  let num_drive_rr_nodes := num_drive_rr_nodes (cb_node cur_rr_node) in
  (* fan_in >= 2 implies a MUX and requires configuration bits *)
  if 2 >? num_drive_rr_nodes then Some 0
  else
    switch_idx <- nth_error (drive_switches (cb_node cur_rr_node)) 0 ;;
    _ <- assert (-1 <? switch_idx) ;;
    _ <- assert (match spice_model_type (spice_model (switch_inf switch_idx)) with
                 | SPICE_MODEL_MUX => true
                 | _ => false
                 end) ;;
    Some (Z.of_N (count_num_reserved_conf_bits_one_spice_model
                    (spice_model (switch_inf switch_idx))
                    (sram_orgz_type cur_sram_orgz_info) num_drive_rr_nodes)).

(** ** Bits of a side and of a block *)

Definition count_verilog_connection_box_one_side_conf_bits
  (cur_sram_orgz_info : t_sram_orgz_info) (rr_gsb : RRGSB) (cb_side : nat) : option Z :=
  foldM (fun num_conf_bits ipin =>
    n <- count_verilog_connection_box_interc_conf_bits cur_sram_orgz_info ipin ;;
    Some (num_conf_bits + n))
    (get_ipin_nodes rr_gsb cb_side) 0.

Definition count_verilog_connection_box_one_side_reserved_conf_bits
  (cur_sram_orgz_info : t_sram_orgz_info) (rr_gsb : RRGSB) (cb_side : nat) : option Z :=
  foldM (fun num_reserved_conf_bits ipin =>
    temp_num_reserved_conf_bits <-
      count_verilog_connection_box_interc_reserved_conf_bits cur_sram_orgz_info ipin ;;
    Some (Z.max temp_num_reserved_conf_bits num_reserved_conf_bits))
    (get_ipin_nodes rr_gsb cb_side) 0.

(** Count the number of configuration bits of a connection box *)
Definition count_verilog_connection_box_conf_bits
  (cur_sram_orgz_info : t_sram_orgz_info) (rr_gsb : RRGSB) (cb_type : t_rr_type)
  : option Z :=
  let cb_sides := get_cb_ipin_sides rr_gsb cb_type in
  foldM (fun num_conf_bits cb_ipin_side =>
    n <- count_verilog_connection_box_one_side_conf_bits
           cur_sram_orgz_info rr_gsb cb_ipin_side ;;
    Some (num_conf_bits + n))
    cb_sides 0.

(** Count the number of reserved configuration bits of a connection box *)
Definition count_verilog_connection_box_reserved_conf_bits
  (cur_sram_orgz_info : t_sram_orgz_info) (rr_gsb : RRGSB) (cb_type : t_rr_type)
  : option Z :=
  let cb_sides := get_cb_ipin_sides rr_gsb cb_type in
  foldM (fun num_reserved_conf_bits cb_ipin_side =>
    temp_num_reserved_conf_bits <-
      count_verilog_connection_box_one_side_reserved_conf_bits
        cur_sram_orgz_info rr_gsb cb_ipin_side ;;
    (* Only consider the largest reserved configuration bits *)
    Some (Z.max num_reserved_conf_bits temp_num_reserved_conf_bits))
    cb_sides 0.

(** ** [update_routing_connection_box_conf_bits] *)

Definition update_routing_connection_box_conf_bits (cur_sram_orgz_info : t_sram_orgz_info)
  (device_rr_gsb : cb_conf_store) (rr_gsb : RRGSB) (cb_type : t_rr_type)
  : option (t_sram_orgz_info * cb_conf_store) :=
  let '(cur_num_bl, cur_num_wl) := get_sram_orgz_info_num_blwl cur_sram_orgz_info in
  let gsb_coordinator := (get_sb_x rr_gsb, get_sb_y rr_gsb) in
  (* Count the number of configuration bits to be consumed by this block *)
  num_conf_bits <-
    count_verilog_connection_box_conf_bits cur_sram_orgz_info rr_gsb cb_type ;;
  (* Count the number of reserved configuration bits *)
  num_reserved_conf_bits <-
    count_verilog_connection_box_reserved_conf_bits cur_sram_orgz_info rr_gsb cb_type ;;
  (* Estimate the sram_verilog_model->cnt *)
  let cur_num_sram := get_sram_orgz_info_num_mem_bit cur_sram_orgz_info in
  let device_rr_gsb :=
    set_cb_conf_bits device_rr_gsb gsb_coordinator cb_type num_reserved_conf_bits
      cur_num_sram (cur_num_sram + num_conf_bits - 1) in
  (* Update the counter *)
  let cur_sram_orgz_info :=
    update_sram_orgz_info_num_mem_bit cur_sram_orgz_info (cur_num_sram + num_conf_bits) in
  let cur_sram_orgz_info :=
    update_sram_orgz_info_num_blwl cur_sram_orgz_info
      (cur_num_bl + num_conf_bits) (cur_num_wl + num_conf_bits) in
  Some (cur_sram_orgz_info, device_rr_gsb).

(** ** Emission of one pin *)

(** The pin of the grid that a connection is printed to: the side and the
    index of the pin in the block are looked up, and the pin found there
    is printed. *)
Definition print_connection_box_output_pin (rr_gsb : RRGSB) (src_rr_node : cb_rr_node)
  : option unit :=
  (* We need to be sure that the node is part of the block *)
  si <- get_node_side_and_index rr_gsb src_rr_node ;;
  let '(side, index) := si in
  pin <- nth_error (get_ipin_nodes rr_gsb side) index ;;
  _ <- dump_verilog_grid_side_pin_with_given_index OPIN (ptc_num pin)
         (get_ipin_node_grid_side rr_gsb side index)
         (xlow src_rr_node) (ylow src_rr_node) false false ;;
  Some tt.

(** SRC rr_node is the IPIN of a grid. *)
Definition dump_verilog_connection_box_short_interc (st : emit_state) (rr_gsb : RRGSB)
  (cb_type : t_rr_type) (src_rr_node : cb_rr_node) : option emit_state :=
  (* Check *)
  _ <- assert (1 =? fan_in src_rr_node) ;;
  (* Check the driver *)
  drive_rr_node <- nth_error (drive_rr_nodes src_rr_node) 0 ;;
  match rr_node_type drive_rr_node with
  | OPIN =>
      (* We have OPINs since we may have direct connections: these are
         handled by other functions.  So we just return here for OPINs *)
      Some st
  | _ =>
      _ <- assert (is_chan (rr_node_type drive_rr_node)) ;;
      _ <- assert (1 =? num_edges_to drive_rr_node src_rr_node) ;;
      (* output port -- > connect to the output at middle point of a channel *)
      _ <- assert (negb (-1 =? get_cb_chan_node_index rr_gsb cb_type drive_rr_node)) ;;
      (* Input port *)
      _ <- assert (match rr_node_type (cb_node src_rr_node) with
                   | IPIN => true
                   | _ => false
                   end) ;;
      _ <- print_connection_box_output_pin rr_gsb src_rr_node ;;
      Some (write_item st driver_short)
  end.

(** [drive_rr_node_type] starts as [NUM_RR_TYPES]: the first driver sets
    it, every later driver must have it and must be a track. *)
Definition check_drive_rr_nodes_type (drivers : list t_rr_node) : option unit :=
  _ <- foldM (fun (drive_rr_node_type : option t_rr_type) driver =>
         match drive_rr_node_type with
         | None => Some (Some (rr_node_type driver))
         | Some type =>
             _ <- assert (rr_type_eqb type (rr_node_type driver)) ;;
             _ <- assert (is_chan (rr_node_type driver)) ;;
             Some (Some type)
         end) drivers None ;;
  Some tt.

(** [drive_rr_nodes[0 .. mux_size - 1]]; a read past the end of the array
    ends the run. *)
Definition first_drivers (src_rr_node : cb_rr_node) (mux_size : Z)
  : option (list t_rr_node) :=
  if Nat.leb (Z.to_nat mux_size) (length (drive_rr_nodes src_rr_node))
  then Some (firstn (Z.to_nat mux_size) (drive_rr_nodes src_rr_node))
  else exit.

Definition dump_verilog_connection_box_mux (st : emit_state) (rr_gsb : RRGSB)
  (cb_type : t_rr_type) (src_rr_node : cb_rr_node) : option emit_state :=
  (* Find drive_rr_nodes *)
  let mux_size := num_drive_rr_nodes (cb_node src_rr_node) in
  drivers <- first_drivers src_rr_node mux_size ;;
  switch_index <- nth_error (drive_switches (cb_node src_rr_node)) DEFAULT_SWITCH_ID ;;
  let verilog_model := spice_model (switch_inf switch_index) in
  (* Check drive_rr_nodes type, should be the same *)
  _ <- check_drive_rr_nodes_type drivers ;;
  (* input port *)
  _ <- foldM (fun (u : unit) driver =>
         assert (negb (-1 =? get_cb_chan_node_index rr_gsb cb_type driver)))
         drivers tt ;;
  let cur_num_sram := get_sram_orgz_info_num_mem_bit (counter st) in
  let '(cur_bl, cur_wl) := get_sram_orgz_info_num_blwl (counter st) in
  (* Get the number of configuration bits required by this MUX *)
  let num_mux_conf_bits :=
    Z.of_N (count_num_conf_bits_one_spice_model verilog_model
              (sram_orgz_type (counter st)) mux_size) in
  (* output port *)
  _ <- assert (match rr_node_type (cb_node src_rr_node) with
               | IPIN => true
               | _ => false
               end) ;;
  _ <- print_connection_box_output_pin rr_gsb src_rr_node ;;
  let st := write_item st (mux_instance mux_size) in
  (* Dump sram modules *)
  match design_tech verilog_model with
  | SPICE_MODEL_DESIGN_CMOS =>
      (* update the number of memory bits *)
      Some (with_counter st
              (update_sram_orgz_info_num_mem_bit (counter st)
                 (cur_num_sram + num_mux_conf_bits)))
  | SPICE_MODEL_DESIGN_RRAM =>
      Some (with_counter st
              (update_sram_orgz_info_num_blwl
                 (update_sram_orgz_info_num_mem_bit (counter st)
                    (cur_num_sram + num_mux_conf_bits))
                 (cur_bl + num_mux_conf_bits) (cur_wl + num_mux_conf_bits)))
  | SPICE_MODEL_DESIGN_invalid =>
      (* Invalid design technology: a message, and the function goes on *)
      Some st
  end.

Definition dump_verilog_connection_box_interc (st : emit_state) (rr_gsb : RRGSB)
  (cb_type : t_rr_type) (src_rr_node : cb_rr_node) : option emit_state :=
  if 1 =? fan_in src_rr_node then
    (* Print a direct connection *)
    dump_verilog_connection_box_short_interc st rr_gsb cb_type src_rr_node
  else if 1 <? fan_in src_rr_node then
    (* Print the multiplexer, fan_in >= 2 *)
    dump_verilog_connection_box_mux st rr_gsb cb_type src_rr_node
  else Some st (* Nothing should be done else *).

(** ** [dump_verilog_routing_connection_box_unique_module]

    The function records the range on a copy of the block that is local to
    it; the copy is read for the printing of the port ranges only.  The
    ports of the tracks are printed without a check. *)

Definition dump_verilog_routing_connection_box_unique_module
  (cur_sram_orgz_info : t_sram_orgz_info) (rr_cb : RRGSB) (cb_type : t_rr_type)
  : option (t_sram_orgz_info * list netlist_item) :=
  (* Count the number of configuration bits to be consumed by this block *)
  num_conf_bits <-
    count_verilog_connection_box_conf_bits cur_sram_orgz_info rr_cb cb_type ;;
  (* Count the number of reserved configuration bits *)
  num_reserved_conf_bits <-
    count_verilog_connection_box_reserved_conf_bits cur_sram_orgz_info rr_cb cb_type ;;
  (* Estimate the sram_verilog_model->cnt *)
  let cur_num_sram := get_sram_orgz_info_num_mem_bit cur_sram_orgz_info in
  let esti_sram_cnt := cur_num_sram + num_conf_bits in
  (* Print the ports of grids *)
  let cb_ipin_sides := get_cb_ipin_sides rr_cb cb_type in
  _ <- foldM (fun (u : unit) cb_ipin_side =>
         foldM (fun (u : unit) '(inode, ipin) =>
           (* Print each INPUT Pins of a grid *)
           _ <- dump_verilog_grid_side_pin_with_given_index IPIN (ptc_num ipin)
                  (get_ipin_node_grid_side rr_cb cb_ipin_side inode)
                  (xlow ipin) (ylow ipin) true false ;;
           Some tt)
           (indexed (get_ipin_nodes rr_cb cb_ipin_side)) u)
         cb_ipin_sides tt ;;
  (* Print multiplexers or direct interconnect *)
  st <- foldM (fun st cb_ipin_side =>
          foldM (fun st ipin =>
            dump_verilog_connection_box_interc st rr_cb cb_type ipin)
            (get_ipin_nodes rr_cb cb_ipin_side) st)
          cb_ipin_sides {| counter := cur_sram_orgz_info; netlist := [] |} ;;
  (* Check *)
  _ <- assert (esti_sram_cnt =? get_sram_orgz_info_num_mem_bit (counter st)) ;;
  Some (counter st, netlist st).


(** ** The per-instance pass of the compact flow

    [print_verilog_routing_resources] allocates, for every block of the
    device, column by column, the range of its horizontal connection block
    and then the range of its vertical one. *)
Definition update_all_connection_box_conf_bits (cur_sram_orgz_info : t_sram_orgz_info)
  (store : cb_conf_store) (device_rr_gsb : DeviceRRGSB)
  : option (t_sram_orgz_info * cb_conf_store) :=
  foldM (fun st column =>
    foldM (fun '(cur_sram_orgz_info, store) rr_gsb =>
      r <- update_routing_connection_box_conf_bits cur_sram_orgz_info store rr_gsb CHANX ;;
      update_routing_connection_box_conf_bits (fst r) (snd r) rr_gsb CHANY)
      column st)
    (rr_gsb device_rr_gsb) (cur_sram_orgz_info, store).

(** ** The bits of a pin, as numbers *)

(** The pins of a connection block, side by side. *)
Definition cb_pins (rr_gsb : RRGSB) (cb_type : t_rr_type) : list cb_rr_node :=
  flat_map (get_ipin_nodes rr_gsb) (get_cb_ipin_sides rr_gsb cb_type).

Definition pin_bits (info : t_sram_orgz_info) (n : cb_rr_node) : Z :=
  interc_cost switch_inf count_num_conf_bits_one_spice_model info false (cb_node n).

Definition pin_reserved_bits (info : t_sram_orgz_info) (n : cb_rr_node) : Z :=
  interc_cost switch_inf count_num_reserved_conf_bits_one_spice_model info false (cb_node n).

(** A pin on which the counting functions do not stop. *)
Definition pin_countable (n : cb_rr_node) : bool :=
  if 2 <=? num_drive_rr_nodes (cb_node n) then mux_switch_ok switch_inf (cb_node n)
  else true.

Definition cb_countable (rr_gsb : RRGSB) (cb_type : t_rr_type) : bool :=
  forallb pin_countable (cb_pins rr_gsb cb_type).

Lemma count_verilog_connection_box_interc_conf_bits_value info n :
  pin_countable n = true ->
  count_verilog_connection_box_interc_conf_bits info n = Some (pin_bits info n).
Proof.
  intro H.
  change (count_verilog_connection_box_interc_conf_bits info n)
    with (count_interc_bits switch_inf count_num_conf_bits_one_spice_model info
            (fun _ => false) (Some (cb_node n))).
  apply count_interc_bits_value. unfold effective_fan_in, pin_countable in *.
  intro H2. destruct (2 <=? _) eqn:E; [exact H | lia].
Qed.

Lemma count_verilog_connection_box_interc_reserved_conf_bits_value info n :
  pin_countable n = true ->
  count_verilog_connection_box_interc_reserved_conf_bits info n
  = Some (pin_reserved_bits info n).
Proof.
  intro H.
  change (count_verilog_connection_box_interc_reserved_conf_bits info n)
    with (count_interc_bits switch_inf count_num_reserved_conf_bits_one_spice_model info
            (fun _ => false) (Some (cb_node n))).
  apply count_interc_bits_value. unfold effective_fan_in, pin_countable in *.
  intro H2. destruct (2 <=? _) eqn:E; [exact H | lia].
Qed.

Lemma sumZ_flat_map {X Y : Type} (w : Y -> Z) (g : X -> list Y) (l : list X) :
  sumZ w (flat_map g l) = sumZ (fun x => sumZ w (g x)) l.
Proof. induction l as [|x l IH]; simpl; [reflexivity|]. now rewrite sumZ_app, IH. Qed.

Lemma max_over_app {X : Type} (w : X -> Z) (l1 l2 : list X) :
  max_over w (l1 ++ l2) = Z.max (max_over w l1) (max_over w l2).
Proof.
  induction l1 as [|x l1 IH]; simpl.
  - pose proof (max_over_nonneg w l2). lia.
  - rewrite IH. lia.
Qed.

Lemma max_over_ext {X : Type} (w1 w2 : X -> Z) (l : list X) :
  (forall x, In x l -> w1 x = w2 x) -> max_over w1 l = max_over w2 l.
Proof.
  induction l as [|x l IH]; intro H; [reflexivity|].
  cbn [max_over fold_right]. fold (max_over w1 l). fold (max_over w2 l).
  rewrite IH by (intros y Hy; apply H; now right). rewrite (H x) by now left.
  reflexivity.
Qed.

Lemma max_over_flat_map {X Y : Type} (w : Y -> Z) (g : X -> list Y) (l : list X) :
  max_over w (flat_map g l) = max_over (fun x => max_over w (g x)) l.
Proof. induction l as [|x l IH]; simpl; [reflexivity|]. now rewrite max_over_app, IH. Qed.

Lemma cb_pins_countable rr_gsb cb_type side n :
  cb_countable rr_gsb cb_type = true ->
  In side (get_cb_ipin_sides rr_gsb cb_type) -> In n (get_ipin_nodes rr_gsb side) ->
  pin_countable n = true.
Proof.
  unfold cb_countable, cb_pins. rewrite forallb_forall. intros H Hs Hn.
  apply H. apply in_flat_map. now exists side.
Qed.

Lemma count_verilog_connection_box_conf_bits_value info rr_gsb cb_type :
  cb_countable rr_gsb cb_type = true ->
  count_verilog_connection_box_conf_bits info rr_gsb cb_type
  = Some (sumZ (pin_bits info) (cb_pins rr_gsb cb_type)).
Proof.
  intro H. unfold count_verilog_connection_box_conf_bits, cb_pins.
  rewrite sumZ_flat_map.
  rewrite (foldM_sum (fun side => sumZ (pin_bits info) (get_ipin_nodes rr_gsb side)));
    [reflexivity|].
  intros a side Hs. unfold count_verilog_connection_box_one_side_conf_bits.
  rewrite (foldM_sum (pin_bits info)); [reflexivity|].
  intros b n Hn.
  now rewrite (count_verilog_connection_box_interc_conf_bits_value info n
                 (cb_pins_countable _ _ _ _ H Hs Hn)).
Qed.

Lemma count_verilog_connection_box_reserved_conf_bits_value info rr_gsb cb_type :
  cb_countable rr_gsb cb_type = true ->
  count_verilog_connection_box_reserved_conf_bits info rr_gsb cb_type
  = Some (max_over (pin_reserved_bits info) (cb_pins rr_gsb cb_type)).
Proof.
  intro H. unfold count_verilog_connection_box_reserved_conf_bits, cb_pins.
  rewrite max_over_flat_map.
  rewrite (foldM_max (fun side => max_over (pin_reserved_bits info)
                                    (get_ipin_nodes rr_gsb side))).
  - f_equal. match goal with |- Z.max 0 ?m = _ => assert (0 <= m) end;
      [apply max_over_nonneg | lia].
  - lia.
  - intros a side Hs Ha.
    unfold count_verilog_connection_box_one_side_reserved_conf_bits.
    rewrite (foldM_max (pin_reserved_bits info)).
    + simpl. f_equal. pose proof (max_over_nonneg (pin_reserved_bits info)
                                   (get_ipin_nodes rr_gsb side)). lia.
    + lia.
    + intros b n Hn Hb.
      rewrite (count_verilog_connection_box_interc_reserved_conf_bits_value info n
                 (cb_pins_countable _ _ _ _ H Hs Hn)).
      simpl. f_equal. lia.
Qed.

Lemma pin_bits_nonneg info n : 0 <= pin_bits info n.
Proof. apply interc_cost_nonneg. Qed.

Lemma pin_bits_type i1 i2 n :
  sram_orgz_type i1 = sram_orgz_type i2 -> pin_bits i1 n = pin_bits i2 n.
Proof. intro H. unfold pin_bits, interc_cost. now rewrite H. Qed.

Lemma pin_reserved_bits_type i1 i2 n :
  sram_orgz_type i1 = sram_orgz_type i2 -> pin_reserved_bits i1 n = pin_reserved_bits i2 n.
Proof. intro H. unfold pin_reserved_bits, interc_cost. now rewrite H. Qed.

(** The bits of a connection block. *)
Definition cb_bits (info : t_sram_orgz_info) (rr_gsb : RRGSB) (cb_type : t_rr_type) : Z :=
  sumZ (pin_bits info) (cb_pins rr_gsb cb_type).

Lemma cb_bits_nonneg info rr_gsb cb_type : 0 <= cb_bits info rr_gsb cb_type.
Proof. apply sumZ_nonneg. intros; apply pin_bits_nonneg. Qed.

Lemma cb_bits_type i1 i2 rr_gsb cb_type :
  sram_orgz_type i1 = sram_orgz_type i2 ->
  cb_bits i1 rr_gsb cb_type = cb_bits i2 rr_gsb cb_type.
Proof. intro H. apply sumZ_ext. intros; now apply pin_bits_type. Qed.

Lemma update_routing_connection_box_conf_bits_value info store rr_gsb cb_type :
  cb_countable rr_gsb cb_type = true ->
  update_routing_connection_box_conf_bits info store rr_gsb cb_type
  = Some (allocated info (cb_bits info rr_gsb cb_type),
          set_cb_conf_bits store (coordinator rr_gsb) cb_type
            (max_over (pin_reserved_bits info) (cb_pins rr_gsb cb_type))
            (num_mem_bit info) (num_mem_bit info + cb_bits info rr_gsb cb_type - 1)).
Proof.
  intro H. unfold update_routing_connection_box_conf_bits. simpl.
  rewrite (count_verilog_connection_box_conf_bits_value _ _ _ H). simpl.
  rewrite (count_verilog_connection_box_reserved_conf_bits_value _ _ _ H). simpl.
  reflexivity.
Qed.

(** The two connection blocks of a tile, in the order of the pass. *)
Definition cb_instances (blocks : list RRGSB) : list (RRGSB * t_rr_type) :=
  flat_map (fun b => [(b, CHANX); (b, CHANY)]) blocks.

(** A record of the store that belongs to a connection block: it is at the
    coordinate and for the channel type of the block, it is as wide as the
    block has bits, and its reserved bits are those of the block. *)
Definition recorded_for (info : t_sram_orgz_info)
  (e : N * N * t_rr_type * sb_conf_bits) (bt : RRGSB * t_rr_type) : Prop :=
  fst e = (get_sb_x (fst bt), get_sb_y (fst bt), snd bt)
  /\ sb_conf_bits_msb (snd e) + 1 - sb_conf_bits_lsb (snd e)
     = cb_bits info (fst bt) (snd bt)
  /\ sb_num_reserved_conf_bits (snd e)
     = max_over (pin_reserved_bits info) (cb_pins (fst bt) (snd bt)).

Lemma recorded_for_type i1 i2 e bt :
  sram_orgz_type i1 = sram_orgz_type i2 -> recorded_for i1 e bt -> recorded_for i2 e bt.
Proof.
  intros H (H1 & H2 & H3). split; [exact H1|]. split.
  - now rewrite <- (cb_bits_type i1 i2).
  - rewrite H3. apply max_over_ext. intros x _. now apply pin_reserved_bits_type.
Qed.

Lemma update_connection_boxes_in_order blocks : forall info store,
  (forall b, In b blocks -> cb_countable b CHANX = true /\ cb_countable b CHANY = true) ->
  exists info' new,
    foldM (fun '(i, s) rr_gsb =>
             r <- update_routing_connection_box_conf_bits i s rr_gsb CHANX ;;
             update_routing_connection_box_conf_bits (fst r) (snd r) rr_gsb CHANY)
      blocks (info, store) = Some (info', store ++ new)
    /\ map fst new = map (fun bt => (coordinator (fst bt), snd bt)) (cb_instances blocks)
    /\ chained (num_mem_bit info) (map snd new) (num_mem_bit info')
    /\ num_mem_bit info'
       = num_mem_bit info
         + sumZ (fun bt => cb_bits info (fst bt) (snd bt)) (cb_instances blocks)
    /\ sram_orgz_type info' = sram_orgz_type info
    /\ Forall2 (recorded_for info) new (cb_instances blocks)
    /\ num_bl info' - num_bl info = num_mem_bit info' - num_mem_bit info
    /\ num_wl info' - num_wl info = num_mem_bit info' - num_mem_bit info.
Proof.
  induction blocks as [|b bs IH]; intros info store Hc.
  - exists info, []. simpl. rewrite app_nil_r. repeat split; try lia. constructor.
  - destruct (Hc b (or_introl eq_refl)) as (Hx & Hy).
    set (nx' := cb_bits info b CHANX).
    set (info1 := allocated info nx').
    assert (Hty : cb_bits info1 b CHANY = cb_bits info b CHANY)
      by (apply cb_bits_type; reflexivity).
    set (ny' := cb_bits info b CHANY).
    assert (Hpx : 0 <= nx') by apply cb_bits_nonneg.
    assert (Hpy : 0 <= ny') by apply cb_bits_nonneg.
    destruct (IH (allocated info1 ny')
                 (set_cb_conf_bits
                    (set_cb_conf_bits store (coordinator b) CHANX
                       (max_over (pin_reserved_bits info) (cb_pins b CHANX))
                       (num_mem_bit info) (num_mem_bit info + nx' - 1))
                    (coordinator b) CHANY
                    (max_over (pin_reserved_bits info1) (cb_pins b CHANY))
                    (num_mem_bit info1) (num_mem_bit info1 + ny' - 1)))
      as (info' & new & Hf & Hm & Hch & Hs & Ht & Hrec & Hbl & Hwl).
    { intros b' Hb'. apply Hc. now right. }
    exists info'. eexists.
    cbn [foldM].
    rewrite (update_routing_connection_box_conf_bits_value info store b CHANX Hx).
    cbn [bind fst snd].
    rewrite (update_routing_connection_box_conf_bits_value _ _ b CHANY Hy).
    fold nx' info1. rewrite Hty. fold ny'. cbn [bind].
    unfold set_cb_conf_bits in Hf |- *.
    split; [rewrite Hf, <- !app_assoc; reflexivity|].
    cbn [cb_instances flat_map app map fst snd]. fold (cb_instances bs).
    split; [now rewrite Hm|].
    split; [|split].
    + cbn [chained sb_conf_bits_lsb sb_conf_bits_msb].
      unfold info1 in *. cbn [num_mem_bit allocated] in *.
      split; [reflexivity|]. split; [lia|]. split; [lia|]. split; [lia|].
      now replace (num_mem_bit info + nx' + ny' - 1 + 1)
        with (num_mem_bit info + nx' + ny') by lia.
    + rewrite Hs.
      rewrite (sumZ_ext (fun bt => cb_bits (allocated info1 ny') (fst bt) (snd bt))
                        (fun bt => cb_bits info (fst bt) (snd bt)))
        by (intros bt _; apply cb_bits_type; reflexivity).
      change (sumZ (fun bt => cb_bits info (fst bt) (snd bt))
                ((b, CHANX) :: (b, CHANY) :: cb_instances bs))
        with (nx' + (ny' + sumZ (fun bt => cb_bits info (fst bt) (snd bt))
                             (cb_instances bs))).
      unfold info1. cbn [num_mem_bit allocated]. lia.
    + split; [rewrite Ht; reflexivity|].
      unfold info1 in *. cbn [num_mem_bit num_bl num_wl allocated] in *.
      split; [|lia].
      constructor; [|constructor].
      * split; [reflexivity|]. cbn [snd fst sb_conf_bits_msb sb_conf_bits_lsb
                                    sb_num_reserved_conf_bits].
        split; [fold nx'; lia | reflexivity].
      * split; [reflexivity|]. cbn [snd fst sb_conf_bits_msb sb_conf_bits_lsb
                                    sb_num_reserved_conf_bits].
        split; [fold ny'; lia|].
        apply max_over_ext. intros x _. now apply pin_reserved_bits_type.
      * eapply Forall2_impl; [|exact Hrec].
        intros e bt. apply recorded_for_type. reflexivity.
Qed.


(** ** What is written for one pin *)

Local Arguments Z.eqb : simpl never.
Local Arguments Z.ltb : simpl never.
Local Arguments Z.gtb : simpl never.
Local Arguments Z.leb : simpl never.
Local Arguments Z.add : simpl never.
Local Arguments Z.of_N : simpl never.




(** What the emission writes for a pin. *)
Definition cb_interc_items (n : cb_rr_node) : list netlist_item :=
  if 1 =? fan_in n then
    match nth_error (drive_rr_nodes n) 0 with
    | Some d => match rr_node_type d with OPIN => [] | _ => [driver_short] end
    | None => []
    end
  else if 1 <? fan_in n then [mux_instance (num_drive_rr_nodes (cb_node n))]
  else [].














(** ** Where counting and emission stop *)

Lemma forallb_false {X : Type} (p : X -> bool) (l : list X) :
  forallb p l = false -> exists x, In x l /\ p x = false.
Proof.
  induction l as [|x l IH]; intro H; [discriminate|]. cbn [forallb] in H.
  destruct (p x) eqn:E.
  - destruct (IH H) as (y & Hy & Py). exists y. split; [now right | exact Py].
  - exists x. split; [now left | exact E].
Qed.


Lemma pin_countable_spec n :
  pin_countable n = true
  <-> (2 <= num_drive_rr_nodes (cb_node n) ->
       exists switch_idx,
         nth_error (drive_switches (cb_node n)) 0 = Some switch_idx
         /\ -1 < switch_idx
         /\ spice_model_type (spice_model (switch_inf switch_idx)) = SPICE_MODEL_MUX).
Proof.
  unfold pin_countable, mux_switch_ok.
  destruct (2 <=? num_drive_rr_nodes (cb_node n)) eqn:E.
  - split.
    + intros H _. destruct (nth_error (drive_switches (cb_node n)) 0) as [idx|];
        [|discriminate].
      apply andb_prop in H. destruct H as (H1 & H2). exists idx.
      split; [reflexivity|]. split; [lia|].
      destruct (spice_model_type (spice_model (switch_inf idx)));
        [reflexivity | discriminate].
    + intro H. destruct H as (idx & -> & H1 & H2); [lia|]. rewrite H2.
      apply andb_true_intro. split; [lia | reflexivity].
  - split; [intros _ H; lia | reflexivity].
Qed.

Lemma count_verilog_connection_box_interc_conf_bits_stops info n :
  pin_countable n = false ->
  count_verilog_connection_box_interc_conf_bits info n = None
  /\ count_verilog_connection_box_interc_reserved_conf_bits info n = None.
Proof.
  unfold pin_countable, count_verilog_connection_box_interc_conf_bits,
    count_verilog_connection_box_interc_reserved_conf_bits, mux_switch_ok.
  intro H. cbv zeta.
  destruct (2 <=? num_drive_rr_nodes (cb_node n)) eqn:E; [|discriminate].
  assert (E2 : (2 >? num_drive_rr_nodes (cb_node n)) = false) by lia. rewrite E2.
  destruct (nth_error (drive_switches (cb_node n)) 0) as [idx|];
    [|split; reflexivity]. cbn [bind].
  destruct (-1 <? idx); [|split; reflexivity]. cbn [andb assert bind] in *.
  destruct (spice_model_type (spice_model (switch_inf idx)));
    [discriminate | split; reflexivity].
Qed.

Lemma count_verilog_connection_box_conf_bits_stops info rr_gsb cb_type :
  cb_countable rr_gsb cb_type = false ->
  count_verilog_connection_box_conf_bits info rr_gsb cb_type = None
  /\ count_verilog_connection_box_reserved_conf_bits info rr_gsb cb_type = None.
Proof.
  intro H. destruct (forallb_false _ _ H) as (n & Hn & Pn).
  unfold cb_pins in Hn. apply in_flat_map in Hn. destruct Hn as (side & Hs & Hn).
  destruct (count_verilog_connection_box_interc_conf_bits_stops info n Pn) as (C1 & C2).
  split.
  - apply (Channels.foldM_stops _ _ _ side Hs). intro a.
    unfold count_verilog_connection_box_one_side_conf_bits.
    rewrite (Channels.foldM_stops _ _ _ n Hn); [reflexivity|].
    intro b. now rewrite C1.
  - apply (Channels.foldM_stops _ _ _ side Hs). intro a.
    unfold count_verilog_connection_box_one_side_reserved_conf_bits.
    rewrite (Channels.foldM_stops _ _ _ n Hn); [reflexivity|].
    intro b. now rewrite C2.
Qed.




(** ** Bits of a connection block *)

(** X13.  The bits of a connection block are the sum, over the pins of its
    sides, of the bits of the pins: none for a pin with fewer than two
    drivers, the cost of its multiplexer model at its number of drivers
    otherwise.  The counting stops exactly when a pin with two drivers or
    more has no first switch, a negative one, or one whose model is not a
    multiplexer.  The number is not negative and depends on the counter
    through its organisation type only. *)
Theorem connection_box_bits_are_summed_over_the_pins info rr_gsb cb_type :
  (cb_countable rr_gsb cb_type = true ->
     count_verilog_connection_box_conf_bits info rr_gsb cb_type
     = Some (sumZ (pin_bits info) (cb_pins rr_gsb cb_type)))
  /\ (cb_countable rr_gsb cb_type = false ->
      count_verilog_connection_box_conf_bits info rr_gsb cb_type = None)
  /\ (forall n,
        pin_bits info n
        = if num_drive_rr_nodes (cb_node n) <? 2 then 0
          else Z.of_N (count_num_conf_bits_one_spice_model
                         (spice_model (switch_inf (nth 0 (drive_switches (cb_node n)) 0)))
                         (sram_orgz_type info) (num_drive_rr_nodes (cb_node n))))
  /\ (cb_countable rr_gsb cb_type = true
      <-> forall side n,
            In side (get_cb_ipin_sides rr_gsb cb_type) ->
            In n (get_ipin_nodes rr_gsb side) ->
            2 <= num_drive_rr_nodes (cb_node n) ->
            exists switch_idx,
              nth_error (drive_switches (cb_node n)) 0 = Some switch_idx
              /\ -1 < switch_idx
              /\ spice_model_type (spice_model (switch_inf switch_idx)) = SPICE_MODEL_MUX)
  /\ 0 <= sumZ (pin_bits info) (cb_pins rr_gsb cb_type)
  /\ (forall info2, sram_orgz_type info2 = sram_orgz_type info ->
        count_verilog_connection_box_conf_bits info2 rr_gsb cb_type
        = count_verilog_connection_box_conf_bits info rr_gsb cb_type).
Proof.
  split; [apply count_verilog_connection_box_conf_bits_value|].
  split; [apply count_verilog_connection_box_conf_bits_stops|].
  split.
  { intro n. unfold pin_bits, interc_cost, effective_fan_in.
    destruct (2 >? num_drive_rr_nodes (cb_node n)) eqn:E.
    - assert (E2 : (num_drive_rr_nodes (cb_node n) <? 2) = true) by lia.
      now rewrite E2.
    - assert (E2 : (num_drive_rr_nodes (cb_node n) <? 2) = false) by lia.
      now rewrite E2. }
  split.
  { unfold cb_countable. rewrite forallb_forall. split.
    - intros H side n Hs Hn. apply pin_countable_spec. apply H.
      unfold cb_pins. apply in_flat_map. now exists side.
    - intros H n Hn. unfold cb_pins in Hn. apply in_flat_map in Hn.
      destruct Hn as (side & Hs & Hn). apply pin_countable_spec. now apply (H side). }
  split; [apply cb_bits_nonneg|].
  intros info2 Ht. destruct (cb_countable rr_gsb cb_type) eqn:E.
  - rewrite !count_verilog_connection_box_conf_bits_value by exact E.
    f_equal. apply sumZ_ext. intros; now apply pin_bits_type.
  - destruct (count_verilog_connection_box_conf_bits_stops info rr_gsb cb_type E) as (-> & _).
    destruct (count_verilog_connection_box_conf_bits_stops info2 rr_gsb cb_type E)
      as (-> & _). reflexivity.
Qed.

(** X14.  When the count of the reserved bits of a connection block
    returns, the number is the largest of the reserved bits of its pins: it
    is not negative, no pin has more, and it is 0 or the reserved bits of
    one of the pins.  The count of the bits of the block then returns
    too. *)
Theorem connection_box_reserved_bits_are_the_largest_of_a_pin info rr_gsb cb_type r :
  count_verilog_connection_box_reserved_conf_bits info rr_gsb cb_type = Some r ->
  0 <= r
  /\ (forall n, In n (cb_pins rr_gsb cb_type) ->
        exists v, count_verilog_connection_box_interc_reserved_conf_bits info n = Some v
                  /\ v <= r)
  /\ (r = 0
      \/ exists n, In n (cb_pins rr_gsb cb_type)
                   /\ count_verilog_connection_box_interc_reserved_conf_bits info n = Some r)
  /\ count_verilog_connection_box_conf_bits info rr_gsb cb_type <> None.
Proof.
  intro H. destruct (cb_countable rr_gsb cb_type) eqn:E.
  - rewrite (count_verilog_connection_box_reserved_conf_bits_value _ _ _ E) in H.
    injection H as <-.
    assert (Hp : forall n, In n (cb_pins rr_gsb cb_type) ->
                 count_verilog_connection_box_interc_reserved_conf_bits info n
                 = Some (pin_reserved_bits info n)).
    { intros n Hn. apply count_verilog_connection_box_interc_reserved_conf_bits_value.
      unfold cb_countable in E. rewrite forallb_forall in E. now apply E. }
    split; [apply max_over_nonneg|]. split; [|split].
    + intros n Hn. exists (pin_reserved_bits info n). split; [now apply Hp|].
      now apply max_over_upper.
    + destruct (max_over_attained (pin_reserved_bits info) (cb_pins rr_gsb cb_type))
        as [H0 | (n & Hn & Hv)]; [now left|].
      right. exists n. split; [exact Hn|]. rewrite <- Hv. now apply Hp.
    + now rewrite (count_verilog_connection_box_conf_bits_value _ _ _ E).
  - destruct (count_verilog_connection_box_conf_bits_stops info rr_gsb cb_type E)
      as (_ & C2). congruence.
Qed.

(** ** Allocation of the connection blocks *)

(** X15.  When the pins of every block of the device can be counted, the
    per-instance pass on the connection blocks returns.  It appends to the
    store one record per block and channel type, in scan order, the
    horizontal block of a tile before its vertical one; a record is as wide
    as its block has bits and holds the reserved bits of its block.  The
    ranges are chained from the counter value at the start of the pass:
    they are pairwise disjoint and their union is the interval from that
    value, included, to the final counter value, excluded.  The counter,
    the bit lines and the word lines advance by the sum of the bits of the
    blocks. *)
Theorem connection_box_allocation_ranges info store dev :
  (forall b, In b (blocks_in_scan_order dev) ->
             cb_countable b CHANX = true /\ cb_countable b CHANY = true) ->
  exists info' new,
    update_all_connection_box_conf_bits info store dev = Some (info', store ++ new)
    /\ Forall2 (recorded_for info) new (cb_instances (blocks_in_scan_order dev))
    /\ chained (num_mem_bit info) (map snd new) (num_mem_bit info')
    /\ ForallOrdPairs (fun c d => sb_conf_bits_msb c < sb_conf_bits_lsb d) (map snd new)
    /\ (forall a, (exists c, In c (map snd new) /\ in_range c a)
                  <-> num_mem_bit info <= a < num_mem_bit info')
    /\ num_mem_bit info'
       = num_mem_bit info
         + sumZ (fun bt => cb_bits info (fst bt) (snd bt))
             (cb_instances (blocks_in_scan_order dev))
    /\ num_bl info' - num_bl info = num_mem_bit info' - num_mem_bit info
    /\ num_wl info' - num_wl info = num_mem_bit info' - num_mem_bit info
    /\ sram_orgz_type info' = sram_orgz_type info.
Proof.
  intro Hc.
  destruct (update_connection_boxes_in_order (blocks_in_scan_order dev) info store Hc)
    as (info' & new & Hf & _ & Hch & Hs & Ht & Hrec & Hbl & Hwl).
  exists info', new. unfold update_all_connection_box_conf_bits.
  rewrite foldM_concat. split; [exact Hf|]. split; [exact Hrec|].
  split; [exact Hch|]. split; [exact (chained_disjoint _ _ _ Hch)|].
  split; [intro a; exact (chained_union _ _ _ a Hch)|].
  repeat split; assumption.
Qed.

(** ** Emission of a pin and of a block *)



(** ** The compact flow of [print_verilog_routing_resources]

    The body of the function when [compact_routing_hierarchy] is [TRUE]:
    the modules of the unique channels, the unique switch blocks and the
    allocation of every switch block, the unique connection blocks and the
    allocation of every connection block.  [chanx_modules] and
    [chany_modules] are the unique channels [device_rr_chan.get_module];
    [uni_directional] is the outcome of the test of the first line,
    [UNI_DIRECTIONAL == routing_arch.directionality].  The header file that
    the function writes last is text. *)

(** What the emission of a unique connection block leaves of the counter. *)
Definition connection_box_unique_module_counter (info : t_sram_orgz_info) (rr_cb : RRGSB)
  (cb_type : t_rr_type) : option t_sram_orgz_info :=
  option_map fst (dump_verilog_routing_connection_box_unique_module info rr_cb cb_type).

Definition print_verilog_routing_resources_compact
  (uni_directional explicit_port_mapping : bool)
  (chanx_modules chany_modules : list Channels.RRChan)
  (cur_sram_orgz_info : t_sram_orgz_info) (device_rr_gsb : DeviceRRGSB)
  (cb_store : cb_conf_store)
  : option (t_sram_orgz_info * DeviceRRGSB * cb_conf_store) :=
  (* VTR_ASSERT (UNI_DIRECTIONAL == routing_arch.directionality) *)
  _ <- assert uni_directional ;;
  (* X - channels *)
  _ <- foldM (fun (u : unit) '(ichan, rr_chan) =>
         _ <- Channels.dump_verilog_routing_chan_subckt (N.of_nat ichan) rr_chan ;;
         _ <- Channels.print_verilog_routing_unique_chan_subckt (N.of_nat ichan) rr_chan ;;
         Some tt) (indexed chanx_modules) tt ;;
  (* Y - channels *)
  _ <- foldM (fun (u : unit) '(ichan, rr_chan) =>
         _ <- Channels.dump_verilog_routing_chan_subckt (N.of_nat ichan) rr_chan ;;
         _ <- Channels.print_verilog_routing_unique_chan_subckt (N.of_nat ichan) rr_chan ;;
         Some tt) (indexed chany_modules) tt ;;
  (* Switch Boxes *)
  sb <- print_switch_boxes_compact switch_inf nx ny grid_type get_grid_pin_height
          get_opposite rr_switches sram_model_is_valid
          cur_sram_orgz_info device_rr_gsb explicit_port_mapping ;;
  let cur_sram_orgz_info := fst (fst sb) in
  let device_rr_gsb := snd (fst sb) in
  (* Connection Boxes *)
  cur_sram_orgz_info <-
    unique_connection_box_netlists connection_box_unique_module_counter
      cur_sram_orgz_info device_rr_gsb ;;
  cb <- update_all_connection_box_conf_bits cur_sram_orgz_info cb_store device_rr_gsb ;;
  Some (fst cb, device_rr_gsb, snd cb).









End ConnectionBoxes.

(** ** Example blocks *)

(** A grid of blocks with five pins, each of them on every side. *)
Definition clb : t_type := {| num_pins := 5; pinloc := fun _ _ _ => 1 |}.
Definition grid_of_clbs : Z -> Z -> option t_type := fun _ _ => Some clb.
Definition pin_height : Z -> Z -> Z -> Z := fun _ _ _ => 0.

(** An input pin with [k] drivers, all of them one horizontal track; its
    pin number is [k]. *)
Definition ipin (k : Z) : cb_rr_node :=
  {| cb_node := Build_t_rr_node (10 + k) IPIN 1 1 k k
                  (repeat (track_node 1) (Z.to_nat k)) [0];
     fan_in := k;
     drive_rr_nodes := repeat (track_node 1) (Z.to_nat k);
     ptc_num := k; xlow := 1; ylow := 1 |}.

(** An input pin that an output pin drives directly. *)
Definition direct_pin : cb_rr_node :=
  {| cb_node := Build_t_rr_node 20 IPIN 1 1 4 1
                  [Build_t_rr_node 21 OPIN 1 1 0 0 [] []] [0];
     fan_in := 1;
     drive_rr_nodes := [Build_t_rr_node 21 OPIN 1 1 0 0 [] []];
     ptc_num := 4; xlow := 1; ylow := 1 |}.

(** An input pin whose [fan_in] is 1 and whose [num_drive_rr_nodes] is 2. *)
Definition pin_of_two_minds : cb_rr_node :=
  {| cb_node := Build_t_rr_node 12 IPIN 1 1 2 2 [track_node 1; track_node 1] [0];
     fan_in := 1;
     drive_rr_nodes := [track_node 1; track_node 1];
     ptc_num := 2; xlow := 1; ylow := 1 |}.

(** The sides of a connection block: top and bottom of a horizontal
    channel, right and left of a vertical one. *)
Definition sides_of : RRGSB -> t_rr_type -> list nat :=
  fun _ t => match t with
             | CHANX => [0%nat; 2%nat]
             | CHANY => [1%nat; 3%nat]
             | _ => []
             end.

(** Two multiplexers, a direct connection and a pin driven by an output
    pin on the horizontal channel; a pin without driver on the vertical
    one. *)
Definition pins_of : RRGSB -> nat -> list cb_rr_node :=
  fun _ side => match side with
                | 0%nat => [ipin 2; ipin 1]
                | 2%nat => [ipin 3; direct_pin]
                | 1%nat => [ipin 0]
                | _ => []
                end.

Definition grid_side_of : RRGSB -> nat -> nat -> Z := fun _ side _ => Z.of_nat side.

Definition side_and_index_of : RRGSB -> cb_rr_node -> option (nat * nat) :=
  fun _ n =>
    if ptc_num n =? 2 then Some (0%nat, 0%nat)
    else if ptc_num n =? 1 then Some (0%nat, 1%nat)
    else if ptc_num n =? 3 then Some (2%nat, 0%nat)
    else if ptc_num n =? 4 then Some (2%nat, 1%nat)
    else if ptc_num n =? 0 then Some (1%nat, 0%nat)
    else None.

Definition chan_node_index_of : RRGSB -> t_rr_type -> t_rr_node -> Z :=
  fun _ _ d => rr_node_index d.

Definition edges_to : t_rr_node -> cb_rr_node -> Z := fun _ _ => 1.

(** A multiplexer model of a design technology that is neither CMOS nor
    RRAM. *)
Definition switches_of_no_technology : Z -> t_switch_inf :=
  fun _ => {| spice_model :=
                {| spice_model_type := SPICE_MODEL_MUX;
                   design_tech := SPICE_MODEL_DESIGN_invalid;
                   count_num_conf_bits_one_spice_model := fun _ fan_in => Z.to_N fan_in;
                   count_num_reserved_conf_bits_one_spice_model := fun _ _ => 0%N;
                   find_spice_model_ports := fun _ => 1%nat |} |}.

Example connection_box_counts :
  count_verilog_connection_box_conf_bits switches sides_of pins_of info0 (gsb_at 0 0) CHANX
  = Some 5
  /\ count_verilog_connection_box_reserved_conf_bits switches sides_of pins_of info0
       (gsb_at 0 0) CHANX = Some 3
  /\ count_verilog_connection_box_conf_bits switches sides_of pins_of info0 (gsb_at 0 0) CHANY
     = Some 0.
Proof. repeat split; vm_compute; reflexivity. Qed.

(** The module of the example block: a multiplexer of two inputs, a direct
    connection, a multiplexer of three inputs, and nothing for the pin that
    an output pin drives. *)
Example connection_box_module :
  dump_verilog_routing_connection_box_unique_module switches 1 1 grid_of_clbs pin_height
    sides_of pins_of grid_side_of side_and_index_of chan_node_index_of edges_to
    info0 (gsb_at 0 0) CHANX
  = Some ({| sram_orgz_type := SPICE_SRAM_MEMORY_BANK; num_mem_bit := 5;
             num_bl := 0; num_wl := 0 |},
          [mux_instance 2; driver_short; mux_instance 3]).
Proof. vm_compute. reflexivity. Qed.

(** A block that counts no bits is given the range [[T, T - 1]]. *)
Example connection_box_allocation :
  option_map (fun r => (num_mem_bit (fst r),
                        map (fun e => (fst e, sb_conf_bits_lsb (snd e),
                                       sb_conf_bits_msb (snd e)))
                            (snd r)))
    (update_all_connection_box_conf_bits switches sides_of pins_of info0 [] device_2x2)
  = Some (20, [((0%N, 0%N, CHANX), 0, 4); ((0%N, 0%N, CHANY), 5, 4);
               ((0%N, 1%N, CHANX), 5, 9); ((0%N, 1%N, CHANY), 10, 9);
               ((1%N, 0%N, CHANX), 10, 14); ((1%N, 0%N, CHANY), 15, 14);
               ((1%N, 1%N, CHANX), 15, 19); ((1%N, 1%N, CHANY), 20, 19)]).
Proof. vm_compute. reflexivity. Qed.

(** With a model of no known design technology the multiplexers are
    written and the counter is not moved: the final check of the module
    fails. *)
Example module_stops_on_an_unknown_design_technology :
  dump_verilog_routing_connection_box_unique_module switches_of_no_technology 1 1
    grid_of_clbs pin_height sides_of pins_of grid_side_of side_and_index_of
    chan_node_index_of edges_to info0 (gsb_at 0 0) CHANX = None
  /\ option_map netlist
       (dump_verilog_connection_box_interc switches_of_no_technology 1 1
          grid_of_clbs pin_height pins_of grid_side_of side_and_index_of
          chan_node_index_of edges_to st0 (gsb_at 0 0) CHANX (ipin 2))
     = Some [mux_instance 2]
  /\ count_verilog_connection_box_conf_bits switches_of_no_technology sides_of pins_of
       info0 (gsb_at 0 0) CHANX = Some 5.
Proof. repeat split; vm_compute; reflexivity. Qed.

(** A pin whose [fan_in] is 1 and whose [num_drive_rr_nodes] is 2 is
    counted as a multiplexer and written as a direct connection: the final
    check of the module fails. *)
Example module_stops_when_fan_in_and_driver_count_disagree :
  dump_verilog_routing_connection_box_unique_module switches 1 1 grid_of_clbs pin_height
    (fun _ _ => [0%nat]) (fun _ _ => [pin_of_two_minds]) grid_side_of
    (fun _ _ => Some (0%nat, 0%nat)) chan_node_index_of edges_to info0 (gsb_at 0 0) CHANX
  = None
  /\ count_verilog_connection_box_interc_conf_bits switches info0 pin_of_two_minds = Some 2
  /\ option_map netlist
       (dump_verilog_connection_box_interc switches 1 1 grid_of_clbs pin_height
          (fun _ _ => [pin_of_two_minds]) grid_side_of (fun _ _ => Some (0%nat, 0%nat))
          chan_node_index_of edges_to st0 (gsb_at 0 0) CHANX pin_of_two_minds)
     = Some [driver_short].
Proof. repeat split; vm_compute; reflexivity. Qed.

(** ** Witnesses *)

Lemma device_2x2_connection_boxes_countable :
  forall b, In b (blocks_in_scan_order device_2x2) ->
            cb_countable switches sides_of pins_of b CHANX = true
            /\ cb_countable switches sides_of pins_of b CHANY = true.
Proof. intros b _. split; vm_compute; reflexivity. Qed.

Lemma connection_box_reserved_bits_are_the_largest_of_a_pin_witness :
  count_verilog_connection_box_reserved_conf_bits switches sides_of pins_of info0
    (gsb_at 0 0) CHANX = Some 3
  /\ (3 = 0
      \/ exists n, In n (cb_pins sides_of pins_of (gsb_at 0 0) CHANX)
                   /\ count_verilog_connection_box_interc_reserved_conf_bits
                        switches info0 n = Some 3).
Proof.
  assert (H : count_verilog_connection_box_reserved_conf_bits switches sides_of pins_of
                info0 (gsb_at 0 0) CHANX = Some 3) by (vm_compute; reflexivity).
  split; [exact H|].
  exact (proj1 (proj2 (proj2
    (connection_box_reserved_bits_are_the_largest_of_a_pin switches sides_of pins_of
       info0 (gsb_at 0 0) CHANX 3 H)))).
Defined.

Lemma connection_box_allocation_ranges_witness :
  (forall b, In b (blocks_in_scan_order device_2x2) ->
             cb_countable switches sides_of pins_of b CHANX = true
             /\ cb_countable switches sides_of pins_of b CHANY = true)
  /\ exists info' new,
       update_all_connection_box_conf_bits switches sides_of pins_of info0 [] device_2x2
       = Some (info', [] ++ new)
       /\ chained (num_mem_bit info0) (map snd new) (num_mem_bit info').
Proof.
  split; [exact device_2x2_connection_boxes_countable|].
  destruct (connection_box_allocation_ranges switches sides_of pins_of info0 []
              device_2x2 device_2x2_connection_boxes_countable)
    as (info' & new & H1 & _ & H3 & _).
  exists info', new. split; [exact H1 | exact H3].
Defined.




(** The whole flow on the example device: 20 bits for the four switch
    blocks, then 20 bits for the eight connection blocks. *)
Example compact_flow_on_the_example_device :
  option_map (fun r => (num_mem_bit (fst (fst r)),
                        map (fun e => (sb_conf_bits_lsb (snd e), sb_conf_bits_msb (snd e)))
                          (sb_conf (snd (fst r))),
                        map (fun e => (sb_conf_bits_lsb (snd e), sb_conf_bits_msb (snd e)))
                          (snd r)))
    (print_verilog_routing_resources_compact switches 1 1 grid_of_clbs pin_height
       sides_of pins_of grid_side_of side_and_index_of chan_node_index_of edges_to
       opposite_side circuit_models memory_model_is_known
       true false [Channels.chanx_3] [] info0 device_2x2 [])
  = Some (40, [(0, 4); (5, 9); (10, 14); (15, 19)],
          [(20, 24); (25, 24); (25, 29); (30, 29); (30, 34); (35, 34); (35, 39);
           (40, 39)]).
Proof. vm_compute. reflexivity. Qed.

End ConnectionBlocks.

(* ====================================================================== *)
(** * Part 7: connection blocks of the full-array backend *)
(* ====================================================================== *)

Module LegacyConnectionBlocks.
Import Routing.
Import ConnectionBlocks.
Local Open Scope Z_scope.

Ltac inv_bind H :=
  let a := fresh "a" in
  let E := fresh "E" in
  apply bind_Some in H; destruct H as (a & E & H).

(** ** Data *)

(** One side of a [t_cb]: [chan_width[side]], [num_ipin_rr_nodes[side]],
    [ipin_rr_node[side]] ([None] for [NULL]) and
    [ipin_rr_node_grid_side[side]].  The count and the array are two
    fields, as in the source. *)
Record cb_side := {
  chan_width : Z;
  num_ipin_rr_nodes : Z;
  ipin_rr_node : option (list cb_rr_node);
  ipin_rr_node_grid_side : list Z
}.

(** The connection block of the full-array backend; [num_sides] is the
    length of [cb_sides]. *)
#[warnings="-register-all"]
Inductive t_cb := Build_t_cb {
  cb_x : Z;
  cb_y : Z;
  cb_type : t_rr_type;
  cb_sides : list cb_side;
  cb_mirror : option t_cb;
  cb_num_reserved_conf_bits : Z;
  cb_conf_bits_lsb : Z;
  cb_conf_bits_msb : Z
}.

(** The record fields of a [t_cb] are assigned in place. *)
Definition record_cb_conf_bits (cur_cb_info : t_cb) (reserved lsb msb : Z) : t_cb :=
  {| cb_x := cb_x cur_cb_info; cb_y := cb_y cur_cb_info; cb_type := cb_type cur_cb_info;
     cb_sides := cb_sides cur_cb_info; cb_mirror := cb_mirror cur_cb_info;
     cb_num_reserved_conf_bits := reserved; cb_conf_bits_lsb := lsb;
     cb_conf_bits_msb := msb |}.

(** [ipin_rr_node[0 .. num_ipin_rr_nodes - 1]]; a read past the end of the
    array ends the run. *)
Definition first_pins (num_ipin_rr_nodes : Z) (ipin_rr_node : list cb_rr_node)
  : option (list cb_rr_node) :=
  if Nat.leb (Z.to_nat num_ipin_rr_nodes) (length ipin_rr_node)
  then Some (firstn (Z.to_nat num_ipin_rr_nodes) ipin_rr_node)
  else exit.

Section LegacyConnectionBoxes.

#[local] Set Default Proof Using "Type".

(** The global switch table, the grid size and the grid, and the helpers
    that are defined in files that are not embedded. *)
Variable switch_inf : Z -> t_switch_inf.
Variables nx ny : Z.
Variable grid_type : Z -> Z -> option t_type.
Variable get_grid_pin_height : Z -> Z -> Z -> Z.
(** [get_rr_node_side_and_index_in_cb_info(node, cb, OUT_PORT, &side, &index)]:
    [None] when the side or the index is -1. *)
Variable get_rr_node_side_and_index_in_cb_info : t_cb -> cb_rr_node -> option (nat * nat).
Variable num_edges_to : t_rr_node -> cb_rr_node -> Z.

(** ** Bits of a side and of a block *)

Definition count_verilog_connection_box_one_side_conf_bits
  (cur_sram_orgz_info : t_sram_orgz_info) (num_ipin_rr_nodes : Z)
  (ipin_rr_node : list cb_rr_node) : option Z :=
  pins <- first_pins num_ipin_rr_nodes ipin_rr_node ;;
  foldM (fun num_conf_bits ipin =>
    n <- count_verilog_connection_box_interc_conf_bits switch_inf cur_sram_orgz_info ipin ;;
    Some (num_conf_bits + n))
    pins 0.

Definition count_verilog_connection_box_one_side_reserved_conf_bits
  (cur_sram_orgz_info : t_sram_orgz_info) (num_ipin_rr_nodes : Z)
  (ipin_rr_node : list cb_rr_node) : option Z :=
  pins <- first_pins num_ipin_rr_nodes ipin_rr_node ;;
  foldM (fun num_reserved_conf_bits ipin =>
    temp_num_reserved_conf_bits <-
      count_verilog_connection_box_interc_reserved_conf_bits switch_inf
        cur_sram_orgz_info ipin ;;
    Some (if temp_num_reserved_conf_bits >? num_reserved_conf_bits
          then temp_num_reserved_conf_bits else num_reserved_conf_bits))
    pins 0.

(** Count the number of configuration bits of a connection box *)
Definition count_verilog_connection_box_conf_bits
  (cur_sram_orgz_info : t_sram_orgz_info) (cur_cb_info : t_cb) : option Z :=
  r <- foldM (fun '(side_cnt, num_conf_bits) side =>
         (* Bypass side with zero IPINs *)
         if 0 =? num_ipin_rr_nodes side then Some (side_cnt, num_conf_bits)
         else
           _ <- assert (0 <? num_ipin_rr_nodes side) ;;
           nodes <- ipin_rr_node side ;;
           (* Count the number of configuration bits *)
           n <- count_verilog_connection_box_one_side_conf_bits cur_sram_orgz_info
                  (num_ipin_rr_nodes side) nodes ;;
           Some (side_cnt + 1, num_conf_bits + n))
         (cb_sides cur_cb_info) (0, 0) ;;
  (* Make sure only 2 sides of IPINs are printed *)
  _ <- assert ((1 =? fst r) || (2 =? fst r)) ;;
  Some (snd r).

(** Count the number of reserved configuration bits of a connection box *)
Definition count_verilog_connection_box_reserved_conf_bits
  (cur_sram_orgz_info : t_sram_orgz_info) (cur_cb_info : t_cb) : option Z :=
  r <- foldM (fun '(side_cnt, num_reserved_conf_bits) side =>
         (* Bypass side with zero IPINs *)
         if 0 =? num_ipin_rr_nodes side then Some (side_cnt, num_reserved_conf_bits)
         else
           _ <- assert (0 <? num_ipin_rr_nodes side) ;;
           nodes <- ipin_rr_node side ;;
           (* Count the number of reserved configuration bits *)
           temp_num_reserved_conf_bits <-
             count_verilog_connection_box_one_side_reserved_conf_bits cur_sram_orgz_info
               (num_ipin_rr_nodes side) nodes ;;
           (* Only consider the largest reserved configuration bits *)
           Some (side_cnt + 1,
                 if temp_num_reserved_conf_bits >? num_reserved_conf_bits
                 then temp_num_reserved_conf_bits else num_reserved_conf_bits))
         (cb_sides cur_cb_info) (0, 0) ;;
  (* Make sure only 2 sides of IPINs are printed *)
  _ <- assert ((1 =? fst r) || (2 =? fst r)) ;;
  Some (snd r).

(** ** Emission of one pin *)

(** The two assertions on the coordinates of the block. *)
Definition cb_in_device (cur_cb_info : t_cb) : bool :=
  negb (0 >? cb_x cur_cb_info) && negb (cb_x cur_cb_info >? nx + 1)
  && negb (0 >? cb_y cur_cb_info) && negb (cb_y cur_cb_info >? ny + 1).

(** The pin of the grid that a connection is printed to. *)
Definition print_connection_box_output_pin (cur_cb_info : t_cb) (src_rr_node : cb_rr_node)
  : option unit :=
  (* We need to be sure that the node is part of the block *)
  si <- get_rr_node_side_and_index_in_cb_info cur_cb_info src_rr_node ;;
  let '(side, index) := si in
  s <- nth_error (cb_sides cur_cb_info) side ;;
  nodes <- ipin_rr_node s ;;
  pin <- nth_error nodes index ;;
  grid_side <- nth_error (ipin_rr_node_grid_side s) index ;;
  _ <- dump_verilog_grid_side_pin_with_given_index nx ny grid_type get_grid_pin_height
         OPIN (ptc_num pin) grid_side (xlow src_rr_node) (ylow src_rr_node) false false ;;
  Some tt.

(** SRC rr_node is the IPIN of a grid. *)
Definition dump_verilog_connection_box_short_interc (st : emit_state) (cur_cb_info : t_cb)
  (src_rr_node : cb_rr_node) : option emit_state :=
  (* Check *)
  _ <- assert (cb_in_device cur_cb_info) ;;
  _ <- assert (1 =? fan_in src_rr_node) ;;
  (* Check the driver *)
  drive_rr_node <- nth_error (drive_rr_nodes src_rr_node) 0 ;;
  match rr_node_type drive_rr_node with
  | OPIN =>
      (* So we just return here for OPINs *)
      Some st
  | _ =>
      _ <- assert (is_chan (rr_node_type drive_rr_node)) ;;
      _ <- assert (1 =? num_edges_to drive_rr_node src_rr_node) ;;
      (* Input port *)
      _ <- assert (match rr_node_type (cb_node src_rr_node) with
                   | IPIN => true
                   | _ => false
                   end) ;;
      _ <- print_connection_box_output_pin cur_cb_info src_rr_node ;;
      Some (write_item st driver_short)
  end.

Definition dump_verilog_connection_box_mux (st : emit_state) (cur_cb_info : t_cb)
  (src_rr_node : cb_rr_node) : option emit_state :=
  (* Check *)
  _ <- assert (cb_in_device cur_cb_info) ;;
  (* Find drive_rr_nodes *)
  let mux_size := Routing.num_drive_rr_nodes (cb_node src_rr_node) in
  drivers <- first_drivers src_rr_node mux_size ;;
  switch_index <- nth_error (drive_switches (cb_node src_rr_node)) DEFAULT_SWITCH_ID ;;
  let verilog_model := spice_model (switch_inf switch_index) in
  (* Check drive_rr_nodes type, should be the same *)
  _ <- check_drive_rr_nodes_type drivers ;;
  let cur_num_sram := get_sram_orgz_info_num_mem_bit (counter st) in
  let '(cur_bl, cur_wl) := get_sram_orgz_info_num_blwl (counter st) in
  (* Get the number of configuration bits required by this MUX *)
  let num_mux_conf_bits :=
    Z.of_N (count_num_conf_bits_one_spice_model verilog_model
              (sram_orgz_type (counter st)) mux_size) in
  (* output port *)
  _ <- assert (match rr_node_type (cb_node src_rr_node) with
               | IPIN => true
               | _ => false
               end) ;;
  _ <- print_connection_box_output_pin cur_cb_info src_rr_node ;;
  let st := write_item st (mux_instance mux_size) in
  (* Dump sram modules *)
  match design_tech verilog_model with
  | SPICE_MODEL_DESIGN_CMOS =>
      (* update the number of memory bits *)
      Some (with_counter st
              (update_sram_orgz_info_num_mem_bit (counter st)
                 (cur_num_sram + num_mux_conf_bits)))
  | SPICE_MODEL_DESIGN_RRAM =>
      Some (with_counter st
              (update_sram_orgz_info_num_blwl
                 (update_sram_orgz_info_num_mem_bit (counter st)
                    (cur_num_sram + num_mux_conf_bits))
                 (cur_bl + num_mux_conf_bits) (cur_wl + num_mux_conf_bits)))
  | SPICE_MODEL_DESIGN_invalid =>
      (* Invalid design technology: a message, and the function goes on *)
      Some st
  end.

Definition dump_verilog_connection_box_interc (st : emit_state) (cur_cb_info : t_cb)
  (src_rr_node : cb_rr_node) : option emit_state :=
  (* Check *)
  _ <- assert (cb_in_device cur_cb_info) ;;
  if 1 =? fan_in src_rr_node then
    (* Print a direct connection *)
    dump_verilog_connection_box_short_interc st cur_cb_info src_rr_node
  else if 1 <? fan_in src_rr_node then
    (* Print the multiplexer, fan_in >= 2 *)
    dump_verilog_connection_box_mux st cur_cb_info src_rr_node
  else Some st (* Nothing should be done else *).

(** ** [dump_verilog_routing_connection_box_subckt]

    The second [switch] on the type of the block, which closes the text of
    the module, repeats the first one. *)

Definition dump_verilog_routing_connection_box_subckt
  (cur_sram_orgz_info : t_sram_orgz_info) (cur_cb_info : t_cb)
  (compact_routing_hierarchy is_explicit_mapping : bool)
  : option (t_sram_orgz_info * t_cb * list netlist_item) :=
  (* Check *)
  _ <- assert (cb_in_device cur_cb_info) ;;
  (* Count the number of configuration bits to be consumed by this block *)
  num_conf_bits <- count_verilog_connection_box_conf_bits cur_sram_orgz_info cur_cb_info ;;
  (* Count the number of reserved configuration bits *)
  num_reserved_conf_bits <-
    count_verilog_connection_box_reserved_conf_bits cur_sram_orgz_info cur_cb_info ;;
  (* Estimate the sram_verilog_model->cnt *)
  let cur_num_sram := get_sram_orgz_info_num_mem_bit cur_sram_orgz_info in
  let esti_sram_cnt := cur_num_sram + num_conf_bits in
  (* Record index *)
  let cur_cb_info :=
    record_cb_conf_bits cur_cb_info num_reserved_conf_bits cur_num_sram
      (cur_num_sram + num_conf_bits) in
  (* Handle mirror switch blocks: for mirrors, no need to output a file,
     just update the counter *)
  match (if compact_routing_hierarchy then cb_mirror cur_cb_info else None) with
  | Some the_mirror =>
      (* Again ensure the conf_bits should match !!! *)
      mirror_num_conf_bits <-
        count_verilog_connection_box_conf_bits cur_sram_orgz_info the_mirror ;;
      _ <- assert (mirror_num_conf_bits =? num_conf_bits) ;;
      (* update memory bits return directly *)
      Some (update_sram_orgz_info_num_mem_bit cur_sram_orgz_info
              (cb_conf_bits_msb cur_cb_info),
            cur_cb_info, [])
  | None =>
      (* Identify the type of connection box *)
      _ <- match cb_type cur_cb_info with
           | CHANX | CHANY => Some tt
           | _ => exit (* Invalid type of channel! *)
           end ;;
      (* Print the ports of channels *)
      side_cnt <- foldM (fun side_cnt side =>
                    (* Bypass side with zero channel width *)
                    if 0 =? chan_width side then Some side_cnt
                    else
                      _ <- assert (0 <? chan_width side) ;;
                      Some (side_cnt + 1))
                    (cb_sides cur_cb_info) 0 ;;
      (* check side_cnt *)
      _ <- assert ((1 =? side_cnt) || (2 =? side_cnt)) ;;
      (* Print the ports of grids *)
      side_cnt <- foldM (fun side_cnt side =>
                    (* Bypass side with zero IPINs *)
                    if 0 =? num_ipin_rr_nodes side then Some side_cnt
                    else
                      _ <- assert (0 <? num_ipin_rr_nodes side) ;;
                      nodes <- ipin_rr_node side ;;
                      pins <- first_pins (num_ipin_rr_nodes side) nodes ;;
                      _ <- foldM (fun (u : unit) '(inode, ipin) =>
                             (* Print each INPUT Pins of a grid *)
                             grid_side <- nth_error (ipin_rr_node_grid_side side) inode ;;
                             _ <- dump_verilog_grid_side_pin_with_given_index nx ny grid_type
                                    get_grid_pin_height IPIN (ptc_num ipin) grid_side
                                    (xlow ipin) (ylow ipin) true is_explicit_mapping ;;
                             Some tt)
                             (indexed pins) tt ;;
                      Some (side_cnt + 1))
                    (cb_sides cur_cb_info) 0 ;;
      (* Make sure only 2 sides of IPINs are printed *)
      _ <- assert ((1 =? side_cnt) || (2 =? side_cnt)) ;;
      (* Print multiplexers or direct interconnect *)
      st <- foldM (fun st side =>
              (* Bypass side with zero IPINs *)
              if 0 =? num_ipin_rr_nodes side then Some st
              else
                _ <- assert (0 <? num_ipin_rr_nodes side) ;;
                nodes <- ipin_rr_node side ;;
                pins <- first_pins (num_ipin_rr_nodes side) nodes ;;
                foldM (fun st ipin =>
                  dump_verilog_connection_box_interc st cur_cb_info ipin)
                  pins st)
              (cb_sides cur_cb_info) {| counter := cur_sram_orgz_info; netlist := [] |} ;;
      (* Check *)
      _ <- assert (esti_sram_cnt =? get_sram_orgz_info_num_mem_bit (counter st)) ;;
      Some (counter st, cur_cb_info, netlist st)
  end.


(** ** The pins that are counted *)

Local Arguments Z.eqb : simpl never.
Local Arguments Z.ltb : simpl never.
Local Arguments Z.gtb : simpl never.
Local Arguments Z.leb : simpl never.
Local Arguments Z.add : simpl never.
Local Arguments Z.of_N : simpl never.

(** The sides of a block whose pin count is not 0. *)
Definition sides_with_pins (cur_cb_info : t_cb) : list cb_side :=
  filter (fun side => negb (0 =? num_ipin_rr_nodes side)) (cb_sides cur_cb_info).

(** The pins of a side that the loops visit. *)
Definition side_pins (side : cb_side) : list cb_rr_node :=
  match ipin_rr_node side with
  | Some nodes => firstn (Z.to_nat (num_ipin_rr_nodes side)) nodes
  | None => []
  end.

Definition legacy_cb_pins (cur_cb_info : t_cb) : list cb_rr_node :=
  flat_map side_pins (sides_with_pins cur_cb_info).

(** A side with pins on which the counting does not stop: its count is
    positive, its array is there and as long as the count says, and its
    pins can be counted. *)
Definition side_countable (side : cb_side) : bool :=
  (0 <? num_ipin_rr_nodes side)
  && match ipin_rr_node side with
     | Some nodes =>
         Nat.leb (Z.to_nat (num_ipin_rr_nodes side)) (length nodes)
         && forallb (pin_countable switch_inf)
              (firstn (Z.to_nat (num_ipin_rr_nodes side)) nodes)
     | None => false
     end.

Lemma max_if (t a : Z) : (if t >? a then t else a) = Z.max a t.
Proof. destruct (t >? a) eqn:E; lia. Qed.

Lemma one_side_conf_bits_value info side nodes :
  ipin_rr_node side = Some nodes ->
  (0 <? num_ipin_rr_nodes side) = true ->
  count_verilog_connection_box_one_side_conf_bits info (num_ipin_rr_nodes side) nodes
  = if side_countable side then Some (sumZ (pin_bits switch_inf info) (side_pins side))
    else None.
Proof.
  intros Hn Hp. unfold count_verilog_connection_box_one_side_conf_bits, side_countable,
    side_pins, first_pins. rewrite Hn, Hp. cbn [andb].
  destruct (Nat.leb (Z.to_nat (num_ipin_rr_nodes side)) (length nodes));
    [|reflexivity]. cbn [bind andb].
  destruct (forallb (pin_countable switch_inf)
              (firstn (Z.to_nat (num_ipin_rr_nodes side)) nodes)) eqn:F.
  - rewrite (foldM_sum (pin_bits switch_inf info)); [reflexivity|].
    intros a n Hin. rewrite forallb_forall in F.
    now rewrite (count_verilog_connection_box_interc_conf_bits_value _ _ _ (F n Hin)).
  - destruct (forallb_false _ _ F) as (n & Hin & Pn).
    apply (Channels.foldM_stops _ _ _ n Hin). intro a.
    destruct (count_verilog_connection_box_interc_conf_bits_stops switch_inf info n Pn)
      as (-> & _). reflexivity.
Qed.

Lemma one_side_reserved_conf_bits_value info side nodes :
  ipin_rr_node side = Some nodes ->
  (0 <? num_ipin_rr_nodes side) = true ->
  count_verilog_connection_box_one_side_reserved_conf_bits info
    (num_ipin_rr_nodes side) nodes
  = if side_countable side
    then Some (max_over (pin_reserved_bits switch_inf info) (side_pins side))
    else None.
Proof.
  intros Hn Hp. unfold count_verilog_connection_box_one_side_reserved_conf_bits,
    side_countable, side_pins, first_pins. rewrite Hn, Hp. cbn [andb].
  destruct (Nat.leb (Z.to_nat (num_ipin_rr_nodes side)) (length nodes));
    [|reflexivity]. cbn [bind andb].
  destruct (forallb (pin_countable switch_inf)
              (firstn (Z.to_nat (num_ipin_rr_nodes side)) nodes)) eqn:F.
  - rewrite (foldM_max (pin_reserved_bits switch_inf info)).
    + f_equal. pose proof (max_over_nonneg (pin_reserved_bits switch_inf info)
                             (firstn (Z.to_nat (num_ipin_rr_nodes side)) nodes)). lia.
    + lia.
    + intros a n Hin Ha. rewrite forallb_forall in F.
      rewrite (count_verilog_connection_box_interc_reserved_conf_bits_value _ _ _ (F n Hin)).
      cbn [bind]. now rewrite max_if.
  - destruct (forallb_false _ _ F) as (n & Hin & Pn).
    apply (Channels.foldM_stops _ _ _ n Hin). intro a.
    destruct (count_verilog_connection_box_interc_conf_bits_stops switch_inf info n Pn)
      as (_ & ->). reflexivity.
Qed.

Lemma count_sides_loop info (sides : list cb_side) : forall side_cnt num_conf_bits,
  foldM (fun '(side_cnt, num_conf_bits) side =>
           if 0 =? num_ipin_rr_nodes side then Some (side_cnt, num_conf_bits)
           else
             _ <- assert (0 <? num_ipin_rr_nodes side) ;;
             nodes <- ipin_rr_node side ;;
             n <- count_verilog_connection_box_one_side_conf_bits info
                    (num_ipin_rr_nodes side) nodes ;;
             Some (side_cnt + 1, num_conf_bits + n))
    sides (side_cnt, num_conf_bits)
  = if forallb side_countable
         (filter (fun side => negb (0 =? num_ipin_rr_nodes side)) sides)
    then Some (side_cnt
               + Z.of_nat (length (filter (fun side => negb (0 =? num_ipin_rr_nodes side))
                                     sides)),
               num_conf_bits
               + sumZ (pin_bits switch_inf info)
                   (flat_map side_pins
                      (filter (fun side => negb (0 =? num_ipin_rr_nodes side)) sides)))
    else None.
Proof.
  induction sides as [|s sides IH]; intros k a.
  - cbn [foldM filter forallb length flat_map sumZ fold_right]. f_equal. f_equal; lia.
  - cbn [foldM filter]. destruct (0 =? num_ipin_rr_nodes s) eqn:E0; cbn [negb bind].
    + apply IH.
    + cbn [forallb length flat_map].
      destruct (0 <? num_ipin_rr_nodes s) eqn:Ep.
      * cbn [assert bind]. destruct (ipin_rr_node s) as [nodes|] eqn:En.
        -- cbn [bind]. rewrite (one_side_conf_bits_value info s nodes En Ep).
           destruct (side_countable s); [|reflexivity]. cbn [bind andb].
           rewrite IH.
           destruct (forallb side_countable _); [|reflexivity].
           rewrite sumZ_app. f_equal. f_equal; lia.
        -- cbn [bind]. unfold side_countable. rewrite En, Ep. reflexivity.
      * cbn [assert bind]. unfold side_countable. rewrite Ep. reflexivity.
Qed.

Lemma reserved_sides_loop info (sides : list cb_side) : forall side_cnt num_reserved_conf_bits,
  0 <= num_reserved_conf_bits ->
  foldM (fun '(side_cnt, num_reserved_conf_bits) side =>
           if 0 =? num_ipin_rr_nodes side then Some (side_cnt, num_reserved_conf_bits)
           else
             _ <- assert (0 <? num_ipin_rr_nodes side) ;;
             nodes <- ipin_rr_node side ;;
             temp_num_reserved_conf_bits <-
               count_verilog_connection_box_one_side_reserved_conf_bits info
                 (num_ipin_rr_nodes side) nodes ;;
             Some (side_cnt + 1,
                   if temp_num_reserved_conf_bits >? num_reserved_conf_bits
                   then temp_num_reserved_conf_bits else num_reserved_conf_bits))
    sides (side_cnt, num_reserved_conf_bits)
  = if forallb side_countable
         (filter (fun side => negb (0 =? num_ipin_rr_nodes side)) sides)
    then Some (side_cnt
               + Z.of_nat (length (filter (fun side => negb (0 =? num_ipin_rr_nodes side))
                                     sides)),
               Z.max num_reserved_conf_bits
                 (max_over (pin_reserved_bits switch_inf info)
                    (flat_map side_pins
                       (filter (fun side => negb (0 =? num_ipin_rr_nodes side)) sides))))
    else None.
Proof.
  induction sides as [|s sides IH]; intros k a Ha.
  - cbn [foldM filter forallb length flat_map max_over fold_right]. f_equal. f_equal; lia.
  - cbn [foldM filter]. destruct (0 =? num_ipin_rr_nodes s) eqn:E0; cbn [negb bind].
    + now apply IH.
    + cbn [forallb length flat_map].
      destruct (0 <? num_ipin_rr_nodes s) eqn:Ep.
      * cbn [assert bind]. destruct (ipin_rr_node s) as [nodes|] eqn:En.
        -- cbn [bind]. rewrite (one_side_reserved_conf_bits_value info s nodes En Ep).
           destruct (side_countable s); [|reflexivity]. cbn [bind andb].
           rewrite max_if, IH by lia.
           destruct (forallb side_countable _); [|reflexivity].
           rewrite max_over_app. f_equal. f_equal; lia.
        -- cbn [bind]. unfold side_countable. rewrite En, Ep. reflexivity.
      * cbn [assert bind]. unfold side_countable. rewrite Ep. reflexivity.
Qed.

(** One or two sides of the block have pins. *)
Definition one_or_two_sides_with_pins (cur_cb_info : t_cb) : bool :=
  let n := length (sides_with_pins cur_cb_info) in
  Nat.eqb n 1 || Nat.eqb n 2.

Lemma side_cnt_test (l : list cb_side) :
  ((1 =? 0 + Z.of_nat (length l)) || (2 =? 0 + Z.of_nat (length l)))
  = (Nat.eqb (length l) 1 || Nat.eqb (length l) 2).
Proof.
  destruct (Nat.eqb_spec (length l) 1) as [-> | H1]; [reflexivity|].
  destruct (Nat.eqb_spec (length l) 2) as [-> | H2]; [reflexivity|].
  assert (E1 : (1 =? 0 + Z.of_nat (length l)) = false) by lia.
  assert (E2 : (2 =? 0 + Z.of_nat (length l)) = false) by lia.
  now rewrite E1, E2.
Qed.

Lemma count_verilog_connection_box_conf_bits_cases info cb :
  count_verilog_connection_box_conf_bits info cb
  = if forallb side_countable (sides_with_pins cb) && one_or_two_sides_with_pins cb
    then Some (sumZ (pin_bits switch_inf info) (legacy_cb_pins cb))
    else None.
Proof.
  unfold count_verilog_connection_box_conf_bits. rewrite count_sides_loop.
  fold (sides_with_pins cb). unfold one_or_two_sides_with_pins.
  destruct (forallb side_countable (sides_with_pins cb)); cbn [bind andb fst snd];
    [|reflexivity].
  rewrite side_cnt_test.
  destruct (Nat.eqb (length (sides_with_pins cb)) 1
            || Nat.eqb (length (sides_with_pins cb)) 2); cbn [assert bind]; [|reflexivity].
  unfold legacy_cb_pins. f_equal; lia.
Qed.

Lemma count_verilog_connection_box_reserved_conf_bits_cases info cb :
  count_verilog_connection_box_reserved_conf_bits info cb
  = if forallb side_countable (sides_with_pins cb) && one_or_two_sides_with_pins cb
    then Some (max_over (pin_reserved_bits switch_inf info) (legacy_cb_pins cb))
    else None.
Proof.
  unfold count_verilog_connection_box_reserved_conf_bits.
  rewrite reserved_sides_loop by lia.
  fold (sides_with_pins cb). unfold one_or_two_sides_with_pins.
  destruct (forallb side_countable (sides_with_pins cb)); cbn [bind andb fst snd];
    [|reflexivity].
  rewrite side_cnt_test.
  destruct (Nat.eqb (length (sides_with_pins cb)) 1
            || Nat.eqb (length (sides_with_pins cb)) 2); cbn [assert bind]; [|reflexivity].
  unfold legacy_cb_pins. f_equal.
  pose proof (max_over_nonneg (pin_reserved_bits switch_inf info)
                (flat_map side_pins (sides_with_pins cb))). lia.
Qed.

Lemma legacy_connection_box_count_sides info cb :
  count_verilog_connection_box_conf_bits info cb <> None ->
  length (sides_with_pins cb) = 1%nat \/ length (sides_with_pins cb) = 2%nat.
Proof.
  rewrite count_verilog_connection_box_conf_bits_cases.
  unfold one_or_two_sides_with_pins.
  destruct (forallb side_countable (sides_with_pins cb)); cbn [andb]; [|congruence].
  destruct (Nat.eqb_spec (length (sides_with_pins cb)) 1) as [H1 | H1]; [now left|].
  destruct (Nat.eqb_spec (length (sides_with_pins cb)) 2) as [H2 | H2]; [now right|].
  cbn [orb]. congruence.
Qed.

(** X19.  The two counting functions of a connection block of the
    full-array backend return exactly when one or two sides of the block
    have a pin count that is not 0, and each of these sides has a positive
    count, an array of pins that is there and as long as its count says,
    and pins that can be counted.  The bits are then the sum, and the
    reserved bits the largest, of the bits of the pins of these sides; a
    block without pins, or with pins on three sides, stops the run. *)
Theorem legacy_connection_box_count_needs_one_or_two_sides info cb :
  (count_verilog_connection_box_conf_bits info cb <> None
   <-> forallb side_countable (sides_with_pins cb) = true
       /\ (length (sides_with_pins cb) = 1%nat \/ length (sides_with_pins cb) = 2%nat))
  /\ (count_verilog_connection_box_reserved_conf_bits info cb <> None
      <-> count_verilog_connection_box_conf_bits info cb <> None)
  /\ (forall c, count_verilog_connection_box_conf_bits info cb = Some c ->
        c = sumZ (pin_bits switch_inf info) (legacy_cb_pins cb) /\ 0 <= c)
  /\ (forall r, count_verilog_connection_box_reserved_conf_bits info cb = Some r ->
        r = max_over (pin_reserved_bits switch_inf info) (legacy_cb_pins cb)).
Proof.
  rewrite count_verilog_connection_box_conf_bits_cases,
    count_verilog_connection_box_reserved_conf_bits_cases.
  assert (Hlen : one_or_two_sides_with_pins cb = true
                 <-> (length (sides_with_pins cb) = 1%nat
                      \/ length (sides_with_pins cb) = 2%nat)).
  { unfold one_or_two_sides_with_pins. rewrite orb_true_iff, !Nat.eqb_eq. reflexivity. }
  destruct (forallb side_countable (sides_with_pins cb)) eqn:Eok;
    destruct (one_or_two_sides_with_pins cb) eqn:E12; cbn [andb].
  - split; [split; [intros _; split; [reflexivity | now apply Hlen] | discriminate]|].
    split; [split; discriminate|]. split.
    + intros c Hc. injection Hc as <-. split; [reflexivity|].
      apply sumZ_nonneg. intros; apply pin_bits_nonneg.
    + intros r Hr. injection Hr as <-. reflexivity.
  - split.
    { split; [congruence|]. intros (_ & H). apply Hlen in H. discriminate. }
    split; [split; congruence|]. split; discriminate.
  - split; [split; [congruence | intros (H & _); discriminate]|].
    split; [split; congruence|]. split; discriminate.
  - split; [split; [congruence | intros (H & _); discriminate]|].
    split; [split; congruence|]. split; discriminate.
Qed.

(** ** What the emission of a block records *)

Lemma legacy_interc_inv st cb n st' :
  dump_verilog_connection_box_interc st cb n = Some st' ->
  netlist st' = netlist st ++ cb_interc_items n
  /\ sram_orgz_type (counter st') = sram_orgz_type (counter st).
Proof.
  unfold dump_verilog_connection_box_interc, cb_interc_items. intro H. inv_bind H.
  destruct (1 =? fan_in n) eqn:E1.
  - unfold dump_verilog_connection_box_short_interc in H.
    inv_bind H. inv_bind H. inv_bind H.
    rewrite E3.
    destruct (rr_node_type a2);
      try (repeat inv_bind H; injection H as <-; split; reflexivity).
    injection H as <-. rewrite app_nil_r. split; reflexivity.
  - destruct (1 <? fan_in n) eqn:E2.
    + unfold dump_verilog_connection_box_mux in H. cbv zeta in H.
      inv_bind H. inv_bind H. inv_bind H. inv_bind H.
      unfold get_sram_orgz_info_num_blwl in H. inv_bind H. inv_bind H.
      destruct (design_tech (spice_model (switch_inf a2)));
        injection H as <-; split; reflexivity.
    + injection H as <-. rewrite app_nil_r. split; reflexivity.
Qed.

Lemma foldM_written {X : Type} (f : emit_state -> X -> option emit_state)
  (items : X -> list netlist_item) (l : list X) :
  (forall st x st', In x l -> f st x = Some st' ->
     netlist st' = netlist st ++ items x
     /\ sram_orgz_type (counter st') = sram_orgz_type (counter st)) ->
  forall st st', foldM f l st = Some st' ->
    netlist st' = netlist st ++ flat_map items l
    /\ sram_orgz_type (counter st') = sram_orgz_type (counter st).
Proof.
  induction l as [|x l IH]; intros Hf st st' H.
  - injection H as <-. cbn [flat_map]. rewrite app_nil_r. split; reflexivity.
  - cbn [foldM] in H. inv_bind H.
    destruct (Hf st x a (or_introl eq_refl) E) as (N1 & T1).
    destruct (IH (fun st y st' Hy => Hf st y st' (or_intror Hy)) a st' H) as (N2 & T2).
    cbn [flat_map]. rewrite N2, N1, <- app_assoc. split; [reflexivity | congruence].
Qed.

Lemma flat_map_sides_with_pins {Y : Type} (g : cb_side -> list Y) (sides : list cb_side) :
  flat_map (fun side => if 0 =? num_ipin_rr_nodes side then [] else g side) sides
  = flat_map g (filter (fun side => negb (0 =? num_ipin_rr_nodes side)) sides).
Proof.
  induction sides as [|s sides IH]; [reflexivity|]. cbn [flat_map filter].
  destruct (0 =? num_ipin_rr_nodes s); cbn [negb flat_map app]; now rewrite IH.
Qed.

Lemma flat_map_nested {X Y W : Type} (g : X -> list Y) (h : Y -> list W) (l : list X) :
  flat_map h (flat_map g l) = flat_map (fun x => flat_map h (g x)) l.
Proof.
  induction l as [|x l IH]; [reflexivity|]. cbn [flat_map].
  now rewrite flat_map_app, IH.
Qed.

(** X20.  When [dump_verilog_routing_connection_box_subckt] returns, the
    block holds the reserved bits that were counted for it and a range that
    starts at the counter value on entry and whose [msb] is that value plus
    the bits counted for the block, which is also the counter value on
    return: [msb] is the first address after the bits of the block.  One or
    two sides of the block have pins.  Unless the block is the mirror of
    another one in a compact flow, for which nothing is written, what is
    written is, pin after pin, what the reduced-duplication backend writes
    for the pin. *)
Theorem legacy_connection_box_subckt_records_half_open_range
  info cb compact explicit info' cb' nl :
  dump_verilog_routing_connection_box_subckt info cb compact explicit
  = Some (info', cb', nl) ->
  exists n r,
    count_verilog_connection_box_conf_bits info cb = Some n
    /\ count_verilog_connection_box_reserved_conf_bits info cb = Some r
    /\ cb' = record_cb_conf_bits cb r (num_mem_bit info) (num_mem_bit info + n)
    /\ num_mem_bit info' = num_mem_bit info + n
    /\ sram_orgz_type info' = sram_orgz_type info
    /\ (length (sides_with_pins cb) = 1%nat \/ length (sides_with_pins cb) = 2%nat)
    /\ nl = match (if compact then cb_mirror cb else None) with
            | Some _ => []
            | None => flat_map cb_interc_items (legacy_cb_pins cb)
            end.
Proof.
  unfold dump_verilog_routing_connection_box_subckt. intro H.
  inv_bind H. inv_bind H. inv_bind H. rename a0 into n, a1 into r.
  exists n, r. split; [exact E0|]. split; [exact E1|].
  assert (Hsides : length (sides_with_pins cb) = 1%nat
                   \/ length (sides_with_pins cb) = 2%nat).
  { apply (legacy_connection_box_count_sides info). congruence. }
  unfold get_sram_orgz_info_num_mem_bit in H.
  cbn [cb_mirror record_cb_conf_bits cb_sides cb_type] in H.
  destruct (if compact then cb_mirror cb else None) as [m|].
  - inv_bind H. inv_bind H. injection H as <- <- <-.
    split; [reflexivity|]. split; [reflexivity|]. split; [reflexivity|].
    split; [exact Hsides | reflexivity].
  - apply bind_Some in H. destruct H as (u1 & _ & H).
    apply bind_Some in H. destruct H as (c1 & _ & H).
    apply bind_Some in H. destruct H as (u2 & _ & H).
    apply bind_Some in H. destruct H as (c2 & _ & H).
    apply bind_Some in H. destruct H as (u3 & _ & H).
    apply bind_Some in H. destruct H as (st & Hloop & H).
    apply bind_Some in H. destruct H as (u4 & Hcheck & H).
    injection H as <- <- <-.
    apply assert_Some in Hcheck. apply Z.eqb_eq in Hcheck.
    assert (Hw : netlist st = [] ++ flat_map
                   (fun side => if 0 =? num_ipin_rr_nodes side then []
                                else flat_map cb_interc_items (side_pins side))
                   (cb_sides cb)
                 /\ sram_orgz_type (counter st) = sram_orgz_type info).
    { revert Hloop.
      apply (foldM_written _ (fun side => if 0 =? num_ipin_rr_nodes side then []
                                          else flat_map cb_interc_items (side_pins side))).
      intros st1 s st2 _ Hs.
      destruct (0 =? num_ipin_rr_nodes s).
      - injection Hs as <-. rewrite app_nil_r. split; reflexivity.
      - apply bind_Some in Hs. destruct Hs as (u5 & _ & Hs).
        apply bind_Some in Hs. destruct Hs as (nodes & Hnodes & Hs).
        apply bind_Some in Hs. destruct Hs as (pins & Hpins & Hs).
        unfold side_pins. rewrite Hnodes.
        unfold first_pins in Hpins.
        destruct (Nat.leb (Z.to_nat (num_ipin_rr_nodes s)) (length nodes));
          [|discriminate].
        injection Hpins as <-. revert Hs. apply foldM_written.
        intros st3 p st4 _. apply legacy_interc_inv. }
    destruct Hw as (Hn & Ht).
    split; [reflexivity|]. split; [lia|]. split; [exact Ht|]. split; [exact Hsides|].
    rewrite Hn. cbn [app]. unfold legacy_cb_pins, sides_with_pins.
    rewrite (flat_map_sides_with_pins
               (fun side => flat_map cb_interc_items (side_pins side))).
    symmetry. apply flat_map_nested.
Qed.

End LegacyConnectionBoxes.

(** ** Example blocks *)

(** A side whose pin count is the length of its array. *)
Definition side_of (pins : list cb_rr_node) (width : Z) : cb_side :=
  {| chan_width := width; num_ipin_rr_nodes := Z.of_nat (length pins);
     ipin_rr_node := Some pins; ipin_rr_node_grid_side := repeat 0 (length pins) |}.

Definition cb_with_sides (sides : list cb_side) : t_cb :=
  {| cb_x := 1; cb_y := 0; cb_type := CHANX; cb_sides := sides; cb_mirror := None;
     cb_num_reserved_conf_bits := 0; cb_conf_bits_lsb := 0; cb_conf_bits_msb := 0 |}.

(** A horizontal block: three tracks on one side, pins on the top and on
    the bottom. *)
Definition cbx_example : t_cb :=
  cb_with_sides [side_of [ipin 2; ipin 1] 0; side_of [] 3;
                 side_of [ipin 3; direct_pin] 0; side_of [] 0].

Definition cb_side_and_index_of : t_cb -> cb_rr_node -> option (nat * nat) :=
  fun _ n => side_and_index_of (gsb_at 0 0) n.

Example legacy_connection_box_counts :
  count_verilog_connection_box_conf_bits switches info0 cbx_example = Some 5
  /\ count_verilog_connection_box_reserved_conf_bits switches info0 cbx_example = Some 3.
Proof. split; vm_compute; reflexivity. Qed.

(** Pins on no side and pins on three sides stop the count; so does a pin
    count that is larger than the array. *)
Example legacy_connection_box_count_stops :
  count_verilog_connection_box_conf_bits switches info0
    (cb_with_sides [side_of [] 3; side_of [] 0]) = None
  /\ count_verilog_connection_box_conf_bits switches info0
       (cb_with_sides [side_of [ipin 2] 0; side_of [ipin 1] 3; side_of [ipin 3] 0]) = None
  /\ count_verilog_connection_box_conf_bits switches info0
       (cb_with_sides [ {| chan_width := 3; num_ipin_rr_nodes := 2;
                           ipin_rr_node := Some [ipin 2];
                           ipin_rr_node_grid_side := [0; 0] |} ]) = None.
Proof. repeat split; vm_compute; reflexivity. Qed.

Lemma legacy_connection_box_subckt_records_half_open_range_witness :
  dump_verilog_routing_connection_box_subckt switches 1 1 grid_of_clbs pin_height
    cb_side_and_index_of edges_to info0 cbx_example false false
  = Some ({| sram_orgz_type := SPICE_SRAM_MEMORY_BANK; num_mem_bit := 5;
             num_bl := 0; num_wl := 0 |},
          record_cb_conf_bits cbx_example 3 0 5,
          [mux_instance 2; driver_short; mux_instance 3])
  /\ exists n r,
       count_verilog_connection_box_conf_bits switches info0 cbx_example = Some n
       /\ count_verilog_connection_box_reserved_conf_bits switches info0 cbx_example
          = Some r
       /\ record_cb_conf_bits cbx_example 3 0 5
          = record_cb_conf_bits cbx_example r (num_mem_bit info0) (num_mem_bit info0 + n).
Proof.
  assert (H : dump_verilog_routing_connection_box_subckt switches 1 1 grid_of_clbs
                pin_height cb_side_and_index_of edges_to info0 cbx_example false false
              = Some ({| sram_orgz_type := SPICE_SRAM_MEMORY_BANK; num_mem_bit := 5;
                         num_bl := 0; num_wl := 0 |},
                      record_cb_conf_bits cbx_example 3 0 5,
                      [mux_instance 2; driver_short; mux_instance 3]))
    by (vm_compute; reflexivity).
  split; [exact H|].
  destruct (legacy_connection_box_subckt_records_half_open_range switches 1 1
              grid_of_clbs pin_height cb_side_and_index_of edges_to
              info0 cbx_example false false _ _ _ H)
    as (n & r & H1 & H2 & H3 & _).
  exists n, r. split; [exact H1|]. split; [exact H2 | exact H3].
Defined.

End LegacyConnectionBlocks.
